(** * OSC Monitor: event extraction, merge and metric aggregation

    A shallow embedding of the server side of the dashboard:
    - [src/app/api/events/route.ts]: the log-line parsers, the four fetchers,
      [mergeAndDedup] and the two modes of the [GET] handler;
    - [lib/grafana] (the query client): [lokiQuery], [rangeSeconds],
      [stepForRange];
    - [src/app/api/instances/graph/route.ts] and
      [src/app/api/instances/drilldown/route.ts]: the series mapping, the
      grouping by deployment name and the non-zero filter;
    - the tenant graph endpoint, which groups pods by tenant, and the
      current-instances endpoint with [getTenantServices];
    and of the parts of the client that decide what is shown: the calls and
    the updaters of the notification panel, the time and the description of
    an event item, and the rows, the series and the colours of the chart.

    Modelling conventions.
    - A JavaScript string is the list of its UTF-16 code units ([jsstring]);
      [str] turns an ASCII literal into one.
    - A JavaScript number is an IEEE 754 double.  Every number the code holds
      is whole, infinite or [NaN] ([jsnum]); [parseInt], [+], [-] and [/]
      round their exact result to the nearest double, ties to even.  The two
      zeros are not told apart.  Clock readings and the sample times of the
      metric store are whole numbers in the range of time values, where the
      code's arithmetic on them is exact.
    - An object used as a dictionary is the finite map of its own
      properties.  Where the server reads a name that comes with the request
      or the reply before it has written it (the range label in [map], the
      deployment name in [grouped]), a name the object does not own is
      looked up in [Object.prototype]: the names of
      [Object_prototype_names] find a member there, a function or the
      prototype itself, and every other name finds nothing.  The prototype
      is as the language defines it: the one way the code has of adding to
      it, a deployment named [__proto__], is excluded in the properties it
      would touch.
    - A [Map] and a [Set] keep their keys in insertion order; where the
      code sorts the entries by key, the map or set is a finite map or set.
    - A rejected promise or a thrown exception is the [Thrown] result. *)

From Stdlib Require Import ZArith List Lia Bool String Ascii Sorted Permutation.
From stdpp Require Import base decidable numbers option list gmap sets sorting.

Open Scope Z_scope.
Open Scope list_scope.

(** ** Strings as code units *)

Definition jsstring : Type := list N.

Fixpoint str (s : string) : jsstring :=
  match s with
  | EmptyString => []
  | String c s' => N_of_ascii c :: str s'
  end.

(** [WhiteSpace] and [LineTerminator] of ECMAScript: the class [\s] of
    regular expressions, and what [parseInt] skips. *)
Definition is_space (c : N) : bool :=
  ((9 <=? c) && (c <=? 13) || (c =? 32) || (c =? 160) || (c =? 5760)
   || (8192 <=? c) && (c <=? 8202) || (c =? 8232) || (c =? 8233)
   || (c =? 8239) || (c =? 8287) || (c =? 12288) || (c =? 65279))%N.

(** [\S] *)
Definition non_space (c : N) : bool := negb (is_space c).

Definition is_digit (c : N) : bool := ((48 <=? c) && (c <=? 57))%N.

(** The longest prefix of [s] whose code units satisfy [p], and the rest:
    what a greedy [p+] consumes when nothing after it can give back. *)
Fixpoint span (p : N -> bool) (s : jsstring) : jsstring * jsstring :=
  match s with
  | [] => ([], [])
  | c :: s' =>
      if p c then let '(run, rest) := span p s' in (c :: run, rest)
      else ([], s)
  end.

(** [s] without the literal prefix [p], when it starts with it. *)
Fixpoint after_prefix (p s : jsstring) : option jsstring :=
  match p, s with
  | [], _ => Some s
  | _ :: _, [] => None
  | a :: p', b :: s' => if decide (a = b) then after_prefix p' s' else None
  end.

(** Leftmost match: try the matcher at every start position, left to
    right. *)
Fixpoint search {A : Type} (m : jsstring -> option A) (s : jsstring) : option A :=
  match m s with
  | Some r => Some r
  | None =>
      match s with
      | [] => None
      | _ :: s' => search m s'
      end
  end.

(** [s.split(sep)] for a one-unit separator. *)
Fixpoint split_on (sep : N) (s : jsstring) : list jsstring :=
  match s with
  | [] => [[]]
  | c :: s' =>
      if decide (c = sep) then [] :: split_on sep s'
      else
        match split_on sep s' with
        | [] => [[c]]
        | p :: ps => (c :: p) :: ps
        end
  end.

(** Replacing the first match of the pattern (one or more double quotes, then
    the end of input) by the empty string: the leftmost position from which
    only quotes follow up to the end starts the trailing run of quotes. *)
Fixpoint strip_trailing_quotes (s : jsstring) : jsstring :=
  match s with
  | [] => []
  | c :: s' =>
      if forallb (fun d => (d =? 34)%N) s then [] else c :: strip_trailing_quotes s'
  end.

(** ** Numbers *)

Inductive jsnum : Type :=
| Num (z : Z)              (* a whole number *)
| Inf (negative : bool)    (* [Infinity], [-Infinity] *)
| NaN.

#[global] Instance jsnum_eq_dec : EqDecision jsnum.
Proof. solve_decision. Defined.

(** The whole number nearest to [num / den], the even one of the two when
    the quotient lies halfway. *)
Definition nearest_even (num den : Z) : Z :=
  let k0 := num / den in
  let r := num mod den in
  if (den <? 2 * r) || ((den =? 2 * r) && Z.odd k0) then k0 + 1 else k0.

(** The double nearest to a whole number: the number itself up to 2^53 in
    magnitude; beyond, its 53 leading bits, rounded to nearest with ties to
    the even significand. *)
Definition to_double (z : Z) : Z :=
  let a := Z.abs z in
  if a <=? 2 ^ 53 then z
  else
    let sh := Z.log2 a - 52 in
    Z.sgn z * (nearest_even a (2 ^ sh) * 2 ^ sh).

(** The first power of two beyond the finite doubles. *)
Definition overflow_threshold : Z := 2 ^ 1024.

(** The number an exact whole result becomes: rounded, and infinite when the
    rounding leaves the finite doubles. *)
Definition norm (z : Z) : jsnum :=
  let d := to_double z in
  if overflow_threshold <=? Z.abs d then Inf (z <? 0) else Num d.

Definition num_neg (a : jsnum) : jsnum :=
  match a with
  | Num x => Num (- x)
  | Inf s => Inf (negb s)
  | NaN => NaN
  end.

Definition num_add (a b : jsnum) : jsnum :=
  match a, b with
  | Num x, Num y => norm (x + y)
  | Inf s, Num _ | Num _, Inf s => Inf s
  | Inf s, Inf t => if Bool.eqb s t then Inf s else NaN
  | _, _ => NaN
  end.

Definition num_sub (a b : jsnum) : jsnum := num_add a (num_neg b).

(** [a > b]: false as soon as one side is [NaN]. *)
Definition num_gt (a b : jsnum) : bool :=
  match a, b with
  | Num x, Num y => y <? x
  | Inf s, Num _ => negb s
  | Num _, Inf s => s
  | Inf s, Inf t => negb s && t
  | _, _ => false
  end.

(** [a <= b]: false as soon as one side is [NaN]. *)
Definition num_le (a b : jsnum) : bool :=
  match a, b with
  | Num x, Num y => x <=? y
  | Inf s, Num _ => s
  | Num _, Inf s => negb s
  | Inf s, Inf t => s || negb t
  | _, _ => false
  end.

(** The exponent of [p / d], for positive [p] and [d]: the [ex] with
    [2^ex <= p / d < 2^(ex + 1)]. *)
Definition quotient_exponent (p d : Z) : Z :=
  let l := Z.log2 p - Z.log2 d in
  if Z.shiftl d (Z.max l 0) <=? Z.shiftl p (Z.max (- l) 0) then l else l - 1.

(** [Math.floor(x / d)] for whole numbers [x] and [d], [d] positive and
    small enough for the quotient not to underflow: the quotient is rounded
    to 53 significant bits, to nearest with ties to even, and the double
    that gives is rounded down to a whole number.  [sh] is the exponent of
    the last bit of the significand. *)
Definition floor_quotient (x d : Z) : Z :=
  if x =? 0 then 0
  else
    let p := Z.abs x in
    let sh := quotient_exponent p d - 52 in
    let k := nearest_even (Z.shiftl p (Z.max (- sh) 0)) (Z.shiftl d (Z.max sh 0)) in
    Z.shiftl (Z.sgn x * k) sh.

(** [Math.floor(a / d)] for a positive whole constant [d]. *)
Definition floor_div (a : jsnum) (d : Z) : jsnum :=
  match a with
  | Num x => Num (floor_quotient x d)
  | Inf s => Inf s
  | NaN => NaN
  end.

(** Truthiness of a number: [0] and [NaN] are falsy. *)
Definition num_truthy (a : jsnum) : bool :=
  match a with
  | Num x => negb (x =? 0)
  | Inf _ => true
  | NaN => false
  end.

Definition digit_value (c : N) : Z := Z.of_N c - 48.

Definition digits_value (ds : jsstring) : Z :=
  fold_left (fun acc c => 10 * acc + digit_value c) ds 0.

(** [parseInt(s, 10)]: skip leading white space, read an optional sign,
    then the longest run of decimal digits; [NaN] when that run is empty,
    and else the double nearest to the numeral. *)
Definition parseInt10 (s : jsstring) : jsnum :=
  let '(_, s1) := span is_space s in
  let '(neg, s2) :=
    match s1 with
    | 45%N :: r => (true, r)
    | 43%N :: r => (false, r)
    | _ => (false, s1)
    end in
  let '(ds, _) := span is_digit s2 in
  match ds with
  | [] => NaN
  | _ => norm (if neg then - digits_value ds else digits_value ds)
  end.

(** The decimal numeral of a natural number, as [String(n)] writes it. *)
Fixpoint decimal_fuel (fuel : nat) (n : N) (acc : jsstring) : jsstring :=
  match fuel with
  | O => acc
  | S fuel' =>
      let acc' := (48 + n mod 10)%N :: acc in
      if (n <? 10)%N then acc' else decimal_fuel fuel' (n / 10)%N acc'
  end.

Definition decimal (n : N) : jsstring := decimal_fuel (S (N.to_nat (N.log2 n))) n [].

(** ** Platform events *)

Inductive EventType : Type :=
| instance_created
| instance_removed
| tenant_signup
| solution_deployed
| solution_destroyed
| plan_upgrade
| plan_downgrade
| instance_restarted
| other.

#[global] Instance EventType_eq_dec : EqDecision EventType.
Proof. solve_decision. Defined.

Record PlatformEvent : Type := mkEvent {
  id : jsstring;
  type : EventType;
  emoji : jsstring;
  tenant : jsstring;
  description : jsstring;
  timestamp : jsnum  (* Unix ms *)
}.

#[global] Instance PlatformEvent_eq_dec : EqDecision PlatformEvent.
Proof. solve_decision. Defined.

(** The display glyphs, code unit by code unit as the literals stand in the
    source file. *)
Definition glyph_created : jsstring := [287; 376; 353; 8364]%N.
Definition glyph_removed : jsstring := [287; 376; 8212; 8216; 239; 184]%N.
Definition glyph_restarted : jsstring := [287; 376; 8221; 8222]%N.
Definition glyph_signup : jsstring := [287; 376; 8216; 164]%N.
Definition glyph_deployed : jsstring := [287; 376; 8221; 167]%N.
Definition glyph_destroyed : jsstring := [287; 376; 8217; 163]%N.
Definition glyph_plan : jsstring := [226; 172; 8224; 239; 184]%N.
Definition glyph_robot : jsstring := [287; 376; 164; 8211]%N.

Definition makeId (ts tenant type : jsstring) : jsstring :=
  ts ++ str "-" ++ tenant ++ str "-" ++ type.

(** [/customer=(\S+)/] tried at one start position. *)
Definition customer_at (s : jsstring) : option jsstring :=
  match after_prefix (str "customer=") s with
  | Some r =>
      match fst (span non_space r) with
      | [] => None
      | g => Some g
      end
  | None => None
  end.

(** [/action (\S+) on resource (\S+)/] tried at one start position.  The
    first group cannot give code units back: what follows it in the pattern
    is a space, which no code unit of the run is. *)
Definition action_at (s : jsstring) : option (jsstring * jsstring) :=
  match after_prefix (str "action ") s with
  | Some r1 =>
      let '(g1, r2) := span non_space r1 in
      match g1, after_prefix (str " on resource ") r2 with
      | _ :: _, Some r3 =>
          match fst (span non_space r3) with
          | [] => None
          | g2 => Some (g1, g2)
          end
      | _, _ => None
      end
  | None => None
  end.

(** [parts[1] || resource] after [resource.split('/')]. *)
Definition instance_name (resource : jsstring) : jsstring :=
  match split_on 47%N resource with
  | _ :: ((_ :: _) as p1) :: _ => p1
  | _ => resource
  end.

(** [parts[0]] *)
Definition service_name (resource : jsstring) : jsstring :=
  match split_on 47%N resource with
  | p0 :: _ => p0
  | [] => []
  end.

Definition parseGUIAuditLine (ts line : jsstring) : option PlatformEvent :=
  match search customer_at line, search action_at line with
  | Some tenant, Some (action, resource0) =>
      let resource := strip_trailing_quotes resource0 in
      let timestamp := floor_div (parseInt10 ts) 1000000 in
      if decide (action = str "create:instance") then
        Some (mkEvent (makeId ts tenant (str "create_instance")) instance_created
                glyph_created tenant
                (tenant ++ str " created instance " ++ instance_name resource
                   ++ str " (" ++ service_name resource ++ str ")")
                timestamp)
      else if decide (action = str "delete:instance") then
        Some (mkEvent (makeId ts tenant (str "delete_instance")) instance_removed
                glyph_removed tenant
                (tenant ++ str " removed instance " ++ instance_name resource
                   ++ str " (" ++ service_name resource ++ str ")")
                timestamp)
      else if decide (action = str "restart:instance") then
        Some (mkEvent (makeId ts tenant (str "restart_instance")) instance_restarted
                glyph_restarted tenant
                (tenant ++ str " restarted instance " ++ instance_name resource)
                timestamp)
      else if decide (action = str "create:tenant") then
        Some (mkEvent (makeId ts tenant (str "create_tenant")) tenant_signup
                glyph_signup tenant
                (str "New tenant signed up: " ++ tenant)
                timestamp)
      else if decide (action = str "deploy:solution") then
        Some (mkEvent (makeId ts tenant (str "deploy_solution")) solution_deployed
                glyph_deployed tenant
                (tenant ++ str " deployed solution " ++ resource)
                timestamp)
      else if decide (action = str "delete:solution") then
        Some (mkEvent (makeId ts tenant (str "delete_solution")) solution_destroyed
                glyph_destroyed tenant
                (tenant ++ str " destroyed solution " ++ resource)
                timestamp)
      else None
  | _, _ => None
  end.


(** ** Exceptions and the backend *)

(** The outcome of a computation that may throw (or of a promise that may
    reject). *)
Inductive Result (A : Type) : Type :=
| Ok (a : A)
| Thrown.
Arguments Ok {A} a.
Arguments Thrown {A}.

Definition bindR {A B : Type} (r : Result A) (k : A -> Result B) : Result B :=
  match r with
  | Ok a => k a
  | Thrown => Thrown
  end.

(** What the body of an HTTP reply turns out to be when the client reads it
    as [{ status, data: { result } }]. *)
Inductive ReplyBody (R : Type) : Type :=
| NotJson                                        (* [res.json()] rejects *)
| Json (status : jsstring) (result : option R).  (* [None]: no readable [data.result] *)
Arguments NotJson {R}.
Arguments Json {R} status result.

(** What [fetch] does with one request. *)
Inductive FetchOutcome (R : Type) : Type :=
| NetworkError                                   (* transport failure: [fetch] rejects *)
| Reply (ok : bool) (body : ReplyBody R).        (* [ok]: the status is 2xx *)
Arguments NetworkError {R}.
Arguments Reply {R} ok body.

(** The part shared by [lokiQuery], [promQueryRange] and [promQuery] after
    the request went out. *)
Definition read_reply {R : Type} (o : FetchOutcome (list R)) : Result (list R) :=
  match o with
  | NetworkError => Thrown
  | Reply false _ => Ok []
  | Reply true NotJson => Thrown
  | Reply true (Json status result) =>
      if decide (status = str "success") then
        match result with
        | Some r => Ok r
        | None => Thrown
        end
      else Ok []
  end.

Definition dq : jsstring := [34%N].

(** ** Plain objects *)

(** The names of the members that every object inherits from
    [Object.prototype].  Each of these members is a function, but for
    [__proto__], which reads as the prototype itself: all are truthy, and
    none is a number. *)
Definition Object_prototype_names : list jsstring :=
  [str "constructor"; str "__defineGetter__"; str "__defineSetter__";
   str "hasOwnProperty"; str "__lookupGetter__"; str "__lookupSetter__";
   str "isPrototypeOf"; str "propertyIsEnumerable"; str "toString";
   str "valueOf"; str "__proto__"; str "toLocaleString"].

(** [name] finds a member in the prototype of an object that has no such
    property of its own. *)
Definition inherited (name : jsstring) : bool :=
  bool_decide (name ∈ Object_prototype_names).

(** ** Ranges and steps *)

(** The own properties of [map]. *)
Definition range_map : gmap jsstring Z :=
  list_to_map
    [(str "1h", 3600); (str "6h", 21600); (str "12h", 43200);
     (str "24h", 86400); (str "48h", 172800); (str "7d", 604800)].

(** What [rangeSeconds] returns: a number of seconds, or the member of
    [Object.prototype] that the label names. *)
Inductive RangeSecs : Type :=
| Seconds (secs : Z)
| Member (name : jsstring).

#[global] Instance RangeSecs_eq_dec : EqDecision RangeSecs.
Proof. solve_decision. Defined.

(** [map[rangeLabel] || 3600].  [map] is an object literal: a label it
    does not own is looked up in its prototype, and an inherited member is
    truthy, so that it is what the function returns. *)
Definition rangeSeconds (rangeLabel : jsstring) : RangeSecs :=
  match range_map !! rangeLabel with
  | Some secs => if secs =? 0 then Seconds 3600 else Seconds secs
  | None => if inherited rangeLabel then Member rangeLabel else Seconds 3600
  end.

(** The number that [-] and [<=] make of [rangeSecs]: a function or an
    object that does not convert to a numeral is [NaN]. *)
Definition as_number (rangeSecs : RangeSecs) : jsnum :=
  match rangeSecs with
  | Seconds secs => Num secs
  | Member _ => NaN
  end.

Definition stepForRange (rangeSecs : RangeSecs) : Z :=
  if num_le (as_number rangeSecs) (Num 3600) then 60
  else if num_le (as_number rangeSecs) (Num 21600) then 300
  else if num_le (as_number rangeSecs) (Num 86400) then 600
  else if num_le (as_number rangeSecs) (Num 172800) then 1200
  else 3600.

(** [searchParams.get(name) || fallback]: a missing and an empty parameter
    both take the fallback. *)
Definition param_or (p : option jsstring) (fallback : jsstring) : jsstring :=
  match p with
  | Some ((_ :: _) as v) => v
  | _ => fallback
  end.

(** ** Metric queries *)

Record PrometheusResult : Type := mkProm {
  metric : gmap jsstring jsstring;
  values : option (list (Z * jsstring))   (* [values?: [number, string][]] *)
}.

Record PromRequest : Type := mkPromRequest {
  pq_query : jsstring;
  pq_start : jsnum;
  pq_end : Z;
  pq_step : Z
}.

Definition PromBackend : Type := PromRequest -> FetchOutcome (list PrometheusResult).

Definition promQueryRange (backend : PromBackend) (query : jsstring)
    (start : jsnum) (end_ step : Z) : Result (list PrometheusResult) :=
  read_reply (backend (mkPromRequest query start end_ step)).

(** [label || 'unknown'] *)
Definition label_or_unknown (l : option jsstring) : jsstring :=
  match l with
  | Some ((_ :: _) as v) => v
  | _ => str "unknown"
  end.

(** [r.values || []] *)
Definition values_of (r : PrometheusResult) : list (Z * jsstring) :=
  match values r with
  | Some vs => vs
  | None => []
  end.

Record Point : Type := mkPoint {
  time : Z;        (* ms *)
  value : jsnum
}.

Record Series : Type := mkSeries {
  key : jsstring;  (* [namespace] in the graph view, [service] in the drill-down *)
  data : list Point
}.

#[global] Instance Point_eq_dec : EqDecision Point.
Proof. solve_decision. Defined.

#[global] Instance Series_eq_dec : EqDecision Series.
Proof. solve_decision. Defined.

(** [s.data.some((d) => d.value > 0)] *)
Definition has_positive (s : Series) : bool :=
  existsb (fun d => num_gt (value d) (Num 0)) (data s).

(** *** The graph view *)

Definition graph_point (sample : Z * jsstring) : Point :=
  mkPoint (fst sample * 1000) (parseInt10 (snd sample)).

Definition graph_series_of (r : PrometheusResult) : Series :=
  mkSeries (label_or_unknown (metric r !! str "namespace"))
           (graph_point <$> values_of r).

Definition graph_series (results : list PrometheusResult) : list Series :=
  filter (fun s => has_positive s = true) (graph_series_of <$> results).

Record GraphResponse : Type := mkGraphResponse {
  g_series : list Series;
  g_range : jsstring;
  g_step : Z
}.

Definition graph_query : jsstring :=
  str "sum by (namespace) (kube_pod_info{created_by_kind=" ++ dq ++ str "ReplicaSet" ++ dq ++ str "})".

Definition graph_GET (backend : PromBackend) (now : Z) (rangeParam : option jsstring)
  : Result GraphResponse :=
  let range := param_or rangeParam (str "1h") in
  let rangeSecs := rangeSeconds range in
  let start := num_sub (Num now) (as_number rangeSecs) in
  let step := stepForRange rangeSecs in
  bindR (promQueryRange backend graph_query start now step) (fun results =>
  Ok (mkGraphResponse (graph_series results) range step)).

(** *** Sorting *)

(** [Array.prototype.sort] with a comparator.  The sort is stable, and a
    comparator result that is [NaN] counts as [+0]: [x] moves behind [y]
    only when [cmp x y > 0].  For a comparator that orders its arguments
    consistently the outcome of a stable sort is unique; it is computed
    here by insertion. *)
Fixpoint insert_sorted {A : Type} (cmp : A -> A -> jsnum) (x : A) (l : list A) : list A :=
  match l with
  | [] => [x]
  | y :: l' =>
      if num_gt (cmp x y) (Num 0) then y :: insert_sorted cmp x l'
      else x :: l
  end.

Definition Array_sort {A : Type} (cmp : A -> A -> jsnum) (l : list A) : list A :=
  foldr (insert_sorted cmp) [] l.

(** *** The drill-down view *)

(** The last hyphen of [s] splits it into what precedes it and what
    follows it. *)
Fixpoint split_last_hyphen (s : jsstring) : option (jsstring * jsstring) :=
  match s with
  | [] => None
  | c :: s' =>
      match split_last_hyphen s' with
      | Some (pre, suf) => Some (c :: pre, suf)
      | None => if decide (c = 45%N) then Some ([], s') else None
      end
  end.

(** [[a-z0-9]] *)
Definition is_lower_alnum (c : N) : bool :=
  ((97 <=? c) && (c <=? 122) || (48 <=? c) && (c <=? 57))%N.

(** [name.replace(/-[a-z0-9]{4,12}$/, '')].  The class holds no hyphen, so a
    match can only start at the last hyphen of the name. *)
Definition stripRsHash (name : jsstring) : jsstring :=
  match split_last_hyphen name with
  | Some (pre, suf) =>
      if forallb is_lower_alnum suf && (4 <=? length suf)%nat && (length suf <=? 12)%nat
      then pre else name
  | None => name
  end.

(** [x || 0] for a property that may be absent. *)
Definition or_zero (o : option jsnum) : jsnum :=
  match o with
  | Some v => if num_truthy v then v else Num 0
  | None => Num 0
  end.

(** One turn of the inner loop:
    [tsMap[ts] = (tsMap[ts] || 0) + parseInt(val, 10)]. *)
Definition add_sample (tsMap : gmap Z jsnum) (sample : Z * jsstring) : gmap Z jsnum :=
  <[fst sample := num_add (or_zero (tsMap !! fst sample)) (parseInt10 (snd sample))]> tsMap.

(** The own properties of [grouped]: the groups in the order their names
    were first inserted. *)
Definition Grouped : Type := list (jsstring * gmap Z jsnum).

(** The group of [name] among the own properties, made when it is missing,
    and [f] on it. *)
Fixpoint update_group (name : jsstring) (f : gmap Z jsnum -> gmap Z jsnum) (g : Grouped) : Grouped :=
  match g with
  | [] => [(name, f ∅)]
  | (k, m) :: g' =>
      if decide (k = name) then (k, f m) :: g'
      else (k, m) :: update_group name f g'
  end.

Definition deploy_name (r : PrometheusResult) : jsstring :=
  stripRsHash (label_or_unknown (metric r !! str "created_by_name")).

(** One turn of the outer loop:
    [if (!grouped[deployName]) grouped[deployName] = {}], then the inner
    loop on [grouped[deployName]].  [grouped] starts as [{}]: under a name
    every object inherits, [grouped[deployName]] is the inherited member,
    which is truthy.  No group is made then, in this turn or in another,
    and the inner loop writes onto that member: [grouped] stays as it
    is. *)
Definition group_result (g : Grouped) (r : PrometheusResult) : Grouped :=
  if inherited (deploy_name r) then g
  else update_group (deploy_name r) (fun m => fold_left add_sample (values_of r) m) g.

Definition group_results (results : list PrometheusResult) : Grouped :=
  fold_left group_result results [].

(** A property name that is an array index: the canonical numeral of an
    integer below 2^32 - 1.  [Object.entries] lists such names first, in
    ascending order, and the other names after them in insertion order. *)
Definition array_index (k : jsstring) : option N :=
  match k with
  | [] => None
  | c :: k' =>
      if forallb is_digit k
         && ((c =? 48)%N && bool_decide (k' = []) || negb (c =? 48)%N)
         && (digits_value k <=? 4294967294)
      then Some (Z.to_N (digits_value k)) else None
  end.

Definition Object_entries {V : Type} (o : list (jsstring * V)) : list (jsstring * V) :=
  let indexed :=
    omap (fun kv => i ← array_index (fst kv); Some (i, kv)) o in
  let named :=
    filter (fun kv => array_index (fst kv) = None) o in
  (snd <$> Array_sort (fun a b => Num (Z.of_N (fst a) - Z.of_N (fst b))) indexed) ++ named.

(** [Object.entries(tsMap).map(...).sort((a, b) => a.time - b.time)].  The
    names of [tsMap] are the distinct timestamps, read back by [parseInt];
    the sort puts them in ascending order whatever order the entries came
    in. *)
Definition series_data (tsMap : gmap Z jsnum) : list Point :=
  Array_sort (fun a b => Num (time a - time b))
    ((fun kv => mkPoint (fst kv * 1000) (snd kv)) <$> map_to_list tsMap).

Definition drilldown_grouped (results : list PrometheusResult) : list Series :=
  (fun kv => mkSeries (fst kv) (series_data (snd kv)))
    <$> Object_entries (group_results results).

Definition drilldown_series (results : list PrometheusResult) : list Series :=
  filter (fun s => has_positive s = true) (drilldown_grouped results).

Inductive DrilldownResponse : Type :=
| BadRequest                                       (* status 400: namespace required *)
| Drilldown (series : list Series) (namespace range : jsstring).

Definition drilldown_query (namespace : jsstring) : jsstring :=
  str "sum by (created_by_name)(kube_pod_info{namespace=" ++ dq ++ namespace ++ dq
    ++ str ",created_by_kind=" ++ dq ++ str "ReplicaSet" ++ dq ++ str "})".

Definition drilldown_GET (backend : PromBackend) (now : Z)
    (namespaceParam rangeParam : option jsstring) : Result DrilldownResponse :=
  let range := param_or rangeParam (str "6h") in
  match namespaceParam with
  | Some ((_ :: _) as namespace) =>
      let rangeSecs := rangeSeconds range in
      let start := num_sub (Num now) (as_number rangeSecs) in
      let step := stepForRange rangeSecs in
      bindR (promQueryRange backend (drilldown_query namespace) start now step) (fun results =>
      Ok (Drilldown (drilldown_series results) namespace range))
  | _ => Ok BadRequest
  end.

(** ** Merging the four event streams *)

(** The [filter] over the sorted array with its [seen] set: an event stays
    when its id was not met before. *)
Fixpoint keep_unseen (seen : gset jsstring) (l : list PlatformEvent) : list PlatformEvent :=
  match l with
  | [] => []
  | e :: l' =>
      if decide (id e ∈ seen) then keep_unseen seen l'
      else e :: keep_unseen ({[id e]} ∪ seen) l'
  end.

(** [(a, b) => b.timestamp - a.timestamp] *)
Definition newest_first (a b : PlatformEvent) : jsnum :=
  num_sub (timestamp b) (timestamp a).

Definition guiSignups (guiEvents : list PlatformEvent) : gset jsstring :=
  list_to_set (tenant <$> filter (fun e => type e = tenant_signup) guiEvents).

Definition filteredSignups (guiEvents signupEvents : list PlatformEvent) : list PlatformEvent :=
  filter (fun e => tenant e ∉ guiSignups guiEvents) signupEvents.

(** The array [all] before it is sorted. *)
Definition merged (guiEvents signupEvents planEvents mcpEvents : list PlatformEvent)
  : list PlatformEvent :=
  guiEvents ++ filteredSignups guiEvents signupEvents ++ planEvents ++ mcpEvents.

Definition mergeAndDedup (guiEvents signupEvents planEvents mcpEvents : list PlatformEvent)
  : list PlatformEvent :=
  keep_unseen ∅ (Array_sort newest_first (merged guiEvents signupEvents planEvents mcpEvents)).

(** ** JSON values *)

(** A number literal [-? int frac? exp?] denotes
    [(-1)^jn_neg * jn_mant * 10^jn_exp]. *)
Record JNum : Type := mkJNum {
  jn_neg : bool;
  jn_mant : N;
  jn_exp : Z
}.

#[local] Set Warnings "-register-all".

Inductive JSON : Type :=
| JNull
| JBool (b : bool)
| JNumber (n : JNum)
| JString (s : jsstring)
| JArray (items : list JSON)
| JObject (props : list (jsstring * JSON)).

(** The outcome of a parser that works with fuel. *)
Inductive Parsed (A : Type) : Type :=
| Done (a : A) (rest : jsstring)
| Malformed
| OutOfFuel.
Arguments Done {A} a rest.
Arguments Malformed {A}.
Arguments OutOfFuel {A}.

Definition map_parsed {A B : Type} (f : A -> B) (p : Parsed A) : Parsed B :=
  match p with
  | Done a rest => Done (f a) rest
  | Malformed => Malformed
  | OutOfFuel => OutOfFuel
  end.

(** JSON white space: space, tab, line feed, carriage return. *)
Definition is_json_ws (c : N) : bool :=
  ((c =? 32) || (c =? 9) || (c =? 10) || (c =? 13))%N.

Definition skip_ws (s : jsstring) : jsstring := snd (span is_json_ws s).

Definition hex_value (c : N) : option N :=
  if ((48 <=? c) && (c <=? 57))%N then Some (c - 48)%N
  else if ((97 <=? c) && (c <=? 102))%N then Some (c - 87)%N
  else if ((65 <=? c) && (c <=? 70))%N then Some (c - 55)%N
  else None.

Definition hex4 (h1 h2 h3 h4 : N) : option N :=
  a ← hex_value h1; b ← hex_value h2; c ← hex_value h3; d ← hex_value h4;
  Some (((a * 16 + b) * 16 + c) * 16 + d)%N.

(** The code unit a two-character escape stands for. *)
Definition simple_escape (e : N) : option N :=
  if (e =? 34)%N then Some 34%N          (* quote *)
  else if (e =? 92)%N then Some 92%N     (* backslash *)
  else if (e =? 47)%N then Some 47%N     (* slash *)
  else if (e =? 98)%N then Some 8%N      (* b *)
  else if (e =? 102)%N then Some 12%N    (* f *)
  else if (e =? 110)%N then Some 10%N    (* n *)
  else if (e =? 114)%N then Some 13%N    (* r *)
  else if (e =? 116)%N then Some 9%N     (* t *)
  else None.

Definition cons_unit (u : N) (p : option (jsstring * jsstring)) : option (jsstring * jsstring) :=
  match p with
  | Some (str_, rest) => Some (u :: str_, rest)
  | None => None
  end.

(** A string literal after its opening quote: the code units up to the
    closing quote, and what follows it. *)
Fixpoint parse_string_body (s : jsstring) : option (jsstring * jsstring) :=
  match s with
  | [] => None
  | c :: r =>
      if (c =? 34)%N then Some ([], r)
      else if (c =? 92)%N then
        match r with
        | [] => None
        | e :: r' =>
            match simple_escape e with
            | Some u => cons_unit u (parse_string_body r')
            | None =>
                if (e =? 117)%N then
                  match r' with
                  | h1 :: h2 :: h3 :: h4 :: r'' =>
                      match hex4 h1 h2 h3 h4 with
                      | Some u => cons_unit u (parse_string_body r'')
                      | None => None
                      end
                  | _ => None
                  end
                else None
            end
        end
      else if (c <? 32)%N then None
      else cons_unit c (parse_string_body r)
  end.

(** A number literal.  A [0] followed by a digit is refused here: the
    grammar ends the number after the [0], and nothing that may follow a
    value starts with a digit. *)
Definition parse_number (s : jsstring) : option (JNum * jsstring) :=
  let '(neg, s1) :=
    match s with
    | c :: r => if (c =? 45)%N then (true, r) else (false, s)
    | [] => (false, s)
    end in
  let '(int_ds, s2) := span is_digit s1 in
  match int_ds with
  | [] => None
  | d :: ds =>
      if (d =? 48)%N && negb (bool_decide (ds = [])) then None
      else
        let frac :=
          match s2 with
          | c :: r =>
              if (c =? 46)%N then
                let '(frac_ds, s3) := span is_digit r in
                match frac_ds with
                | [] => None
                | _ => Some (frac_ds, s3)
                end
              else Some ([], s2)
          | [] => Some ([], s2)
          end in
        match frac with
        | None => None
        | Some (frac_ds, s3) =>
            let expo :=
              match s3 with
              | c :: r =>
                  if ((c =? 101) || (c =? 69))%N then
                    let '(eneg, r1) :=
                      match r with
                      | sg :: r0 =>
                          if (sg =? 45)%N then (true, r0)
                          else if (sg =? 43)%N then (false, r0)
                          else (false, r)
                      | [] => (false, r)
                      end in
                    let '(exp_ds, s4) := span is_digit r1 in
                    match exp_ds with
                    | [] => None
                    | _ => Some (if eneg then - digits_value exp_ds else digits_value exp_ds, s4)
                    end
                  else Some (0, s3)
              | [] => Some (0, s3)
              end in
            match expo with
            | None => None
            | Some (e, s4) =>
                Some (mkJNum neg (Z.to_N (digits_value (int_ds ++ frac_ds)))
                        (e - Z.of_nat (length frac_ds)), s4)
            end
        end
  end.

(** The elements of an array after its opening bracket, when the array is
    not empty. *)
Fixpoint parse_elements (pv : jsstring -> Parsed JSON) (fuel : nat) (s : jsstring)
  : Parsed (list JSON) :=
  match fuel with
  | O => OutOfFuel
  | S fuel' =>
      match pv s with
      | Done v r =>
          match skip_ws r with
          | c :: r' =>
              if (c =? 44)%N then
                map_parsed (cons v) (parse_elements pv fuel' r')
              else if (c =? 93)%N then Done [v] r'
              else Malformed
          | [] => Malformed
          end
      | Malformed => Malformed
      | OutOfFuel => OutOfFuel
      end
  end.

(** The members of an object after its opening brace, when the object is
    not empty. *)
Fixpoint parse_members (pv : jsstring -> Parsed JSON) (fuel : nat) (s : jsstring)
  : Parsed (list (jsstring * JSON)) :=
  match fuel with
  | O => OutOfFuel
  | S fuel' =>
      match skip_ws s with
      | q :: r =>
          if (q =? 34)%N then
            match parse_string_body r with
            | Some (k, r1) =>
                match skip_ws r1 with
                | colon :: r2 =>
                    if (colon =? 58)%N then
                      match pv r2 with
                      | Done v r3 =>
                          match skip_ws r3 with
                          | c :: r4 =>
                              if (c =? 44)%N then
                                map_parsed (cons (k, v)) (parse_members pv fuel' r4)
                              else if (c =? 125)%N then Done [(k, v)] r4
                              else Malformed
                          | [] => Malformed
                          end
                      | Malformed => Malformed
                      | OutOfFuel => OutOfFuel
                      end
                    else Malformed
                | [] => Malformed
                end
            | None => Malformed
            end
          else Malformed
      | [] => Malformed
      end
  end.

Definition parse_literal (word : jsstring) (v : JSON) (s : jsstring) : Parsed JSON :=
  match after_prefix word s with
  | Some rest => Done v rest
  | None => Malformed
  end.

Fixpoint parse_value (fuel : nat) (s : jsstring) : Parsed JSON :=
  match fuel with
  | O => OutOfFuel
  | S fuel' =>
      match skip_ws s with
      | [] => Malformed
      | c :: r =>
          if (c =? 123)%N then
            match skip_ws r with
            | c1 :: r' =>
                if (c1 =? 125)%N then Done (JObject []) r'
                else map_parsed JObject (parse_members (parse_value fuel') fuel' r)
            | [] => Malformed
            end
          else if (c =? 91)%N then
            match skip_ws r with
            | c1 :: r' =>
                if (c1 =? 93)%N then Done (JArray []) r'
                else map_parsed JArray (parse_elements (parse_value fuel') fuel' r)
            | [] => Malformed
            end
          else if (c =? 34)%N then
            match parse_string_body r with
            | Some (str_, rest) => Done (JString str_) rest
            | None => Malformed
            end
          else if (c =? 116)%N then parse_literal (str "true") (JBool true) (c :: r)
          else if (c =? 102)%N then parse_literal (str "false") (JBool false) (c :: r)
          else if (c =? 110)%N then parse_literal (str "null") JNull (c :: r)
          else
            match parse_number (c :: r) with
            | Some (n, rest) => Done (JNumber n) rest
            | None => Malformed
            end
      end
  end.

(** [JSON.parse(text)]: [None] stands for the [SyntaxError] it throws.  The
    length of the text bounds the nesting of the value and the number of
    its elements, so the fuel never runs out. *)
Definition JSON_parse (text : jsstring) : option JSON :=
  match parse_value (S (length text)) text with
  | Done v rest =>
      match skip_ws rest with
      | [] => Some v
      | _ => None
      end
  | _ => None
  end.

(** ** Values from JSON in expressions *)

(** The number parses to zero: its digits are all zero, or it is too small
    for a double ([|x| <= 2^-1075] rounds to zero). *)
Definition number_is_zero (n : JNum) : bool :=
  (jn_mant n =? 0)%N
  || (jn_exp n <? 0) && (Z.of_N (jn_mant n) * 2 ^ 1075 <=? 10 ^ (- jn_exp n)).

(** Truthiness, for [!x], [x || y] and [x ? y : z]. *)
Definition truthy (v : JSON) : bool :=
  match v with
  | JNull => false
  | JBool b => b
  | JNumber n => negb (number_is_zero n)
  | JString s => negb (bool_decide (s = []))
  | JArray _ => true
  | JObject _ => true
  end.

(** The value a later member of the same name overwrites an earlier one
    with: the last one counts. *)
Fixpoint lookup_last (k : jsstring) (props : list (jsstring * JSON)) : option JSON :=
  match props with
  | [] => None
  | (k', v) :: rest =>
      match lookup_last k rest with
      | Some v' => Some v'
      | None => if decide (k' = k) then Some v else None
      end
  end.

(** [data.name] for the property names this route reads ([action],
    [success], [tenantId], [resource], [type]): [None] is [undefined];
    reading a property of [null] throws. *)
Definition get_field (data : JSON) (name : jsstring) : Result (option JSON) :=
  match data with
  | JNull => Thrown
  | JObject props => Ok (lookup_last name props)
  | _ => Ok None
  end.

(** [x] when it is defined and truthy. *)
Definition truthy_value (x : option JSON) : option JSON :=
  match x with
  | Some v => if truthy v then Some v else None
  | None => None
  end.

Section Rendering.

(** [String(x)] for a number: the shortest decimal text that reads back as
    the same double.  It is left open here; no property below depends on
    it. *)
Variable Number_toString : JNum -> jsstring.

Fixpoint join_with (sep : jsstring) (parts : list jsstring) : jsstring :=
  match parts with
  | [] => []
  | [p] => p
  | p :: rest => p ++ sep ++ join_with sep rest
  end.

Fixpoint sequence_results {A : Type} (l : list (Result A)) : Result (list A) :=
  match l with
  | [] => Ok []
  | r :: rest =>
      bindR r (fun a => bindR (sequence_results rest) (fun l' => Ok (a :: l')))
  end.

(** The string a value turns into inside a template literal.  An array
    joins its elements with commas, [null] elements counting as empty; an
    object gives [[object Object]], unless it has a member named
    [toString]: that member is no function, and the conversion throws. *)
Fixpoint ToString (v : JSON) : Result jsstring :=
  match v with
  | JNull => Ok (str "null")
  | JBool true => Ok (str "true")
  | JBool false => Ok (str "false")
  | JNumber n => Ok (Number_toString n)
  | JString s => Ok s
  | JArray items =>
      bindR (sequence_results
               (List.map (fun item =>
                            match item with
                            | JNull => Ok []
                            | _ => ToString item
                            end) items))
            (fun parts => Ok (join_with (str ",") parts))
  | JObject props =>
      match lookup_last (str "toString") props with
      | Some _ => Thrown
      | None => Ok (str "[object Object]")
      end
  end.

(** ** The structured-action parser *)

Definition MCP_WRITE_ACTIONS : list jsstring :=
  [str "create-database";
   str "create-service-instance";
   str "delete-service-instance";
   str "restart-service-instance";
   str "create-my-app";
   str "delete-my-app";
   str "restart-my-app";
   str "deploy-solution";
   str "remove-deployed-solution"].

(** Replacing every backslash-quote pair by a quote, the pairs taken left
    to right. *)
Fixpoint unescape_quotes (s : jsstring) : jsstring :=
  match s with
  | [] => []
  | c :: r =>
      match r with
      | q :: r' =>
          if (c =? 92)%N && (q =? 34)%N then 34%N :: unescape_quotes r'
          else c :: unescape_quotes r
      | [] => [c]
      end
  end.

Definition msg_marker : jsstring := str "msg=" ++ dq.

(** The event of an allowed action.  [tenant] and [resource] are the values
    of [data.tenantId || 'unknown'] and [data.resource || '']; the record
    holds the tenant by its string conversion. *)
Definition mcp_event (ts : jsstring) (action : jsstring) (tenantV resourceV : JSON)
    (typeV : option JSON) : Result (option PlatformEvent) :=
  let timestamp := floor_div (parseInt10 ts) 1000000 in
  let simple (id_kind : jsstring) (ty : EventType) (glyph : jsstring) (verb : jsstring) :=
    bindR (ToString tenantV) (fun tenant =>
    bindR (ToString resourceV) (fun resource =>
    Ok (Some (mkEvent (makeId ts tenant id_kind) ty glyph tenant
                (tenant ++ verb ++ resource ++ str " " ++ glyph_robot) timestamp)))) in
  if decide (action = str "create-database") then
    bindR (ToString tenantV) (fun tenant =>
    bindR (ToString resourceV) (fun resource =>
    bindR (match truthy_value typeV with
           | Some t => bindR (ToString t) (fun t' => Ok (str " (" ++ t' ++ str ")"))
           | None => Ok []
           end) (fun kind =>
    Ok (Some (mkEvent (makeId ts tenant (str "mcp_create_db")) instance_created
                glyph_created tenant
                (tenant ++ str " created database " ++ resource ++ kind
                   ++ str " " ++ glyph_robot) timestamp)))))
  else if decide (action = str "create-service-instance") then
    simple (str "mcp_create_instance") instance_created glyph_created (str " created instance ")
  else if decide (action = str "delete-service-instance") then
    simple (str "mcp_delete_instance") instance_removed glyph_removed (str " removed instance ")
  else if decide (action = str "restart-service-instance") then
    simple (str "mcp_restart_instance") instance_restarted glyph_restarted
           (str " restarted instance ")
  else if decide (action = str "create-my-app") then
    simple (str "mcp_create_app") instance_created glyph_created (str " created app ")
  else if decide (action = str "delete-my-app") then
    simple (str "mcp_delete_app") instance_removed glyph_removed (str " deleted app ")
  else if decide (action = str "restart-my-app") then
    simple (str "mcp_restart_app") instance_restarted glyph_restarted (str " restarted app ")
  else if decide (action = str "deploy-solution") then
    simple (str "mcp_deploy_solution") solution_deployed glyph_deployed
           (str " deployed solution ")
  else if decide (action = str "remove-deployed-solution") then
    simple (str "mcp_remove_solution") solution_destroyed glyph_destroyed
           (str " destroyed solution ")
  else Ok None.

(** The body of the [try] block, once the text is parsed. *)
Definition mcp_try (ts : jsstring) (data : JSON) : Result (option PlatformEvent) :=
  bindR (get_field data (str "action")) (fun actionV =>
  match truthy_value actionV with
  | Some (JString action) =>
      if bool_decide (action ∈ MCP_WRITE_ACTIONS) then
        bindR (get_field data (str "success")) (fun successV =>
        match truthy_value successV with
        | None => Ok None
        | Some _ =>
            bindR (get_field data (str "tenantId")) (fun tenantId =>
            bindR (get_field data (str "resource")) (fun resource =>
            bindR (get_field data (str "type")) (fun typeV =>
            mcp_event ts action
              (default (JString (str "unknown")) (truthy_value tenantId))
              (default (JString []) (truthy_value resource))
              typeV)))
        end)
      else Ok None
  | _ => Ok None
  end).

Definition parseMCPAuditLine (ts line : jsstring) : option PlatformEvent :=
  match search (after_prefix msg_marker) line with
  | None => None                                    (* [msgIdx === -1] *)
  | Some rest =>
      let raw := removelast rest in                 (* [line.slice(msgIdx + 5, -1)] *)
      let jsonStr := unescape_quotes raw in
      match JSON_parse jsonStr with
      | None => None                                (* [SyntaxError], caught *)
      | Some data =>
          match mcp_try ts data with
          | Ok e => e
          | Thrown => None                          (* [TypeError], caught *)
          end
      end
  end.

End Rendering.

(** ** The log store and asynchronous code *)

Record LokiStream : Type := mkLokiStream {
  ls_stream : gmap jsstring jsstring;        (* [stream]: the labels *)
  ls_values : list (jsstring * jsstring)     (* [values]: nanosecond timestamp and line *)
}.

Record LokiRequest : Type := mkLokiRequest {
  lq_query : jsstring;
  lq_start : jsnum;
  lq_end : jsnum;
  lq_limit : Z;
  lq_direction : jsstring
}.

#[global] Instance LokiRequest_eq_dec : EqDecision LokiRequest.
Proof. solve_decision. Defined.

(** What the log store does with each request. *)
Definition LokiBackend : Type := LokiRequest -> FetchOutcome (list LokiStream).

(** An asynchronous computation: given the backend and the requests sent so
    far, its outcome and the requests sent once it has settled. *)
Definition Async (A : Type) : Type :=
  LokiBackend -> list LokiRequest -> Result A * list LokiRequest.

Definition retA {A : Type} (a : A) : Async A := fun _ sent => (Ok a, sent).

Definition bindA {A B : Type} (m : Async A) (k : A -> Async B) : Async B :=
  fun backend sent =>
    match m backend sent with
    | (Ok a, sent') => k a backend sent'
    | (Thrown, sent') => (Thrown, sent')
    end.

Definition liftA {A : Type} (r : Result A) : Async A := fun _ sent => (r, sent).

Notation "'let!' x ':=' e 'in' k" := (bindA e (fun x => k))
  (at level 10, x name, e at level 100, k at level 200).

(** [Promise.all] over four promises.  Each of the four calls sends its
    request before anything is awaited; the result rejects as soon as one of
    them does. *)
Definition Promise_all4 {A : Type} (a b c d : Async A) : Async (A * A * A * A) :=
  fun backend sent =>
    let '(ra, sent1) := a backend sent in
    let '(rb, sent2) := b backend sent1 in
    let '(rc, sent3) := c backend sent2 in
    let '(rd, sent4) := d backend sent3 in
    (match ra, rb, rc, rd with
     | Ok x, Ok y, Ok z, Ok w => Ok (x, y, z, w)
     | _, _, _, _ => Thrown
     end, sent4).

(** [try { body } catch { return handler }] *)
Definition try_catch {A : Type} (body : Async A) (handler : A) : Async A :=
  fun backend sent =>
    match body backend sent with
    | (Ok a, sent') => (Ok a, sent')
    | (Thrown, sent') => (Ok handler, sent')
    end.

Definition lokiQuery (query : jsstring) (start end_ : jsnum) (limit : Z) (direction : jsstring)
  : Async (list LokiStream) :=
  fun backend sent =>
    let rq := mkLokiRequest query start end_ limit direction in
    (read_reply (backend rq), sent ++ [rq]).

(** The entries of all streams, in the order the nested loops visit them. *)
Definition entries (streams : list LokiStream) : list (jsstring * jsstring) :=
  streams ≫= ls_values.

(** ** The four fetchers *)

Section Fetchers.
Variable Number_toString : JNum -> jsstring.

Definition gui_query : jsstring :=
  str "{job=" ++ dq ++ str "gui/ui" ++ dq ++ str "} |= " ++ dq ++ str "audit" ++ dq.

Definition fetchGUIEvents (since now : jsnum) : Async (list PlatformEvent) :=
  let! streams := lokiQuery gui_query (floor_div since 1000) (floor_div now 1000) 200
                    (str "backward") in
  retA (omap (fun entry => parseGUIAuditLine (fst entry) (snd entry)) (entries streams)).

Definition hex_octet (h1 h2 : N) : option N :=
  a ← hex_value h1; b ← hex_value h2; Some (a * 16 + b)%N.

Definition utf16_encode (cp : N) : jsstring :=
  if (cp <? 65536)%N then [cp]
  else [(55296 + (cp - 65536) / 1024)%N; (56320 + (cp - 65536) mod 1024)%N].

(** A code point that a UTF-8 sequence of its length may encode: not below
    [lo] (no overlong form), no surrogate, at most 10FFFF. *)
Definition valid_code_point (cp lo : N) : bool :=
  ((lo <=? cp) && (cp <=? 1114111) && negb ((55296 <=? cp) && (cp <=? 57343)))%N.

(** [decodeURIComponent] from a given state: [pending] holds, inside a
    multi-byte sequence, the number of continuation bytes still to come, the
    bits read so far and the least code point of that length.  [Thrown] is
    the [URIError]. *)
Fixpoint decode_from (pending : option (nat * N * N)) (s : jsstring) : Result jsstring :=
  match s with
  | [] =>
      match pending with
      | None => Ok []
      | Some _ => Thrown
      end
  | c :: r =>
      match pending with
      | None =>
          if (c =? 37)%N then
            match r with
            | h1 :: h2 :: r' =>
                match hex_octet h1 h2 with
                | None => Thrown
                | Some b =>
                    if (b <? 128)%N then bindR (decode_from None r') (fun t => Ok (b :: t))
                    else if (b <? 192)%N then Thrown
                    else if (b <? 224)%N then decode_from (Some (1%nat, b - 192, 128))%N r'
                    else if (b <? 240)%N then decode_from (Some (2%nat, b - 224, 2048))%N r'
                    else if (b <? 248)%N then decode_from (Some (3%nat, b - 240, 65536))%N r'
                    else Thrown
                end
            | _ => Thrown
            end
          else bindR (decode_from None r) (fun t => Ok (c :: t))
      | Some (need, acc, lo) =>
          if (c =? 37)%N then
            match r with
            | h1 :: h2 :: r' =>
                match hex_octet h1 h2 with
                | None => Thrown
                | Some b =>
                    if ((128 <=? b) && (b <? 192))%N then
                      let acc' := (acc * 64 + (b - 128))%N in
                      match need with
                      | O => Thrown
                      | S O =>
                          if valid_code_point acc' lo then
                            bindR (decode_from None r') (fun t => Ok (utf16_encode acc' ++ t))
                          else Thrown
                      | S need' => decode_from (Some (need', acc', lo)) r'
                      end
                    else Thrown
                end
            | _ => Thrown
            end
          else Thrown
      end
  end.

Definition decodeURIComponent (s : jsstring) : Result jsstring := decode_from None s.

(** A code unit of the group: no ampersand, no white space, no double
    quote. *)
Definition email_unit (c : N) : bool :=
  negb ((c =? 38)%N || is_space c || (c =? 34)%N).

(** The pattern [email=] with its group of one or more such units, tried at
    one start position. *)
Definition email_at (s : jsstring) : option jsstring :=
  match after_prefix (str "email=") s with
  | Some r =>
      match fst (span email_unit r) with
      | [] => None
      | g => Some g
      end
  | None => None
  end.

Definition signup_query : jsstring :=
  str "{namespace=" ++ dq ++ str "osaas" ++ dq ++ str "} |~ " ++ dq ++ str "create-team" ++ dq
    ++ str " |~ " ++ dq ++ str "magic-link" ++ dq.

(** One turn of the inner loop of [fetchSignupEvents], on the set [seen] and
    the array [events]. *)
Definition signup_step (state : gset jsstring * list PlatformEvent)
    (entry : jsstring * jsstring) : Result (gset jsstring * list PlatformEvent) :=
  let '(seen, events) := state in
  let '(ts, line) := entry in
  match search email_at line with
  | None => Ok state
  | Some m =>
      bindR (decodeURIComponent m) (fun email =>
      if negb (bool_decide (email = [])) && bool_decide (email ∉ seen) then
        Ok ({[email]} ∪ seen,
            events ++ [mkEvent (makeId ts email (str "signup")) tenant_signup glyph_signup
                         email (str "New signup: " ++ email)
                         (floor_div (parseInt10 ts) 1000000)])
      else Ok state)
  end.

Fixpoint foldR {A B : Type} (f : A -> B -> Result A) (l : list B) (a : A) : Result A :=
  match l with
  | [] => Ok a
  | b :: l' => bindR (f a b) (foldR f l')
  end.

Definition fetchSignupEvents (since now : jsnum) : Async (list PlatformEvent) :=
  let! streams := lokiQuery signup_query (floor_div since 1000) (floor_div now 1000) 50
                    (str "backward") in
  let! final := liftA (foldR signup_step (entries streams) (∅, [])) in
  retA (snd final).

Definition mcp_query : jsstring :=
  str "{job=" ++ dq ++ str "osaas/ai-manager" ++ dq ++ str "} |= " ++ dq ++ str "level=info" ++ dq
    ++ str " |~ " ++ dq ++ str "create|delete|restart|deploy|remove" ++ dq.

Definition fetchMCPEvents (since now : jsnum) : Async (list PlatformEvent) :=
  let! streams := lokiQuery mcp_query (floor_div since 1000) (floor_div now 1000) 200
                    (str "backward") in
  retA (omap (fun entry => parseMCPAuditLine Number_toString (fst entry) (snd entry))
             (entries streams)).

(** [/id=(\S+)/] tried at one start position. *)
Definition id_at (s : jsstring) : option jsstring :=
  match after_prefix (str "id=") s with
  | Some r =>
      match fst (span non_space r) with
      | [] => None
      | g => Some g
      end
  | None => None
  end.

Definition plan_query : jsstring :=
  str "{job=" ++ dq ++ str "osaas/money-manager" ++ dq ++ str "} |= " ++ dq ++ str "POST" ++ dq
    ++ str " |= " ++ dq ++ str "/tenantplan" ++ dq.

Definition plan_event (entry : jsstring * jsstring) : PlatformEvent :=
  let '(ts, line) := entry in
  let requestId := default ts (search id_at line) in
  mkEvent (makeId ts requestId (str "plan_change")) plan_upgrade glyph_plan
          (str "unknown") (str "Tenant updated plan")
          (floor_div (parseInt10 ts) 1000000).

Definition fetchPlanChangeEvents (since now : jsnum) : Async (list PlatformEvent) :=
  let! streams := lokiQuery plan_query (floor_div since 1000) (floor_div now 1000) 50
                    (str "backward") in
  retA (plan_event <$> entries streams).

(** ** The handler *)

Definition CHUNK_MS : Z := 3 * 86400 * 1000.
Definition MAX_HISTORY_MS : Z := 30 * 86400 * 1000.

(** A date parameter of the request: its text, and the time value that
    [new Date(text).getTime()] gives for it ([NaN] for no date). *)
Record DateParam : Type := mkDateParam {
  dp_text : jsstring;
  dp_time : jsnum
}.

(** A parameter that is there and not empty. *)
Definition given (p : option DateParam) : option DateParam :=
  match p with
  | Some d => match dp_text d with [] => None | _ => Some d end
  | None => None
  end.

(** A timestamp of the response: the ISO text of an instant, or the text of
    the [since] parameter sent back. *)
Inductive Stamp : Type :=
| Iso (ms : Z)
| Echo (text : jsstring).

(** [new Date(t).toISOString()]: a [RangeError] when [t] is no valid time
    value. *)
Definition toISOString (t : jsnum) : Result Stamp :=
  match t with
  | Num z => if (- 8640000000000000 <=? z) && (z <=? 8640000000000000) then Ok (Iso z) else Thrown
  | Inf _ | NaN => Thrown
  end.

Inductive EventsResponse : Type :=
| Live (events : list PlatformEvent) (count : nat) (latestTimestamp : Stamp) (hasMore : bool)
| Page (events : list PlatformEvent) (count : nat) (latestTimestamp oldestTimestamp : Stamp)
       (hasMore : bool)
| ServerError.                 (* status 500: no events, count 0, the error text *)

Definition fetch_all (since now : jsnum) : Async (list PlatformEvent) :=
  let! fetched := Promise_all4 (fetchGUIEvents since now) (fetchSignupEvents since now)
                    (fetchPlanChangeEvents since now) (fetchMCPEvents since now) in
  let '(guiEvents, signupEvents, planEvents, mcpEvents) := fetched in
  retA (mergeAndDedup guiEvents signupEvents planEvents mcpEvents).

Definition GET (now : Z) (sinceParam beforeParam : option DateParam) : Async EventsResponse :=
  match given sinceParam with
  | Some sinceP =>
      (* live-poll mode *)
      let since := dp_time sinceP in
      try_catch
        (let! allEvents := fetch_all since (Num now) in
         let! latestTimestamp :=
           liftA (match allEvents with
                  | e :: _ => toISOString (timestamp e)
                  | [] => Ok (Echo (dp_text sinceP))
                  end) in
         retA (Live allEvents (length allEvents) latestTimestamp false))
        ServerError
  | None =>
      (* paginated mode *)
      let before :=
        match given beforeParam with
        | Some beforeP => dp_time beforeP
        | None => Num now
        end in
      let since := num_sub before (Num CHUNK_MS) in
      let oldest := now - MAX_HISTORY_MS in
      let hasMore := num_gt since (Num oldest) in
      try_catch
        (let! allEvents := fetch_all since before in
         let! latestTimestamp :=
           liftA (match allEvents with
                  | e :: _ => toISOString (timestamp e)
                  | [] => toISOString before
                  end) in
         let! oldestTimestamp :=
           liftA (match last allEvents with
                  | Some e => toISOString (timestamp e)
                  | None => toISOString since
                  end) in
         retA (Page allEvents (length allEvents) latestTimestamp oldestTimestamp hasMore))
        ServerError
  end.

End Fetchers.

(** ** The tenant graph *)

(** The graph endpoint that groups pods by tenant.  Its map [tenantMap] is a
    [Map]: its keys come in insertion order, array indices included, and it
    is modelled by the insertion-ordered list [Grouped].  The inner maps are
    keyed by the millisecond value of the sample time. *)

(** [podName.split('-')[0]]: what precedes the first hyphen. *)
Definition first_segment (podName : jsstring) : jsstring :=
  fst (span (fun c => negb (c =? 45)%N) podName).

(** [r.metric.pod || ''], then its first segment. *)
Definition pod_tenant (r : PrometheusResult) : jsstring :=
  first_segment (default [] (metric r !! str "pod")).

(** One turn of the inner loop:
    [tsMap.set(msTs, (tsMap.get(msTs) || 0) + parseInt(val, 10))]. *)
Definition add_pod_sample (tsMap : gmap Z jsnum) (sample : Z * jsstring) : gmap Z jsnum :=
  let msTs := fst sample * 1000 in
  <[msTs := num_add (or_zero (tsMap !! msTs)) (parseInt10 (snd sample))]> tsMap.

(** One turn of the outer loop. *)
Definition tenant_group_result (tenantMap : Grouped) (r : PrometheusResult) : Grouped :=
  match pod_tenant r with
  | [] => tenantMap                                        (* [if (!tenant) continue] *)
  | (_ :: _) as tenant =>
      update_group tenant (fun tsMap => fold_left add_pod_sample (values_of r) tsMap) tenantMap
  end.

Definition tenant_map (results : list PrometheusResult) : Grouped :=
  fold_left tenant_group_result results [].

(** [Array.from(tsMap.entries()).sort(([a], [b]) => a - b).map(...)].  The
    keys of a map are distinct, and the sort puts them in ascending order
    whatever order the entries were inserted in. *)
Definition tenant_data (tsMap : gmap Z jsnum) : list Point :=
  (fun kv => mkPoint (fst kv) (snd kv))
    <$> Array_sort (fun a b => num_sub (Num (fst a)) (Num (fst b))) (map_to_list tsMap).

Definition tenant_grouped (results : list PrometheusResult) : list Series :=
  (fun kv => mkSeries (fst kv) (tenant_data (snd kv))) <$> tenant_map results.

Definition tenant_series (results : list PrometheusResult) : list Series :=
  filter (fun s => has_positive s = true) (tenant_grouped results).

Definition pod_query : jsstring :=
  str "count by (pod)(kube_pod_info{created_by_kind=" ++ dq ++ str "ReplicaSet" ++ dq ++ str "})".

Definition tenant_graph_GET (backend : PromBackend) (now : Z) (rangeParam : option jsstring)
  : Result GraphResponse :=
  let range := param_or rangeParam (str "1h") in
  let rangeSecs := rangeSeconds range in
  let start := num_sub (Num now) (as_number rangeSecs) in
  let step := stepForRange rangeSecs in
  bindR (promQueryRange backend pod_query start now step) (fun results =>
  Ok (mkGraphResponse (tenant_series results) range step)).

(** ** The current instances *)

(** A result of an instant query: the [value] member of
    [PrometheusResult]. *)
Record InstantResult : Type := mkInstant {
  im_metric : gmap jsstring jsstring;
  im_value : option (Z * jsstring)         (* [value?: [number, string]] *)
}.

Definition InstantBackend : Type := jsstring -> FetchOutcome (list InstantResult).

Definition promQuery (backend : InstantBackend) (query : jsstring)
  : Result (list InstantResult) :=
  read_reply (backend query).

Record TenantInfo : Type := mkTenantInfo {
  ti_namespace : jsstring;
  ti_count : jsnum;
  ti_services : list jsstring
}.

(** A label that is there and not empty. *)
Definition truthy_label (l : option jsstring) : option jsstring :=
  match l with
  | Some ((_ :: _) as v) => Some v
  | _ => None
  end.

(** [new Set()], one [add] per element, [Array.from]: a set keeps its
    elements in the order they were first added in. *)
Definition Set_from (l : list jsstring) : list jsstring :=
  fold_left (fun services x => if decide (x ∈ services) then services else services ++ [x]) l [].

(** The series request of the log store: the [match[]] selector and the
    window, in seconds. *)
Record SeriesRequest : Type := mkSeriesRequest {
  sq_match : jsstring;
  sq_start : Z;
  sq_end : Z
}.

(** What the log store does with a series request; the label sets of the
    reply are its [data] member. *)
Definition SeriesBackend : Type := SeriesRequest -> FetchOutcome (list (gmap jsstring jsstring)).

Definition series_match (namespace : jsstring) : jsstring :=
  str "{eyevinnlabel_customer=" ++ dq ++ namespace ++ dq ++ str "}".

(** [getTenantServices], called when the clock reads [now] seconds: the
    services it returns, and the request it sends.  Whatever is thrown
    inside its [try] block ends in the empty list. *)
Definition getTenantServices (backend : SeriesBackend) (now : Z) (namespace : jsstring)
  : list jsstring * SeriesRequest :=
  let start := now - 3600 in
  let rq := mkSeriesRequest (series_match namespace) start now in
  (match read_reply (backend rq) with
   | Ok labelSets =>
       Set_from (omap (fun labelSet => truthy_label (labelSet !! str "eyevinnlabel_service"))
                      labelSets)
   | Thrown => []
   end, rq).

(** [r.value?.[1] || '0'] *)
Definition count_text (r : InstantResult) : jsstring :=
  match im_value r with
  | Some (_, (_ :: _) as v) => v
  | _ => str "0"
  end.

(** The tenants with a count above zero, before they are sorted. *)
Definition counted_tenants (results : list InstantResult) : list TenantInfo :=
  filter (fun t => num_gt (ti_count t) (Num 0) = true)
    ((fun r => mkTenantInfo (default [] (im_metric r !! str "namespace"))
                            (parseInt10 (count_text r)) [])
       <$> filter (fun r => is_Some (truthy_label (im_metric r !! str "namespace"))) results).

(** The array [tenants] before it is enriched. *)
Definition current_tenants (results : list InstantResult) : list TenantInfo :=
  Array_sort (fun a b => num_sub (ti_count b) (ti_count a)) (counted_tenants results).

(** The enrichment.  The calls for the first thirty tenants all start
    before anything is awaited, the one of index [i] when the clock reads
    [clock i]; each writes its services into the object of its tenant, which
    the array [tenants] shares with [topTenants]. *)
Definition enrich (backend : SeriesBackend) (clock : nat -> Z) (tenants : list TenantInfo)
  : list TenantInfo * list SeriesRequest :=
  let topTenants := take 30 tenants in
  let calls := imap (fun i t => getTenantServices backend (clock i) (ti_namespace t)) topTenants in
  (zip_with (fun t call => mkTenantInfo (ti_namespace t) (ti_count t) (fst call)) topTenants calls
     ++ drop 30 tenants,
   snd <$> calls).

(** The handler: its response, and the series requests it sent. *)
Definition current_GET (prom : InstantBackend) (loki : SeriesBackend) (clock : nat -> Z)
  : Result (list TenantInfo) * list SeriesRequest :=
  match promQuery prom graph_query with
  | Ok results =>
      let '(tenants, sent) := enrich loki clock (current_tenants results) in
      (Ok tenants, sent)
  | Thrown => (Thrown, [])
  end.

(** * The client *)

(** ** The time of an event item *)

(** [timeAgo], when the clock reads [now] milliseconds: the number and the
    unit of the text it returns. *)
Definition timeAgo (now : Z) (ts : jsnum) : jsnum * jsstring :=
  let diff := num_sub (Num now) ts in
  let secs := floor_div diff 1000 in
  if num_gt (Num 60) secs then (secs, str "s ago")
  else
    let mins := floor_div secs 60 in
    if num_gt (Num 60) mins then (mins, str "m ago")
    else
      let hrs := floor_div mins 60 in
      if num_gt (Num 24) hrs then (hrs, str "h ago")
      else (floor_div hrs 24, str "d ago").

(** ** The description of an event item *)

(** [s.split(sep)] for a separator that is not empty, with [piece] read
    since the last separator: the separators are found from left to right
    and do not overlap.  [n] bounds the code units still to read. *)
Fixpoint split_from (n : nat) (sep piece s : jsstring) : list jsstring :=
  match s with
  | [] => [piece]
  | c :: s' =>
      match n with
      | O => [piece ++ s]
      | S n' =>
          match after_prefix sep s with
          | Some rest => piece :: split_from n' sep [] rest
          | None => split_from n' sep (piece ++ [c]) s'
          end
      end
  end.

(** [s.split(sep)]: the empty separator cuts between all code units. *)
Definition String_split (sep s : jsstring) : list jsstring :=
  match sep with
  | [] => (fun c => [c]) <$> s
  | _ => split_from (length s) sep [] s
  end.

(** What an event item shows for its description: plain text, and the
    element for the tenant. *)
Inductive Fragment : Type :=
| Plain (text : jsstring)
| TenantEl (text : jsstring).

Definition EventItem_description (event : PlatformEvent) : list Fragment :=
  match String_split (tenant event) (description event) with
  | p0 :: ((_ :: _) as rest) =>
      [Plain p0; TenantEl (tenant event); Plain (join_with (tenant event) rest)]
  | _ => [Plain (description event)]
  end.

(** ** The notification panel *)

Definition INTERNAL_TENANTS : gset jsstring :=
  list_to_set
    [str "eyevinn"; str "eyevinnlab"; str "simonsteam"; str "team2"; str "oscaidev";
     str "testnp"; str "simondemo"; str "birme"; str "birispriv"].

(** The updaters of the muted tenants. *)
Definition handleMute (tenant0 : jsstring) (prev : list jsstring) : list jsstring :=
  if decide (tenant0 ∈ prev) then prev else prev ++ [tenant0].

Definition handleUnmute (tenant0 : jsstring) (prev : list jsstring) : list jsstring :=
  filter (fun t => t <> tenant0) prev.

Definition filteredEvents (events : list PlatformEvent) (mutedTenants : list jsstring)
    (hideInternal : bool) : list PlatformEvent :=
  filter (fun e => (tenant e ∉ mutedTenants)
                   /\ ~ (hideInternal = true /\ tenant e ∈ INTERNAL_TENANTS)) events.

(** The updater of the events in [pollNew]. *)
Definition pollNew_events (newEvents prev : list PlatformEvent) : list PlatformEvent :=
  let existingIds : gset jsstring := list_to_set (id <$> prev) in
  let trulyNew := filter (fun e => id e ∉ existingIds) newEvents in
  match trulyNew with
  | [] => prev
  | _ :: _ => trulyNew ++ prev
  end.

(** The updater of the events in [fetchOlder]. *)
Definition fetchOlder_events (olderEvents prev : list PlatformEvent) : list PlatformEvent :=
  let existingIds : gset jsstring := list_to_set (id <$> prev) in
  let truly_old := filter (fun e => id e ∉ existingIds) olderEvents in
  prev ++ truly_old.

(** The state of the panel that its list depends on: the events as the
    responses carry them, the flags [hasMore] and [loadingOlder], and the two
    cursors, which hold the timestamps of the responses as texts.  (A
    timestamp that is no finite number arrives as [null]; the calls below
    read no timestamp of an event.) *)
Record Panel : Type := mkPanel {
  p_events : list PlatformEvent;
  p_hasMore : bool;
  p_loadingOlder : bool;
  p_lastEventTime : option jsstring;      (* [lastEventTimeRef.current] *)
  p_oldestEventTime : option jsstring     (* [oldestEventTimeRef.current] *)
}.

Definition initial_panel : Panel := mkPanel [] true false None None.

(** [if (text) ref.current = text] *)
Definition set_if_truthy (text : jsstring) (ref : option jsstring) : option jsstring :=
  match text with
  | [] => ref
  | _ :: _ => Some text
  end.

Section PanelCalls.
Variable Number_toString : JNum -> jsstring.
(** [new Date(text).getTime()], and the ISO text of a time value. *)
Variable Date_parse : jsstring -> jsnum.
Variable iso_text : Z -> jsstring.

(** The text of a timestamp of the response. *)
Definition stamp_text (s : Stamp) : jsstring :=
  match s with
  | Iso ms => iso_text ms
  | Echo text => text
  end.

(** A date parameter as the handler gets it: [encodeURIComponent] escapes
    the text, and [searchParams.get] gives it back. *)
Definition date_param (text : jsstring) : DateParam := mkDateParam text (Date_parse text).

(** [fetchInitial], when the clock of the server reads [now].  The response
    with status 500 is not [ok]: the call throws, and the list stays. *)
Definition fetchInitial (now : Z) (st : Panel) : Async Panel :=
  let! data := GET Number_toString now None None in
  retA (match data with
        | ServerError => st
        | Live newEvents _ latestTimestamp hasMore =>
            mkPanel newEvents hasMore (p_loadingOlder st)
                    (set_if_truthy (stamp_text latestTimestamp) (p_lastEventTime st))
                    (p_oldestEventTime st)
        | Page newEvents _ latestTimestamp oldestTimestamp hasMore =>
            mkPanel newEvents hasMore (p_loadingOlder st)
                    (set_if_truthy (stamp_text latestTimestamp) (p_lastEventTime st))
                    (set_if_truthy (stamp_text oldestTimestamp) (p_oldestEventTime st))
        end).

(** What [pollNew] makes of a response that is [ok]. *)
Definition pollNew_response (newEvents : list PlatformEvent) (latestTimestamp : Stamp)
    (st : Panel) : Panel :=
  match newEvents with
  | [] => st
  | _ :: _ =>
      mkPanel (pollNew_events newEvents (p_events st)) (p_hasMore st) (p_loadingOlder st)
              (set_if_truthy (stamp_text latestTimestamp) (p_lastEventTime st))
              (p_oldestEventTime st)
  end.

Definition pollNew (now : Z) (st : Panel) : Async Panel :=
  match p_lastEventTime st with
  | None | Some [] => retA st
  | Some ((_ :: _) as since) =>
      let! data := GET Number_toString now (Some (date_param since)) None in
      retA (match data with
            | ServerError => st
            | Live newEvents _ latestTimestamp _
            | Page newEvents _ latestTimestamp _ _ =>
                pollNew_response newEvents latestTimestamp st
            end)
  end.

(** What [fetchOlder] makes of a response that is [ok]; [oldestTimestamp]
    is [None] when the response has no such member. *)
Definition fetchOlder_response (olderEvents : list PlatformEvent)
    (oldestTimestamp : option Stamp) (hasMore : bool) (st : Panel) : Panel :=
  match olderEvents with
  | [] => mkPanel (p_events st) hasMore false (p_lastEventTime st) (p_oldestEventTime st)
  | _ :: _ =>
      mkPanel (fetchOlder_events olderEvents (p_events st)) hasMore false
              (p_lastEventTime st)
              (match oldestTimestamp with
               | Some stamp => set_if_truthy (stamp_text stamp) (p_oldestEventTime st)
               | None => p_oldestEventTime st
               end)
  end.

Definition fetchOlder (now : Z) (st : Panel) : Async Panel :=
  if p_loadingOlder st || negb (p_hasMore st) then retA st
  else
    match p_oldestEventTime st with
    | None | Some [] => retA st
    | Some ((_ :: _) as before) =>
        let! data := GET Number_toString now None (Some (date_param before)) in
        retA (match data with
              | ServerError =>
                  mkPanel (p_events st) (p_hasMore st) false (p_lastEventTime st)
                          (p_oldestEventTime st)
              | Live olderEvents _ _ hasMore =>
                  fetchOlder_response olderEvents None hasMore st
              | Page olderEvents _ _ oldestTimestamp hasMore =>
                  fetchOlder_response olderEvents (Some oldestTimestamp) hasMore st
              end)
    end.

(** The calls of the panel. *)
Inductive Call : Type :=
| CallInitial
| CallPoll
| CallOlder.

Definition call (c : Call) (now : Z) (st : Panel) : Async Panel :=
  match c with
  | CallInitial => fetchInitial now st
  | CallPoll => pollNew now st
  | CallOlder => fetchOlder now st
  end.

(** A session: calls one after the other, each at its time and with the
    log store as it is then. *)
Fixpoint session (calls : list (Call * Z * LokiBackend)) (st : Panel) : Result Panel :=
  match calls with
  | [] => Ok st
  | (c, now, backend) :: rest =>
      bindR (fst (call c now st backend [])) (session rest)
  end.

End PanelCalls.

(** ** The instance graph *)

(** A point and a series as the chart gets them from a response.  A value
    that is no finite number arrives as [null]. *)
Record ChartPoint : Type := mkChartPoint {
  cp_time : Z;
  cp_value : option Z
}.

Record ActiveSeries : Type := mkActiveSeries {
  as_key : jsstring;
  as_data : list ChartPoint
}.

(** [allTimes]: the set of the times of all points. *)
Definition allTimes (activeSeries : list ActiveSeries) : gset Z :=
  list_to_set (s ← activeSeries; cp_time <$> as_data s).

(** [Array.from(allTimes).sort((a, b) => a - b)]: the elements of a set are
    distinct, and the sort puts them in ascending order whatever order they
    were added in. *)
Definition sortedTimes (activeSeries : list ActiveSeries) : list Z :=
  Array_sort (fun a b => num_sub (Num a) (Num b)) (elements (allTimes activeSeries)).

(** [dp?.value ?? 0] for the first point of the series at [time]. *)
Definition value_at (time : Z) (s : ActiveSeries) : Z :=
  match List.find (fun d => bool_decide (cp_time d = time)) (as_data s) with
  | Some dp => default 0 (cp_value dp)
  | None => 0
  end.

(** The object of one time: its member [time], then one member per series,
    written in the order of the series. *)
Definition chart_point (activeSeries : list ActiveSeries) (time : Z) : gmap jsstring Z :=
  fold_left (fun point s => <[as_key s := value_at time s]> point) activeSeries
            {[ str "time" := time ]}.

Definition chartData (activeSeries : list ActiveSeries) : list (gmap jsstring Z) :=
  chart_point activeSeries <$> sortedTimes activeSeries.

Definition TOP_N : nat := 20.

(** [s.data.length ? Math.max(...s.data.map((d) => d.value)) : 0]; for
    [Math.max], [null] is zero. *)
Definition peak (s : ActiveSeries) : Z :=
  match as_data s with
  | [] => 0
  | d :: ds => fold_left (fun m d' => Z.max m (default 0 (cp_value d'))) ds (default 0 (cp_value d))
  end.

Definition topKeys (activeSeries : list ActiveSeries) : list jsstring :=
  fst <$> take TOP_N
            (Array_sort (fun a b : jsstring * Z => num_sub (Num (snd b)) (Num (snd a)))
               ((fun s => (as_key s, peak s)) <$> activeSeries)).

Definition renderSeries (activeSeries : list ActiveSeries) : list ActiveSeries :=
  filter (fun s => as_key s ∈ topKeys activeSeries) activeSeries.




(** * Vocabulary of the properties

    The predicates, reference functions and sample data in which the
    properties of the program are stated. *)

(** ** Audit lines *)

(** The line holds [customer=] followed by a code unit that is not white
    space: the language of the first pattern. *)
Definition has_customer_field (line : jsstring) : Prop :=
  exists pre c rest, line = pre ++ str "customer=" ++ c :: rest /\ non_space c = true.

(** The line holds [action VERB on resource R], with [VERB] one or more
    code units that are not white space and [R] starting with one: the
    language of the second pattern. *)
Definition has_action_phrase (line : jsstring) : Prop :=
  exists pre verb c rest,
    line = pre ++ str "action " ++ verb ++ str " on resource " ++ c :: rest
    /\ verb <> [] /\ forallb non_space verb = true /\ non_space c = true.

(** The six action verbs of the lookup table, with the event type of each. *)
Definition verb_table : list (jsstring * EventType) :=
  [(str "create:instance", instance_created);
   (str "delete:instance", instance_removed);
   (str "restart:instance", instance_restarted);
   (str "create:tenant", tenant_signup);
   (str "deploy:solution", solution_deployed);
   (str "delete:solution", solution_destroyed)].

(** The example line of the specification, its elision included. *)
Definition example_audit_line : jsstring :=
  str "customer=acme ... action create:instance on resource couchdb/acme-db-1".

(** ** Ranges and steps *)

Definition hours (h : Z) : Z := h * 3600.

(** The step policy in the words of the specification: a duration of at
    most 1h, 6h, 24h, 48h, and anything else. *)
Definition policy_step (duration : jsnum) : Z :=
  if num_le duration (Num (hours 1)) then 60
  else if num_le duration (Num (hours 6)) then 300
  else if num_le duration (Num (hours 24)) then 600
  else if num_le duration (Num (hours 48)) then 1200
  else 3600.

(** The six labels of the range selector. *)
Definition known_ranges : list jsstring :=
  [str "1h"; str "6h"; str "12h"; str "24h"; str "48h"; str "7d"].

#[global] Instance PromRequest_eq_dec : EqDecision PromRequest.
Proof. solve_decision. Defined.


(** ** Sorting *)

Section Keyed.
Context {A : Type} (cmp : A -> A -> jsnum) (key : A -> Z).

(** The comparator orders the elements of [l] by their keys: its result is
    positive exactly when its first argument has the greater key, as the
    sign of [a.time - b.time] tells. *)
Definition keyed (l : list A) : Prop :=
  forall x y, x ∈ l -> y ∈ l -> num_gt (cmp x y) (Num 0) = bool_decide (key y < key x).

End Keyed.

(** ** Instance-count series *)

(** The number is greater than zero. *)
Definition positive (v : jsnum) : Prop :=
  match v with
  | Num z => 0 < z
  | Inf negative => negative = false
  | NaN => False
  end.

Definition flat_zero : PrometheusResult :=
  mkProm {[ str "namespace" := str "idle" ]} (Some [(1700000000, str "0"); (1700000060, str "0")]).

Definition one_spike : PrometheusResult :=
  mkProm {[ str "namespace" := str "busy" ]} (Some [(1700000000, str "0"); (1700000060, str "2")]).

Definition noisy : PrometheusResult :=
  mkProm {[ str "namespace" := str "acme" ]} (Some [(1700000000, str "5"); (1700000060, str "n/a")]).

Definition noisy_rs : PrometheusResult :=
  mkProm {[ str "created_by_name" := str "web-7f9c8d" ]}
         (Some [(1700000000, str "5"); (1700000060, str "n/a")]).

(** The number is zero or greater. *)
Definition not_negative (v : jsnum) : Prop :=
  match v with
  | Num z => 0 <= z
  | Inf negative => negative = false
  | NaN => False
  end.

(** Replica sets for examples: one that never runs a pod, one that runs two
    for a while, and one with the samples of the second whose deployment is
    named [constructor]. *)
Definition idle_rs : PrometheusResult :=
  mkProm {[ str "created_by_name" := str "cron-5d4c7b9f6" ]}
         (Some [(1700000000, str "0"); (1700000060, str "0")]).

Definition busy_rs : PrometheusResult :=
  mkProm {[ str "created_by_name" := str "web-7f9c8d" ]}
         (Some [(1700000000, str "0"); (1700000060, str "2")]).

Definition busy_constructor_rs : PrometheusResult :=
  mkProm {[ str "created_by_name" := str "constructor-7f9c8d" ]}
         (Some [(1700000000, str "0"); (1700000060, str "2")]).

(** ** Merging *)

(** The timestamp of an event when it is finite ([0] stands in for the
    other numbers). *)
Definition tsZ (e : PlatformEvent) : Z :=
  match timestamp e with
  | Num z => z
  | _ => 0
  end.

(** The timestamp is a finite number. *)
Definition numeric (e : PlatformEvent) : Prop := timestamp e = Num (tsZ e).

(** Two audit events that share an id; the second is the newer one. *)
Definition dup_older : PlatformEvent :=
  mkEvent (str "7-acme-create_instance") instance_created glyph_created
          (str "acme") (str "acme created instance a (s)") (Num 1).

Definition dup_newer : PlatformEvent :=
  mkEvent (str "7-acme-create_instance") instance_created glyph_created
          (str "acme") (str "acme created instance b (s)") (Num 2).

(** ** Drill-down grouping *)


(** No result has the logical name [__proto__], the one name under which
    the inner loop writes onto [Object.prototype] itself, where the maps of
    the other groups would find what it wrote. *)
Definition prototype_untouched (results : list PrometheusResult) : Prop :=
  Forall (fun r => deploy_name r <> str "__proto__") results.

(** The samples of the raw series with one logical name, in the order the
    loops visit them. *)
Definition samples_of (name : jsstring) (results : list PrometheusResult) : list (Z * jsstring) :=
  r ← filter (fun r => deploy_name r = name) results; values_of r.

(** The whole number a sample value parses to ([0] stands in for what is
    not finite). *)
Definition int_value (val : jsstring) : Z :=
  match parseInt10 val with
  | Num z => z
  | _ => 0
  end.

(** The value of the sample parses as a finite number. *)
Definition parses (sample : Z * jsstring) : Prop :=
  parseInt10 (snd sample) = Num (int_value (snd sample)).

(** The sum at [ts] as the additions of the code build it: the values of
    the samples taken at [ts], added to [acc] from the left. *)
Fixpoint sum_at (ts : Z) (samples : list (Z * jsstring)) (acc : jsnum) : jsnum :=
  match samples with
  | [] => acc
  | s :: rest =>
      sum_at ts rest (if decide (fst s = ts) then num_add acc (parseInt10 (snd s)) else acc)
  end.



Definition web_a : PrometheusResult :=
  mkProm {[ str "created_by_name" := str "web-7f9c8d" ]} (Some [(1700000000, str "5")]).

Definition web_b : PrometheusResult :=
  mkProm {[ str "created_by_name" := str "web-1a2b3c" ]} (Some [(1700000000, str "3")]).


(** The two replica sets of a deployment named [constructor]. *)
Definition constructor_a : PrometheusResult :=
  mkProm {[ str "created_by_name" := str "constructor-7f9c8d" ]}
         (Some [(1700000000, str "5")]).


(** ** Structured-action lines *)

(** An ASCII literal in which every apostrophe stands for a double quote. *)
Definition quoted (s : string) : jsstring :=
  (fun c => if (c =? 39)%N then 34%N else c) <$> str s.

(** A stand-in for the rendering of numbers, for lines that render none. *)
Definition no_numbers : JNum -> jsstring := fun _ => [].

(** The line holds the marker [msg=] followed by a double quote. *)
Definition has_msg (line : jsstring) : Prop :=
  exists pre rest, line = pre ++ msg_marker ++ rest.

(** A member that is absent or a string. *)
Definition string_or_absent (v : option JSON) : Prop :=
  v = None \/ exists s, v = Some (JString s).

Definition truthy_success_line : jsstring :=
  quoted "level=info msg='{\'action\':\'create-database\',\'success\':\'yes\',\'tenantId\':\'acme\',\'resource\':\'db1\'}'".

(** ** The events handler *)

Definition backward : jsstring := str "backward".

(** The four queries of one fan-out over [[since, now]], in the order they
    are sent. *)
Definition window_requests (since now : jsnum) : list LokiRequest :=
  [mkLokiRequest gui_query (floor_div since 1000) (floor_div now 1000) 200 backward;
   mkLokiRequest signup_query (floor_div since 1000) (floor_div now 1000) 50 backward;
   mkLokiRequest plan_query (floor_div since 1000) (floor_div now 1000) 50 backward;
   mkLokiRequest mcp_query (floor_div since 1000) (floor_div now 1000) 200 backward].

(** What a fetcher returns, apart from the requests it sends. *)
Definition outcome {A : Type} (m : Async A) (backend : LokiBackend) : Result A :=
  fst (m backend []).

(** The merged events of one fan-out: there are some only when none of the
    four fetchers throws. *)
Definition merged_outcome (Number_toString : JNum -> jsstring) (backend : LokiBackend)
  (since now : jsnum) : Result (list PlatformEvent) :=
  match outcome (fetchGUIEvents since now) backend,
        outcome (fetchSignupEvents since now) backend,
        outcome (fetchPlanChangeEvents since now) backend,
        outcome (fetchMCPEvents Number_toString since now) backend with
  | Ok guiEvents, Ok signupEvents, Ok planEvents, Ok mcpEvents =>
      Ok (mergeAndDedup guiEvents signupEvents planEvents mcpEvents)
  | _, _, _, _ => Thrown
  end.

(** The response of the live-poll mode. *)
Definition live_response (sinceP : DateParam) (fetched : Result (list PlatformEvent))
  : EventsResponse :=
  match fetched with
  | Thrown => ServerError
  | Ok allEvents =>
      match (match allEvents with
             | e :: _ => toISOString (timestamp e)
             | [] => Ok (Echo (dp_text sinceP))
             end) with
      | Ok latestTimestamp => Live allEvents (length allEvents) latestTimestamp false
      | Thrown => ServerError
      end
  end.

(** The response of the paginated mode. *)
Definition page_response (now : Z) (before : jsnum) (fetched : Result (list PlatformEvent))
  : EventsResponse :=
  let since := num_sub before (Num CHUNK_MS) in
  match fetched with
  | Thrown => ServerError
  | Ok allEvents =>
      match (match allEvents with
             | e :: _ => toISOString (timestamp e)
             | [] => toISOString before
             end),
            (match last allEvents with
             | Some e => toISOString (timestamp e)
             | None => toISOString since
             end) with
      | Ok latestTimestamp, Ok oldestTimestamp =>
          Page allEvents (length allEvents) latestTimestamp oldestTimestamp
               (num_gt since (Num (now - MAX_HISTORY_MS)))
      | _, _ => ServerError
      end
  end.

(** The [before] cursor: the parameter when it is given, the request time
    otherwise. *)
Definition cursor (now : Z) (beforeParam : option DateParam) : jsnum :=
  match given beforeParam with
  | Some beforeP => dp_time beforeP
  | None => Num now
  end.

Definition days (n : Z) : Z := n * 86400 * 1000.

(** The time value has an ISO text. *)
Definition valid_time (t : jsnum) : Prop := exists stamp, toISOString t = Ok stamp.

(** A log store for examples: two audit lines, three signup lines, one plan
    change, and a 503 for the structured-action query. *)
Definition reply_lines (lines : list (jsstring * jsstring)) : FetchOutcome (list LokiStream) :=
  Reply true (Json (str "success") (Some [mkLokiStream ∅ lines])).

Definition sample_store : LokiBackend :=
  fun rq =>
    if decide (lq_query rq = gui_query) then
      reply_lines
        [(str "1700000000000000000",
          str "customer=acme action create:instance on resource couchdb/db1");
         (str "1700000001000000000",
          str "customer=bob@x.io action create:tenant on resource t")]
    else if decide (lq_query rq = signup_query) then
      reply_lines
        [(str "1700000002000000000", str "GET /create-team?email=bob%40x.io&magic-link=1");
         (str "1700000003000000000", str "GET /create-team?email=al%40x.io&magic-link=1");
         (str "1700000004000000000", str "GET /create-team?email=al%40x.io&magic-link=1")]
    else if decide (lq_query rq = plan_query) then
      reply_lines [(str "1700000005000000000", str "POST /tenantplan id=req1 200")]
    else Reply false NotJson.

(** The page the sample store gives for the window that ends at
    1700000010000. *)
Definition sample_page : list PlatformEvent :=
  Eval vm_compute in
    match merged_outcome no_numbers sample_store
            (Num (1700000010000 - days 3)) (Num 1700000010000) with
    | Ok events => events
    | Thrown => []
    end.

(** The sample store with the audit query failing in transport. *)
Definition gui_down : LokiBackend :=
  fun rq => if decide (lq_query rq = gui_query) then NetworkError else sample_store rq.

Definition since_param : DateParam :=
  mkDateParam (str "2023-11-14T22:13:20.000Z") (Num 1700000000000).

(** The window of a request: from [since] to the request time in the
    live-poll mode, the three days before the cursor in the paginated
    mode. *)
Definition window (now : Z) (sinceParam beforeParam : option DateParam) : jsnum * jsnum :=
  match given sinceParam with
  | Some sinceP => (dp_time sinceP, Num now)
  | None => (num_sub (cursor now beforeParam) (Num CHUNK_MS), cursor now beforeParam)
  end.

(** ** The JSON reader *)

(** A value parser that stops strictly inside its input. *)
Definition shrinks {A : Type} (p : jsstring -> Parsed A) : Prop :=
  forall s a rest, p s = Done a rest -> (length rest < length s)%nat.

(** A value parser that has fuel enough for inputs shorter than [bound]. *)
Definition fuelled {A : Type} (bound : nat) (p : jsstring -> Parsed A) : Prop :=
  forall s, (length s < bound)%nat -> p s <> OutOfFuel.


(** * Further vocabulary

    What the further properties of the handlers, of the metric endpoints and
    of the client are stated in. *)

(** ** Ids *)

(** The kinds the audit-line parser puts into its ids, with the event type
    of each. *)
Definition kind_table : list (jsstring * EventType) :=
  [(str "create_instance", instance_created);
   (str "delete_instance", instance_removed);
   (str "restart_instance", instance_restarted);
   (str "create_tenant", tenant_signup);
   (str "deploy_solution", solution_deployed);
   (str "delete_solution", solution_destroyed)].

(** ** Signups *)

(** The signup event of a log entry for a decoded email. *)
Definition signup_event (entry : jsstring * jsstring) (email : jsstring) : PlatformEvent :=
  mkEvent (makeId (fst entry) email (str "signup")) tenant_signup glyph_signup
          email (str "New signup: " ++ email)
          (floor_div (parseInt10 (fst entry)) 1000000).

(** The line carries an email that decodes to [email]. *)
Definition has_email (email : jsstring) (entry : jsstring * jsstring) : Prop :=
  exists m, search email_at (snd entry) = Some m /\ decodeURIComponent m = Ok email.

(** The line carries an email that does not decode. *)
Definition undecodable (entry : jsstring * jsstring) : Prop :=
  exists m, search email_at (snd entry) = Some m /\ decodeURIComponent m = Thrown.

(** The request of the signup fetcher for a window. *)
Definition signup_request (since now : jsnum) : LokiRequest :=
  mkLokiRequest signup_query (floor_div since 1000) (floor_div now 1000) 50 backward.

(** ** The handler *)

(** A log store without a line for any query. *)
Definition quiet : LokiBackend -> Prop :=
  fun backend => forall rq, read_reply (backend rq) = Ok [].

Definition silent_store : LokiBackend :=
  fun _ => Reply true (Json (str "success") (Some [])).

(** The sample store with a signup line whose email ends in a lone percent
    sign. *)
Definition bad_email_entry : jsstring * jsstring :=
  (str "1700000006000000000", str "GET /create-team?email=100%&magic-link=1").

Definition bad_email_store : LokiBackend :=
  fun rq =>
    if decide (lq_query rq = signup_query) then reply_lines [bad_email_entry]
    else sample_store rq.

(** ** The kinds of ids *)

(** The kind of an id: what follows its last hyphen. *)
Definition id_kind (i : jsstring) : jsstring :=
  match split_last_hyphen i with
  | Some (_, kind) => kind
  | None => i
  end.

(** The kinds the structured-action parser puts into its ids. *)
Definition mcp_kinds : list jsstring :=
  [str "mcp_create_db"; str "mcp_create_instance"; str "mcp_delete_instance";
   str "mcp_restart_instance"; str "mcp_create_app"; str "mcp_delete_app";
   str "mcp_restart_app"; str "mcp_deploy_solution"; str "mcp_remove_solution"].

(** The kinds of the four sources, in the order of the fan-out. *)
Definition source_kinds : list (list jsstring) :=
  [kind_table.*1; [str "signup"]; [str "plan_change"]; mcp_kinds].

(** ** Query windows *)

(** The window of a range query is one of the selector: between one hour and
    seven days wide, a whole number of steps, with 60 to 168 steps. *)
Definition bounded_window (rq : PromRequest) : Prop :=
  exists start : Z,
    pq_start rq = Num start
    /\ let width := pq_end rq - start in
       3600 <= width <= 604800
       /\ width mod pq_step rq = 0
       /\ 60 <= width / pq_step rq <= 168.

(** A reading of the clock in seconds: a time value is at most 8.64e15
    milliseconds in magnitude. *)
Definition clock_reading (now : Z) : Prop := Z.abs now <= 8640000000000.

(** ** Order of first occurrence *)

(** The names of a list, each once, in the order of their first
    occurrence. *)
Fixpoint first_seen (names : list jsstring) : list jsstring :=
  match names with
  | [] => []
  | x :: l => x :: filter (fun y => y <> x) (first_seen l)
  end.

(** The array index a name stands for ([0] for the other names). *)
Definition index_of (name : jsstring) : Z :=
  match array_index name with
  | Some i => Z.of_N i
  | None => 0
  end.

(** The samples of the pods of one tenant, in the order the loops visit
    them. *)
Definition pod_samples_of (tenant0 : jsstring) (results : list PrometheusResult)
  : list (Z * jsstring) :=
  r ← filter (fun r => pod_tenant r = tenant0) results; values_of r.

(** Pods for examples: one of the tenant [zeta], one of the tenant [10], two
    of the tenant [acme], one whose name starts with a hyphen and one
    without the label. *)
Definition pod_of (podName : jsstring) (val : jsstring) : PrometheusResult :=
  mkProm {[ str "pod" := podName ]} (Some [(1700000000, val)]).

Definition sample_pods : list PrometheusResult :=
  [pod_of (str "zeta-web-5d4c7b9f6-x2x4z") (str "1");
   pod_of (str "10-cache-7f9c8d-abcde") (str "1");
   pod_of (str "acme-web-7f9c8d-k8s2p") (str "1");
   pod_of (str "-orphan") (str "1");
   mkProm ∅ (Some [(1700000000, str "1")]);
   pod_of (str "acme-db-1a2b3c-q9q9q") (str "1")].

(** ** The current instances *)

(** The rank of a count: the greater the count, the smaller its rank. *)
Definition rank_of (count : jsnum) : Z :=
  match count with
  | Num z => - z
  | Inf negative => if negative then overflow_threshold else - overflow_threshold
  | NaN => 0
  end.

Definition count_rank (t : TenantInfo) : Z := rank_of (ti_count t).

(** A count above zero that [parseInt] can give: a finite one is below the
    overflow threshold. *)
Definition ranked (count : jsnum) : Prop :=
  positive count /\ forall z, count = Num z -> Z.abs z < overflow_threshold.

(** The tenant that the handler makes of a result. *)
Definition tenant_of (r : InstantResult) (t : TenantInfo) : Prop :=
  truthy_label (im_metric r !! str "namespace") = Some (ti_namespace t)
  /\ ti_count t = parseInt10 (count_text r)
  /\ ti_services t = [].

(** The request that [getTenantServices] sends for a tenant when the clock
    reads [now]. *)
Definition series_request (now : Z) (t : TenantInfo) : SeriesRequest :=
  mkSeriesRequest (series_match (ti_namespace t)) (now - 3600) now.

(** A metric store with three tenants and a log store for examples. *)
Definition instant_of (namespace val : jsstring) : InstantResult :=
  mkInstant {[ str "namespace" := namespace ]} (Some (1700000000, val)).

Definition sample_counts : list InstantResult :=
  [instant_of (str "acme") (str "2");
   instant_of (str "idle") (str "0");
   instant_of (str "zeta") (str "7");
   mkInstant ∅ (Some (1700000000, str "4"))].

Definition sample_instant : InstantBackend :=
  fun _ => Reply true (Json (str "success") (Some sample_counts)).

Definition sample_labels : SeriesBackend :=
  fun rq =>
    if decide (sq_match rq = series_match (str "zeta")) then
      Reply true (Json (str "success")
                    (Some [{[ str "eyevinnlabel_service" := str "couchdb" ]};
                           {[ str "eyevinnlabel_service" := str "minio" ]};
                           {[ str "eyevinnlabel_service" := str "couchdb" ]}]))
    else NetworkError.

(** ** The panel *)

(** The events of a response. *)
Definition response_events (data : EventsResponse) : list PlatformEvent :=
  match data with
  | Live events _ _ _ | Page events _ _ _ _ => events
  | ServerError => []
  end.

(** The call is a poll or the load of an older page. *)
Definition keeps_list (c : Call * Z * LokiBackend) : Prop := fst (fst c) <> CallInitial.

(** A stand-in for the ISO text of a time value, for examples that read no
    text. *)
Definition some_text : Z -> jsstring := fun _ => str "T".

(** A panel that has loaded its first page at 1700000000000 from a log store
    without lines. *)
Definition idle_panel : Panel :=
  mkPanel [] true false (Some (str "T")) (Some (str "T")).

(** Loads of older pages, one after the other, each at its time and with
    the log store as it is then. *)
Definition older_loads (rounds : list (Z * LokiBackend)) : list (Call * Z * LokiBackend) :=
  (fun r => (CallOlder, fst r, snd r)) <$> rounds.

(** ** Muting *)

(** A click on a mute button ([true]) or on an unmute button ([false]) of a
    tenant. *)
Definition apply_click (muted : list jsstring) (click : bool * jsstring) : list jsstring :=
  if fst click then handleMute (snd click) muted else handleUnmute (snd click) muted.

(** ** Event items *)

(** The first occurrence of [sep] in [s]: what precedes it and what follows
    it. *)
Fixpoint find_first (sep s : jsstring) : option (jsstring * jsstring) :=
  match after_prefix sep s with
  | Some rest => Some ([], rest)
  | None =>
      match s with
      | [] => None
      | c :: s' =>
          match find_first sep s' with
          | Some (pre, rest) => Some (c :: pre, rest)
          | None => None
          end
      end
  end.

Definition fragment_text (f : Fragment) : jsstring :=
  match f with
  | Plain text | TenantEl text => text
  end.

(** The text that the fragments show, one after the other. *)
Definition shown_text (fragments : list Fragment) : jsstring :=
  concat (fragment_text <$> fragments).

(** The milliseconds of the unit of a label. *)
Definition unit_ms (label : jsstring) : Z :=
  if decide (label = str "s ago") then 1000
  else if decide (label = str "m ago") then 60000
  else if decide (label = str "h ago") then 3600000
  else 86400000.

(** ** The instance graph *)

(** A series of a response as the chart gets it. *)
Definition chart_value (v : jsnum) : option Z :=
  match v with
  | Num z => Some z
  | _ => None
  end.

Definition to_chart (s : Series) : ActiveSeries :=
  mkActiveSeries (key s) ((fun d => mkChartPoint (time d) (chart_value (value d))) <$> data s).

(** Series for examples. *)
Definition chart_of (name : string) (values : list (Z * Z)) : ActiveSeries :=
  mkActiveSeries (str name) ((fun tv => mkChartPoint (fst tv) (Some (snd tv))) <$> values).

Definition sample_chart : list ActiveSeries :=
  [chart_of "acme" [(1000, 2); (2000, 5)];
   chart_of "zeta" [(2000, 1); (3000, 4)];
   chart_of "idle" []].

(** ** Replies of the metric store *)

(** The reply cannot be read: the transport failed, the body of a 2xx
    reply is no JSON, or a [success] body has no readable result. *)
Definition unreadable {R : Type} (o : FetchOutcome (list R)) : Prop :=
  o = NetworkError \/ o = Reply true NotJson \/ o = Reply true (Json (str "success") None).

(** The store refuses: a status outside 2xx, or a body whose [status] is
    not [success]. *)
Definition refused {R : Type} (o : FetchOutcome (list R)) : Prop :=
  (exists body, o = Reply false body)
  \/ (exists status result, o = Reply true (Json status result) /\ status <> str "success").

(** The request of a range endpoint for a query. *)
Definition range_request (query : jsstring) (now : Z) (rangeParam : option jsstring)
    (fallback : jsstring) : PromRequest :=
  mkPromRequest query
    (num_sub (Num now) (as_number (rangeSeconds (param_or rangeParam fallback)))) now
    (stepForRange (rangeSeconds (param_or rangeParam fallback))).

(** A metric store that answers every query with status 503. *)
Definition down_store : PromBackend := fun _ => Reply false NotJson.

(** ** Marked descriptions *)

(** The item shows the tenant of the event first, marked, and then the rest
    of the description. *)
Definition tenant_first (event : PlatformEvent) : Prop :=
  exists rest,
    description event = tenant event ++ rest
    /\ EventItem_description event = [Plain []; TenantEl (tenant event); Plain rest].

(** * Properties *)

#[global] Arguments str : simpl never.

(** ** Matching *)

Lemma after_prefix_Some (p s r : jsstring) :
  after_prefix p s = Some r <-> s = p ++ r.
Proof.
  revert s. induction p as [|a p IH]; intros s; simpl.
  - split; [intros [= ->]; reflexivity | intros ->; reflexivity].
  - destruct s as [|b s]; [split; [discriminate | intros [=]]|].
    destruct (decide (a = b)) as [->|Hne].
    + rewrite IH. split; [intros ->; reflexivity | intros [= ->]; reflexivity].
    + split; [discriminate | intros [= Hab _]; congruence].
Qed.

Lemma after_prefix_app (p r : jsstring) : after_prefix p (p ++ r) = Some r.
Proof. apply after_prefix_Some. reflexivity. Qed.

(** [span] cuts its input in two: a run inside the class, and a rest that is
    empty or starts outside it. *)
Lemma span_spec (p : N -> bool) (s : jsstring) :
  s = fst (span p s) ++ snd (span p s)
  /\ forallb p (fst (span p s)) = true
  /\ match snd (span p s) with [] => True | c :: _ => p c = false end.
Proof.
  induction s as [|c s IH]; simpl; [auto|].
  destruct (p c) eqn:Hc.
  - destruct (span p s) as [run rest]; simpl in *.
    destruct IH as (-> & Hrun & Hrest). rewrite Hc. auto.
  - simpl. rewrite Hc. auto.
Qed.

Lemma span_app (p : N -> bool) (run rest : jsstring) :
  forallb p run = true ->
  match rest with [] => True | c :: _ => p c = false end ->
  span p (run ++ rest) = (run, rest).
Proof.
  intros Hrun Hrest. induction run as [|c run IH]; simpl in *.
  - destruct rest as [|c rest]; [reflexivity|]. simpl. rewrite Hrest. reflexivity.
  - apply andb_true_iff in Hrun as [Hc Hrun]. rewrite Hc, (IH Hrun). reflexivity.
Qed.

(** The run is empty exactly when the input is empty or starts outside the
    class. *)
Lemma span_nil (p : N -> bool) (s : jsstring) :
  fst (span p s) = [] <-> match s with [] => True | c :: _ => p c = false end.
Proof.
  destruct s as [|c s]; simpl; [tauto|].
  destruct (p c); [|tauto]. destruct (span p s). simpl. split; [discriminate | discriminate].
Qed.

(** [search] fails exactly when the matcher fails at every start position. *)
Lemma search_None {A : Type} (m : jsstring -> option A) (s : jsstring) :
  search m s = None <-> forall pre suf, s = pre ++ suf -> m suf = None.
Proof.
  induction s as [|c s IH]; simpl.
  - split.
    + intros H pre suf Heq. symmetry in Heq. apply app_eq_nil in Heq as [_ ->].
      destruct (m []); [discriminate | reflexivity].
    + intros H. rewrite (H [] [] eq_refl). reflexivity.
  - split.
    + intros H pre suf Heq. destruct (m (c :: s)) eqn:Hm; [discriminate|].
      destruct pre as [|c' pre]; simpl in Heq.
      * subst suf. exact Hm.
      * injection Heq as -> ->. rewrite IH in H. eapply H. reflexivity.
    + intros H. rewrite (H [] (c :: s) eq_refl). apply IH.
      intros pre suf ->. apply (H (c :: pre) suf). reflexivity.
Qed.

(** A successful [search] is the matcher's answer at the first start position
    where it succeeds. *)
Lemma search_Some {A : Type} (m : jsstring -> option A) (s : jsstring) (r : A) :
  search m s = Some r <->
  exists pre suf, s = pre ++ suf /\ m suf = Some r
    /\ forall pre' suf', pre = pre' ++ suf' -> suf' <> [] -> m (suf' ++ suf) = None.
Proof.
  induction s as [|c s IH]; simpl.
  - split.
    + intros H. exists [], []. destruct (m []) eqn:Hm; [|discriminate].
      repeat split; [congruence|]. intros pre' suf' Heq Hne.
      symmetry in Heq. apply app_eq_nil in Heq as [_ ->]. congruence.
    + intros (pre & suf & Heq & Hm & _). symmetry in Heq.
      apply app_eq_nil in Heq as [-> ->]. rewrite Hm. reflexivity.
  - destruct (m (c :: s)) eqn:Hm.
    + split.
      * intros [= ->]. exists [], (c :: s). repeat split; [exact Hm|].
        intros pre' suf' Heq Hne. symmetry in Heq.
        apply app_eq_nil in Heq as [_ ->]. congruence.
      * intros (pre & suf & Heq & Hr & Hfirst).
        destruct pre as [|c' pre]; simpl in Heq.
        -- subst suf. congruence.
        -- injection Heq as -> ->.
           specialize (Hfirst [] (c' :: pre) eq_refl). simpl in Hfirst.
           rewrite Hfirst in Hm; [discriminate | discriminate].
    + rewrite IH. split.
      * intros (pre & suf & -> & Hr & Hfirst). exists (c :: pre), suf.
        repeat split; [exact Hr|]. intros pre' suf' Heq Hne.
        destruct pre' as [|c' pre']; simpl in Heq.
        -- subst suf'. exact Hm.
        -- injection Heq as -> ->. eapply Hfirst; [reflexivity | exact Hne].
      * intros (pre & suf & Heq & Hr & Hfirst).
        destruct pre as [|c' pre]; simpl in Heq.
        -- subst suf. congruence.
        -- injection Heq as -> ->. exists pre, suf. repeat split; [exact Hr|].
           intros pre' suf' -> Hne. apply (Hfirst (c' :: pre') suf'); [reflexivity | exact Hne].
Qed.

(** ** Numbers *)

Lemma nearest_even_spec (num den : Z) :
  0 <= num -> 0 < den ->
  2 * Z.abs (nearest_even num den * den - num) <= den
  /\ num / den <= nearest_even num den <= num / den + 1.
Proof.
  intros Hnum Hden. unfold nearest_even.
  pose proof (Z.div_mod num den ltac:(lia)) as Hdm.
  pose proof (Z.mod_pos_bound num den Hden) as Hr.
  destruct (den <? 2 * (num mod den)) eqn:Hlt; cbn [orb].
  - apply Z.ltb_lt in Hlt. split; lia.
  - apply Z.ltb_ge in Hlt.
    destruct (Z.eqb_spec den (2 * (num mod den))) as [Heq|Hne]; cbn [andb];
      [destruct (Z.odd (num / den))|]; split; lia.
Qed.

Lemma to_double_exact (z : Z) : Z.abs z <= 2 ^ 53 -> to_double z = z.
Proof.
  intros H. unfold to_double. apply Z.leb_le in H. rewrite H. reflexivity.
Qed.

Lemma norm_exact (z : Z) : Z.abs z <= 2 ^ 53 -> norm z = Num z.
Proof.
  intros H. unfold norm. rewrite (to_double_exact z H).
  assert ((overflow_threshold <=? Z.abs z) = false) as ->; [|reflexivity].
  apply Z.leb_gt. eapply Z.le_lt_trans; [exact H|]. reflexivity.
Qed.

(** What rounding moves a whole number by: at most half the weight of the
    last of its 53 leading bits. *)
Lemma to_double_error (z : Z) :
  2 ^ 53 < Z.abs z ->
  2 * Z.abs (to_double z - z) <= 2 ^ (Z.log2 (Z.abs z) - 52).
Proof.
  intros H. unfold to_double.
  destruct (Z.leb_spec (Z.abs z) (2 ^ 53)) as [Hle|_]; [lia|].
  assert (53 <= Z.log2 (Z.abs z)) as Hlog.
  { apply Z.log2_le_pow2; lia. }
  set (sh := Z.log2 (Z.abs z) - 52).
  assert (0 < 2 ^ sh) as Hpos by (apply Z.pow_pos_nonneg; lia).
  destruct (nearest_even_spec (Z.abs z) (2 ^ sh) ltac:(lia) Hpos) as [Herr _].
  generalize dependent (nearest_even (Z.abs z) (2 ^ sh)). intros k Herr.
  generalize dependent (2 ^ sh). intros P _ Herr.
  destruct (Z.sgn_spec z) as [[Hz ->]|[[Hz ->]|[Hz ->]]]; lia.
Qed.

(** Rounding keeps the sign. *)
Lemma to_double_sgn (z : Z) : Z.sgn (to_double z) = Z.sgn z.
Proof.
  unfold to_double. destruct (Z.leb_spec (Z.abs z) (2 ^ 53)) as [Hle|Hgt]; [reflexivity|].
  assert (53 <= Z.log2 (Z.abs z)) as Hlog.
  { apply Z.log2_le_pow2; lia. }
  set (sh := Z.log2 (Z.abs z) - 52).
  assert (0 < 2 ^ sh) as Hpos by (apply Z.pow_pos_nonneg; lia).
  destruct (nearest_even_spec (Z.abs z) (2 ^ sh) ltac:(lia) Hpos) as [_ [Hk _]].
  assert (1 <= Z.abs z / 2 ^ sh) as Hq.
  { apply Z.div_le_lower_bound; [exact Hpos|]. rewrite Z.mul_1_r.
    pose proof (Z.log2_spec (Z.abs z) ltac:(lia)) as [Hlo _].
    eapply Z.le_trans; [|exact Hlo]. apply Z.pow_le_mono_r; lia. }
  assert (0 < nearest_even (Z.abs z) (2 ^ sh) * 2 ^ sh) as Hprod by nia.
  rewrite Z.sgn_mul, (Z.sgn_pos _ Hprod), Z.mul_1_r. apply Z.sgn_sgn.
Qed.

Lemma norm_positive (z : Z) : num_gt (norm z) (Num 0) = (0 <? z).
Proof.
  unfold norm. pose proof (to_double_sgn z) as Hs.
  destruct (overflow_threshold <=? Z.abs (to_double z)) eqn:Hover; cbn [num_gt].
  - apply Z.leb_le in Hover.
    assert (0 < overflow_threshold) by reflexivity.
    destruct (Z.ltb_spec z 0), (Z.ltb_spec 0 z); try reflexivity; lia.
  - destruct (Z.ltb_spec 0 (to_double z)), (Z.ltb_spec 0 z); try reflexivity; lia.
Qed.

Lemma num_sub_Num (x y : Z) : num_sub (Num x) (Num y) = norm (x - y).
Proof. reflexivity. Qed.

(** The sign of a difference tells which of two finite numbers is the
    greater, whatever the rounding. *)
Lemma num_sub_gt (x y : Z) : num_gt (num_sub (Num x) (Num y)) (Num 0) = (y <? x).
Proof.
  rewrite num_sub_Num, norm_positive.
  destruct (Z.ltb_spec 0 (x - y)), (Z.ltb_spec y x); try reflexivity; lia.
Qed.

(** [quotient_exponent p d] is the exponent of the quotient: [p / d] lies
    between [2^ex] and [2^(ex+1)]. *)
Lemma quotient_exponent_spec (p d : Z) :
  0 < p -> 0 < d ->
  d * 2 ^ Z.max (quotient_exponent p d) 0
  <= p * 2 ^ Z.max (- quotient_exponent p d) 0
  < 2 * (d * 2 ^ Z.max (quotient_exponent p d) 0).
Proof.
  intros Hp Hd. unfold quotient_exponent.
  pose proof (Z.log2_spec p Hp) as Hlp. pose proof (Z.log2_spec d Hd) as Hld.
  pose proof (Z.log2_nonneg p) as Hlp0. pose proof (Z.log2_nonneg d) as Hld0.
  rewrite !Z.shiftl_mul_pow2 by lia.
  rewrite !Z.pow_succ_r in Hlp, Hld by assumption.
  set (l := Z.log2 p - Z.log2 d).
  destruct (Z.le_gt_cases 0 l) as [Hl|Hl].
  - (* the exponents differ by [l >= 0] *)
    assert (2 ^ Z.log2 p = 2 ^ Z.log2 d * 2 ^ l) as Hsplit
      by (rewrite <- Z.pow_add_r by lia; f_equal; lia).
    rewrite Hsplit in Hlp.
    assert (0 < 2 ^ l) as HB by (apply Z.pow_pos_nonneg; lia).
    replace (Z.max l 0) with l by lia. replace (Z.max (- l) 0) with 0 by lia.
    rewrite Z.pow_0_r, Z.mul_1_r.
    destruct (Z.leb_spec (d * 2 ^ l) p) as [Htest|Htest].
    + replace (Z.max l 0) with l by lia. replace (Z.max (- l) 0) with 0 by lia.
      rewrite Z.pow_0_r, Z.mul_1_r. nia.
    + destruct (Z.eq_dec l 0) as [Hl0|Hl0].
      * replace (Z.max (l - 1) 0) with 0 by lia.
        replace (Z.max (- (l - 1)) 0) with 1 by lia.
        assert (2 ^ l = 1) as Hone by (rewrite Hl0; reflexivity).
        rewrite Hone in *. rewrite Z.pow_0_r, Z.pow_1_r. lia.
      * replace (Z.max (l - 1) 0) with (l - 1) by lia.
        replace (Z.max (- (l - 1)) 0) with 0 by lia.
        rewrite Z.pow_0_r, Z.mul_1_r.
        assert (2 ^ l = 2 * 2 ^ (l - 1)) as Hhalf
          by (rewrite <- Z.pow_succ_r by lia; f_equal; lia).
        rewrite Hhalf in *. nia.
  - (* the exponents differ by [l < 0] *)
    assert (2 ^ Z.log2 d = 2 ^ Z.log2 p * 2 ^ (- l)) as Hsplit
      by (rewrite <- Z.pow_add_r by lia; f_equal; lia).
    rewrite Hsplit in Hld.
    assert (0 < 2 ^ (- l)) as HC by (apply Z.pow_pos_nonneg; lia).
    replace (Z.max l 0) with 0 by lia. replace (Z.max (- l) 0) with (- l) by lia.
    rewrite Z.pow_0_r, Z.mul_1_r.
    destruct (Z.leb_spec d (p * 2 ^ (- l))) as [Htest|Htest].
    + replace (Z.max l 0) with 0 by lia. replace (Z.max (- l) 0) with (- l) by lia.
      rewrite Z.pow_0_r, Z.mul_1_r. nia.
    + replace (Z.max (l - 1) 0) with 0 by lia.
      replace (Z.max (- (l - 1)) 0) with (Z.succ (- l)) by lia.
      rewrite Z.pow_0_r, Z.mul_1_r, Z.pow_succ_r by lia. nia.
Qed.

(** A quotient below 2^53 in magnitude as the division computes it:
    [k / 2^a] for the whole number [k] nearest to the quotient scaled by
    [2^a], the scale that gives [k] its 53 bits. *)
Lemma floor_quotient_small (x d : Z) :
  x <> 0 -> 0 < d -> Z.abs x < 2 ^ 53 * d ->
  exists a k : Z,
    0 <= a
    /\ d * 2 ^ 52 <= Z.abs x * 2 ^ a < d * 2 ^ 53
    /\ 2 * Z.abs (k * d - x * 2 ^ a) <= d
    /\ floor_quotient x d = k / 2 ^ a.
Proof.
  intros Hx Hd Hsmall.
  pose proof (quotient_exponent_spec (Z.abs x) d ltac:(lia) Hd) as Hex.
  unfold floor_quotient. rewrite (proj2 (Z.eqb_neq x 0)) by lia.
  set (p := Z.abs x) in *.
  set (ex := quotient_exponent p d) in *.
  assert (ex <= 52) as Hle.
  { destruct (Z.le_gt_cases ex 52) as [|Hgt]; [assumption|exfalso].
    replace (Z.max ex 0) with ex in Hex by lia.
    replace (Z.max (- ex) 0) with 0 in Hex by lia.
    rewrite Z.pow_0_r, Z.mul_1_r in Hex.
    assert (2 ^ 53 <= 2 ^ ex) by (apply Z.pow_le_mono_r; lia). nia. }
  exists (52 - ex), (Z.sgn x * nearest_even (p * 2 ^ (52 - ex)) d).
  replace (Z.max (- (ex - 52)) 0) with (52 - ex) by lia.
  replace (Z.max (ex - 52) 0) with 0 by lia.
  rewrite Z.shiftl_0_r, (Z.shiftl_mul_pow2 p (52 - ex)) by lia.
  assert (0 < 2 ^ (52 - ex)) as HP by (apply Z.pow_pos_nonneg; lia).
  split; [lia|]. split; [|split].
  - destruct (Z.le_gt_cases 0 ex) as [Hpos|Hneg].
    + replace (Z.max ex 0) with ex in Hex by lia.
      replace (Z.max (- ex) 0) with 0 in Hex by lia.
      rewrite Z.pow_0_r, Z.mul_1_r in Hex.
      assert (2 ^ 52 = 2 ^ ex * 2 ^ (52 - ex)) as Hsplit
        by (rewrite <- Z.pow_add_r by lia; f_equal; lia).
      replace (2 ^ 53) with (2 * 2 ^ 52) by reflexivity. rewrite Hsplit.
      assert (0 < 2 ^ ex) by (apply Z.pow_pos_nonneg; lia). nia.
    + replace (Z.max ex 0) with 0 in Hex by lia.
      replace (Z.max (- ex) 0) with (- ex) in Hex by lia.
      rewrite Z.pow_0_r, Z.mul_1_r in Hex.
      assert (2 ^ (52 - ex) = 2 ^ 52 * 2 ^ (- ex)) as Hsplit
        by (rewrite <- Z.pow_add_r by lia; f_equal; lia).
      replace (2 ^ 53) with (2 * 2 ^ 52) by reflexivity. rewrite Hsplit.
      generalize dependent (2 ^ (- ex)). intros; lia.
  - destruct (nearest_even_spec (p * 2 ^ (52 - ex)) d ltac:(nia) Hd) as [Herr _].
    generalize dependent (nearest_even (p * 2 ^ (52 - ex)) d). intros k Herr.
    generalize dependent (2 ^ (52 - ex)). intros P HP Herr. subst p.
    destruct (Z.sgn_spec x) as [[Hz ->]|[[Hz ->]|[Hz ->]]];
      [rewrite (Z.abs_eq x) in Herr by lia | | rewrite (Z.abs_neq x) in Herr by lia]; lia.
  - rewrite Z.shiftl_div_pow2 by lia. do 2 f_equal. lia.
Qed.

(** On a whole number below 2^53 in magnitude the division and the
    rounding down give the integer quotient. *)
Lemma floor_quotient_exact (x d : Z) :
  Z.abs x < 2 ^ 53 -> 0 < d -> floor_quotient x d = x / d.
Proof.
  intros Hx Hd.
  destruct (Z.eq_dec x 0) as [->|Hne]; [reflexivity|].
  destruct (floor_quotient_small x d) as (a & k & Ha & [Hlo Hhi] & Herr & ->); [lia|lia|nia|].
  assert (0 < 2 ^ a) as HP by (apply Z.pow_pos_nonneg; lia).
  pose proof (Z.div_mod x d ltac:(lia)) as Hdm.
  pose proof (Z.mod_pos_bound x d Hd) as Hr.
  generalize dependent (x / d). generalize dependent (x mod d). intros r Hr q Hdm.
  generalize dependent (2 ^ a). intros P Hlo Hhi Herr HP.
  assert (d < 2 * P) as HdP by nia.
  symmetry. apply Z.div_unique with (r := k - q * P); [|lia].
  left.
  assert (2 * (k * d) <= 2 * (x * P) + d) as Hup by lia.
  assert (2 * (x * P) - d <= 2 * (k * d)) as Hdown by lia.
  rewrite Hdm in Hup, Hdown.
  split.
  - destruct (Z.eq_dec r 0) as [->|Hr0]; [nia|].
    assert (d <= 2 * (r * P)) by nia. nia.
  - assert (2 * (r * P) + d < 2 * (d * P)) by nia. nia.
Qed.

(** A whole number [x] within [e] of [n], divided: the result is within
    one of the integer quotient of [n], when [e] is small against the
    divisor. *)
Lemma floor_quotient_near (x n d e : Z) :
  x <> 0 -> 0 < d -> Z.abs x < 2 ^ 53 * d ->
  Z.abs (x - n) <= e -> 2 * e <= d ->
  n / d - 1 <= floor_quotient x d <= n / d + 1.
Proof.
  intros Hx Hd Hsmall He Hed.
  destruct (floor_quotient_small x d Hx Hd Hsmall) as (a & k & Ha & _ & Herr & ->).
  assert (0 < 2 ^ a) as HP by (apply Z.pow_pos_nonneg; lia).
  pose proof (Z.div_mod n d ltac:(lia)) as Hdm.
  pose proof (Z.mod_pos_bound n d Hd) as Hr.
  generalize dependent (n / d). generalize dependent (n mod d). intros r Hr q Hdm.
  generalize dependent (2 ^ a). intros P Herr HP.
  split.
  - apply Z.div_le_lower_bound; [exact HP|].
    assert (2 * (x * P) - d <= 2 * (k * d)) as H1 by lia.
    assert (2 * ((n - e) * P) <= 2 * (x * P)) as H2 by nia.
    assert (e * P + e * P + d <= d * P + d * P) as H3 by nia.
    assert (2 * (d * (P * (q - 1))) <= 2 * (k * d)) as H4 by nia.
    nia.
  - apply Z.lt_succ_r. apply Z.div_lt_upper_bound; [exact HP|].
    assert (2 * (k * d) <= 2 * (x * P) + d) as H1 by lia.
    assert (2 * (x * P) <= 2 * ((n + e) * P)) as H2 by nia.
    assert (2 * (k * d) < 2 * (d * (P * Z.succ (q + 1)))) as H4 by nia.
    nia.
Qed.

Lemma norm_finite (z : Z) :
  Z.abs (to_double z) < overflow_threshold -> norm z = Num (to_double z).
Proof. intros H. unfold norm. apply Z.leb_gt in H. rewrite H. reflexivity. Qed.

(** Nanoseconds to milliseconds, as [Math.floor(n / 1000000)] computes them
    on the double nearest to [n]: within one of the integer quotient, for
    the 63 bits of a nanosecond clock. *)
Lemma millis_near (n : Z) :
  0 <= n < 2 ^ 63 ->
  exists t : Z,
    floor_div (norm n) 1000000 = Num t /\ n / 1000000 - 1 <= t <= n / 1000000 + 1.
Proof.
  intros [Hn0 Hn].
  destruct (Z.eq_dec n 0) as [->|Hne]; [exists 0; split; [reflexivity|change (0 / 1000000) with 0; lia]|].
  assert (Z.abs (to_double n - n) <= 512) as Herr.
  { destruct (Z.le_gt_cases (Z.abs n) (2 ^ 53)) as [Hle|Hgt].
    - rewrite to_double_exact by exact Hle. lia.
    - pose proof (to_double_error n Hgt) as H.
      assert (2 ^ (Z.log2 (Z.abs n) - 52) <= 2 ^ 10); [|lia].
      apply Z.pow_le_mono_r; [lia|].
      assert (Z.log2 (Z.abs n) < 63); [|lia].
      apply Z.log2_lt_pow2; lia. }
  pose proof (to_double_sgn n) as Hsgn. rewrite (Z.sgn_pos n) in Hsgn by lia.
  apply Z.sgn_pos_iff in Hsgn.
  rewrite norm_finite.
  - exists (floor_quotient (to_double n) 1000000). split; [reflexivity|].
    apply floor_quotient_near with (e := 512); lia.
  - assert (2 ^ 64 < overflow_threshold) by reflexivity. lia.
Qed.

(** Below 2^53 the milliseconds are the integer quotient. *)
Lemma millis_exact (n : Z) :
  0 <= n < 2 ^ 53 -> floor_div (norm n) 1000000 = Num (n / 1000000).
Proof.
  intros Hn. rewrite norm_exact by lia. cbn [floor_div].
  rewrite floor_quotient_exact by lia. reflexivity.
Qed.

(** ** Decimal numerals *)

Lemma digits_value_app (ds1 ds2 : jsstring) (z0 : Z) :
  fold_left (fun acc c => 10 * acc + digit_value c) (ds1 ++ ds2) z0 =
  fold_left (fun acc c => 10 * acc + digit_value c) ds2
    (fold_left (fun acc c => 10 * acc + digit_value c) ds1 z0).
Proof. apply fold_left_app. Qed.

Lemma decimal_digit (n : N) : is_digit (48 + n mod 10) = true.
Proof.
  unfold is_digit. pose proof (N.mod_upper_bound n 10 ltac:(discriminate)) as H.
  generalize dependent (n mod 10)%N. intros m H.
  apply andb_true_iff. split; apply N.leb_le; lia.
Qed.

(** With enough fuel [decimal_fuel] writes the digits of [n] in front of
    [acc]: they are digits, there is at least one, the first is not [0]
    unless [n] is, and read back in base ten they give [n]. *)
Lemma decimal_fuel_spec (fuel : nat) : forall (n : N) (acc : jsstring),
  (n < 10 ^ N.of_nat fuel)%N -> fuel <> O ->
  exists ds, decimal_fuel fuel n acc = ds ++ acc
    /\ ds <> [] /\ forallb is_digit ds = true
    /\ forall z0, fold_left (fun a c => 10 * a + digit_value c) ds z0
                  = z0 * 10 ^ Z.of_nat (length ds) + Z.of_N n.
Proof.
  induction fuel as [|fuel IH]; intros n acc Hn Hfuel; [congruence|].
  simpl decimal_fuel. clear Hfuel.
  - destruct (n <? 10)%N eqn:Hlt.
    + apply N.ltb_lt in Hlt. exists [(48 + n mod 10)%N].
      repeat split; [discriminate | simpl; rewrite decimal_digit; reflexivity |].
      intros z0. simpl. unfold digit_value. rewrite N.mod_small by exact Hlt. lia.
    + apply N.ltb_ge in Hlt.
      destruct (IH (n / 10)%N ((48 + n mod 10)%N :: acc)) as (ds & Heq & Hne & Hds & Hval).
      { apply N.Div0.div_lt_upper_bound.
        replace (10 * 10 ^ N.of_nat fuel)%N with (10 ^ N.of_nat (S fuel))%N; [exact Hn|].
        rewrite Nat2N.inj_succ, N.pow_succ_r'. reflexivity. }
      { intros ->. change (10 ^ N.of_nat 1)%N with 10%N in Hn. lia. }
      exists (ds ++ [(48 + n mod 10)%N]). rewrite Heq, <- app_assoc.
      repeat split.
      * destruct ds; discriminate.
      * rewrite forallb_app, Hds. simpl. rewrite decimal_digit. reflexivity.
      * intros z0. rewrite digits_value_app, Hval. simpl.
        rewrite length_app. simpl length.
        rewrite Nat2Z.inj_add, Z.pow_add_r by lia.
        unfold digit_value.
        pose proof (N.div_mod n 10 ltac:(discriminate)) as Hdm.
        assert (Z.of_N n = 10 * Z.of_N (n / 10) + Z.of_N (n mod 10)) as -> by lia.
        change (10 ^ Z.of_nat 1) with 10. lia.
Qed.

Lemma decimal_fuel_enough (n : N) : (n < 10 ^ N.of_nat (S (N.to_nat (N.log2 n))))%N.
Proof.
  rewrite Nat2N.inj_succ, N2Nat.id.
  destruct (N.eq_dec n 0%N) as [->|Hn0]; [reflexivity|].
  apply N.lt_le_trans with (2 ^ N.succ (N.log2 n))%N.
  - apply N.log2_spec. lia.
  - apply N.pow_le_mono_l. lia.
Qed.

Lemma is_digit_not_space (c : N) : is_digit c = true -> is_space c = false.
Proof.
  unfold is_digit, is_space. intros H. apply andb_true_iff in H as [H1 H2].
  apply N.leb_le in H1. apply N.leb_le in H2.
  repeat (apply orb_false_iff; split);
    try (apply N.eqb_neq; lia);
    apply andb_false_iff; [right | left]; apply N.leb_gt; lia.
Qed.

(** [parseInt] reads the numeral of [n] back as the double nearest to [n]. *)
Lemma parseInt10_decimal (n : N) : parseInt10 (decimal n) = norm (Z.of_N n).
Proof.
  unfold decimal.
  destruct (decimal_fuel_spec _ n [] (decimal_fuel_enough n) ltac:(discriminate))
    as (ds & -> & Hne & Hds & Hval).
  rewrite app_nil_r. destruct ds as [|d ds]; [congruence|].
  simpl in Hds. apply andb_true_iff in Hds as [Hd Hds'].
  unfold parseInt10.
  assert (span is_space (d :: ds) = ([], d :: ds)) as ->.
  { simpl. rewrite (is_digit_not_space d Hd). reflexivity. }
  assert (d <> 45%N /\ d <> 43%N) as [H45 H43].
  { unfold is_digit in Hd. apply andb_true_iff in Hd as [H1 _]. apply N.leb_le in H1. lia. }
  assert ((let '(neg, s2) :=
             match d :: ds with
             | 45%N :: r => (true, r)
             | 43%N :: r => (false, r)
             | _ => (false, d :: ds)
             end in
           let '(ds0, _) := span is_digit s2 in
           match ds0 with
           | [] => NaN
           | _ => norm (if neg then - digits_value ds0 else digits_value ds0)
           end) = norm (Z.of_N n)) as Hgoal; [|exact Hgoal].
  assert (match d :: ds with
          | 45%N :: r => (true, r)
          | 43%N :: r => (false, r)
          | _ => (false, d :: ds)
          end = (false, d :: ds)) as ->.
  { destruct d as [|p]; [reflexivity|].
    do 6 (destruct p as [p|p|]; try reflexivity); congruence. }
  pose proof (span_app is_digit (d :: ds) [] ) as Hspan.
  rewrite app_nil_r in Hspan. rewrite Hspan; [|simpl; rewrite Hd; exact Hds' | exact I].
  unfold digits_value. rewrite Hval. f_equal.
Qed.

(** ** The audit-line parser *)

Lemma customer_at_None (s : jsstring) :
  customer_at s = None <->
  ~ exists c rest, s = str "customer=" ++ c :: rest /\ non_space c = true.
Proof.
  unfold customer_at.
  destruct (after_prefix (str "customer=") s) as [r|] eqn:Hp; cbv beta iota.
  - apply after_prefix_Some in Hp. subst s.
    pose proof (span_nil non_space r) as Hnil.
    destruct (fst (span non_space r)) as [|c0 g].
    + split; [|reflexivity]. intros _ (c & rest & Heq & Hc).
      apply app_inv_head in Heq. subst r.
      destruct Hnil as [Hnil _]. specialize (Hnil eq_refl). cbv beta iota in Hnil. congruence.
    + split; [discriminate|]. intros Hno. exfalso. apply Hno.
      destruct r as [|c r].
      * destruct Hnil as [_ Hnil]. specialize (Hnil I). discriminate.
      * exists c, r. split; [reflexivity|].
        destruct (non_space c) eqn:Hc; [reflexivity|].
        destruct Hnil as [_ Hnil]. specialize (Hnil eq_refl). discriminate.
  - split; [|reflexivity]. intros _ (c & rest & Heq & _).
    pose proof (after_prefix_app (str "customer=") (c :: rest)) as H.
    rewrite <- Heq in H. congruence.
Qed.

Lemma search_customer_None (line : jsstring) :
  search customer_at line = None <-> ~ has_customer_field line.
Proof.
  rewrite search_None. unfold has_customer_field. split.
  - intros H (pre & c & rest & Heq & Hc).
    specialize (H pre _ Heq). apply customer_at_None in H. apply H. eauto.
  - intros H pre suf Heq. apply customer_at_None.
    intros (c & rest & -> & Hc). apply H. eauto.
Qed.

Lemma space_is_space : non_space 32 = false.
Proof. reflexivity. Qed.

Lemma action_at_None (s : jsstring) :
  action_at s = None <->
  ~ exists verb c rest,
      s = str "action " ++ verb ++ str " on resource " ++ c :: rest
      /\ verb <> [] /\ forallb non_space verb = true /\ non_space c = true.
Proof.
  split.
  - intros Hnone (verb & c & rest & -> & Hne & Hverb & Hc).
    unfold action_at in Hnone. rewrite after_prefix_app in Hnone.
    rewrite (span_app non_space verb (str " on resource " ++ c :: rest)) in Hnone;
      [|exact Hverb | exact space_is_space].
    destruct verb as [|v verb]; [congruence|].
    rewrite after_prefix_app in Hnone.
    pose proof (span_nil non_space (c :: rest)) as [Hnil _].
    destruct (fst (span non_space (c :: rest))); [|discriminate].
    specialize (Hnil eq_refl). cbv beta iota in Hnil. congruence.
  - intros Hno. unfold action_at.
    destruct (after_prefix (str "action ") s) as [r1|] eqn:Hp; [|reflexivity].
    apply after_prefix_Some in Hp. subst s.
    pose proof (span_spec non_space r1) as (Heq1 & Hg1 & _).
    destruct (span non_space r1) as [g1 r2]. cbn [fst snd] in *.
    destruct g1 as [|v g1]; [reflexivity|].
    destruct (after_prefix (str " on resource ") r2) as [r3|] eqn:Hp2; [|reflexivity].
    apply after_prefix_Some in Hp2. subst r2.
    pose proof (span_nil non_space r3) as Hnil.
    destruct (fst (span non_space r3)) as [|c2 g2]; [reflexivity|]. exfalso. apply Hno.
    destruct r3 as [|c r3].
    + destruct Hnil as [_ Hnil]. specialize (Hnil I). discriminate.
    + exists (v :: g1), c, r3. subst r1. repeat split; [discriminate | exact Hg1 |].
      destruct (non_space c) eqn:Hc; [reflexivity|].
      destruct Hnil as [_ Hnil]. specialize (Hnil eq_refl). discriminate.
Qed.

Lemma search_action_None (line : jsstring) :
  search action_at line = None <-> ~ has_action_phrase line.
Proof.
  rewrite search_None. unfold has_action_phrase. split.
  - intros H (pre & verb & c & rest & Heq & Hrest).
    specialize (H pre _ Heq). apply action_at_None in H. apply H.
    exists verb, c, rest. auto.
  - intros H pre suf Heq. apply action_at_None.
    intros (verb & c & rest & -> & Hrest). apply H.
    exists pre, verb, c, rest. auto.
Qed.

(** What the [switch] does with a verb. *)
Lemma parseGUIAuditLine_verb (ts line tenant0 verb resource : jsstring) :
  search customer_at line = Some tenant0 ->
  search action_at line = Some (verb, resource) ->
  match parseGUIAuditLine ts line with
  | Some e =>
      (verb, type e) ∈ verb_table /\ tenant e = tenant0
      /\ timestamp e = floor_div (parseInt10 ts) 1000000
  | None => verb ∉ verb_table.*1
  end.
Proof.
  intros Hc Ha. unfold parseGUIAuditLine. rewrite Hc, Ha.
  repeat (destruct (decide _) as [->|?];
          [cbn [type tenant timestamp]; split;
             [unfold verb_table; repeat constructor | split; reflexivity]|]).
  intros Hin. cbn [fmap list_fmap fst verb_table] in Hin.
  rewrite !elem_of_cons, elem_of_nil in Hin. intuition congruence.
Qed.

Ltac distinct_literals :=
  match goal with
  | H1 : ?v = str ?a, H2 : ?v = str ?b |- _ =>
      rewrite H1 in H2; vm_compute in H2; discriminate H2
  end.

Lemma verb_table_functional (verb : jsstring) (ty1 ty2 : EventType) :
  (verb, ty1) ∈ verb_table -> (verb, ty2) ∈ verb_table -> ty1 = ty2.
Proof.
  unfold verb_table. rewrite !elem_of_cons, !elem_of_nil. intros H1 H2.
  repeat (destruct H1 as [H1|H1]; [injection H1 as H1 ->|]); try contradiction;
    repeat (destruct H2 as [H2|H2]; [injection H2 as H2 ->|]); try contradiction;
    first [reflexivity | distinct_literals].
Qed.

(** What the audit-line parser does.  It returns no event for a line without a
    [customer=] field or without an [action ... on resource ...] phrase, and
    none for a verb outside the six of the table; otherwise it returns an
    event of the verb's type, for the customer of the line, whose timestamp
    is [Math.floor(parseInt(ts, 10) / 1000000)] as doubles compute it.  For
    the numeral of [n] nanoseconds that is the integer quotient
    [n / 1000000] when [n] is below 2^53, and within one of it when [n] is
    below 2^63.  The example line at 1700000000000000000 gives an
    [instance_created] event of tenant [acme] at 1700000000000. *)
Lemma parseGUIAuditLine_spec :
  (forall ts line : jsstring,
     (~ has_customer_field line -> parseGUIAuditLine ts line = None)
     /\ (~ has_action_phrase line -> parseGUIAuditLine ts line = None)
     /\ (forall verb resource,
           search action_at line = Some (verb, resource) ->
           verb ∉ verb_table.*1 -> parseGUIAuditLine ts line = None)
     /\ (forall verb resource ty,
           has_customer_field line ->
           search action_at line = Some (verb, resource) ->
           (verb, ty) ∈ verb_table ->
           exists e, parseGUIAuditLine ts line = Some e
             /\ type e = ty
             /\ search customer_at line = Some (tenant e)
             /\ timestamp e = floor_div (parseInt10 ts) 1000000
             /\ forall n : N, ts = decimal n ->
                  (Z.of_N n < 2 ^ 53 -> timestamp e = Num (Z.of_N n / 1000000))
                  /\ (Z.of_N n < 2 ^ 63 ->
                      exists t, timestamp e = Num t
                        /\ Z.of_N n / 1000000 - 1 <= t <= Z.of_N n / 1000000 + 1)))
  /\ (exists e,
        parseGUIAuditLine (str "1700000000000000000") example_audit_line = Some e
        /\ type e = instance_created /\ tenant e = str "acme"
        /\ timestamp e = Num 1700000000000).
Proof.
  split.
  - intros ts line. repeat split.
    + intros H. apply search_customer_None in H.
      unfold parseGUIAuditLine. rewrite H. reflexivity.
    + intros H. apply search_action_None in H.
      unfold parseGUIAuditLine. rewrite H. destruct (search customer_at line); reflexivity.
    + intros verb resource Ha Hverb.
      destruct (search customer_at line) as [tenant0|] eqn:Hc.
      * pose proof (parseGUIAuditLine_verb ts line tenant0 verb resource Hc Ha) as H.
        destruct (parseGUIAuditLine ts line) as [e|]; [|reflexivity].
        destruct H as (Hin & _). exfalso. apply Hverb.
        apply list_elem_of_fmap. exists (verb, type e). auto.
      * unfold parseGUIAuditLine. rewrite Hc. reflexivity.
    + intros verb resource ty Hcust Ha Hty.
      destruct (search customer_at line) as [tenant0|] eqn:Hc;
        [|apply search_customer_None in Hc; contradiction].
      pose proof (parseGUIAuditLine_verb ts line tenant0 verb resource Hc Ha) as H.
      destruct (parseGUIAuditLine ts line) as [e|].
      * destruct H as (Hin & Hten & Hts). exists e.
        split; [reflexivity|]. split; [exact (verb_table_functional verb _ _ Hin Hty)|].
        split; [congruence|]. split; [exact Hts|].
        intros n ->. rewrite Hts, parseInt10_decimal. split; intros Hn.
        -- apply millis_exact. lia.
        -- apply millis_near. lia.
      * exfalso. apply H. apply list_elem_of_fmap. exists (verb, ty). auto.
  - eexists. split; [vm_compute; reflexivity|]. repeat split.
Qed.

(** C2, where the code loses a millisecond.  The audit line stamped
    1700000000002000000 ns, on a millisecond boundary, gets the timestamp
    1700000000001: [parseInt] rounds the numeral to the double
    1700000000001999872, and the quotient of that by 1000000 rounds to a
    double just below 1700000000002. *)
Theorem parseGUIAuditLine_loses_a_millisecond :
  parseInt10 (str "1700000000002000000") = Num 1700000000001999872
  /\ (exists e,
        parseGUIAuditLine (str "1700000000002000000") example_audit_line = Some e
        /\ type e = instance_created /\ tenant e = str "acme"
        /\ timestamp e = Num 1700000000001)
  /\ 1700000000002000000 / 1000000 = 1700000000002.
Proof.
  split; [vm_compute; reflexivity|]. split; [|reflexivity].
  eexists. split; [vm_compute; reflexivity|]. repeat split.
Qed.

(** ** Ranges and steps *)

Lemma stepForRange_policy (rangeSecs : RangeSecs) :
  stepForRange rangeSecs = policy_step (as_number rangeSecs).
Proof. reflexivity. Qed.

Lemma stepForRange_bands (secs : Z) :
  (secs <= hours 1 -> stepForRange (Seconds secs) = 60)
  /\ (hours 1 < secs <= hours 6 -> stepForRange (Seconds secs) = 300)
  /\ (hours 6 < secs <= hours 24 -> stepForRange (Seconds secs) = 600)
  /\ (hours 24 < secs <= hours 48 -> stepForRange (Seconds secs) = 1200)
  /\ (hours 48 < secs -> stepForRange (Seconds secs) = 3600).
Proof.
  unfold stepForRange, as_number, num_le, hours.
  repeat split; intros H;
    repeat (match goal with
            | |- context [?a <=? ?b] => destruct (Z.leb_spec0 a b); try lia
            end); reflexivity.
Qed.

(** What is not a number is in no band. *)
Lemma stepForRange_Member (name : jsstring) : stepForRange (Member name) = 3600.
Proof. reflexivity. Qed.

Lemma range_map_lookup (label : jsstring) :
  range_map !! label = (list_to_map
    [(str "1h", 3600); (str "6h", 21600); (str "12h", 43200);
     (str "24h", 86400); (str "48h", 172800); (str "7d", 604800)] : gmap jsstring Z) !! label.
Proof. reflexivity. Qed.

(** A label outside the table has no entry. *)
Lemma range_map_unknown (label : jsstring) :
  label ∉ known_ranges -> range_map !! label = None.
Proof.
  intros H. unfold range_map. apply not_elem_of_list_to_map_1.
  cbn [fmap list_fmap fst]. exact H.
Qed.

Lemma inherited_true (name : jsstring) :
  inherited name = true <-> name ∈ Object_prototype_names.
Proof. unfold inherited. apply bool_decide_eq_true. Qed.

Lemma inherited_false (name : jsstring) :
  inherited name = false <-> name ∉ Object_prototype_names.
Proof. unfold inherited. apply bool_decide_eq_false. Qed.

(** None of the six labels is the name of an inherited member. *)
Lemma known_ranges_own (label : jsstring) :
  label ∈ Object_prototype_names -> label ∉ known_ranges.
Proof.
  intros Hin Hk.
  assert (Forall (fun l => inherited l = false) known_ranges) as Hall
    by (repeat constructor).
  rewrite Forall_forall in Hall. specialize (Hall label Hk).
  apply inherited_false in Hall. exact (Hall Hin).
Qed.

Lemma rangeSeconds_unknown (label : jsstring) :
  label ∉ known_ranges -> label ∉ Object_prototype_names ->
  rangeSeconds label = Seconds 3600.
Proof.
  intros H Hown. unfold rangeSeconds. rewrite (range_map_unknown label H).
  apply inherited_false in Hown. rewrite Hown. reflexivity.
Qed.

Lemma rangeSeconds_inherited (label : jsstring) :
  label ∈ Object_prototype_names -> rangeSeconds label = Member label.
Proof.
  intros Hin. unfold rangeSeconds.
  rewrite (range_map_unknown label (known_ranges_own label Hin)).
  apply inherited_true in Hin. rewrite Hin. reflexivity.
Qed.

Lemma param_or_nonempty (v fallback : jsstring) : v <> [] -> param_or (Some v) fallback = v.
Proof. destruct v; [congruence | reflexivity]. Qed.

(** The query the graph endpoint sends for a label, and its answer. *)
Lemma graph_GET_label (backend : PromBackend) (now : Z) (label : jsstring) :
  label <> [] ->
  graph_GET backend now (Some label) =
  bindR (promQueryRange backend graph_query
           (num_sub (Num now) (as_number (rangeSeconds label))) now
           (policy_step (as_number (rangeSeconds label))))
        (fun results =>
           Ok (mkGraphResponse (graph_series results) label
                 (policy_step (as_number (rangeSeconds label))))).
Proof. intros H. unfold graph_GET. rewrite (param_or_nonempty _ _ H). reflexivity. Qed.

Lemma drilldown_GET_label (backend : PromBackend) (now : Z) (namespace label : jsstring) :
  namespace <> [] -> label <> [] ->
  drilldown_GET backend now (Some namespace) (Some label) =
  bindR (promQueryRange backend (drilldown_query namespace)
           (num_sub (Num now) (as_number (rangeSeconds label))) now
           (policy_step (as_number (rangeSeconds label))))
        (fun results => Ok (Drilldown (drilldown_series results) namespace label)).
Proof.
  intros Hns H. unfold drilldown_GET. rewrite (param_or_nonempty _ _ H).
  destruct namespace; [congruence | reflexivity].
Qed.

(** C4.  The step follows the fixed policy: 60 s up to 1h, 300 s up to 6h,
    600 s up to 24h, 1200 s up to 48h, 3600 s beyond; both endpoints send
    the step the policy gives for the duration of the range label; [24h]
    maps to 600 and [7d] to 3600. *)
Theorem step_policy :
  (forall secs : Z,
     stepForRange (Seconds secs) = policy_step (Num secs)
     /\ (secs <= hours 1 -> stepForRange (Seconds secs) = 60)
     /\ (hours 1 < secs <= hours 6 -> stepForRange (Seconds secs) = 300)
     /\ (hours 6 < secs <= hours 24 -> stepForRange (Seconds secs) = 600)
     /\ (hours 24 < secs <= hours 48 -> stepForRange (Seconds secs) = 1200)
     /\ (hours 48 < secs -> stepForRange (Seconds secs) = 3600))
  /\ (forall (backend : PromBackend) (now : Z) (label : jsstring),
        label <> [] ->
        graph_GET backend now (Some label) =
        bindR (promQueryRange backend graph_query
                 (num_sub (Num now) (as_number (rangeSeconds label))) now
                 (policy_step (as_number (rangeSeconds label))))
              (fun results =>
                 Ok (mkGraphResponse (graph_series results) label
                       (policy_step (as_number (rangeSeconds label))))))
  /\ (forall (backend : PromBackend) (now : Z) (namespace label : jsstring),
        namespace <> [] -> label <> [] ->
        drilldown_GET backend now (Some namespace) (Some label) =
        bindR (promQueryRange backend (drilldown_query namespace)
                 (num_sub (Num now) (as_number (rangeSeconds label))) now
                 (policy_step (as_number (rangeSeconds label))))
              (fun results => Ok (Drilldown (drilldown_series results) namespace label)))
  /\ stepForRange (rangeSeconds (str "24h")) = 600
  /\ stepForRange (rangeSeconds (str "7d")) = 3600.
Proof.
  split; [|split; [|split; [|split]]].
  - intros secs. split; [reflexivity | apply stepForRange_bands].
  - apply graph_GET_label.
  - apply drilldown_GET_label.
  - vm_compute. reflexivity.
  - vm_compute. reflexivity.
Qed.

Lemma step_policy_witness :
  stepForRange (rangeSeconds (str "12h")) = 600
  /\ forall backend : PromBackend,
       graph_GET backend 1700000000 (Some (str "48h")) =
       bindR (promQueryRange backend graph_query (Num 1699827200) 1700000000 1200)
             (fun results => Ok (mkGraphResponse (graph_series results) (str "48h") 1200)).
Proof.
  destruct step_policy as (Hband & Hgraph & _).
  split.
  - change (rangeSeconds (str "12h")) with (Seconds 43200).
    destruct (Hband 43200) as (_ & _ & _ & H & _).
    apply H. vm_compute. split; [reflexivity | discriminate].
  - intros backend.
    change (Num 1699827200)
      with (num_sub (Num 1700000000) (as_number (rangeSeconds (str "48h")))).
    change 1200 with (policy_step (as_number (rangeSeconds (str "48h")))).
    apply (Hgraph backend 1700000000 (str "48h")). discriminate.
Defined.




(** ** Sorting *)

Section ArraySort.
Context {A : Type} (cmp : A -> A -> jsnum) (key : A -> Z).

#[local] Abbreviation keyed := (keyed cmp key).

Lemma keyed_cons (x : A) (l : list A) : keyed (x :: l) -> keyed l.
Proof. intros H a b Ha Hb. apply H; apply elem_of_cons; auto. Qed.

Lemma insert_sorted_perm (x : A) (l : list A) : insert_sorted cmp x l ≡ₚ x :: l.
Proof.
  induction l as [|y l IH]; simpl; [reflexivity|].
  destruct (num_gt (cmp x y) (Num 0)); [|reflexivity].
  rewrite IH. apply perm_swap.
Qed.

Lemma Array_sort_perm (l : list A) : Array_sort cmp l ≡ₚ l.
Proof.
  induction l as [|x l IH]; simpl; [reflexivity|].
  rewrite insert_sorted_perm, IH. reflexivity.
Qed.

Lemma elem_of_Array_sort (x : A) (l : list A) : x ∈ Array_sort cmp l <-> x ∈ l.
Proof. rewrite (Array_sort_perm l). reflexivity. Qed.

Lemma keyed_gt (l : list A) (x y : A) :
  keyed l -> x ∈ l -> y ∈ l -> num_gt (cmp x y) (Num 0) = bool_decide (key y < key x).
Proof. intros Hk Hx Hy. exact (Hk x y Hx Hy). Qed.

(** A comparator that returns the exact difference of the keys. *)
Lemma keyed_difference (l : list A) :
  (forall x y, x ∈ l -> y ∈ l -> cmp x y = Num (key x - key y)) -> keyed l.
Proof.
  intros H x y Hx Hy. rewrite (H x y Hx Hy). simpl.
  destruct (Z.ltb_spec0 0 (key x - key y)); symmetry;
    [apply bool_decide_eq_true | apply bool_decide_eq_false]; lia.
Qed.

Lemma insert_sorted_sorted (x : A) (l : list A) :
  keyed (x :: l) ->
  StronglySorted (fun a b => key a <= key b) l ->
  StronglySorted (fun a b => key a <= key b) (insert_sorted cmp x l).
Proof.
  intros Hk Hs. induction l as [|y l IH]; simpl.
  - repeat constructor.
  - rewrite (keyed_gt (x :: y :: l) x y Hk) by (rewrite !elem_of_cons; auto).
    apply StronglySorted_inv in Hs as [Hs Hy].
    case_bool_decide as Hlt.
    + constructor.
      * apply IH; [|exact Hs]. intros a b Ha Hb. apply Hk.
        -- rewrite !elem_of_cons in *. tauto.
        -- rewrite !elem_of_cons in *. tauto.
      * rewrite Forall_forall. intros z Hz.
        rewrite insert_sorted_perm in Hz. apply elem_of_cons in Hz as [->|Hz]; [lia|].
        rewrite Forall_forall in Hy. apply Hy. exact Hz.
    + constructor; [constructor; assumption|].
      constructor; [lia|]. eapply Forall_impl; [exact Hy|]. simpl. intros; lia.
Qed.

Lemma Array_sort_sorted (l : list A) :
  keyed l -> StronglySorted (fun a b => key a <= key b) (Array_sort cmp l).
Proof.
  induction l as [|x l IH]; intros Hk; simpl; [constructor|].
  apply insert_sorted_sorted.
  - intros a b Ha Hb. apply Hk.
    + apply elem_of_cons in Ha as [->|Ha]; [left | right; apply elem_of_Array_sort; exact Ha].
    + apply elem_of_cons in Hb as [->|Hb]; [left | right; apply elem_of_Array_sort; exact Hb].
  - apply IH. exact (keyed_cons _ _ Hk).
Qed.

(** Stability: the elements of one key keep the order they came in. *)
Lemma insert_sorted_stable (k : Z) (x : A) (l : list A) :
  keyed (x :: l) ->
  StronglySorted (fun a b => key a <= key b) l ->
  filter (fun a => key a = k) (insert_sorted cmp x l) = filter (fun a => key a = k) (x :: l).
Proof.
  intros Hk Hs. induction l as [|y l IH]; simpl; [reflexivity|].
  rewrite (keyed_gt (x :: y :: l) x y Hk) by (rewrite !elem_of_cons; auto).
  case_bool_decide as Hlt; [|reflexivity].
  apply StronglySorted_inv in Hs as [Hs Hy].
  rewrite filter_cons, IH; [|intros a b Ha Hb; apply Hk; rewrite !elem_of_cons in *; tauto | exact Hs].
  rewrite !filter_cons.
  destruct (decide (key y = k)) as [Hyk|Hyk]; [|reflexivity].
  destruct (decide (key x = k)) as [Hxk|Hxk]; [lia | reflexivity].
Qed.

Lemma Array_sort_stable (k : Z) (l : list A) :
  keyed l ->
  filter (fun a => key a = k) (Array_sort cmp l) = filter (fun a => key a = k) l.
Proof.
  induction l as [|x l IH]; intros Hk; simpl; [reflexivity|].
  rewrite insert_sorted_stable.
  - rewrite !filter_cons, (IH (keyed_cons _ _ Hk)). reflexivity.
  - intros a b Ha Hb. apply Hk.
    + apply elem_of_cons in Ha as [->|Ha]; [left | right; apply elem_of_Array_sort; exact Ha].
    + apply elem_of_cons in Hb as [->|Hb]; [left | right; apply elem_of_Array_sort; exact Hb].
  - apply Array_sort_sorted. exact (keyed_cons _ _ Hk).
Qed.

(** A list in key order is determined by the elements it has at each key,
    taken in order. *)
Lemma sorted_stable_unique (l1 : list A) : forall l2 : list A,
  StronglySorted (fun a b => key a <= key b) l1 ->
  StronglySorted (fun a b => key a <= key b) l2 ->
  (forall k, filter (fun a => key a = k) l1 = filter (fun a => key a = k) l2) ->
  l1 = l2.
Proof.
  induction l1 as [|x l1 IH]; intros l2 Hs1 Hs2 Hf.
  - destruct l2 as [|y l2]; [reflexivity|]. specialize (Hf (key y)).
    rewrite filter_nil, filter_cons_True in Hf by reflexivity. discriminate.
  - destruct l2 as [|y l2].
    { specialize (Hf (key x)). rewrite filter_nil, filter_cons_True in Hf by reflexivity.
      discriminate. }
    apply StronglySorted_inv in Hs1 as [Hs1 Hx]. apply StronglySorted_inv in Hs2 as [Hs2 Hy].
    rewrite Forall_forall in Hx, Hy.
    assert (key y = key x) as Hkey.
    { destruct (decide (key y = key x)) as [|Hne]; [assumption|]. exfalso.
      assert (x ∈ y :: l2) as Hxin.
      { eapply (list_elem_of_filter (fun a => key a = key x)). rewrite <- Hf.
        rewrite filter_cons_True by reflexivity. left. }
      assert (y ∈ x :: l1) as Hyin.
      { eapply (list_elem_of_filter (fun a => key a = key y)). rewrite Hf.
        rewrite filter_cons_True by reflexivity. left. }
      apply elem_of_cons in Hxin as [->|Hxin]; [congruence|].
      apply elem_of_cons in Hyin as [->|Hyin]; [congruence|].
      specialize (Hx y Hyin). specialize (Hy x Hxin). simpl in Hx, Hy. lia. }
    pose proof (Hf (key x)) as Hhead.
    rewrite !filter_cons_True in Hhead by auto. injection Hhead as <- Htail.
    f_equal. apply IH; [assumption | assumption|].
    intros k. destruct (decide (key x = k)) as [<-|Hne]; [exact Htail|].
    specialize (Hf k). rewrite !filter_cons_False in Hf by exact Hne. exact Hf.
Qed.

(** Whatever algorithm a stable sort runs, on a comparator that orders by a
    key it returns what [Array_sort] returns. *)
Lemma Array_sort_unique (l l' : list A) :
  keyed l ->
  StronglySorted (fun a b => key a <= key b) l' ->
  (forall k, filter (fun a => key a = k) l' = filter (fun a => key a = k) l) ->
  l' = Array_sort cmp l.
Proof.
  intros Hk Hs Hf. apply sorted_stable_unique; [exact Hs | apply Array_sort_sorted; exact Hk|].
  intros k. rewrite Hf, Array_sort_stable by exact Hk. reflexivity.
Qed.

End ArraySort.

(** ** The non-zero filter *)

Lemma num_gt_positive (v : jsnum) : num_gt v (Num 0) = true <-> positive v.
Proof.
  destruct v as [z|[|]|]; simpl; rewrite ?Z.ltb_lt; split; try easy.
Qed.

Lemma has_positive_iff (s : Series) :
  has_positive s = true <-> exists d, d ∈ data s /\ positive (value d).
Proof.
  unfold has_positive. rewrite existsb_exists. split.
  - intros (d & Hd & Hgt). apply list_elem_of_In in Hd.
    exists d. split; [exact Hd|]. apply num_gt_positive. exact Hgt.
  - intros (d & Hd & Hv). exists d. split; [apply list_elem_of_In; exact Hd|].
    apply num_gt_positive. exact Hv.
Qed.

Lemma all_zero_not_positive (s : Series) :
  Forall (fun d => value d = Num 0) (data s) -> has_positive s = false.
Proof.
  intros Hall. destruct (has_positive s) eqn:Hp; [|reflexivity].
  apply has_positive_iff in Hp as (d & Hd & Hv).
  rewrite Forall_forall in Hall. rewrite (Hall d Hd) in Hv. simpl in Hv. lia.
Qed.

(** A value that is not a number never counts as positive. *)
Lemma all_NaN_not_positive (s : Series) :
  Forall (fun d => value d = NaN) (data s) -> has_positive s = false.
Proof.
  intros Hall. destruct (has_positive s) eqn:Hp; [|reflexivity].
  apply has_positive_iff in Hp as (d & Hd & Hv).
  rewrite Forall_forall in Hall. rewrite (Hall d Hd) in Hv. destruct Hv.
Qed.

Lemma label_or_unknown_missing (l : option jsstring) :
  l = None \/ l = Some [] -> label_or_unknown l = str "unknown".
Proof. intros [-> | ->]; reflexivity. Qed.

Lemma stripRsHash_unknown : stripRsHash (str "unknown") = str "unknown".
Proof. vm_compute. reflexivity. Qed.

(** ** Merge and deduplication *)

Lemma newest_first_keyed (l : list PlatformEvent) :
  Forall numeric l -> keyed newest_first (fun e => - tsZ e) l.
Proof.
  rewrite Forall_forall. intros H x y Hx Hy. unfold newest_first.
  rewrite (H x Hx), (H y Hy), num_sub_gt.
  destruct (Z.ltb_spec0 (tsZ x) (tsZ y)); symmetry;
    [apply bool_decide_eq_true | apply bool_decide_eq_false]; lia.
Qed.

(** An event survives [keep_unseen] exactly when it stands at a position
    before which its id occurs neither in [seen] nor in the list. *)
Lemma keep_unseen_spec (l : list PlatformEvent) : forall (seen : gset jsstring) (e : PlatformEvent),
  e ∈ keep_unseen seen l <->
  exists l1 l2, l = l1 ++ e :: l2 /\ (id e ∉ seen) /\ (id e ∉ id <$> l1).
Proof.
  induction l as [|x l IH]; intros seen e; simpl.
  - rewrite elem_of_nil. split; [tauto|]. intros (l1 & l2 & Heq & _).
    destruct l1; discriminate.
  - destruct (decide (id x ∈ seen)) as [Hx|Hx].
    + rewrite IH. split.
      * intros (l1 & l2 & -> & Hs & Hl1). exists (x :: l1), l2.
        repeat split; [exact Hs|]. rewrite fmap_cons, not_elem_of_cons.
        split; [congruence | exact Hl1].
      * intros (l1 & l2 & Heq & Hs & Hl1). destruct l1 as [|y l1]; simpl in Heq.
        -- injection Heq as -> ->. contradiction.
        -- injection Heq as -> ->. rewrite fmap_cons, not_elem_of_cons in Hl1.
           exists l1, l2. tauto.
    + rewrite elem_of_cons, IH. split.
      * intros [->|(l1 & l2 & -> & Hs & Hl1)].
        -- exists [], l. repeat split; [exact Hx|]. rewrite fmap_nil. apply not_elem_of_nil.
        -- exists (x :: l1), l2. rewrite not_elem_of_union, not_elem_of_singleton in Hs.
           repeat split; [tauto|]. rewrite fmap_cons, not_elem_of_cons. tauto.
      * intros (l1 & l2 & Heq & Hs & Hl1). destruct l1 as [|y l1]; simpl in Heq.
        -- injection Heq as -> ->. left. reflexivity.
        -- injection Heq as -> ->. rewrite fmap_cons, not_elem_of_cons in Hl1.
           right. exists l1, l2. rewrite not_elem_of_union, not_elem_of_singleton. tauto.
Qed.

Lemma keep_unseen_fresh (l : list PlatformEvent) (seen : gset jsstring) (e : PlatformEvent) :
  e ∈ keep_unseen seen l -> id e ∉ seen.
Proof. rewrite keep_unseen_spec. intros (_ & _ & _ & H & _). exact H. Qed.

Lemma keep_unseen_NoDup (l : list PlatformEvent) : forall seen : gset jsstring,
  NoDup (id <$> keep_unseen seen l).
Proof.
  induction l as [|x l IH]; intros seen; simpl; [constructor|].
  destruct (decide (id x ∈ seen)); [apply IH|].
  rewrite fmap_cons. constructor; [|apply IH].
  intros Hin. apply list_elem_of_fmap in Hin as (e & Heq & He).
  apply keep_unseen_fresh in He. apply He, elem_of_union. left.
  apply elem_of_singleton. congruence.
Qed.

Lemma keep_unseen_sublist (l : list PlatformEvent) : forall seen : gset jsstring,
  keep_unseen seen l `sublist_of` l.
Proof.
  induction l as [|x l IH]; intros seen; simpl; [constructor|].
  destruct (decide (id x ∈ seen)); [apply sublist_cons | apply sublist_skip]; apply IH.
Qed.

(** Every id of the list that is not in [seen] is the id of a survivor. *)
Lemma keep_unseen_covers (l : list PlatformEvent) : forall (seen : gset jsstring) (e : PlatformEvent),
  e ∈ l -> id e ∉ seen -> exists e', e' ∈ keep_unseen seen l /\ id e' = id e.
Proof.
  induction l as [|x l IH]; intros seen e He Hs; [apply elem_of_nil in He; contradiction|].
  simpl. apply elem_of_cons in He as [->|He].
  - rewrite decide_False by exact Hs. exists x. split; [left | reflexivity].
  - destruct (decide (id x ∈ seen)) as [Hx|Hx]; [apply IH; assumption|].
    destruct (decide (id e = id x)) as [Heq|Hne].
    + exists x. split; [left | congruence].
    + destruct (IH ({[id x]} ∪ seen) e He) as (e' & He' & Hid).
      { rewrite not_elem_of_union, not_elem_of_singleton. split; assumption. }
      exists e'. split; [right; exact He' | exact Hid].
Qed.

Lemma StronglySorted_sublist {A : Type} (R : A -> A -> Prop) (l k : list A) :
  l `sublist_of` k -> StronglySorted R k -> StronglySorted R l.
Proof.
  intros Hsub. induction Hsub as [|x l k Hsub IH|x l k Hsub IH]; intros Hs.
  - constructor.
  - apply StronglySorted_inv in Hs as [Hs Hx]. constructor; [apply IH; exact Hs|].
    rewrite Forall_forall in *. intros y Hy. apply Hx. eapply elem_of_sublist; eassumption.
  - apply StronglySorted_inv in Hs as [Hs _]. apply IH. exact Hs.
Qed.

Lemma filter_none {A : Type} (P : A -> Prop) `{!forall x, Decision (P x)} (l : list A) :
  (forall x, x ∈ l -> ~ P x) -> filter P l = [].
Proof.
  induction l as [|x l IH]; intros Hl; [reflexivity|].
  rewrite filter_cons_False by (apply Hl; left).
  apply IH. intros y Hy. apply Hl. right. exact Hy.
Qed.

(** When the filtered list starts with [e], [e] is the first element of the
    list that passes the filter. *)
Lemma filter_head_split {A : Type} (P : A -> Prop) `{!forall x, Decision (P x)}
    (l : list A) (e : A) (r : list A) :
  filter P l = e :: r ->
  exists l1 l2, l = l1 ++ e :: l2 /\ Forall (fun x => ~ P x) l1.
Proof.
  induction l as [|x l IH]; [discriminate|].
  rewrite filter_cons. destruct (decide (P x)) as [Hx|Hx].
  - intros [= -> _]. exists [], l. split; [reflexivity | constructor].
  - intros Hf. destruct (IH Hf) as (l1 & l2 & -> & Hl1).
    exists (x :: l1), l2. split; [reflexivity | constructor; assumption].
Qed.

(** The signup stream after the filter: the events whose tenant no audit
    event of type [tenant_signup] carries, in their order. *)
Lemma elem_of_guiSignups (guiEvents : list PlatformEvent) (t : jsstring) :
  t ∈ guiSignups guiEvents <->
  exists g, g ∈ guiEvents /\ type g = tenant_signup /\ tenant g = t.
Proof.
  unfold guiSignups. rewrite elem_of_list_to_set, list_elem_of_fmap. split.
  - intros (g & -> & Hg). apply list_elem_of_filter in Hg. exists g. tauto.
  - intros (g & Hg & Hty & <-). exists g. split; [reflexivity|].
    apply list_elem_of_filter. tauto.
Qed.

Lemma elem_of_filteredSignups (guiEvents signupEvents : list PlatformEvent) (e : PlatformEvent) :
  e ∈ filteredSignups guiEvents signupEvents <->
  e ∈ signupEvents
  /\ ~ exists g, g ∈ guiEvents /\ type g = tenant_signup /\ tenant g = tenant e.
Proof.
  unfold filteredSignups. rewrite list_elem_of_filter, elem_of_guiSignups. tauto.
Qed.

Lemma merged_numeric (guiEvents signupEvents planEvents mcpEvents : list PlatformEvent) :
  Forall numeric (guiEvents ++ signupEvents ++ planEvents ++ mcpEvents) ->
  Forall numeric (merged guiEvents signupEvents planEvents mcpEvents).
Proof.
  unfold merged. rewrite !Forall_app. intros (Hg & Hs & Hp & Hm).
  repeat split; try assumption.
  rewrite Forall_forall in *. intros e He. apply Hs.
  apply elem_of_filteredSignups in He. tauto.
Qed.

(** The place of a survivor in the unsorted array: later than every event of
    its id with a smaller timestamp only, and first among those of its own
    timestamp. *)
Lemma mergeAndDedup_winner (all : list PlatformEvent) (e : PlatformEvent) :
  Forall numeric all ->
  e ∈ keep_unseen ∅ (Array_sort newest_first all) ->
  exists l1 l2, all = l1 ++ e :: l2
    /\ (forall x, x ∈ l1 -> id x = id e -> tsZ x < tsZ e)
    /\ (forall x, x ∈ l2 -> id x = id e -> tsZ x <= tsZ e).
Proof.
  intros Hnum He.
  pose proof (newest_first_keyed all Hnum) as Hk.
  pose proof (Array_sort_sorted newest_first (fun e => - tsZ e) all Hk) as Hsorted.
  pose proof (Array_sort_stable newest_first (fun e => - tsZ e) (- tsZ e) all Hk) as Hstable.
  apply keep_unseen_spec in He as (L1 & L2 & HL & _ & HL1).
  rewrite HL in Hsorted, Hstable.
  (* every event of the same id has a timestamp at most that of [e] *)
  assert (forall x, x ∈ all -> id x = id e -> tsZ x <= tsZ e) as Hmax.
  { intros x Hx Hid. apply (elem_of_Array_sort newest_first) in Hx. rewrite HL in Hx.
    apply elem_of_app in Hx as [Hx|Hx].
    - exfalso. apply HL1. rewrite <- Hid. apply list_elem_of_fmap_2. exact Hx.
    - apply elem_of_cons in Hx as [->|Hx]; [lia|].
      apply StronglySorted_app_1_r, StronglySorted_inv in Hsorted as [_ Hall].
      rewrite Forall_forall in Hall. specialize (Hall x Hx). simpl in Hall. lia. }
  (* [e] heads the events of its id and timestamp, in the sorted array and so
     in the unsorted one *)
  assert (exists r, filter (fun a => id a = id e /\ - tsZ a = - tsZ e) all = e :: r) as [r Hr].
  { rewrite <- (list_filter_filter (fun a => id a = id e) (fun a => - tsZ a = - tsZ e)).
    rewrite <- Hstable, list_filter_filter, filter_app, filter_cons_True by auto.
    assert (filter (fun a => id a = id e /\ - tsZ a = - tsZ e) L1 = []) as ->.
    { apply filter_none. intros x Hx [Hid _].
      apply HL1. rewrite <- Hid. apply list_elem_of_fmap_2. exact Hx. }
    eexists. reflexivity. }
  apply filter_head_split in Hr as (l1 & l2 & Hall & Hl1).
  exists l1, l2. split; [exact Hall|]. split.
  - intros x Hx Hid. rewrite Forall_forall in Hl1. specialize (Hl1 x Hx).
    assert (tsZ x <= tsZ e) by (apply Hmax; [rewrite Hall, elem_of_app; auto | exact Hid]).
    assert (tsZ x <> tsZ e) by (intros Heq; apply Hl1; split; [exact Hid | lia]).
    lia.
  - intros x Hx Hid. apply Hmax; [|exact Hid].
    rewrite Hall, elem_of_app, elem_of_cons. auto.
Qed.

Lemma StronglySorted_mono {A : Type} (R1 R2 : A -> A -> Prop) (l : list A) :
  (forall a b, R1 a b -> R2 a b) -> StronglySorted R1 l -> StronglySorted R2 l.
Proof.
  intros HR Hs. induction Hs as [|x l Hs IH Hx]; constructor; [exact IH|].
  eapply Forall_impl; [exact Hx|]. intros y. apply HR.
Qed.

Lemma mergeAndDedup_sorted (guiEvents signupEvents planEvents mcpEvents : list PlatformEvent) :
  Forall numeric (guiEvents ++ signupEvents ++ planEvents ++ mcpEvents) ->
  StronglySorted (fun a b => tsZ a >= tsZ b)
    (mergeAndDedup guiEvents signupEvents planEvents mcpEvents).
Proof.
  intros Hnum. pose proof (merged_numeric _ _ _ _ Hnum) as Hall.
  apply (StronglySorted_sublist _ _ _ (keep_unseen_sublist _ _)).
  eapply StronglySorted_mono;
    [|exact (Array_sort_sorted newest_first (fun e => - tsZ e) _
               (newest_first_keyed _ Hall))].
  simpl. intros a b Hab. lia.
Qed.

(** C1, as stated, fails: of two events with one id the survivor is the one
    that comes first after the sort, here the newer one, and not the first
    in concatenation order. *)
Lemma mergeAndDedup_keeps_newest :
  mergeAndDedup [dup_older; dup_newer] [] [] [] = [dup_newer]
  /\ id dup_older = id dup_newer
  /\ dup_older <> dup_newer.
Proof. split; [vm_compute; reflexivity|]. split; [reflexivity | discriminate]. Qed.

(** C1, amended.  For event lists whose timestamps are numbers,
    [mergeAndDedup] returns a list in descending order of timestamp with no
    two events of the same id.  It holds events of [guiEvents],
    [planEvents], [mcpEvents] and of those [signupEvents] whose tenant is the
    tenant of no [tenant_signup] event of [guiEvents]; every id of these is
    kept once.  The event kept for an id is the first one in the sorted
    order: none of that id has a greater timestamp, and among those of its
    timestamp it is the first in concatenation order.  When events of one id
    always have one timestamp, it is the first occurrence in concatenation
    order. *)
Theorem mergeAndDedup_correct
    (guiEvents signupEvents planEvents mcpEvents : list PlatformEvent) :
  Forall numeric (guiEvents ++ signupEvents ++ planEvents ++ mcpEvents) ->
  let all := merged guiEvents signupEvents planEvents mcpEvents in
  let out := mergeAndDedup guiEvents signupEvents planEvents mcpEvents in
  StronglySorted (fun a b => tsZ a >= tsZ b) out
  /\ NoDup (id <$> out)
  /\ (forall e, e ∈ all <->
        e ∈ guiEvents
        \/ (e ∈ signupEvents
            /\ ~ exists g, g ∈ guiEvents /\ type g = tenant_signup /\ tenant g = tenant e)
        \/ e ∈ planEvents \/ e ∈ mcpEvents)
  /\ (forall e, e ∈ out -> e ∈ all)
  /\ (forall e, e ∈ all -> exists e', e' ∈ out /\ id e' = id e)
  /\ (forall e, e ∈ out ->
        exists l1 l2, all = l1 ++ e :: l2
          /\ (forall x, x ∈ l1 -> id x = id e -> tsZ x < tsZ e)
          /\ (forall x, x ∈ l2 -> id x = id e -> tsZ x <= tsZ e))
  /\ ((forall x y, x ∈ all -> y ∈ all -> id x = id y -> timestamp x = timestamp y) ->
      forall e, e ∈ out ->
        exists l1 l2, all = l1 ++ e :: l2 /\ (id e ∉ id <$> l1)).
Proof.
  intros Hnum all out.
  pose proof (merged_numeric _ _ _ _ Hnum) as Hall. fold all in Hall.
  assert (forall e, e ∈ out -> e ∈ all) as Hsub.
  { intros e He. apply (elem_of_Array_sort newest_first).
    eapply elem_of_sublist; [exact He | apply keep_unseen_sublist]. }
  split; [|split; [|split; [|split; [|split; [|split]]]]].
  - apply mergeAndDedup_sorted. exact Hnum.
  - apply keep_unseen_NoDup.
  - intros e. unfold all, merged. rewrite !elem_of_app, elem_of_filteredSignups. tauto.
  - exact Hsub.
  - intros e He. apply (keep_unseen_covers _ ∅ e); [|apply not_elem_of_empty].
    apply (elem_of_Array_sort newest_first). exact He.
  - intros e He. exact (mergeAndDedup_winner all e Hall He).
  - intros Hsame e He.
    destruct (mergeAndDedup_winner all e Hall He) as (l1 & l2 & Heq & Hbefore & _).
    exists l1, l2. split; [exact Heq|].
    intros Hin. apply list_elem_of_fmap in Hin as (x & Hid & Hx).
    specialize (Hbefore x Hx (eq_sym Hid)).
    assert (timestamp x = timestamp e) as Hts.
    { apply Hsame; [| |congruence]; rewrite Heq, elem_of_app, ?elem_of_cons; auto. }
    unfold tsZ in Hbefore. rewrite Hts in Hbefore. lia.
Qed.

Lemma mergeAndDedup_correct_witness :
  StronglySorted (fun a b => tsZ a >= tsZ b)
    (mergeAndDedup [dup_older; dup_newer] [dup_newer] [] [dup_older])
  /\ NoDup (id <$> mergeAndDedup [dup_older; dup_newer] [dup_newer] [] [dup_older]).
Proof.
  destruct (mergeAndDedup_correct [dup_older; dup_newer] [dup_newer] [] [dup_older])
    as (Hsorted & Hnodup & _).
  - repeat constructor.
  - split; [exact Hsorted | exact Hnodup].
Defined.

(** ** Grouping in the drill-down view *)

(** *** The hash suffix *)

Lemma split_last_hyphen_app (pre suf : jsstring) :
  45%N ∉ suf -> split_last_hyphen (pre ++ 45%N :: suf) = Some (pre, suf).
Proof.
  intros Hsuf.
  assert (split_last_hyphen suf = None) as Hnone.
  { induction suf as [|c suf IH]; [reflexivity|]. simpl.
    apply not_elem_of_cons in Hsuf as [Hc Hsuf]. rewrite (IH Hsuf).
    rewrite decide_False by congruence. reflexivity. }
  induction pre as [|c pre IH]; simpl.
  - rewrite Hnone. reflexivity.
  - rewrite IH. reflexivity.
Qed.





(** *** The groups as a finite map *)

Lemma update_group_map (name : jsstring) (f : gmap Z jsnum -> gmap Z jsnum) (g : Grouped) :
  (list_to_map (update_group name f g) : gmap jsstring (gmap Z jsnum))
  = <[name := f (default ∅ ((list_to_map g : gmap jsstring (gmap Z jsnum)) !! name))]>
      (list_to_map g).
Proof.
  induction g as [|[k m] g IH]; simpl.
  - rewrite lookup_empty. reflexivity.
  - destruct (decide (k = name)) as [->|Hne]; simpl.
    + rewrite lookup_insert_eq, insert_insert_eq. reflexivity.
    + rewrite IH, lookup_insert_ne by exact Hne.
      apply insert_insert_ne. exact Hne.
Qed.

Lemma update_group_keys (name : jsstring) (f : gmap Z jsnum -> gmap Z jsnum) (g : Grouped) :
  (update_group name f g).*1 = if decide (name ∈ g.*1) then g.*1 else g.*1 ++ [name].
Proof.
  induction g as [|[k m] g IH]; [reflexivity|].
  cbn [update_group]. destruct (decide (k = name)) as [->|Hne]; rewrite !fmap_cons; cbn [fst].
  - rewrite decide_True by left. reflexivity.
  - rewrite IH. destruct (decide (name ∈ g.*1)) as [Hin|Hin].
    + rewrite decide_True by (right; exact Hin). reflexivity.
    + rewrite decide_False; [reflexivity|].
      rewrite not_elem_of_cons. split; [congruence | exact Hin].
Qed.

Lemma update_group_NoDup (name : jsstring) (f : gmap Z jsnum -> gmap Z jsnum) (g : Grouped) :
  NoDup g.*1 -> NoDup (update_group name f g).*1.
Proof.
  intros Hg. rewrite update_group_keys. destruct (decide (name ∈ g.*1)) as [Hin|Hin]; [exact Hg|].
  apply NoDup_app. split; [exact Hg|]. split; [|apply NoDup_singleton].
  intros x Hx Hx'. apply list_elem_of_singleton in Hx'. congruence.
Qed.

Lemma fold_group_result_NoDup (results : list PrometheusResult) : forall g : Grouped,
  NoDup g.*1 -> NoDup (fold_left group_result results g).*1.
Proof.
  induction results as [|r results IH]; intros g Hg; simpl; [exact Hg|].
  apply IH. unfold group_result. destruct (inherited (deploy_name r)); [exact Hg|].
  apply update_group_NoDup. exact Hg.
Qed.

(** No group has the name of an inherited member. *)
Lemma fold_group_result_own (results : list PrometheusResult) : forall g : Grouped,
  Forall (fun k => inherited k = false) g.*1 ->
  Forall (fun k => inherited k = false) (fold_left group_result results g).*1.
Proof.
  induction results as [|r results IH]; intros g Hg; simpl; [exact Hg|].
  apply IH. unfold group_result. destruct (inherited (deploy_name r)) eqn:Hi; [exact Hg|].
  rewrite update_group_keys. destruct (decide (deploy_name r ∈ g.*1)); [exact Hg|].
  apply Forall_app. split; [exact Hg|]. constructor; [exact Hi | constructor].
Qed.

Lemma group_results_own (results : list PrometheusResult) (name : jsstring) :
  name ∈ (group_results results).*1 -> inherited name = false.
Proof.
  intros Hin.
  pose proof (fold_group_result_own results [] ltac:(constructor)) as Hall.
  rewrite Forall_forall in Hall. exact (Hall name Hin).
Qed.

(** The map a group ends with: the samples of its raw series, added one by
    one to the empty map. *)
Lemma fold_group_result_lookup (results : list PrometheusResult) :
  forall (g : Grouped) (name : jsstring),
  inherited name = false ->
  (list_to_map (fold_left group_result results g) : gmap jsstring (gmap Z jsnum)) !! name
  = match filter (fun r => deploy_name r = name) results with
    | [] => (list_to_map g : gmap jsstring (gmap Z jsnum)) !! name
    | _ => Some (fold_left add_sample (samples_of name results)
                   (default ∅ ((list_to_map g : gmap jsstring (gmap Z jsnum)) !! name)))
    end.
Proof.
  induction results as [|r results IH]; intros g name Hown; simpl; [reflexivity|].
  rewrite (IH _ _ Hown). unfold group_result, samples_of. rewrite filter_cons.
  destruct (inherited (deploy_name r)) eqn:Hi.
  - rewrite decide_False by (intros Heq; rewrite Heq in Hi; congruence). reflexivity.
  - rewrite update_group_map.
    destruct (decide (deploy_name r = name)) as [<-|Hne].
    + rewrite lookup_insert_eq. simpl. rewrite fold_left_app.
      destruct (filter _ results); reflexivity.
    + rewrite lookup_insert_ne by exact Hne. reflexivity.
Qed.

Lemma group_results_elem (results : list PrometheusResult) (name : jsstring) (m : gmap Z jsnum) :
  (name, m) ∈ group_results results <->
  inherited name = false
  /\ (exists r, r ∈ results /\ deploy_name r = name)
  /\ m = fold_left add_sample (samples_of name results) ∅.
Proof.
  destruct (inherited name) eqn:Hown.
  { split; [|intros [? _]; discriminate]. intros Hin. exfalso.
    assert (name ∈ (group_results results).*1) as Hk
      by (apply list_elem_of_fmap; exists (name, m); auto).
    apply group_results_own in Hk. congruence. }
  unfold group_results.
  rewrite (elem_of_list_to_map (M := gmap jsstring))
    by (apply fold_group_result_NoDup; constructor).
  rewrite (fold_group_result_lookup _ _ _ Hown). simpl. rewrite lookup_empty. simpl.
  destruct (filter (fun r => deploy_name r = name) results) as [|r0 rs] eqn:Hf.
  - split; [discriminate|]. intros (_ & (r & Hr & Hname) & _). exfalso.
    assert (r ∈ filter (fun r => deploy_name r = name) results) as Hin
      by (apply list_elem_of_filter; auto).
    rewrite Hf in Hin. apply elem_of_nil in Hin. exact Hin.
  - assert (r0 ∈ filter (fun r => deploy_name r = name) results) as Hin
      by (rewrite Hf; left).
    apply list_elem_of_filter in Hin as [Hname Hr0].
    split.
    + intros [= <-]. split; [reflexivity|]. split; [exists r0; auto | reflexivity].
    + intros (_ & _ & ->). reflexivity.
Qed.

(** *** Sums per timestamp *)

Lemma or_zero_number (v : jsnum) : v <> NaN -> or_zero (Some v) = v.
Proof.
  destruct v as [z| |]; [|reflexivity|congruence]. intros _.
  unfold or_zero, num_truthy. destruct (Z.eqb_spec z 0) as [->|]; reflexivity.
Qed.

Lemma norm_number (z : Z) : norm z <> NaN.
Proof. unfold norm. destruct (overflow_threshold <=? _); discriminate. Qed.

Lemma num_add_number (acc : jsnum) (z : Z) : acc <> NaN -> num_add acc (Num z) <> NaN.
Proof.
  destruct acc as [x| |]; [intros _; apply norm_number | discriminate | congruence].
Qed.

Lemma sum_at_absent (ts : Z) (samples : list (Z * jsstring)) (acc : jsnum) :
  ts ∉ samples.*1 -> sum_at ts samples acc = acc.
Proof.
  revert acc. induction samples as [|[t v] rest IH]; intros acc; [reflexivity|].
  rewrite fmap_cons, not_elem_of_cons. cbn [fst snd sum_at]. intros [Hne Hrest].
  rewrite decide_False by congruence. exact (IH acc Hrest).
Qed.

(** The entry of [ts] after the inner loop has run over [samples]. *)
Lemma fold_add_sample_lookup_at (samples : list (Z * jsstring)) :
  forall (m : gmap Z jsnum) (ts : Z) (acc : jsnum),
  Forall (fun sample => fst sample = ts -> parses sample) samples ->
  acc <> NaN ->
  or_zero (m !! ts) = acc ->
  fold_left add_sample samples m !! ts
  = if decide (ts ∈ samples.*1) then Some (sum_at ts samples acc) else m !! ts.
Proof.
  induction samples as [|[t v] rest IH]; intros m ts acc Hall Hacc Hm.
  - rewrite decide_False by apply not_elem_of_nil. reflexivity.
  - apply Forall_cons in Hall as [Hv Hrest]. unfold parses in Hv. cbn [fst snd] in Hv.
    cbn [fold_left]. rewrite fmap_cons. cbn [fst snd sum_at].
    destruct (decide (t = ts)) as [->|Hne].
    + rewrite decide_True by left. specialize (Hv eq_refl).
      assert (add_sample m (ts, v) !! ts = Some (num_add acc (parseInt10 v))) as Hm'.
      { unfold add_sample. cbn [fst snd]. rewrite lookup_insert_eq, Hm. reflexivity. }
      assert (num_add acc (parseInt10 v) <> NaN) as Hacc'
        by (rewrite Hv; apply num_add_number; exact Hacc).
      rewrite (IH _ ts (num_add acc (parseInt10 v)) Hrest Hacc')
        by (rewrite Hm'; apply or_zero_number; exact Hacc').
      destruct (decide (ts ∈ rest.*1)) as [Hin|Hin]; [reflexivity|].
      rewrite Hm', (sum_at_absent ts rest _ Hin). reflexivity.
    + assert (add_sample m (t, v) !! ts = m !! ts) as Hm'.
      { unfold add_sample. cbn [fst snd]. apply lookup_insert_ne. exact Hne. }
      rewrite (IH _ ts acc Hrest Hacc) by (rewrite Hm'; exact Hm).
      destruct (decide (ts ∈ rest.*1)) as [Hin|Hin].
      * rewrite decide_True by (right; exact Hin). reflexivity.
      * rewrite decide_False by (rewrite not_elem_of_cons; split; congruence). exact Hm'.
Qed.

Lemma fold_add_sample_lookup (samples : list (Z * jsstring)) :
  forall (m : gmap Z jsnum) (ts : Z) (acc : jsnum),
  Forall parses samples ->
  acc <> NaN ->
  or_zero (m !! ts) = acc ->
  fold_left add_sample samples m !! ts
  = if decide (ts ∈ samples.*1) then Some (sum_at ts samples acc) else m !! ts.
Proof.
  intros m ts acc Hall. apply fold_add_sample_lookup_at.
  apply (Forall_impl _ _ _ Hall). intros sample H _. exact H.
Qed.



(** *** The points of a group *)

Lemma elem_of_series_data (m : gmap Z jsnum) (d : Point) :
  d ∈ series_data m <-> exists ts v, m !! ts = Some v /\ d = mkPoint (ts * 1000) v.
Proof.
  unfold series_data. rewrite elem_of_Array_sort, list_elem_of_fmap. split.
  - intros ([ts v] & -> & Hin). apply elem_of_map_to_list in Hin. exists ts, v. auto.
  - intros (ts & v & Hm & ->). exists (ts, v). split; [reflexivity|].
    apply elem_of_map_to_list. exact Hm.
Qed.

Lemma sorted_distinct_strict (l : list Point) :
  StronglySorted (fun a b => time a <= time b) l ->
  NoDup (time <$> l) ->
  StronglySorted (fun a b => time a < time b) l.
Proof.
  induction l as [|x l IH]; intros Hs Hn; [constructor|].
  apply StronglySorted_inv in Hs as [Hs Hx]. rewrite fmap_cons in Hn.
  apply NoDup_cons in Hn as [Hnx Hn]. constructor; [apply IH; assumption|].
  rewrite Forall_forall in *. intros y Hy. specialize (Hx y Hy).
  assert (time x <> time y) by (intros Heq; apply Hnx; rewrite Heq; apply list_elem_of_fmap_2; exact Hy).
  lia.
Qed.


(** *** The order of the groups *)

Lemma indexed_entries {V : Type} (o : list (jsstring * V)) :
  snd <$> omap (fun kv => i ← array_index (fst kv); Some (i, kv)) o
  = filter (fun kv => ~ array_index (fst kv) = None) o.
Proof.
  induction o as [|kv o IH]; [reflexivity|].
  rewrite filter_cons. cbn [omap list_omap].
  destruct (array_index (fst kv)) as [i|].
  - rewrite decide_True by discriminate. cbn [mbind option_bind].
    rewrite fmap_cons. cbn [snd]. f_equal. exact IH.
  - rewrite decide_False by (intros Hn; apply Hn; reflexivity). exact IH.
Qed.

Lemma Object_entries_perm {V : Type} (o : list (jsstring * V)) : Object_entries o ≡ₚ o.
Proof.
  unfold Object_entries. rewrite (Array_sort_perm _ _), indexed_entries.
  rewrite Permutation_app_comm.
  apply (filter_app_complement (fun kv : jsstring * V => array_index (fst kv) = None)).
Qed.

Lemma elem_of_drilldown_grouped (results : list PrometheusResult) (s : Series) :
  s ∈ drilldown_grouped results <->
  inherited (key s) = false
  /\ (exists r, r ∈ results /\ deploy_name r = key s)
  /\ data s = series_data (fold_left add_sample (samples_of (key s) results) ∅).
Proof.
  unfold drilldown_grouped. rewrite list_elem_of_fmap. split.
  - intros ([name m] & -> & Hin). rewrite Object_entries_perm in Hin.
    apply group_results_elem in Hin as (Hown & Hr & ->).
    split; [exact Hown|]. split; [exact Hr | reflexivity].
  - intros (Hown & Hr & Hdata).
    exists (key s, fold_left add_sample (samples_of (key s) results) ∅).
    split; [destruct s; simpl in *; congruence|].
    rewrite Object_entries_perm. apply group_results_elem.
    split; [exact Hown|]. split; [exact Hr | reflexivity].
Qed.

Lemma drilldown_grouped_NoDup (results : list PrometheusResult) :
  NoDup (key <$> drilldown_grouped results).
Proof.
  unfold drilldown_grouped. rewrite <- list_fmap_compose.
  change (key ∘ (fun kv : jsstring * gmap Z jsnum => mkSeries (fst kv) (series_data (snd kv))))
    with (fst : jsstring * gmap Z jsnum -> jsstring).
  rewrite Object_entries_perm. apply fold_group_result_NoDup. constructor.
Qed.

Lemma samples_of_parses (results : list PrometheusResult) (name : jsstring) :
  Forall (fun r => Forall parses (values_of r)) results ->
  Forall parses (samples_of name results).
Proof.
  intros Hall. unfold samples_of. rewrite Forall_forall. intros sample Hs.
  apply list_elem_of_bind in Hs as (r & Hs & Hr).
  apply list_elem_of_filter in Hr as [_ Hr].
  rewrite Forall_forall in Hall. specialize (Hall r Hr).
  rewrite Forall_forall in Hall. exact (Hall sample Hs).
Qed.

(** The points of an output series when every sample value is a finite
    number: one per timestamp of the group, carrying the sum of the values
    taken at it. *)
Lemma drilldown_points (results : list PrometheusResult) (name : jsstring) (d : Point) :
  Forall (fun r => Forall parses (values_of r)) results ->
  d ∈ series_data (fold_left add_sample (samples_of name results) ∅) <->
  exists ts, ts ∈ (samples_of name results).*1
    /\ d = mkPoint (ts * 1000) (sum_at ts (samples_of name results) (Num 0)).
Proof.
  intros Hall. pose proof (samples_of_parses results name Hall) as Hsamples.
  rewrite elem_of_series_data. split.
  - intros (ts & v & Hm & ->).
    rewrite (fold_add_sample_lookup _ ∅ ts (Num 0) Hsamples) in Hm
      by (discriminate || (rewrite lookup_empty; reflexivity)).
    destruct (decide (ts ∈ (samples_of name results).*1)) as [Hin|Hin].
    + injection Hm as <-. exists ts. split; [exact Hin | reflexivity].
    + rewrite lookup_empty in Hm. discriminate.
  - intros (ts & Hin & ->). exists ts, (sum_at ts (samples_of name results) (Num 0)).
    split; [|reflexivity].
    rewrite (fold_add_sample_lookup _ ∅ ts (Num 0) Hsamples)
      by (discriminate || (rewrite lookup_empty; reflexivity)).
    rewrite decide_True by exact Hin. reflexivity.
Qed.


(** The names that have a series in the response. *)
Lemma drilldown_series_named (results : list PrometheusResult) (name : jsstring) :
  Forall (fun r => Forall parses (values_of r)) results ->
  (exists s, s ∈ drilldown_series results /\ key s = name) <->
  (name ∉ Object_prototype_names)
  /\ exists ts, ts ∈ (samples_of name results).*1
       /\ positive (sum_at ts (samples_of name results) (Num 0)).
Proof.
  intros Hall. split.
  - intros (s & Hs & <-). apply list_elem_of_filter in Hs as [Hpos Hs].
    apply elem_of_drilldown_grouped in Hs as (Hown & _ & Hdata).
    split; [apply inherited_false; exact Hown|].
    apply has_positive_iff in Hpos as (d & Hd & Hv). rewrite Hdata in Hd.
    apply (drilldown_points results (key s) d Hall) in Hd as (ts & Hin & ->).
    exists ts. split; [exact Hin | exact Hv].
  - intros (Hown & ts & Hin & Hpos).
    assert (exists r, r ∈ results /\ deploy_name r = name) as Hr.
    { unfold samples_of in Hin. apply list_elem_of_fmap in Hin as (sample & _ & Hs).
      apply list_elem_of_bind in Hs as (r & _ & Hr).
      apply list_elem_of_filter in Hr as [Hname Hr]. exists r. auto. }
    set (s := mkSeries name (series_data (fold_left add_sample (samples_of name results) ∅))).
    exists s. split; [|reflexivity].
    apply list_elem_of_filter. split.
    + apply has_positive_iff.
      exists (mkPoint (ts * 1000) (sum_at ts (samples_of name results) (Num 0))).
      split; [|exact Hpos].
      apply (drilldown_points results name _ Hall). exists ts. auto.
    + apply elem_of_drilldown_grouped.
      split; [apply inherited_false; exact Hown|]. split; [exact Hr | reflexivity].
Qed.




(** ** What the non-zero filter keeps *)

Lemma sum_at_zero (ts : Z) (samples : list (Z * jsstring)) :
  Forall (fun sample => parseInt10 (snd sample) = Num 0) samples ->
  sum_at ts samples (Num 0) = Num 0.
Proof.
  induction samples as [|[t v] rest IH]; intros Hall; [reflexivity|].
  apply Forall_cons in Hall as [Hv Hrest]. cbn [snd] in Hv. cbn [sum_at fst snd].
  destruct (decide (t = ts)); [rewrite Hv|]; exact (IH Hrest).
Qed.

Lemma norm_not_negative (z : Z) : 0 <= z -> not_negative (norm z).
Proof.
  intros Hz. unfold norm. pose proof (to_double_sgn z) as Hs.
  destruct (overflow_threshold <=? Z.abs (to_double z)); cbn [not_negative].
  - apply Z.ltb_ge. exact Hz.
  - apply Z.sgn_nonneg. rewrite Hs. apply Z.sgn_nonneg. exact Hz.
Qed.

Lemma positive_not_negative (v : jsnum) : positive v -> not_negative v.
Proof. destruct v as [z|s|]; simpl; [lia | auto | auto]. Qed.

Lemma num_add_not_negative (acc : jsnum) (z : Z) :
  not_negative acc -> 0 <= z -> not_negative (num_add acc (Num z)).
Proof.
  destruct acc as [x|s|]; simpl; intros Hacc Hz; [|exact Hacc|exact Hacc].
  apply norm_not_negative. lia.
Qed.

Lemma num_add_positive (acc : jsnum) (z : Z) :
  not_negative acc -> 0 <= z -> positive acc \/ 0 < z -> positive (num_add acc (Num z)).
Proof.
  destruct acc as [x|s|]; simpl; intros Hacc Hz Hpos.
  - apply num_gt_positive. rewrite norm_positive. apply Z.ltb_lt. lia.
  - exact Hacc.
  - exact Hacc.
Qed.

(** Values that are zero or greater add up to a positive sum as soon as one
    of them is positive, whatever the rounding. *)
Lemma sum_at_positive (ts : Z) (samples : list (Z * jsstring)) : forall acc : jsnum,
  Forall parses samples ->
  Forall (fun sample => 0 <= int_value (snd sample)) samples ->
  not_negative acc ->
  positive acc \/ (exists sample, sample ∈ samples /\ fst sample = ts
                                  /\ 0 < int_value (snd sample)) ->
  positive (sum_at ts samples acc).
Proof.
  induction samples as [|[t v] rest IH]; intros acc Hall Hnn Hacc Hpos.
  - destruct Hpos as [Hpos|(sample & Hin & _)]; [exact Hpos|].
    apply elem_of_nil in Hin. destruct Hin.
  - apply Forall_cons in Hall as [Hv Hrest]. unfold parses in Hv. cbn [snd] in Hv.
    apply Forall_cons in Hnn as [Hz Hnn]. cbn [snd] in Hz.
    cbn [sum_at fst snd]. destruct (decide (t = ts)) as [->|Hne].
    + rewrite Hv. apply (IH _ Hrest Hnn).
      * apply num_add_not_negative; assumption.
      * destruct Hpos as [Hpos|(sample & Hin & Hts & Hval)].
        -- left. apply num_add_positive; auto.
        -- apply elem_of_cons in Hin as [->|Hin].
           ++ left. apply num_add_positive; auto.
           ++ right. exists sample. auto.
    + apply (IH _ Hrest Hnn Hacc).
      destruct Hpos as [Hpos|(sample & Hin & Hts & Hval)]; [left; exact Hpos|].
      apply elem_of_cons in Hin as [->|Hin]; [cbn [fst] in Hts; congruence|].
      right. exists sample. auto.
Qed.

(** What the non-zero filter keeps.  In the graph view the series of a
    result is dropped when all its sample values are zero and kept when one
    of them is greater than zero.  In the drill-down view, for sample values
    that are finite numbers and results that name no deployment
    [__proto__], a logical name has a series in the response exactly when
    it is not the name of a member every object inherits and the sum at one
    of its timestamps is positive: the name of a raw series is dropped when
    all the samples of the raw series of that name are zero, and, unless it
    is an inherited name, kept when one sample of the raw series is
    positive and none of that name is negative. *)
Theorem zero_series_dropped :
  (forall (results : list PrometheusResult) (r : PrometheusResult),
     r ∈ results ->
     (Forall (fun sample => parseInt10 (snd sample) = Num 0) (values_of r) ->
      graph_series_of r ∉ graph_series results)
     /\ ((exists sample z,
            sample ∈ values_of r /\ parseInt10 (snd sample) = Num z /\ 0 < z) ->
         graph_series_of r ∈ graph_series results))
  /\ (forall results : list PrometheusResult,
        Forall (fun r => Forall parses (values_of r)) results ->
        prototype_untouched results ->
        (forall name : jsstring,
           (exists s, s ∈ drilldown_series results /\ key s = name) <->
           (name ∉ Object_prototype_names)
           /\ exists ts, ts ∈ (samples_of name results).*1
                /\ positive (sum_at ts (samples_of name results) (Num 0)))
        /\ (forall r : PrometheusResult,
              r ∈ results ->
              (Forall (fun sample => parseInt10 (snd sample) = Num 0)
                      (samples_of (deploy_name r) results) ->
               forall s, s ∈ drilldown_series results -> key s <> deploy_name r)
              /\ (deploy_name r ∉ Object_prototype_names ->
                  Forall (fun sample => 0 <= int_value (snd sample))
                         (samples_of (deploy_name r) results) ->
                  (exists sample z,
                     sample ∈ values_of r /\ parseInt10 (snd sample) = Num z /\ 0 < z) ->
                  exists s, s ∈ drilldown_series results /\ key s = deploy_name r
                    /\ data s = series_data
                         (fold_left add_sample (samples_of (deploy_name r) results) ∅)))).
Proof.
  split.
  - intros results r Hr. unfold graph_series. split.
    + intros Hzero Hin. apply list_elem_of_filter in Hin as [Hpos _].
      rewrite all_zero_not_positive in Hpos; [discriminate|].
      simpl. rewrite Forall_fmap. exact Hzero.
    + intros (sample & z & Hs & Hv & Hz). apply list_elem_of_filter.
      split; [|apply list_elem_of_fmap_2; exact Hr].
      apply has_positive_iff. exists (graph_point sample).
      split; [simpl; apply list_elem_of_fmap_2; exact Hs|].
      simpl. rewrite Hv. exact Hz.
  - intros results Hall _. split; [intros name; apply drilldown_series_named; exact Hall|].
    intros r Hr. split.
    + intros Hzero s Hs Hkey.
      destruct (proj1 (drilldown_series_named results (deploy_name r) Hall))
        as (_ & ts & _ & Hpos); [exists s; auto|].
      rewrite (sum_at_zero ts _ Hzero) in Hpos. simpl in Hpos. lia.
    + intros Hown Hnn (sample & z & Hs & Hv & Hz).
      assert (sample ∈ samples_of (deploy_name r) results) as Hin.
      { unfold samples_of. apply list_elem_of_bind. exists r. split; [exact Hs|].
        apply list_elem_of_filter. auto. }
      assert (int_value (snd sample) = z) as Hint by (unfold int_value; rewrite Hv; reflexivity).
      destruct (proj2 (drilldown_series_named results (deploy_name r) Hall)) as (s & Hs' & Hkey).
      { split; [exact Hown|]. exists (fst sample).
        split; [apply list_elem_of_fmap_2; exact Hin|].
        apply sum_at_positive.
        - apply samples_of_parses. exact Hall.
        - exact Hnn.
        - simpl. lia.
        - right. exists sample. split; [exact Hin|]. split; [reflexivity | lia]. }
      exists s. split; [exact Hs'|]. split; [exact Hkey|].
      apply list_elem_of_filter in Hs' as [_ Hs'].
      apply elem_of_drilldown_grouped in Hs' as (_ & _ & Hdata).
      rewrite Hdata, Hkey. reflexivity.
Qed.

Lemma zero_series_dropped_witness :
  (graph_series_of flat_zero ∉ graph_series [flat_zero; one_spike])
  /\ graph_series_of one_spike ∈ graph_series [flat_zero; one_spike]
  /\ (forall s, s ∈ drilldown_series [idle_rs; busy_rs] -> key s <> str "cron")
  /\ exists s, s ∈ drilldown_series [idle_rs; busy_rs] /\ key s = str "web"
       /\ data s = [mkPoint 1700000000000 (Num 0); mkPoint 1700000060000 (Num 2)].
Proof.
  destruct zero_series_dropped as [Hgraph Hdrill]. split; [|split].
  - apply (Hgraph [flat_zero; one_spike] flat_zero); [left|].
    repeat constructor.
  - apply (Hgraph [flat_zero; one_spike] one_spike); [right; left|].
    exists (1700000060, str "2"), 2. split; [right; left|]. split; [reflexivity | lia].
  - assert (Forall (fun r => Forall parses (values_of r)) [idle_rs; busy_rs]) as Hall
      by (repeat constructor).
    assert (prototype_untouched [idle_rs; busy_rs]) as Hproto
      by (apply (bool_decide_unpack _); vm_compute; exact I).
    destruct (Hdrill _ Hall Hproto) as [_ Hraw].
    assert (deploy_name idle_rs = str "cron") as Hidle by (vm_compute; reflexivity).
    assert (deploy_name busy_rs = str "web") as Hbusy by (vm_compute; reflexivity).
    split.
    + rewrite <- Hidle. apply (Hraw idle_rs); [left|].
      assert (samples_of (deploy_name idle_rs) [idle_rs; busy_rs]
              = [(1700000000, str "0"); (1700000060, str "0")]) as ->
        by (vm_compute; reflexivity).
      repeat constructor.
    + destruct (proj2 (Hraw busy_rs ltac:(right; left))) as (s & Hs & Hkey & Hdata).
      * apply (bool_decide_unpack _). vm_compute. exact I.
      * assert (samples_of (deploy_name busy_rs) [idle_rs; busy_rs]
                = [(1700000000, str "0"); (1700000060, str "2")]) as ->
          by (vm_compute; reflexivity).
        repeat constructor; vm_compute; discriminate.
      * exists (1700000060, str "2"), 2. split; [right; left|]. split; [reflexivity | lia].
      * exists s. split; [exact Hs|]. split; [rewrite Hkey; exact Hbusy|]. rewrite Hdata.
        vm_compute. reflexivity.
Defined.

(** C8, where the code loses a series.  In the drill-down view a replica
    set of the deployment [constructor] that runs two pods for a while has
    a sample greater than zero, and the chart output holds no series for
    it: the grouping object inherits a member of that name, so that no
    group is made.  The same samples under the name [web] give a series. *)
Theorem inherited_name_series_lost :
  deploy_name busy_constructor_rs = str "constructor"
  /\ values_of busy_constructor_rs = values_of busy_rs
  /\ (exists sample z,
        sample ∈ values_of busy_constructor_rs
        /\ parseInt10 (snd sample) = Num z /\ 0 < z)
  /\ drilldown_series [busy_constructor_rs] = []
  /\ drilldown_series [busy_rs]
     = [mkSeries (str "web") [mkPoint 1700000000000 (Num 0); mkPoint 1700000060000 (Num 2)]]
  /\ drilldown_series [busy_rs; busy_constructor_rs] = drilldown_series [busy_rs].
Proof.
  split; [vm_compute; reflexivity|]. split; [reflexivity|]. split.
  - exists (1700000060, str "2"), 2. split; [right; left|]. split; [reflexivity | lia].
  - repeat split; vm_compute; reflexivity.
Qed.

(** ** Samples that are not integers, and missing labels *)

(** C7, as stated, fails: a sample whose value is not an integer stays in
    the output series, with value [NaN], in both views. *)
Lemma unparsable_sample_kept :
  graph_series [noisy]
  = [mkSeries (str "acme") [mkPoint 1700000000000 (Num 5); mkPoint 1700000060000 NaN]]
  /\ drilldown_series [noisy_rs]
     = [mkSeries (str "web") [mkPoint 1700000000000 (Num 5); mkPoint 1700000060000 NaN]].
Proof. split; vm_compute; reflexivity. Qed.

Lemma add_sample_NaN (tsMap : gmap Z jsnum) (ts : Z) (val : jsstring) :
  parseInt10 val = NaN -> add_sample tsMap (ts, val) !! ts = Some NaN.
Proof.
  intros Hval. unfold add_sample. simpl.
  rewrite lookup_insert_eq, Hval. destruct (or_zero (tsMap !! ts)); reflexivity.
Qed.

(** The entry of [ts] after the inner loop, when it has met a value at [ts]
    that does not parse: [NaN || 0] is [0], so that the samples after it add
    up from zero, and what was added before is lost. *)
Lemma fold_add_sample_restart (pre post : list (Z * jsstring)) (m : gmap Z jsnum)
    (ts : Z) (val : jsstring) :
  parseInt10 val = NaN ->
  Forall (fun sample => fst sample = ts -> parses sample) post ->
  fold_left add_sample (pre ++ (ts, val) :: post) m !! ts
  = Some (if decide (ts ∈ post.*1) then sum_at ts post (Num 0) else NaN).
Proof.
  intros Hval Hpost. rewrite fold_left_app. cbn [fold_left].
  pose proof (add_sample_NaN (fold_left add_sample pre m) ts val Hval) as Hm.
  rewrite (fold_add_sample_lookup_at post _ ts (Num 0) Hpost)
    by (discriminate || (rewrite Hm; reflexivity)).
  destruct (decide (ts ∈ post.*1)); [reflexivity | exact Hm].
Qed.

(** C7, amended.  A sample whose value fails integer parsing is not
    excluded.  In the graph view every sample of a result gives one point,
    in order, whose value is [NaN] when the parse fails.  In the drill-down
    view such a sample puts [NaN] at its timestamp, whatever was there; the
    next sample of the logical name at that timestamp starts the sum again
    from zero.  The point of the timestamp so carries the sum of the values
    that follow the last failing one at that timestamp, and [NaN] when none
    follows; the values before it are lost.  This is for a logical name
    that no object inherits, in results that name no deployment
    [__proto__].  [NaN] never counts as greater than zero in the non-zero
    filter.  A missing or empty grouping label maps to [unknown] in both
    views. *)
Theorem unparsable_samples_and_missing_labels :
  (forall r : PrometheusResult,
     data (graph_series_of r)
     = (fun sample => mkPoint (fst sample * 1000) (parseInt10 (snd sample))) <$> values_of r)
  /\ (forall (tsMap : gmap Z jsnum) (ts : Z) (val : jsstring),
        parseInt10 val = NaN -> add_sample tsMap (ts, val) !! ts = Some NaN)
  /\ (forall (pre post : list (Z * jsstring)) (tsMap : gmap Z jsnum) (ts : Z) (val : jsstring),
        parseInt10 val = NaN ->
        Forall (fun sample => fst sample = ts -> parses sample) post ->
        fold_left add_sample (pre ++ (ts, val) :: post) tsMap !! ts
        = Some (if decide (ts ∈ post.*1) then sum_at ts post (Num 0) else NaN))
  /\ (forall (results : list PrometheusResult) (name : jsstring)
             (pre post : list (Z * jsstring)) (ts : Z) (val : jsstring),
        prototype_untouched results ->
        name ∉ Object_prototype_names ->
        samples_of name results = pre ++ (ts, val) :: post ->
        parseInt10 val = NaN ->
        Forall (fun sample => fst sample = ts -> parses sample) post ->
        exists s,
          s ∈ drilldown_grouped results /\ key s = name
          /\ mkPoint (ts * 1000)
               (if decide (ts ∈ post.*1) then sum_at ts post (Num 0) else NaN) ∈ data s
          /\ (s ∈ drilldown_series results <-> exists d, d ∈ data s /\ positive (value d)))
  /\ (forall s : Series,
        Forall (fun d => value d = NaN) (data s) -> has_positive s = false)
  /\ (forall r : PrometheusResult,
        metric r !! str "namespace" = None \/ metric r !! str "namespace" = Some [] ->
        key (graph_series_of r) = str "unknown")
  /\ (forall r : PrometheusResult,
        metric r !! str "created_by_name" = None
        \/ metric r !! str "created_by_name" = Some [] ->
        deploy_name r = str "unknown").
Proof.
  split; [|split; [|split; [|split; [|split; [|split]]]]].
  - intros r. reflexivity.
  - exact add_sample_NaN.
  - intros pre post tsMap ts val. apply fold_add_sample_restart.
  - intros results name pre post ts val _ Hown Hsamples Hval Hpost.
    set (s := mkSeries name (series_data (fold_left add_sample (samples_of name results) ∅))).
    assert (s ∈ drilldown_grouped results) as Hs.
    { apply elem_of_drilldown_grouped. split; [apply inherited_false; exact Hown|].
      split; [|reflexivity]. cbn [key s].
      assert ((ts, val) ∈ samples_of name results) as Hin
        by (rewrite Hsamples; apply elem_of_app; right; left).
      unfold samples_of in Hin. apply list_elem_of_bind in Hin as (r & _ & Hr).
      apply list_elem_of_filter in Hr as [Hname Hr]. exists r. auto. }
    exists s. split; [exact Hs|]. split; [reflexivity|]. split.
    + cbn [data s]. apply elem_of_series_data. eexists ts, _. split; [|reflexivity].
      rewrite Hsamples. apply fold_add_sample_restart; assumption.
    + unfold drilldown_series. rewrite list_elem_of_filter, has_positive_iff. tauto.
  - exact all_NaN_not_positive.
  - intros r H. simpl. apply label_or_unknown_missing. exact H.
  - intros r H. unfold deploy_name. rewrite (label_or_unknown_missing _ H).
    exact stripRsHash_unknown.
Qed.

Lemma unparsable_samples_and_missing_labels_witness :
  add_sample ∅ (1700000060, str "n/a") !! 1700000060 = Some NaN
  /\ fold_left add_sample
       [(1700000000, str "5"); (1700000000, str "n/a"); (1700000000, str "3")] ∅
       !! 1700000000 = Some (Num 3)
  /\ (exists s, s ∈ drilldown_grouped [noisy_rs] /\ key s = str "web"
                /\ mkPoint 1700000060000 NaN ∈ data s
                /\ (s ∈ drilldown_series [noisy_rs]
                    <-> exists d, d ∈ data s /\ positive (value d)))
  /\ key (graph_series_of (mkProm ∅ (Some [(1700000000, str "4")]))) = str "unknown".
Proof.
  destruct unparsable_samples_and_missing_labels as (_ & Hadd & Hloop & Hout & _ & Hkey & _).
  split; [|split; [|split]].
  - apply Hadd. reflexivity.
  - rewrite (Hloop [(1700000000, str "5")] [(1700000000, str "3")] ∅ 1700000000 (str "n/a"));
      [vm_compute; reflexivity | reflexivity | repeat constructor; intros _; reflexivity].
  - destruct (Hout [noisy_rs] (str "web") [(1700000000, str "5")] [] 1700000060 (str "n/a"))
      as (s & Hs & Hk & Hd & Hiff).
    + apply (bool_decide_unpack _). vm_compute. exact I.
    + apply (bool_decide_unpack _). vm_compute. exact I.
    + vm_compute. reflexivity.
    + reflexivity.
    + constructor.
    + exists s. split; [exact Hs|]. split; [exact Hk|]. split; [exact Hd | exact Hiff].
  - apply Hkey. left. reflexivity.
Defined.

(** ** The structured-action parser *)

Lemma search_marker_None (line : jsstring) :
  search (after_prefix msg_marker) line = None <-> ~ has_msg line.
Proof.
  rewrite search_None. unfold has_msg. split.
  - intros H (pre & rest & Heq). specialize (H pre _ Heq).
    rewrite after_prefix_app in H. discriminate.
  - intros H pre suf Heq. destruct (after_prefix msg_marker suf) as [rest|] eqn:Hp; [|reflexivity].
    apply after_prefix_Some in Hp. subst suf. exfalso. apply H. eauto.
Qed.

Section GateLemmas.
Variable Number_toString : JNum -> jsstring.

(** What the guard in front of the [switch] lets through: an object whose
    [action] is a string of the allow-list and whose [success] is truthy. *)
Lemma mcp_try_gate (ts : jsstring) (data : JSON) (e : PlatformEvent) :
  mcp_try Number_toString ts data = Ok (Some e) ->
  exists props action successV,
    data = JObject props
    /\ lookup_last (str "action") props = Some (JString action)
    /\ action ∈ MCP_WRITE_ACTIONS
    /\ lookup_last (str "success") props = Some successV
    /\ truthy successV = true.
Proof.
  unfold mcp_try. intros H.
  destruct data as [| | | | |props]; try discriminate.
  cbn [get_field bindR] in H.
  destruct (lookup_last (str "action") props) as [actionV|] eqn:Ha; [|discriminate].
  cbn [truthy_value] in H.
  destruct (truthy actionV) eqn:Hta; [|discriminate].
  destruct actionV as [| | |action| |]; try discriminate.
  case_bool_decide as Hin; [|discriminate].
  destruct (lookup_last (str "success") props) as [successV|] eqn:Hs; [|discriminate].
  cbn [truthy_value] in H.
  destruct (truthy successV) eqn:Hts; [|discriminate].
  exists props, action, successV. auto.
Qed.

Ltac pick_action :=
  repeat first
    [ rewrite decide_True by reflexivity
    | rewrite decide_False by (let H := fresh in intros H; vm_compute in H; discriminate H) ].

(** With string operands the rendering cannot throw: every allowed action
    gives its event. *)
Lemma mcp_event_strings (ts action tenantId resource : jsstring) (typeV : option JSON) :
  action ∈ MCP_WRITE_ACTIONS ->
  typeV = None \/ (exists s, typeV = Some (JString s)) ->
  exists e,
    mcp_event Number_toString ts action (JString tenantId) (JString resource) typeV
    = Ok (Some e)
    /\ tenant e = tenantId
    /\ timestamp e = floor_div (parseInt10 ts) 1000000.
Proof.
  intros Hin Hty. unfold MCP_WRITE_ACTIONS in Hin.
  rewrite !elem_of_cons, elem_of_nil in Hin.
  unfold mcp_event.
  destruct Hin as [->|[->|[->|[->|[->|[->|[->|[->|[->|[]]]]]]]]]]; pick_action;
    cbn [ToString bindR]; try (eexists; split; [reflexivity | split; reflexivity]).
  destruct Hty as [->|[s ->]]; cbn [truthy_value truthy].
  - eexists; split; [reflexivity | split; reflexivity].
  - destruct (negb (bool_decide (s = []))); cbn [ToString bindR];
      eexists; split; try reflexivity; split; reflexivity.
Qed.

End GateLemmas.

Lemma default_string (fallback : jsstring) (v : option JSON) :
  string_or_absent v ->
  exists s, default (JString fallback) (truthy_value v) = JString s.
Proof.
  intros [->|[s ->]]; [exists fallback; reflexivity|].
  cbn [truthy_value truthy]. destruct (negb (bool_decide (s = []))); eexists; reflexivity.
Qed.

Lemma allowed_action_truthy (action : jsstring) :
  action ∈ MCP_WRITE_ACTIONS -> truthy (JString action) = true.
Proof.
  unfold MCP_WRITE_ACTIONS. rewrite !elem_of_cons, elem_of_nil.
  intros [->|[->|[->|[->|[->|[->|[->|[->|[->|[]]]]]]]]]]; reflexivity.
Qed.

(** C5, as stated, fails: a record whose [success] is the string [yes], a
    value that is not equal to [true], still produces its event. *)
Lemma truthy_success_passes :
  (exists rest props,
     search (after_prefix msg_marker) truthy_success_line = Some rest
     /\ JSON_parse (unescape_quotes (removelast rest)) = Some (JObject props)
     /\ lookup_last (str "success") props = Some (JString (str "yes")))
  /\ exists e,
       parseMCPAuditLine no_numbers (str "1700000000000000000") truthy_success_line = Some e
       /\ type e = instance_created /\ tenant e = str "acme".
Proof.
  split.
  - eexists. eexists. split; [vm_compute; reflexivity|].
    split; vm_compute; reflexivity.
  - eexists. split; [vm_compute; reflexivity|]. split; reflexivity.
Qed.

(** C5, amended.  [parseMCPAuditLine] returns no event for a line without
    the [msg=] marker, and none when the embedded payload is malformed: the
    parse failure is caught.  It returns an event only for an object whose
    [action] is a string of the allow-list and whose [success] is truthy: no
    event when the action is absent or outside the list, none when [success]
    is absent, [false], [null], zero or the empty string.  Any other value of
    [success] passes: with [tenantId], [resource] and [type] absent or
    strings, such a record gives its event. *)
Theorem parseMCPAuditLine_gates (Number_toString : JNum -> jsstring) (ts line : jsstring) :
  (~ has_msg line -> parseMCPAuditLine Number_toString ts line = None)
  /\ (forall rest,
        search (after_prefix msg_marker) line = Some rest ->
        JSON_parse (unescape_quotes (removelast rest)) = None ->
        parseMCPAuditLine Number_toString ts line = None)
  /\ (forall e,
        parseMCPAuditLine Number_toString ts line = Some e ->
        exists rest props action successV,
          search (after_prefix msg_marker) line = Some rest
          /\ JSON_parse (unescape_quotes (removelast rest)) = Some (JObject props)
          /\ lookup_last (str "action") props = Some (JString action)
          /\ action ∈ MCP_WRITE_ACTIONS
          /\ lookup_last (str "success") props = Some successV
          /\ truthy successV = true)
  /\ (forall rest props action successV,
        search (after_prefix msg_marker) line = Some rest ->
        JSON_parse (unescape_quotes (removelast rest)) = Some (JObject props) ->
        lookup_last (str "action") props = Some (JString action) ->
        action ∈ MCP_WRITE_ACTIONS ->
        lookup_last (str "success") props = Some successV ->
        truthy successV = true ->
        string_or_absent (lookup_last (str "tenantId") props) ->
        string_or_absent (lookup_last (str "resource") props) ->
        string_or_absent (lookup_last (str "type") props) ->
        exists e, parseMCPAuditLine Number_toString ts line = Some e
          /\ timestamp e = floor_div (parseInt10 ts) 1000000).
Proof.
  split; [|split; [|split]].
  - intros H. apply search_marker_None in H. unfold parseMCPAuditLine. rewrite H. reflexivity.
  - intros rest Hrest Hjson. unfold parseMCPAuditLine. rewrite Hrest, Hjson. reflexivity.
  - intros e. unfold parseMCPAuditLine.
    destruct (search (after_prefix msg_marker) line) as [rest|] eqn:Hrest; [|discriminate].
    destruct (JSON_parse (unescape_quotes (removelast rest))) as [data|] eqn:Hjson;
      [|discriminate].
    destruct (mcp_try Number_toString ts data) as [oe|] eqn:Htry; [|discriminate].
    intros ->.
    apply mcp_try_gate in Htry as (props & action & successV & -> & Ha & Hin & Hs & Hts).
    exists rest, props, action, successV.
    split; [reflexivity|]. split; [exact Hjson|]. auto.
  - intros rest props action successV Hrest Hjson Ha Hin Hs Hts Htenant Hres Htype.
    unfold parseMCPAuditLine. rewrite Hrest, Hjson.
    unfold mcp_try. cbn [get_field bindR]. rewrite Ha. cbn [truthy_value].
    rewrite (allowed_action_truthy action Hin), bool_decide_true by exact Hin.
    rewrite Hs. cbn [truthy_value]. rewrite Hts.
    destruct (default_string (str "unknown") _ Htenant) as [tenantId ->].
    destruct (default_string [] _ Hres) as [resource ->].
    destruct (mcp_event_strings Number_toString ts action tenantId resource _ Hin Htype)
      as (e & -> & _ & Hts'). exists e. auto.
Qed.

Lemma parseMCPAuditLine_gates_witness :
  parseMCPAuditLine no_numbers (str "17")
    (quoted "level=info msg='{\'action\':\'delete-my-app\',\'success\':true'") = None
  /\ parseMCPAuditLine no_numbers (str "17") (str "level=info no message") = None.
Proof.
  split.
  - apply (proj1 (proj2 (parseMCPAuditLine_gates no_numbers (str "17")
             (quoted "level=info msg='{\'action\':\'delete-my-app\',\'success\':true'")))
             (quoted "{\'action\':\'delete-my-app\',\'success\':true'")).
    + vm_compute. reflexivity.
    + vm_compute. reflexivity.
  - apply (proj1 (parseMCPAuditLine_gates no_numbers (str "17") (str "level=info no message"))).
    apply search_marker_None. vm_compute. reflexivity.
Defined.

(** ** The handler *)

Section HandlerLemmas.
Variable Number_toString : JNum -> jsstring.
Variable backend : LokiBackend.

#[local] Abbreviation merged_outcome := (merged_outcome Number_toString backend).

Lemma lokiQuery_run (query : jsstring) (start end_ : jsnum) (limit : Z) (direction : jsstring)
    (sent : list LokiRequest) :
  lokiQuery query start end_ limit direction backend sent
  = (read_reply (backend (mkLokiRequest query start end_ limit direction)),
     sent ++ [mkLokiRequest query start end_ limit direction]).
Proof. reflexivity. Qed.

(** A fetcher that sends one query and then works on the reply without
    sending anything. *)
Lemma one_query_run {A : Type} (query : jsstring) (start end_ : jsnum) (limit : Z)
    (direction : jsstring) (k : list LokiStream -> Result A) (sent : list LokiRequest) :
  bindA (lokiQuery query start end_ limit direction) (fun streams => liftA (k streams))
        backend sent
  = (bindR (read_reply (backend (mkLokiRequest query start end_ limit direction))) k,
     sent ++ [mkLokiRequest query start end_ limit direction]).
Proof.
  unfold bindA. rewrite lokiQuery_run.
  destruct (read_reply _); reflexivity.
Qed.

Lemma fetchGUIEvents_run (since now : jsnum) (sent : list LokiRequest) :
  fetchGUIEvents since now backend sent
  = (outcome (fetchGUIEvents since now) backend,
     sent ++ [mkLokiRequest gui_query (floor_div since 1000) (floor_div now 1000) 200 backward]).
Proof.
  unfold outcome, fetchGUIEvents, retA.
  change (fun streams : list LokiStream => fun (_ : LokiBackend) (sent0 : list LokiRequest) =>
            (Ok (omap (fun entry => parseGUIAuditLine (fst entry) (snd entry)) (entries streams)),
             sent0))
    with (fun streams : list LokiStream =>
            @liftA (list PlatformEvent)
              (Ok (omap (fun entry => parseGUIAuditLine (fst entry) (snd entry))
                        (entries streams)))).
  rewrite !one_query_run. reflexivity.
Qed.

Lemma fetchPlanChangeEvents_run (since now : jsnum) (sent : list LokiRequest) :
  fetchPlanChangeEvents since now backend sent
  = (outcome (fetchPlanChangeEvents since now) backend,
     sent ++ [mkLokiRequest plan_query (floor_div since 1000) (floor_div now 1000) 50 backward]).
Proof.
  unfold outcome, fetchPlanChangeEvents, retA.
  change (fun streams : list LokiStream => fun (_ : LokiBackend) (sent0 : list LokiRequest) =>
            (Ok (plan_event <$> entries streams), sent0))
    with (fun streams : list LokiStream =>
            @liftA (list PlatformEvent) (Ok (plan_event <$> entries streams))).
  rewrite !one_query_run. reflexivity.
Qed.

Lemma fetchMCPEvents_run (since now : jsnum) (sent : list LokiRequest) :
  fetchMCPEvents Number_toString since now backend sent
  = (outcome (fetchMCPEvents Number_toString since now) backend,
     sent ++ [mkLokiRequest mcp_query (floor_div since 1000) (floor_div now 1000) 200 backward]).
Proof.
  unfold outcome, fetchMCPEvents, retA.
  change (fun streams : list LokiStream => fun (_ : LokiBackend) (sent0 : list LokiRequest) =>
            (Ok (omap (fun entry => parseMCPAuditLine Number_toString (fst entry) (snd entry))
                      (entries streams)), sent0))
    with (fun streams : list LokiStream =>
            @liftA (list PlatformEvent)
              (Ok (omap (fun entry => parseMCPAuditLine Number_toString (fst entry) (snd entry))
                        (entries streams)))).
  rewrite !one_query_run. reflexivity.
Qed.

Lemma fetchSignupEvents_run (since now : jsnum) (sent : list LokiRequest) :
  fetchSignupEvents since now backend sent
  = (outcome (fetchSignupEvents since now) backend,
     sent ++ [mkLokiRequest signup_query (floor_div since 1000) (floor_div now 1000) 50 backward]).
Proof.
  unfold outcome, fetchSignupEvents, bindA, retA, liftA. rewrite !lokiQuery_run.
  destruct (read_reply _) as [streams|]; [|reflexivity].
  destruct (foldR signup_step (entries streams) (∅, [])); reflexivity.
Qed.

Lemma fetch_all_run (since now : jsnum) (sent : list LokiRequest) :
  fetch_all Number_toString since now backend sent
  = (merged_outcome since now, sent ++ window_requests since now).
Proof.
  unfold fetch_all, bindA, Promise_all4, merged_outcome.
  rewrite fetchGUIEvents_run, fetchSignupEvents_run, fetchPlanChangeEvents_run,
    fetchMCPEvents_run.
  unfold window_requests. rewrite <- !app_assoc. cbn [app].
  destruct (outcome (fetchGUIEvents since now) backend);
    destruct (outcome (fetchSignupEvents since now) backend);
    destruct (outcome (fetchPlanChangeEvents since now) backend);
    destruct (outcome (fetchMCPEvents Number_toString since now) backend); reflexivity.
Qed.

Lemma GET_live_run (now : Z) (sinceP : DateParam) (beforeParam : option DateParam)
    (sent : list LokiRequest) :
  dp_text sinceP <> [] ->
  GET Number_toString now (Some sinceP) beforeParam backend sent
  = (Ok (live_response sinceP (merged_outcome (dp_time sinceP) (Num now))),
     sent ++ window_requests (dp_time sinceP) (Num now)).
Proof.
  intros Htext. unfold GET, given. destruct (dp_text sinceP) as [|c text] eqn:Ht; [congruence|].
  unfold try_catch, bindA. rewrite fetch_all_run. unfold live_response. rewrite Ht.
  destruct (merged_outcome (dp_time sinceP) (Num now)) as [allEvents|]; [|reflexivity].
  unfold liftA, retA. destruct allEvents as [|e rest]; [reflexivity|].
  destruct (toISOString (timestamp e)); reflexivity.
Qed.

Lemma GET_page_run (now : Z) (sinceParam beforeParam : option DateParam)
    (sent : list LokiRequest) :
  given sinceParam = None ->
  GET Number_toString now sinceParam beforeParam backend sent
  = (Ok (page_response now (cursor now beforeParam)
           (merged_outcome (num_sub (cursor now beforeParam) (Num CHUNK_MS))
                           (cursor now beforeParam))),
     sent ++ window_requests (num_sub (cursor now beforeParam) (Num CHUNK_MS))
                             (cursor now beforeParam)).
Proof.
  intros Hsince. unfold GET. rewrite Hsince. fold (cursor now beforeParam).
  generalize (cursor now beforeParam). intros before.
  unfold try_catch, bindA. rewrite fetch_all_run. unfold page_response.
  destruct (merged_outcome _ before) as [allEvents|]; [|reflexivity].
  unfold liftA, retA.
  destruct (match allEvents with
            | [] => toISOString before
            | e :: _ => toISOString (timestamp e)
            end); [|reflexivity].
  destruct (match last allEvents with
            | Some e => toISOString (timestamp e)
            | None => toISOString (num_sub before (Num CHUNK_MS))
            end); reflexivity.
Qed.

End HandlerLemmas.

Lemma toISOString_Ok (t : jsnum) (stamp : Stamp) :
  toISOString t = Ok stamp -> exists z, t = Num z /\ stamp = Iso z.
Proof.
  destruct t as [z| |]; [|discriminate|discriminate]. simpl.
  destruct (_ && _); [|discriminate]. intros [= <-]. eauto.
Qed.

(** The time values: the whole numbers of at most 8.64e15 in magnitude. *)
Lemma valid_time_bounds (z : Z) :
  valid_time (Num z) <-> - 8640000000000000 <= z <= 8640000000000000.
Proof.
  unfold valid_time. simpl.
  destruct (Z.leb_spec (- 8640000000000000) z), (Z.leb_spec z 8640000000000000); simpl;
    (split; [intros [stamp Hs]; first [discriminate Hs | lia] | intros; first [lia | eauto]]).
Qed.

(** Three days before a time value: the subtraction is exact. *)
Lemma window_start (before : Z) :
  valid_time (Num before) -> num_sub (Num before) (Num CHUNK_MS) = Num (before - days 3).
Proof.
  intros H. apply valid_time_bounds in H. rewrite num_sub_Num.
  unfold CHUNK_MS, days. rewrite norm_exact; [f_equal; lia|].
  change (2 ^ 53) with 9007199254740992. lia.
Qed.

(** Milliseconds to seconds, exactly, below 2^53. *)
Lemma seconds_exact (x : Z) : Z.abs x < 2 ^ 53 -> floor_div (Num x) 1000 = Num (x / 1000).
Proof. intros H. cbn [floor_div]. rewrite floor_quotient_exact by lia. reflexivity. Qed.

(** In a list in descending order the last element is the oldest. *)
Lemma last_is_oldest (l : list PlatformEvent) (e : PlatformEvent) :
  StronglySorted (fun a b => tsZ a >= tsZ b) l ->
  last l = Some e ->
  forall e', e' ∈ l -> tsZ e <= tsZ e'.
Proof.
  intros Hs Hlast e' He'. apply last_Some in Hlast as [l' ->].
  apply elem_of_app in He' as [He'|He'].
  - apply StronglySorted_app_1_elem_of with (x1 := e') (x2 := e) in Hs;
      [lia | exact He' | left].
  - apply list_elem_of_singleton in He'. subst e'. lia.
Qed.

Lemma window_requests_bounds (since now : Z) :
  Z.abs since < 2 ^ 53 -> Z.abs now < 2 ^ 53 ->
  Forall (fun rq => lq_start rq = Num (since / 1000) /\ lq_end rq = Num (now / 1000))
         (window_requests (Num since) (Num now)).
Proof.
  intros Hs Hn. unfold window_requests. rewrite !seconds_exact by assumption.
  repeat constructor.
Qed.

(** C3.  In the paginated mode, with the cursor [before] (the parameter, or
    the request time when there is none), the four queries are sent over
    the window from [before - 3 days] to [before]; a page that is returned
    holds the merged events of that window, its [hasMore] is true exactly
    when [before - 3 days > now - 30 days], and its [oldestTimestamp] is the
    timestamp of the last event of the page, or the start of the window when
    the page is empty; for events with finite timestamps that last event is
    the oldest of the page.  A page is returned whenever no query throws and
    the times have an ISO text.  The cursor is a time value, as
    [new Date(...).getTime()] and [Date.now()] give. *)
Theorem events_page (Number_toString : JNum -> jsstring) (backend : LokiBackend)
    (now : Z) (beforeParam : option DateParam) (before : Z) (sent : list LokiRequest) :
  cursor now beforeParam = Num before ->
  valid_time (Num before) ->
  let since := before - days 3 in
  cursor now None = Num now
  /\ exists response,
       GET Number_toString now None beforeParam backend sent
       = (Ok response, sent ++ window_requests (Num since) (Num before))
       /\ Forall (fun rq => lq_start rq = Num (since / 1000) /\ lq_end rq = Num (before / 1000))
                 (window_requests (Num since) (Num before))
       /\ (forall events count latest oldest hasMore,
             response = Page events count latest oldest hasMore ->
             merged_outcome Number_toString backend (Num since) (Num before) = Ok events
             /\ hasMore = bool_decide (since > now - days 30)
             /\ oldest = Iso (match last events with Some e => tsZ e | None => since end)
             /\ (forall e, last events = Some e -> timestamp e = Num (tsZ e)))
       /\ (forall events,
             merged_outcome Number_toString backend (Num since) (Num before) = Ok events ->
             valid_time (Num since) ->
             Forall (fun e => valid_time (timestamp e)) events ->
             exists latest oldest,
               response = Page events (length events) latest oldest
                               (bool_decide (since > now - days 30)))
       /\ (forall guiEvents signupEvents planEvents mcpEvents e,
             Forall numeric (guiEvents ++ signupEvents ++ planEvents ++ mcpEvents) ->
             last (mergeAndDedup guiEvents signupEvents planEvents mcpEvents) = Some e ->
             forall e', e' ∈ mergeAndDedup guiEvents signupEvents planEvents mcpEvents ->
                        tsZ e <= tsZ e').
Proof.
  intros Hcursor Hbefore since. split; [reflexivity|].
  pose proof (window_start before Hbefore) as Hstart. fold since in Hstart.
  pose proof (proj1 (valid_time_bounds before) Hbefore) as Hrange.
  eexists. split; [|split; [|split; [|split]]].
  - rewrite (GET_page_run Number_toString backend now None beforeParam sent eq_refl), Hcursor.
    rewrite Hstart. reflexivity.
  - change (2 ^ 53) with 9007199254740992.
    apply window_requests_bounds; subst since; unfold days;
      change (2 ^ 53) with 9007199254740992; lia.
  - intros events count latest oldest hasMore. unfold page_response.
    rewrite Hstart.
    destruct (merged_outcome _ _ _ _) as [allEvents|]; [|discriminate].
    destruct (match allEvents with
              | [] => toISOString (Num before)
              | e :: _ => toISOString (timestamp e)
              end); [|discriminate].
    destruct (match last allEvents with
              | Some e => toISOString (timestamp e)
              | None => toISOString (Num since)
              end) as [o|] eqn:Ho; [|discriminate].
    intros [= -> <- <- <- <-]. split; [reflexivity|]. split.
    { cbn [num_gt]. destruct (Z.ltb_spec0 (now - MAX_HISTORY_MS) since);
        symmetry; [apply bool_decide_eq_true | apply bool_decide_eq_false];
        unfold days; unfold MAX_HISTORY_MS in *; lia. }
    destruct (last events) as [e|].
    + apply toISOString_Ok in Ho as (z & Hz & ->). unfold tsZ. rewrite Hz.
      split; [reflexivity|]. intros e' [= <-]. rewrite Hz. reflexivity.
    + apply toISOString_Ok in Ho as (z & [= <-] & ->). split; [reflexivity | discriminate].
  - intros events Hmerged Hsince Hvalid. unfold page_response.
    rewrite Hstart, Hmerged.
    assert (exists latest, match events with
                           | [] => toISOString (Num before)
                           | e :: _ => toISOString (timestamp e)
                           end = Ok latest) as [latest ->].
    { destruct events as [|e rest]; [exact Hbefore|].
      apply Forall_cons in Hvalid as [He _]. exact He. }
    assert (exists oldest, match last events with
                           | Some e => toISOString (timestamp e)
                           | None => toISOString (Num since)
                           end = Ok oldest) as [oldest ->].
    { destruct (last events) as [e|] eqn:Hlast; [|exact Hsince].
      rewrite Forall_forall in Hvalid. apply Hvalid.
      apply last_Some in Hlast as [l' ->]. apply elem_of_app. right. left. }
    exists latest, oldest. f_equal. cbn [num_gt].
    destruct (Z.ltb_spec0 (now - MAX_HISTORY_MS) since);
      symmetry; [apply bool_decide_eq_true | apply bool_decide_eq_false];
      unfold days; unfold MAX_HISTORY_MS in *; lia.
  - intros guiEvents signupEvents planEvents mcpEvents e Hnum Hlast.
    apply (last_is_oldest _ e); [|exact Hlast].
    exact (mergeAndDedup_sorted guiEvents signupEvents planEvents mcpEvents Hnum).
Qed.

Lemma sample_page_fetched :
  merged_outcome no_numbers sample_store (Num (1700000010000 - days 3)) (Num 1700000010000)
  = Ok sample_page.
Proof. vm_compute. reflexivity. Qed.

Lemma events_page_witness :
  exists response latest,
    GET no_numbers 1700000010000 None None sample_store []
    = (Ok response, window_requests (Num (1700000010000 - days 3)) (Num 1700000010000))
    /\ response = Page sample_page 4 latest (Iso 1700000000000) true.
Proof.
  destruct (events_page no_numbers sample_store 1700000010000 None 1700000010000 [] eq_refl)
    as (_ & response & Hrun & _ & Hpage & Hexists & _).
  { eexists. vm_compute. reflexivity. }
  destruct (Hexists sample_page sample_page_fetched) as (latest & oldest & Hresp).
  - eexists. vm_compute. reflexivity.
  - unfold sample_page. repeat constructor; eexists; vm_compute; reflexivity.
  - destruct (Hpage _ _ _ _ _ Hresp) as (_ & _ & Hold & _).
    exists response, latest. split; [exact Hrun|].
    rewrite Hresp, Hold. vm_compute. reflexivity.
Defined.

(** ** Failures of the sub-queries *)

Section FailureLemmas.
Variable Number_toString : JNum -> jsstring.
Variable backend : LokiBackend.

(** What each fetcher makes of the reply to its query. *)
Lemma fetcher_outcomes (since now : jsnum) :
  let rq query limit :=
    mkLokiRequest query (floor_div since 1000) (floor_div now 1000) limit backward in
  outcome (fetchGUIEvents since now) backend
  = bindR (read_reply (backend (rq gui_query 200)))
      (fun streams =>
         Ok (omap (fun entry => parseGUIAuditLine (fst entry) (snd entry)) (entries streams)))
  /\ outcome (fetchSignupEvents since now) backend
     = bindR (read_reply (backend (rq signup_query 50)))
         (fun streams =>
            bindR (foldR signup_step (entries streams) (∅, [])) (fun final => Ok (snd final)))
  /\ outcome (fetchPlanChangeEvents since now) backend
     = bindR (read_reply (backend (rq plan_query 50)))
         (fun streams => Ok (plan_event <$> entries streams))
  /\ outcome (fetchMCPEvents Number_toString since now) backend
     = bindR (read_reply (backend (rq mcp_query 200)))
         (fun streams =>
            Ok (omap (fun entry => parseMCPAuditLine Number_toString (fst entry) (snd entry))
                  (entries streams))).
Proof.
  intros rq. unfold outcome, fetchGUIEvents, fetchSignupEvents, fetchPlanChangeEvents,
    fetchMCPEvents, bindA, retA, liftA. rewrite !lokiQuery_run. subst rq. cbv beta.
  repeat split.
  - destruct (read_reply _); reflexivity.
  - destruct (read_reply _) as [streams|]; [|reflexivity]. cbn [bindR fst].
    destruct (foldR signup_step (entries streams) (∅, [])); reflexivity.
  - destruct (read_reply _); reflexivity.
  - destruct (read_reply _); reflexivity.
Qed.

(** A transport failure of one of the four queries leaves no merged
    events. *)
Lemma transport_failure_thrown (since now : jsnum) (rq : LokiRequest) :
  rq ∈ window_requests since now ->
  backend rq = NetworkError ->
  merged_outcome Number_toString backend since now = Thrown.
Proof.
  intros Hin Hfail. unfold merged_outcome.
  destruct (fetcher_outcomes since now) as (Hg & Hs & Hp & Hm).
  rewrite Hg, Hs, Hp, Hm. clear Hg Hs Hp Hm.
  unfold window_requests in Hin. rewrite !elem_of_cons, elem_of_nil in Hin.
  destruct Hin as [->|[->|[->|[->|[]]]]]; rewrite Hfail; cbn [read_reply bindR];
    repeat (match goal with |- context [match ?r with Ok _ => _ | Thrown => _ end] =>
              destruct r end); reflexivity.
Qed.

End FailureLemmas.

(** C6, as stated, fails: when the audit query fails in transport the answer
    is the 500 response with no events, although the plan-change query of
    the same request has an event. *)
Lemma transport_failure_aborts :
  GET no_numbers 1700000010000 (Some since_param) None gui_down []
  = (Ok ServerError, window_requests (Num 1700000000000) (Num 1700000010000))
  /\ outcome (fetchPlanChangeEvents (Num 1700000000000) (Num 1700000010000)) gui_down
     = Ok [plan_event (str "1700000005000000000", str "POST /tenantplan id=req1 200")].
Proof. split; vm_compute; reflexivity. Qed.

(** C6, amended.  Every request sends its four queries.  A backend response
    that is not 2xx is no exception: the query gives an empty result, its
    format contributes no event, and when no fetcher throws the response
    holds the merged events of all four formats.  A transport failure of any
    one query is not contained: the request is answered with the 500
    response, which has no events. *)
Theorem failure_semantics (Number_toString : JNum -> jsstring) (backend : LokiBackend)
    (now : Z) (sinceParam beforeParam : option DateParam) (sent : list LokiRequest) :
  let since := fst (window now sinceParam beforeParam) in
  let until := snd (window now sinceParam beforeParam) in
  let rq query limit :=
    mkLokiRequest query (floor_div since 1000) (floor_div until 1000) limit backward in
  snd (GET Number_toString now sinceParam beforeParam backend sent)
  = sent ++ [rq gui_query 200; rq signup_query 50; rq plan_query 50; rq mcp_query 200]
  /\ (forall query start end_ limit direction body sent',
        backend (mkLokiRequest query start end_ limit direction) = Reply false body ->
        fst (lokiQuery query start end_ limit direction backend sent') = Ok [])
  /\ (forall body, backend (rq gui_query 200) = Reply false body ->
        outcome (fetchGUIEvents since until) backend = Ok [])
  /\ (forall body, backend (rq signup_query 50) = Reply false body ->
        outcome (fetchSignupEvents since until) backend = Ok [])
  /\ (forall body, backend (rq plan_query 50) = Reply false body ->
        outcome (fetchPlanChangeEvents since until) backend = Ok [])
  /\ (forall body, backend (rq mcp_query 200) = Reply false body ->
        outcome (fetchMCPEvents Number_toString since until) backend = Ok [])
  /\ (forall guiEvents signupEvents planEvents mcpEvents,
        outcome (fetchGUIEvents since until) backend = Ok guiEvents ->
        outcome (fetchSignupEvents since until) backend = Ok signupEvents ->
        outcome (fetchPlanChangeEvents since until) backend = Ok planEvents ->
        outcome (fetchMCPEvents Number_toString since until) backend = Ok mcpEvents ->
        let events := mergeAndDedup guiEvents signupEvents planEvents mcpEvents in
        match fst (GET Number_toString now sinceParam beforeParam backend sent) with
        | Ok (Live events' _ _ _) => events' = events
        | Ok (Page events' _ _ _ _) => events' = events
        | Ok ServerError =>
            ~ valid_time (match events with e :: _ => timestamp e | [] => until end)
            \/ ~ valid_time (match last events with Some e => timestamp e | None => since end)
        | Thrown => False
        end)
  /\ (forall failed,
        failed ∈ [rq gui_query 200; rq signup_query 50; rq plan_query 50; rq mcp_query 200] ->
        backend failed = NetworkError ->
        fst (GET Number_toString now sinceParam beforeParam backend sent) = Ok ServerError).
Proof.
  intros since until rq.
  assert (GET Number_toString now sinceParam beforeParam backend sent
          = (Ok (match given sinceParam with
                 | Some sinceP =>
                     live_response sinceP
                       (merged_outcome Number_toString backend since until)
                 | None =>
                     page_response now (cursor now beforeParam)
                       (merged_outcome Number_toString backend since until)
                 end),
             sent ++ window_requests since until)) as Hrun.
  { subst since until. unfold window.
    destruct (given sinceParam) as [sinceP|] eqn:Hgiven; cbn [fst snd].
    - destruct sinceParam as [p|]; [|discriminate]. unfold given in Hgiven.
      destruct (dp_text p) eqn:Htext; [discriminate|]. injection Hgiven as ->.
      apply GET_live_run. congruence.
    - apply GET_page_run. exact Hgiven. }
  destruct (fetcher_outcomes Number_toString backend since until) as (Hg & Hs & Hp & Hm).
  fold (rq gui_query 200) in Hg. fold (rq signup_query 50) in Hs.
  fold (rq plan_query 50) in Hp. fold (rq mcp_query 200) in Hm.
  split; [rewrite Hrun; reflexivity|].
  split; [intros query start end_ limit direction body sent' Hreply;
          rewrite lokiQuery_run; cbn [fst]; rewrite Hreply; reflexivity|].
  split; [intros body Hreply; rewrite Hg, Hreply; reflexivity|].
  split; [intros body Hreply; rewrite Hs, Hreply; reflexivity|].
  split; [intros body Hreply; rewrite Hp, Hreply; reflexivity|].
  split; [intros body Hreply; rewrite Hm, Hreply; reflexivity|].
  split.
  - intros guiEvents signupEvents planEvents mcpEvents Hog Hos Hop Hom events.
    rewrite Hrun. cbn [fst]. unfold merged_outcome. rewrite Hog, Hos, Hop, Hom.
    fold events. destruct (given sinceParam) as [sinceP|] eqn:Hgiven.
    + unfold live_response. destruct events as [|e rest]; [reflexivity|].
      destruct (toISOString (timestamp e)) eqn:Hiso; [reflexivity|].
      left. intros [stamp Hstamp]. congruence.
    + unfold page_response.
      assert (since = num_sub (cursor now beforeParam) (Num CHUNK_MS)
              /\ until = cursor now beforeParam) as [Hsince Huntil].
      { subst since until. unfold window. rewrite Hgiven. split; reflexivity. }
      rewrite <- Hsince, <- Huntil.
      destruct (match events with
                | [] => toISOString until
                | e :: _ => toISOString (timestamp e)
                end) eqn:Hlatest.
      * destruct (match last events with
                  | Some e => toISOString (timestamp e)
                  | None => toISOString since
                  end) eqn:Holdest; [reflexivity|].
        right. intros [stamp Hstamp]. destruct (last events); congruence.
      * left. intros [stamp Hstamp]. destruct events; congruence.
  - intros failed Hin Hfail. rewrite Hrun. cbn [fst].
    rewrite (transport_failure_thrown Number_toString backend since until failed Hin Hfail).
    destruct (given sinceParam); reflexivity.
Qed.

Lemma failure_semantics_witness :
  outcome (fetchMCPEvents no_numbers (Num 1700000000000) (Num 1700000010000)) sample_store
  = Ok []
  /\ fst (GET no_numbers 1700000010000 (Some since_param) None gui_down []) = Ok ServerError.
Proof.
  split.
  - apply (proj1 (proj2 (proj2 (proj2 (proj2 (proj2
             (failure_semantics no_numbers sample_store 1700000010000 (Some since_param)
                None [])))))) NotJson).
    vm_compute. reflexivity.
  - apply (proj2 (proj2 (proj2 (proj2 (proj2 (proj2 (proj2
             (failure_semantics no_numbers gui_down 1700000010000 (Some since_param)
                None []))))))) (mkLokiRequest gui_query (Num 1700000000) (Num 1700000010) 200
                                  backward)).
    + left.
    + vm_compute. reflexivity.
Defined.

(** ** The fuel of the JSON parser *)

Lemma span_length (p : N -> bool) (s : jsstring) :
  (length (fst (span p s)) + length (snd (span p s)) = length s)%nat.
Proof.
  destruct (span_spec p s) as (Heq & _). rewrite Heq at 3. rewrite length_app. reflexivity.
Qed.

Lemma skip_ws_length (s : jsstring) : (length (skip_ws s) <= length s)%nat.
Proof. unfold skip_ws. pose proof (span_length is_json_ws s). lia. Qed.

Lemma after_prefix_length (p s rest : jsstring) :
  after_prefix p s = Some rest -> (length rest + length p = length s)%nat.
Proof. intros H. apply after_prefix_Some in H. subst s. rewrite length_app. lia. Qed.

Lemma cons_unit_Some (u : N) (p : option (jsstring * jsstring)) (body rest : jsstring) :
  cons_unit u p = Some (body, rest) -> exists body', p = Some (body', rest).
Proof. destruct p as [[b r]|]; [|discriminate]. intros [= <- <-]. eauto. Qed.

(** A string literal ends strictly inside its input. *)
Lemma parse_string_body_length (s body rest : jsstring) :
  parse_string_body s = Some (body, rest) -> (length rest < length s)%nat.
Proof.
  remember (length s) as n eqn:Hn. revert s body rest Hn.
  induction n as [n IH] using lt_wf_ind. intros s body rest Hn Hparse.
  destruct s as [|c r]; [discriminate|]. simpl in Hparse, Hn.
  destruct (c =? 34)%N; [injection Hparse as <- <-; lia|].
  destruct (c =? 92)%N.
  - destruct r as [|e r']; [discriminate|]. simpl in Hn.
    destruct (simple_escape e).
    + apply cons_unit_Some in Hparse as [body' Hparse].
      specialize (IH (length r') ltac:(lia) r' body' rest eq_refl Hparse). lia.
    + destruct (e =? 117)%N; [|discriminate].
      destruct r' as [|h1 [|h2 [|h3 [|h4 r'']]]]; try discriminate.
      destruct (hex4 h1 h2 h3 h4); [|discriminate].
      apply cons_unit_Some in Hparse as [body' Hparse]. simpl in Hn.
      specialize (IH (length r'') ltac:(lia) r'' body' rest eq_refl Hparse). lia.
  - destruct (c <? 32)%N; [discriminate|].
    apply cons_unit_Some in Hparse as [body' Hparse].
    specialize (IH (length r) ltac:(lia) r body' rest eq_refl Hparse). lia.
Qed.

(** A number literal takes at least one digit. *)
Lemma parse_number_length (s : jsstring) (n : JNum) (rest : jsstring) :
  parse_number s = Some (n, rest) -> (length rest < length s)%nat.
Proof.
  unfold parse_number. intros H.
  set (sign := match s with
               | c :: r => if (c =? 45)%N then (true, r) else (false, s)
               | [] => (false, s)
               end) in H.
  assert (length (snd sign) <= length s)%nat as Hsign.
  { subst sign. destruct s as [|c r]; [simpl; lia|]. destruct (c =? 45)%N; simpl; lia. }
  destruct sign as [neg s1]. cbn [snd] in Hsign.
  pose proof (span_length is_digit s1) as Hint.
  destruct (span is_digit s1) as [int_ds s2]. cbn [fst snd] in Hint.
  destruct int_ds as [|d ds]; [discriminate|].
  destruct ((d =? 48)%N && negb (bool_decide (ds = []))); [discriminate|].
  simpl in Hint.
  set (frac := match s2 with
               | c :: r =>
                   if (c =? 46)%N
                   then let '(frac_ds, s3) := span is_digit r in
                        match frac_ds with [] => None | _ => Some (frac_ds, s3) end
                   else Some ([], s2)
               | [] => Some ([], s2)
               end) in H.
  assert (forall frac_ds s3, frac = Some (frac_ds, s3) -> length s3 <= length s2)%nat as Hfrac.
  { subst frac. intros frac_ds s3. destruct s2 as [|c r]; [intros [= <- <-]; lia|].
    destruct (c =? 46)%N; [|intros [= <- <-]; lia].
    pose proof (span_length is_digit r) as Hr. destruct (span is_digit r) as [fd r3].
    cbn [fst snd] in Hr. destruct fd; [discriminate|]. intros [= <- <-]. simpl. lia. }
  destruct frac as [[frac_ds s3]|]; [|discriminate]. specialize (Hfrac _ _ eq_refl).
  set (expo := match s3 with
               | c :: r =>
                   if ((c =? 101) || (c =? 69))%N
                   then
                     let '(eneg, r1) :=
                       match r with
                       | sg :: r0 =>
                           if (sg =? 45)%N then (true, r0)
                           else if (sg =? 43)%N then (false, r0) else (false, r)
                       | [] => (false, r)
                       end in
                     let '(exp_ds, s4) := span is_digit r1 in
                     match exp_ds with
                     | [] => None
                     | _ => Some (if eneg then - digits_value exp_ds else digits_value exp_ds, s4)
                     end
                   else Some (0, s3)
               | [] => Some (0, s3)
               end) in H.
  assert (forall e s4, expo = Some (e, s4) -> length s4 <= length s3)%nat as Hexp.
  { subst expo. intros e s4. destruct s3 as [|c r]; [intros [= <- <-]; lia|].
    destruct ((c =? 101) || (c =? 69))%N; [|intros [= <- <-]; lia].
    set (esign := match r with
                  | sg :: r0 =>
                      if (sg =? 45)%N then (true, r0)
                      else if (sg =? 43)%N then (false, r0) else (false, r)
                  | [] => (false, r)
                  end).
    assert (length (snd esign) <= length r)%nat as Hes.
    { subst esign. destruct r as [|sg r0]; [simpl; lia|].
      destruct (sg =? 45)%N; [simpl; lia|]. destruct (sg =? 43)%N; simpl; lia. }
    destruct esign as [eneg r1]. cbn [snd] in Hes.
    pose proof (span_length is_digit r1) as Hr1. destruct (span is_digit r1) as [exp_ds r4].
    cbn [fst snd] in Hr1. destruct exp_ds; [discriminate|]. intros [= <- <-]. simpl. lia. }
  destruct expo as [[e s4]|]; [|discriminate]. specialize (Hexp _ _ eq_refl).
  injection H as <- <-. lia.
Qed.

Lemma map_parsed_Done {A B : Type} (f : A -> B) (p : Parsed A) (b : B) (rest : jsstring) :
  map_parsed f p = Done b rest -> exists a, p = Done a rest.
Proof. destruct p; try discriminate. intros [= <- <-]. eauto. Qed.

Lemma map_parsed_fuel {A B : Type} (f : A -> B) (p : Parsed A) :
  map_parsed f p = OutOfFuel -> p = OutOfFuel.
Proof. destruct p; [discriminate | discriminate | reflexivity]. Qed.

Lemma parse_elements_shrinks (pv : jsstring -> Parsed JSON) (fuel : nat) :
  shrinks pv -> shrinks (parse_elements pv fuel).
Proof.
  intros Hpv. induction fuel as [|fuel IH]; intros s vs rest; simpl; [discriminate|].
  destruct (pv s) as [v r| |] eqn:Hv; try discriminate.
  apply Hpv in Hv. pose proof (skip_ws_length r) as Hws.
  destruct (skip_ws r) as [|c r']; [discriminate|]. simpl in Hws.
  destruct (c =? 44)%N.
  - intros H. apply map_parsed_Done in H as [vs' H]. apply IH in H. lia.
  - destruct (c =? 93)%N; [|discriminate]. intros [= <- <-]. lia.
Qed.

Lemma parse_members_shrinks (pv : jsstring -> Parsed JSON) (fuel : nat) :
  shrinks pv -> shrinks (parse_members pv fuel).
Proof.
  intros Hpv. induction fuel as [|fuel IH]; intros s kvs rest; simpl; [discriminate|].
  pose proof (skip_ws_length s) as Hws0.
  destruct (skip_ws s) as [|q r]; [discriminate|]. simpl in Hws0.
  destruct (q =? 34)%N; [|discriminate].
  destruct (parse_string_body r) as [[k r1]|] eqn:Hk; [|discriminate].
  apply parse_string_body_length in Hk. pose proof (skip_ws_length r1) as Hws1.
  destruct (skip_ws r1) as [|colon r2]; [discriminate|]. simpl in Hws1.
  destruct (colon =? 58)%N; [|discriminate].
  destruct (pv r2) as [v r3| |] eqn:Hv; try discriminate.
  apply Hpv in Hv. pose proof (skip_ws_length r3) as Hws3.
  destruct (skip_ws r3) as [|c r4]; [discriminate|]. simpl in Hws3.
  destruct (c =? 44)%N.
  - intros H. apply map_parsed_Done in H as [kvs' H]. apply IH in H. lia.
  - destruct (c =? 125)%N; [|discriminate]. intros [= <- <-]. lia.
Qed.

Lemma parse_literal_shrinks (word : jsstring) (v : JSON) :
  word <> [] -> shrinks (parse_literal word v).
Proof.
  intros Hword s a rest. unfold parse_literal.
  destruct (after_prefix word s) as [r|] eqn:Hp; [|discriminate].
  intros [= <- <-]. apply after_prefix_length in Hp.
  destruct word; [congruence|]. simpl in Hp. lia.
Qed.

Lemma parse_value_shrinks (fuel : nat) : shrinks (parse_value fuel).
Proof.
  induction fuel as [|fuel IH]; intros s v rest; simpl; [discriminate|].
  pose proof (skip_ws_length s) as Hws.
  destruct (skip_ws s) as [|c r]; [discriminate|]. simpl in Hws.
  destruct (c =? 123)%N.
  { pose proof (skip_ws_length r) as Hws'.
    destruct (skip_ws r) as [|c1 r1]; [discriminate|]. simpl in Hws'.
    destruct (c1 =? 125)%N; [intros [= <- <-]; lia|].
    intros H. apply map_parsed_Done in H as [kvs H].
    apply (parse_members_shrinks _ _ IH) in H. lia. }
  destruct (c =? 91)%N.
  { pose proof (skip_ws_length r) as Hws'.
    destruct (skip_ws r) as [|c1 r1]; [discriminate|]. simpl in Hws'.
    destruct (c1 =? 93)%N; [intros [= <- <-]; lia|].
    intros H. apply map_parsed_Done in H as [vs H].
    apply (parse_elements_shrinks _ _ IH) in H. lia. }
  destruct (c =? 34)%N.
  { destruct (parse_string_body r) as [[body r']|] eqn:Hb; [|discriminate].
    intros [= <- <-]. apply parse_string_body_length in Hb. lia. }
  destruct (c =? 116)%N.
  { intros H. apply parse_literal_shrinks in H; [simpl in H; lia | discriminate]. }
  destruct (c =? 102)%N.
  { intros H. apply parse_literal_shrinks in H; [simpl in H; lia | discriminate]. }
  destruct (c =? 110)%N.
  { intros H. apply parse_literal_shrinks in H; [simpl in H; lia | discriminate]. }
  destruct (parse_number (c :: r)) as [[n r']|] eqn:Hn; [|discriminate].
  intros [= <- <-]. apply parse_number_length in Hn. simpl in Hn. lia.
Qed.

Lemma parse_elements_fuelled (pv : jsstring -> Parsed JSON) (bound fuel : nat) :
  shrinks pv -> fuelled bound pv ->
  forall s, (length s < fuel)%nat -> (length s < bound)%nat ->
            parse_elements pv fuel s <> OutOfFuel.
Proof.
  intros Hshrink Hfuel. induction fuel as [|fuel IH]; intros s Hs Hb; [lia|]. simpl.
  destruct (pv s) as [v r| |] eqn:Hv; [|discriminate | exfalso; exact (Hfuel s Hb Hv)].
  apply Hshrink in Hv. pose proof (skip_ws_length r) as Hws.
  destruct (skip_ws r) as [|c r']; [discriminate|]. simpl in Hws.
  destruct (c =? 44)%N.
  - intros H. apply map_parsed_fuel in H. revert H. apply IH; lia.
  - destruct (c =? 93)%N; discriminate.
Qed.

Lemma parse_members_fuelled (pv : jsstring -> Parsed JSON) (bound fuel : nat) :
  shrinks pv -> fuelled bound pv ->
  forall s, (length s < fuel)%nat -> (length s < bound)%nat ->
            parse_members pv fuel s <> OutOfFuel.
Proof.
  intros Hshrink Hfuel. induction fuel as [|fuel IH]; intros s Hs Hb; [lia|]. simpl.
  pose proof (skip_ws_length s) as Hws0.
  destruct (skip_ws s) as [|q r]; [discriminate|]. simpl in Hws0.
  destruct (q =? 34)%N; [|discriminate].
  destruct (parse_string_body r) as [[k r1]|] eqn:Hk; [|discriminate].
  apply parse_string_body_length in Hk. pose proof (skip_ws_length r1) as Hws1.
  destruct (skip_ws r1) as [|colon r2]; [discriminate|]. simpl in Hws1.
  destruct (colon =? 58)%N; [|discriminate].
  destruct (pv r2) as [v r3| |] eqn:Hv; [|discriminate | exfalso; apply (Hfuel r2); [lia | exact Hv]].
  apply Hshrink in Hv. pose proof (skip_ws_length r3) as Hws3.
  destruct (skip_ws r3) as [|c r4]; [discriminate|]. simpl in Hws3.
  destruct (c =? 44)%N.
  - intros H. apply map_parsed_fuel in H. revert H. apply IH; lia.
  - destruct (c =? 125)%N; discriminate.
Qed.

Lemma parse_value_fuelled (fuel : nat) : fuelled fuel (parse_value fuel).
Proof.
  induction fuel as [|fuel IH]; intros s Hs; [lia|]. simpl.
  pose proof (skip_ws_length s) as Hws.
  destruct (skip_ws s) as [|c r]; [discriminate|]. simpl in Hws.
  destruct (c =? 123)%N.
  { pose proof (skip_ws_length r) as Hws'.
    destruct (skip_ws r) as [|c1 r1]; [discriminate|].
    destruct (c1 =? 125)%N; [discriminate|].
    intros H. apply map_parsed_fuel in H. revert H.
    apply (parse_members_fuelled _ fuel fuel (parse_value_shrinks fuel) IH); lia. }
  destruct (c =? 91)%N.
  { pose proof (skip_ws_length r) as Hws'.
    destruct (skip_ws r) as [|c1 r1]; [discriminate|].
    destruct (c1 =? 93)%N; [discriminate|].
    intros H. apply map_parsed_fuel in H. revert H.
    apply (parse_elements_fuelled _ fuel fuel (parse_value_shrinks fuel) IH); lia. }
  destruct (c =? 34)%N; [destruct (parse_string_body r) as [[? ?]|]; discriminate|].
  unfold parse_literal.
  destruct (c =? 116)%N; [destruct (after_prefix _ _); discriminate|].
  destruct (c =? 102)%N; [destruct (after_prefix _ _); discriminate|].
  destruct (c =? 110)%N; [destruct (after_prefix _ _); discriminate|].
  destruct (parse_number (c :: r)) as [[? ?]|]; discriminate.
Qed.

(** [JSON_parse] never gives up for want of fuel: when it returns [None] the
    text is malformed. *)
Lemma JSON_parse_fuel (text : jsstring) : parse_value (S (length text)) text <> OutOfFuel.
Proof. apply parse_value_fuelled. lia. Qed.

(** * Further properties *)

(** ** Ids identify events *)

Lemma first_hyphen_unique (a b x y : jsstring) :
  45%N ∉ a -> 45%N ∉ b -> a ++ 45%N :: x = b ++ 45%N :: y -> a = b /\ x = y.
Proof.
  revert b. induction a as [|c a IH]; intros [|d b] Ha Hb Heq; simpl in Heq.
  - injection Heq as ->. auto.
  - injection Heq as <- _. exfalso. apply Hb. left.
  - injection Heq as -> _. exfalso. apply Ha. left.
  - injection Heq as -> Heq. apply not_elem_of_cons in Ha as [_ Ha].
    apply not_elem_of_cons in Hb as [_ Hb].
    destruct (IH b Ha Hb Heq) as [-> ->]. auto.
Qed.

Lemma last_hyphen_unique (x y k1 k2 : jsstring) :
  45%N ∉ k1 -> 45%N ∉ k2 -> x ++ 45%N :: k1 = y ++ 45%N :: k2 -> x = y /\ k1 = k2.
Proof.
  intros H1 H2 Heq.
  pose proof (split_last_hyphen_app x k1 H1) as Hx.
  pose proof (split_last_hyphen_app y k2 H2) as Hy.
  rewrite Heq in Hx. rewrite Hx in Hy. injection Hy as -> ->. auto.
Qed.

Lemma digits_no_hyphen (ts : jsstring) : forallb is_digit ts = true -> 45%N ∉ ts.
Proof.
  intros H Hin. rewrite forallb_forall in H.
  specialize (H 45%N (proj1 (list_elem_of_In _ _) Hin)). discriminate H.
Qed.

(** An id is made of a timestamp, a tenant and a kind, and gives them back
    when neither the timestamp nor the kind holds a hyphen. *)
Lemma makeId_injective (ts1 ts2 tenant1 tenant2 kind1 kind2 : jsstring) :
  45%N ∉ ts1 -> 45%N ∉ ts2 -> 45%N ∉ kind1 -> 45%N ∉ kind2 ->
  makeId ts1 tenant1 kind1 = makeId ts2 tenant2 kind2 ->
  ts1 = ts2 /\ tenant1 = tenant2 /\ kind1 = kind2.
Proof.
  unfold makeId. change (str "-") with [45%N]. cbn [app].
  intros Ht1 Ht2 Hk1 Hk2 Heq.
  apply first_hyphen_unique in Heq as [-> Heq]; [|assumption|assumption].
  apply last_hyphen_unique in Heq as [-> ->]; auto.
Qed.

(** The id, tenant, type and timestamp of an audit event. *)
Lemma parseGUIAuditLine_id (ts line : jsstring) (e : PlatformEvent) :
  parseGUIAuditLine ts line = Some e ->
  exists kind, (kind, type e) ∈ kind_table
    /\ id e = makeId ts (tenant e) kind
    /\ timestamp e = floor_div (parseInt10 ts) 1000000.
Proof.
  unfold parseGUIAuditLine.
  destruct (search customer_at line) as [tenant0|]; [|discriminate].
  destruct (search action_at line) as [[action resource]|]; [|discriminate].
  repeat (destruct (decide _) as [_|_];
          [intros [= <-]; eexists; split;
             [unfold kind_table; cbn [type]; rewrite !elem_of_cons; auto 10
             | split; reflexivity]|]).
  discriminate.
Qed.

Lemma kind_table_no_hyphen (kind : jsstring) (ty : EventType) :
  (kind, ty) ∈ kind_table -> 45%N ∉ kind.
Proof.
  unfold kind_table. rewrite !elem_of_cons, elem_of_nil.
  intros H; repeat (destruct H as [H|H]; [injection H as -> _;
    let Hin := fresh in intros Hin; vm_compute in Hin;
    repeat (apply elem_of_cons in Hin as [Hin|Hin]; [discriminate Hin|]);
    apply elem_of_nil in Hin; exact Hin|]); contradiction.
Qed.

Lemma kind_table_functional (kind : jsstring) (ty1 ty2 : EventType) :
  (kind, ty1) ∈ kind_table -> (kind, ty2) ∈ kind_table -> ty1 = ty2.
Proof.
  unfold kind_table. rewrite !elem_of_cons, !elem_of_nil. intros H1 H2.
  repeat (destruct H1 as [H1|H1]; [injection H1 as H1 ->|]); try contradiction;
    repeat (destruct H2 as [H2|H2]; [injection H2 as H2 ->|]); try contradiction;
    first [reflexivity | distinct_literals].
Qed.

(** X1.  The id of an audit event identifies it: two events that
    [parseGUIAuditLine] makes from lines stamped with decimal timestamps
    have the same id only if they have the same raw timestamp, the same
    tenant, the same type and the same time.  Removing duplicates by id
    therefore never drops an audit event that differs in one of these. *)
Theorem audit_ids_identify (ts1 ts2 line1 line2 : jsstring) (e1 e2 : PlatformEvent) :
  forallb is_digit ts1 = true -> forallb is_digit ts2 = true ->
  parseGUIAuditLine ts1 line1 = Some e1 ->
  parseGUIAuditLine ts2 line2 = Some e2 ->
  id e1 = id e2 ->
  ts1 = ts2 /\ tenant e1 = tenant e2 /\ type e1 = type e2 /\ timestamp e1 = timestamp e2.
Proof.
  intros Hd1 Hd2 H1 H2 Hid.
  apply parseGUIAuditLine_id in H1 as (k1 & Hk1 & Hid1 & Hts1).
  apply parseGUIAuditLine_id in H2 as (k2 & Hk2 & Hid2 & Hts2).
  rewrite Hid1, Hid2 in Hid.
  apply makeId_injective in Hid as (-> & Hten & ->);
    eauto using digits_no_hyphen, kind_table_no_hyphen.
  split; [reflexivity|]. split; [exact Hten|].
  split; [exact (kind_table_functional _ _ _ Hk1 Hk2) | congruence].
Qed.

Lemma audit_ids_identify_witness :
  exists e1 e2,
    parseGUIAuditLine (str "1700000000000000000")
      (str "customer=a-b action create:instance on resource s/x") = Some e1
    /\ parseGUIAuditLine (str "1700000000000000000")
         (str "customer=a-b action create:instance on resource t/y") = Some e2
    /\ id e1 = id e2 /\ tenant e1 = tenant e2 /\ description e1 <> description e2.
Proof.
  eexists. eexists. split; [vm_compute; reflexivity|]. split; [vm_compute; reflexivity|].
  split; [reflexivity|]. split.
  - refine (proj1 (proj2 (audit_ids_identify
                            (str "1700000000000000000") (str "1700000000000000000")
                            (str "customer=a-b action create:instance on resource s/x")
                            (str "customer=a-b action create:instance on resource t/y")
                            _ _ eq_refl eq_refl _ _ _))); vm_compute; reflexivity.
  - vm_compute. discriminate.
Defined.

(** ** Signups *)

(** What [decodeURIComponent] returns for a text that is not empty is not
    empty either: the guard [email &&] of the signup loop lets every decoded
    email through. *)
Lemma decode_from_nonempty (n : nat) : forall (s : jsstring) (pending : option (nat * N * N))
    (t : jsstring),
  (length s <= n)%nat ->
  decode_from pending s = Ok t -> s <> [] \/ pending <> None -> t <> [].
Proof.
  induction n as [|n IH]; intros s pending t Hlen Hdec Hne.
  - destruct s; [|simpl in Hlen; lia].
    destruct pending; [discriminate|]. destruct Hne; congruence.
  - destruct s as [|c r].
    { destruct pending; [discriminate|]. destruct Hne; congruence. }
    simpl in Hlen. cbn [decode_from] in Hdec.
    destruct pending as [[[need acc] lo]|].
    + destruct (c =? 37)%N; [|discriminate].
      destruct r as [|h1 [|h2 r']]; try discriminate.
      destruct (hex_octet h1 h2) as [b|]; [|discriminate].
      destruct ((128 <=? b) && (b <? 192))%N; [|discriminate].
      destruct need as [|[|need']]; [discriminate| |].
      * destruct (valid_code_point _ _); [|discriminate].
        destruct (decode_from None r') as [t'|]; [|discriminate].
        injection Hdec as <-. unfold utf16_encode.
        destruct (_ <? 65536)%N; discriminate.
      * eapply (IH r'); [simpl in Hlen; lia | exact Hdec | right; discriminate].
    + destruct (c =? 37)%N.
      * destruct r as [|h1 [|h2 r']]; try discriminate.
        destruct (hex_octet h1 h2) as [b|]; [|discriminate].
        destruct (b <? 128)%N.
        { destruct (decode_from None r') as [t'|]; [|discriminate].
          injection Hdec as <-. discriminate. }
        destruct (b <? 192)%N; [discriminate|].
        destruct (b <? 224)%N;
          [eapply (IH r'); [simpl in Hlen; lia | exact Hdec | right; discriminate]|].
        destruct (b <? 240)%N;
          [eapply (IH r'); [simpl in Hlen; lia | exact Hdec | right; discriminate]|].
        destruct (b <? 248)%N;
          [eapply (IH r'); [simpl in Hlen; lia | exact Hdec | right; discriminate]|].
        discriminate.
      * destruct (decode_from None r) as [t'|]; [|discriminate].
        injection Hdec as <-. discriminate.
Qed.

Lemma email_at_nonempty (s m : jsstring) : email_at s = Some m -> m <> [].
Proof.
  unfold email_at. destruct (after_prefix _ s) as [r|]; [|discriminate].
  destruct (fst (span email_unit r)); [discriminate|]. intros [= <-]. discriminate.
Qed.

Lemma search_Some_exists {A : Type} (m : jsstring -> option A) (s : jsstring) (r : A) :
  search m s = Some r -> exists suf, m suf = Some r.
Proof.
  induction s as [|c s IH]; simpl.
  - destruct (m []) eqn:Hm; [intros [= <-]; eauto | discriminate].
  - destruct (m (c :: s)) eqn:Hm; [intros [= <-]; eauto | exact IH].
Qed.

Lemma has_email_nonempty (email : jsstring) (entry : jsstring * jsstring) :
  has_email email entry -> email <> [].
Proof.
  intros (m & Hs & Hd). apply search_Some_exists in Hs as (suf & Hs).
  apply email_at_nonempty in Hs.
  eapply (decode_from_nonempty (length m) m None); [lia | exact Hd | left; exact Hs].
Qed.

(** One turn of the signup loop. *)
Lemma signup_step_unfold (seen : gset jsstring) (events : list PlatformEvent)
    (entry : jsstring * jsstring) :
  signup_step (seen, events) entry
  = match search email_at (snd entry) with
    | None => Ok (seen, events)
    | Some m =>
        match decodeURIComponent m with
        | Thrown => Thrown
        | Ok email =>
            if negb (bool_decide (email = [])) && bool_decide (email ∉ seen)
            then Ok ({[email]} ∪ seen, events ++ [signup_event entry email])
            else Ok (seen, events)
        end
    end.
Proof.
  destruct entry as [ts line]. unfold signup_step. cbn [snd].
  destruct (search email_at line) as [m|]; [|reflexivity].
  destruct (decodeURIComponent m); reflexivity.
Qed.

(** The loop throws exactly when it meets an email that does not decode. *)
Lemma signup_loop_throws (l : list (jsstring * jsstring)) :
  forall state : gset jsstring * list PlatformEvent,
  foldR signup_step l state = Thrown <-> exists entry, entry ∈ l /\ undecodable entry.
Proof.
  induction l as [|entry l IH]; intros [seen events]; cbn [foldR].
  - split; [discriminate|]. intros (entry & Hin & _). apply elem_of_nil in Hin. contradiction.
  - rewrite signup_step_unfold. unfold undecodable.
    destruct (search email_at (snd entry)) as [m|] eqn:Hs.
    + destruct (decodeURIComponent m) as [email|] eqn:Hd.
      * assert (forall st, bindR (Ok st) (foldR signup_step l) = foldR signup_step l st) as Hb
          by reflexivity.
        destruct (negb _ && _); rewrite Hb, IH; (split;
          [intros (e & Hin & He); exists e; split; [right; exact Hin | exact He]
          |intros (e & Hin & m' & Hs' & Hd'); apply elem_of_cons in Hin as [->|Hin];
             [congruence | exists e; split; [exact Hin | exists m'; auto]]]).
      * split; [intros _; exists entry; split; [left | eauto] | reflexivity].
    + cbn [bindR]. rewrite IH. split.
      * intros (e & Hin & He). exists e. split; [right; exact Hin | exact He].
      * intros (e & Hin & m' & Hs' & Hd'). apply elem_of_cons in Hin as [->|Hin];
          [congruence | exists e; split; [exact Hin | exists m'; auto]].
Qed.

(** What the loop adds to [events]: one event for each email it has not
    seen, made from the first line that carries it. *)
Lemma signup_loop_spec (l : list (jsstring * jsstring)) :
  forall (seen seen' : gset jsstring) (events events' : list PlatformEvent),
  foldR signup_step l (seen, events) = Ok (seen', events') ->
  exists new,
    events' = events ++ new
    /\ NoDup (tenant <$> new)
    /\ (forall email, email ∈ seen' <-> email ∈ seen \/ email ∈ tenant <$> new)
    /\ (forall e, e ∈ new ->
          (tenant e ∉ seen)
          /\ exists l1 entry l2,
               l = l1 ++ entry :: l2 /\ has_email (tenant e) entry
               /\ e = signup_event entry (tenant e)
               /\ forall entry', entry' ∈ l1 -> ~ has_email (tenant e) entry')
    /\ (forall entry email, entry ∈ l -> has_email email entry -> email ∈ seen').
Proof.
  induction l as [|entry l IH]; intros seen seen' events events'; cbn [foldR].
  - intros [= <- <-]. exists []. rewrite app_nil_r.
    split; [reflexivity|]. split; [constructor|]. split.
    { intros email. rewrite fmap_nil, elem_of_nil. tauto. }
    split; [intros e He; apply elem_of_nil in He; contradiction|].
    intros entry email Hin. apply elem_of_nil in Hin. contradiction.
  - rewrite signup_step_unfold.
    destruct (search email_at (snd entry)) as [m|] eqn:Hs.
    + destruct (decodeURIComponent m) as [email0|] eqn:Hd; [|discriminate].
      assert (has_email email0 entry) as Hhas by (exists m; auto).
      pose proof (has_email_nonempty _ _ Hhas) as Hne.
      rewrite (bool_decide_eq_false_2 _ Hne). cbn [negb andb].
      case_bool_decide as Hfresh; cbn [bindR]; intros Hfold.
      * (* a new email *)
        destruct (IH _ _ _ _ Hfold) as (new & Heq & Hnd & Hseen & Hnew & Hall).
        assert (email0 ∈ ({[email0]} ∪ seen : gset jsstring)) as Hin0
          by (apply elem_of_union_l, elem_of_singleton; reflexivity).
        exists (signup_event entry email0 :: new).
        split; [rewrite Heq, <- app_assoc; reflexivity|].
        assert (email0 ∉ tenant <$> new) as Hnotin.
        { intros Hin. apply list_elem_of_fmap in Hin as (e & He & Hin).
          destruct (Hnew e Hin) as [Hfr _]. apply Hfr. rewrite <- He. exact Hin0. }
        split; [rewrite fmap_cons; constructor; assumption|].
        split.
        { intros email. rewrite Hseen, fmap_cons, elem_of_cons, elem_of_union, elem_of_singleton.
          cbn [tenant signup_event]. tauto. }
        split.
        { intros e He. apply elem_of_cons in He as [->|He].
          - cbn [tenant signup_event]. split; [exact Hfresh|].
            exists [], entry, l. split; [reflexivity|]. split; [exact Hhas|].
            split; [reflexivity|]. intros entry' Hin. apply elem_of_nil in Hin. contradiction.
          - destruct (Hnew e He) as (Hfr & l1 & en & l2 & -> & Hh & Hev & Hfirst).
            split; [intros Hs0; apply Hfr, elem_of_union_r, Hs0|].
            exists (entry :: l1), en, l2. split; [reflexivity|]. split; [exact Hh|].
            split; [exact Hev|]. intros entry' Hin.
            apply elem_of_cons in Hin as [->|Hin]; [|apply Hfirst; exact Hin].
            intros (m' & Hs' & Hd').
            assert (tenant e = email0) as Habs by congruence.
            apply Hfr. rewrite Habs. exact Hin0. }
        intros en email Hin Hh. apply elem_of_cons in Hin as [->|Hin].
        -- destruct Hh as (m' & Hs' & Hd'). assert (email = email0) as -> by congruence.
           apply Hseen. left. exact Hin0.
        -- exact (Hall en email Hin Hh).
      * (* an email seen before *)
        destruct (IH _ _ _ _ Hfold) as (new & Heq & Hnd & Hseen & Hnew & Hall).
        exists new. split; [exact Heq|]. split; [exact Hnd|]. split; [exact Hseen|].
        split.
        { intros e He. destruct (Hnew e He) as (Hfr & l1 & en & l2 & -> & Hh & Hev & Hfirst).
          split; [exact Hfr|].
          exists (entry :: l1), en, l2. split; [reflexivity|]. split; [exact Hh|].
          split; [exact Hev|]. intros entry' Hin.
          apply elem_of_cons in Hin as [->|Hin]; [|apply Hfirst; exact Hin].
          intros (m' & Hs' & Hd'). assert (tenant e = email0) as Habs by congruence.
          rewrite Habs in Hfr. contradiction. }
        intros en email Hin Hh. apply elem_of_cons in Hin as [->|Hin].
        -- destruct Hh as (m' & Hs' & Hd'). assert (email = email0) as -> by congruence.
           apply Hseen. left. exact Hfresh.
        -- exact (Hall en email Hin Hh).
    + cbn [bindR]. intros Hfold.
      destruct (IH _ _ _ _ Hfold) as (new & Heq & Hnd & Hseen & Hnew & Hall).
      exists new. split; [exact Heq|]. split; [exact Hnd|]. split; [exact Hseen|].
      split.
      { intros e He. destruct (Hnew e He) as (Hfr & l1 & en & l2 & -> & Hh & Hev & Hfirst).
        split; [exact Hfr|].
        exists (entry :: l1), en, l2. split; [reflexivity|]. split; [exact Hh|].
        split; [exact Hev|]. intros entry' Hin.
        apply elem_of_cons in Hin as [->|Hin]; [|apply Hfirst; exact Hin].
        intros (m' & Hs' & Hd'). congruence. }
      intros en email Hin Hh. apply elem_of_cons in Hin as [->|Hin].
      * destruct Hh as (m' & Hs' & Hd'). congruence.
      * exact (Hall en email Hin Hh).
Qed.

Lemma fetchSignupEvents_outcome (backend : LokiBackend) (since now : jsnum)
    (streams : list LokiStream) :
  read_reply (backend (signup_request since now)) = Ok streams ->
  outcome (fetchSignupEvents since now) backend
  = bindR (foldR signup_step (entries streams) (∅, [])) (fun final => Ok (snd final)).
Proof.
  intros Hreply.
  destruct (fetcher_outcomes no_numbers backend since now) as (_ & Hs & _).
  rewrite Hs. unfold signup_request in Hreply. rewrite Hreply. reflexivity.
Qed.

(** X2.  The signup fetcher reports every email once.  When it returns, its
    events have pairwise different tenants; the tenants are exactly the
    emails that the lines of the reply carry, decoded; and the event of an
    email is made from the first line that carries it, with that line's
    timestamp. *)
Theorem signups_once (backend : LokiBackend) (since now : jsnum)
    (streams : list LokiStream) (events : list PlatformEvent) :
  read_reply (backend (signup_request since now)) = Ok streams ->
  outcome (fetchSignupEvents since now) backend = Ok events ->
  NoDup (tenant <$> events)
  /\ (forall email,
        email ∈ tenant <$> events <->
        exists entry, entry ∈ entries streams /\ has_email email entry)
  /\ (forall e, e ∈ events ->
        exists l1 entry l2,
          entries streams = l1 ++ entry :: l2
          /\ has_email (tenant e) entry
          /\ e = signup_event entry (tenant e)
          /\ forall entry', entry' ∈ l1 -> ~ has_email (tenant e) entry').
Proof.
  intros Hreply Hout. rewrite (fetchSignupEvents_outcome _ _ _ _ Hreply) in Hout.
  destruct (foldR signup_step (entries streams) (∅, [])) as [[seen' events']|] eqn:Hfold;
    [|discriminate].
  injection Hout as <-. cbn [snd].
  destruct (signup_loop_spec _ _ _ _ _ Hfold) as (new & Heq & Hnd & Hseen & Hnew & Hall).
  rewrite app_nil_l in Heq. subst events'.
  split; [exact Hnd|]. split.
  - intros email. split.
    + intros Hin. apply list_elem_of_fmap in Hin as (e & -> & He).
      destruct (Hnew e He) as (_ & l1 & entry & l2 & Hl & Hh & _).
      exists entry. split; [rewrite Hl, elem_of_app; right; left | exact Hh].
    + intros (entry & Hin & Hh). specialize (Hall entry email Hin Hh).
      apply Hseen in Hall as [Habs|Hin']; [|exact Hin'].
      apply elem_of_empty in Habs. contradiction.
  - intros e He. destruct (Hnew e He) as (_ & H). exact H.
Qed.

Lemma signups_once_witness :
  exists events,
    outcome (fetchSignupEvents (Num 1699999000000) (Num 1700000010000)) sample_store = Ok events
    /\ tenant <$> events = [str "bob@x.io"; str "al@x.io"]
    /\ NoDup (tenant <$> events).
Proof.
  eexists. split; [vm_compute; reflexivity|]. split; [reflexivity|].
  refine (proj1 (signups_once sample_store (Num 1699999000000) (Num 1700000010000) _ _ _ _));
    vm_compute; reflexivity.
Defined.

(** The answer to a request, by its mode. *)
Lemma GET_run (Number_toString : JNum -> jsstring) (backend : LokiBackend) (now : Z)
    (sinceParam beforeParam : option DateParam) (sent : list LokiRequest) :
  let since := fst (window now sinceParam beforeParam) in
  let until := snd (window now sinceParam beforeParam) in
  GET Number_toString now sinceParam beforeParam backend sent
  = (Ok (match given sinceParam with
         | Some sinceP =>
             live_response sinceP (merged_outcome Number_toString backend since until)
         | None =>
             page_response now (cursor now beforeParam)
               (merged_outcome Number_toString backend since until)
         end),
     sent ++ window_requests since until).
Proof.
  intros since until. subst since until. unfold window.
  destruct (given sinceParam) as [sinceP|] eqn:Hgiven; cbn [fst snd].
  - destruct sinceParam as [p|]; [|discriminate]. unfold given in Hgiven.
    destruct (dp_text p) eqn:Htext; [discriminate|]. injection Hgiven as ->.
    apply GET_live_run. congruence.
  - apply GET_page_run. exact Hgiven.
Qed.

(** X3.  An email that does not decode fails the request.  The signup
    fetcher throws exactly when a line of its reply carries an email with a
    malformed percent escape, and then the handler, in either mode, answers
    with the 500 response, whatever the other three queries returned. *)
Theorem undecodable_email_fails (Number_toString : JNum -> jsstring) (backend : LokiBackend)
    (now : Z) (sinceParam beforeParam : option DateParam) (sent : list LokiRequest)
    (streams : list LokiStream) :
  let since := fst (window now sinceParam beforeParam) in
  let until := snd (window now sinceParam beforeParam) in
  read_reply (backend (signup_request since until)) = Ok streams ->
  (outcome (fetchSignupEvents since until) backend = Thrown <->
   exists entry, entry ∈ entries streams /\ undecodable entry)
  /\ ((exists entry, entry ∈ entries streams /\ undecodable entry) ->
      fst (GET Number_toString now sinceParam beforeParam backend sent) = Ok ServerError).
Proof.
  intros since until Hreply.
  assert (outcome (fetchSignupEvents since until) backend = Thrown <->
          exists entry, entry ∈ entries streams /\ undecodable entry) as Hiff.
  { rewrite (fetchSignupEvents_outcome _ _ _ _ Hreply), <- (signup_loop_throws _ (∅, [])).
    destruct (foldR signup_step (entries streams) (∅, [])); cbn [bindR];
      split; (discriminate || reflexivity). }
  split; [exact Hiff|].
  intros Hbad. apply Hiff in Hbad.
  rewrite GET_run. cbn [fst]. fold since until.
  unfold merged_outcome. rewrite Hbad.
  assert (forall g, match g, (Thrown : Result (list PlatformEvent)),
                          outcome (fetchPlanChangeEvents since until) backend,
                          outcome (fetchMCPEvents Number_toString since until) backend with
                    | Ok guiEvents, Ok signupEvents, Ok planEvents, Ok mcpEvents =>
                        Ok (mergeAndDedup guiEvents signupEvents planEvents mcpEvents)
                    | _, _, _, _ => Thrown
                    end = Thrown) as -> by (intros [g|]; reflexivity).
  destruct (given sinceParam); reflexivity.
Qed.

Lemma undecodable_email_fails_witness :
  undecodable bad_email_entry
  /\ fst (GET no_numbers 1700000010000 (Some since_param) None bad_email_store []) = Ok ServerError
  /\ fst (GET no_numbers 1700000010000 None None bad_email_store []) = Ok ServerError.
Proof.
  assert (undecodable bad_email_entry) as Hbad.
  { exists (str "100%"). split; vm_compute; reflexivity. }
  split; [exact Hbad|]. split.
  - apply (proj2 (undecodable_email_fails no_numbers bad_email_store 1700000010000
                    (Some since_param) None [] [mkLokiStream ∅ [bad_email_entry]]
                    ltac:(vm_compute; reflexivity))).
    exists bad_email_entry. split; [left | exact Hbad].
  - apply (proj2 (undecodable_email_fails no_numbers bad_email_store 1700000010000
                    None None [] [mkLokiStream ∅ [bad_email_entry]]
                    ltac:(vm_compute; reflexivity))).
    exists bad_email_entry. split; [left | exact Hbad].
Defined.

(** ** The cursors of the handler *)

(** X4.  The live-poll mode and its cursor.  A request with a [since]
    parameter is answered in the live-poll mode whatever its [before]
    parameter.  When no fetcher throws, the answer holds the merged events
    and never announces more history; its [latestTimestamp] is the text of
    [since] itself when there is no event, so that the next poll asks from
    the same instant, and else the time of the first event, which for
    finite timestamps is the newest of all.  The request fails only if that
    first timestamp is no time value. *)
Theorem live_cursor (Number_toString : JNum -> jsstring) (backend : LokiBackend)
    (now : Z) (sinceP : DateParam) (beforeParam : option DateParam) (sent : list LokiRequest)
    (guiEvents signupEvents planEvents mcpEvents : list PlatformEvent) :
  dp_text sinceP <> [] ->
  outcome (fetchGUIEvents (dp_time sinceP) (Num now)) backend = Ok guiEvents ->
  outcome (fetchSignupEvents (dp_time sinceP) (Num now)) backend = Ok signupEvents ->
  outcome (fetchPlanChangeEvents (dp_time sinceP) (Num now)) backend = Ok planEvents ->
  outcome (fetchMCPEvents Number_toString (dp_time sinceP) (Num now)) backend = Ok mcpEvents ->
  let events := mergeAndDedup guiEvents signupEvents planEvents mcpEvents in
  let answer := fst (GET Number_toString now (Some sinceP) beforeParam backend sent) in
  (events = [] -> answer = Ok (Live [] 0 (Echo (dp_text sinceP)) false))
  /\ (forall e rest, events = e :: rest ->
        (valid_time (timestamp e) ->
         answer = Ok (Live events (length events) (Iso (tsZ e)) false))
        /\ (~ valid_time (timestamp e) -> answer = Ok ServerError)
        /\ (Forall numeric (guiEvents ++ signupEvents ++ planEvents ++ mcpEvents) ->
            forall e', e' ∈ events -> tsZ e' <= tsZ e)).
Proof.
  intros Htext Hg Hs Hp Hm events answer.
  assert (answer = Ok (live_response sinceP (Ok events))) as Hanswer.
  { subst answer. rewrite (GET_live_run _ _ _ _ _ _ Htext). cbn [fst].
    unfold merged_outcome. rewrite Hg, Hs, Hp, Hm. reflexivity. }
  rewrite Hanswer. unfold live_response. split.
  - intros ->. reflexivity.
  - intros e rest Hev. rewrite Hev. split; [|split].
    + intros [stamp Hstamp]. rewrite Hstamp.
      apply toISOString_Ok in Hstamp as (z & Hz & ->). unfold tsZ. rewrite Hz. reflexivity.
    + intros Hinvalid. destruct (toISOString (timestamp e)) as [stamp|] eqn:Hstamp;
        [exfalso; apply Hinvalid; exists stamp; exact Hstamp | reflexivity].
    + intros Hnum e' He'.
      pose proof (mergeAndDedup_sorted guiEvents signupEvents planEvents mcpEvents Hnum)
        as Hsorted.
      fold events in Hsorted. rewrite Hev in Hsorted.
      apply StronglySorted_inv in Hsorted as [_ Hhead].
      apply elem_of_cons in He' as [->|He']; [lia|].
      rewrite Forall_forall in Hhead. specialize (Hhead e' He'). lia.
Qed.

Lemma live_cursor_witness :
  fst (GET no_numbers 1700000010000 (Some since_param) (Some since_param) silent_store [])
  = Ok (Live [] 0 (Echo (str "2023-11-14T22:13:20.000Z")) false).
Proof.
  refine (proj1 (live_cursor no_numbers silent_store 1700000010000 since_param
                   (Some since_param) [] [] [] [] [] _ _ _ _ _) _);
    (discriminate || reflexivity).
Defined.

(** The four fetchers on a log store without lines. *)
Lemma quiet_outcome (Number_toString : JNum -> jsstring) (backend : LokiBackend)
    (since now : jsnum) :
  quiet backend -> merged_outcome Number_toString backend since now = Ok [].
Proof.
  intros Hq. unfold merged_outcome.
  destruct (fetcher_outcomes Number_toString backend since now) as (Hg & Hs & Hp & Hm).
  rewrite Hg, Hs, Hp, Hm, !Hq. reflexivity.
Qed.

(** X5.  Empty pages tile the lookback.  On a log store without lines, the
    page whose cursor lies [k] chunks of three days before the request time
    is empty, hands back the start of its window, three days further back,
    as the next cursor, and announces more history exactly when [k < 9]:
    followed from the request time, the cursors give ten windows that cover
    the thirty days of the lookback and end where it ends. *)
Theorem empty_pages_tile (Number_toString : JNum -> jsstring) (backend : LokiBackend)
    (now k : Z) (beforeParam : option DateParam) (sent : list LokiRequest) :
  quiet backend ->
  cursor now beforeParam = Num (now - k * days 3) ->
  valid_time (Num (now - k * days 3)) ->
  valid_time (Num (now - (k + 1) * days 3)) ->
  GET Number_toString now None beforeParam backend sent
  = (Ok (Page [] 0 (Iso (now - k * days 3)) (Iso (now - (k + 1) * days 3))
            (bool_decide (k < 9))),
     sent ++ window_requests (Num (now - (k + 1) * days 3)) (Num (now - k * days 3)))
  /\ now - (9 + 1) * days 3 = now - MAX_HISTORY_MS.
Proof.
  intros Hq Hcursor Hbefore Hsince. split; [|unfold days, MAX_HISTORY_MS; lia].
  rewrite (GET_page_run Number_toString backend now None beforeParam sent eq_refl), Hcursor.
  rewrite (window_start _ Hbefore).
  replace (now - k * days 3 - days 3) with (now - (k + 1) * days 3) by lia.
  rewrite (quiet_outcome _ _ _ _ Hq). unfold page_response.
  rewrite (window_start _ Hbefore).
  replace (now - k * days 3 - days 3) with (now - (k + 1) * days 3) by lia.
  cbn [last length].
  destruct Hbefore as [b Hb]. destruct Hsince as [s Hs]. rewrite Hb, Hs.
  apply toISOString_Ok in Hb as (zb & [= <-] & ->).
  apply toISOString_Ok in Hs as (zs & [= <-] & ->).
  do 3 f_equal. cbn [num_gt].
  destruct (Z.ltb_spec0 (now - MAX_HISTORY_MS) (now - (k + 1) * days 3));
    symmetry; [apply bool_decide_eq_true | apply bool_decide_eq_false];
    unfold days, MAX_HISTORY_MS in *; lia.
Qed.

Lemma empty_pages_tile_witness :
  fst (GET no_numbers 1700000000000 None None silent_store [])
  = Ok (Page [] 0 (Iso 1700000000000) (Iso (1700000000000 - 259200000)) true)
  /\ fst (GET no_numbers 1700000000000 None
            (Some (mkDateParam (str "2023-10-18T22:13:20.000Z") (Num (1700000000000 - 9 * days 3))))
            silent_store [])
     = Ok (Page [] 0 (Iso (1700000000000 - 2332800000)) (Iso (1700000000000 - 2592000000)) false).
Proof.
  split.
  - pose proof (proj1 (empty_pages_tile no_numbers silent_store 1700000000000 0 None []
                         (fun _ => eq_refl) eq_refl
                         ltac:(eexists; vm_compute; reflexivity)
                         ltac:(eexists; vm_compute; reflexivity))) as H.
    rewrite H. reflexivity.
  - pose proof (proj1 (empty_pages_tile no_numbers silent_store 1700000000000 9
                         (Some (mkDateParam (str "2023-10-18T22:13:20.000Z")
                                  (Num (1700000000000 - 9 * days 3)))) []
                         (fun _ => eq_refl) eq_refl
                         ltac:(eexists; vm_compute; reflexivity)
                         ltac:(eexists; vm_compute; reflexivity))) as H.
    rewrite H. reflexivity.
Defined.

(** X6.  A [before] parameter that is no date.  Its time value is [NaN]:
    the four queries are sent with [NaN] for both bounds, no page ever
    announces more history, and when the queries bring no event the request
    fails with the 500 response, since the cursor has no ISO text. *)
Theorem unparsable_before (Number_toString : JNum -> jsstring) (backend : LokiBackend)
    (now : Z) (beforeP : DateParam) (sent : list LokiRequest) :
  dp_text beforeP <> [] ->
  dp_time beforeP = NaN ->
  let answer := GET Number_toString now None (Some beforeP) backend sent in
  snd answer = sent ++ window_requests NaN NaN
  /\ Forall (fun rq => lq_start rq = NaN /\ lq_end rq = NaN) (window_requests NaN NaN)
  /\ (merged_outcome Number_toString backend NaN NaN = Ok [] -> fst answer = Ok ServerError)
  /\ (forall events count latest oldest hasMore,
        fst answer = Ok (Page events count latest oldest hasMore) ->
        hasMore = false /\ events <> []).
Proof.
  intros Htext Htime answer.
  assert (cursor now (Some beforeP) = NaN) as Hcursor.
  { unfold cursor, given. destruct (dp_text beforeP); [congruence | exact Htime]. }
  assert (answer = (Ok (page_response now NaN (merged_outcome Number_toString backend NaN NaN)),
                    sent ++ window_requests NaN NaN)) as ->.
  { subst answer.
    rewrite (GET_page_run Number_toString backend now None (Some beforeP) sent eq_refl), Hcursor.
    reflexivity. }
  cbn [fst snd]. split; [reflexivity|]. split; [repeat constructor|]. split.
  - intros ->. reflexivity.
  - intros events count latest oldest hasMore. unfold page_response.
    destruct (merged_outcome _ _ _ _) as [allEvents|]; [|discriminate].
    destruct allEvents as [|e rest]; [discriminate|].
    destruct (toISOString (timestamp e)); [|discriminate].
    destruct (match last (e :: rest) with
              | Some e0 => toISOString (timestamp e0)
              | None => toISOString (num_sub NaN (Num CHUNK_MS))
              end); [|discriminate].
    intros [= <- _ _ _ <-]. split; [reflexivity | discriminate].
Qed.

Lemma unparsable_before_witness :
  fst (GET no_numbers 1700000000000 None (Some (mkDateParam (str "yesterday") NaN))
         silent_store [])
  = Ok ServerError.
Proof.
  apply (proj1 (proj2 (proj2 (unparsable_before no_numbers silent_store 1700000000000
                                (mkDateParam (str "yesterday") NaN) []
                                ltac:(discriminate) eq_refl)))).
  apply quiet_outcome. intros rq. reflexivity.
Defined.

(** ** Ids tell the sources apart *)

Lemma id_kind_makeId (ts tenant0 kind : jsstring) :
  45%N ∉ kind -> id_kind (makeId ts tenant0 kind) = kind.
Proof.
  intros Hk. unfold id_kind, makeId. change (str "-") with [45%N].
  replace (ts ++ [45%N] ++ tenant0 ++ [45%N] ++ kind)
    with ((ts ++ 45%N :: tenant0) ++ 45%N :: kind)
    by (rewrite <- app_assoc; reflexivity).
  rewrite (split_last_hyphen_app _ _ Hk). reflexivity.
Qed.

Lemma literal_no_hyphen (kinds : list jsstring) (kind : jsstring) :
  forallb (fun k => negb (existsb (N.eqb 45) k)) kinds = true ->
  kind ∈ kinds -> 45%N ∉ kind.
Proof.
  intros Hall Hin Hh. rewrite forallb_forall in Hall.
  specialize (Hall kind (proj1 (list_elem_of_In _ _) Hin)).
  apply negb_true_iff in Hall.
  assert (existsb (N.eqb 45) kind = true) as Hex; [|congruence].
  apply existsb_exists. exists 45%N. split; [apply list_elem_of_In; exact Hh | reflexivity].
Qed.

Lemma mcp_kinds_no_hyphen (kind : jsstring) : kind ∈ mcp_kinds -> 45%N ∉ kind.
Proof. apply literal_no_hyphen. vm_compute. reflexivity. Qed.

Section SourceIds.
Variable Number_toString : JNum -> jsstring.

Lemma mcp_event_id (ts action : jsstring) (tenantV resourceV : JSON) (typeV : option JSON)
    (e : PlatformEvent) :
  mcp_event Number_toString ts action tenantV resourceV typeV = Ok (Some e) ->
  exists kind, kind ∈ mcp_kinds /\ id e = makeId ts (tenant e) kind.
Proof.
  unfold mcp_event, mcp_kinds.
  repeat (destruct (decide _) as [_|_];
          [destruct (ToString Number_toString tenantV) as [tenant0|]; [|discriminate];
           destruct (ToString Number_toString resourceV) as [resource|]; [|discriminate];
           cbn [bindR];
           try (destruct (match truthy_value typeV with
                          | Some t => _
                          | None => _
                          end) as [kind0|]; [|discriminate]; cbn [bindR]);
           intros [= <-]; eexists; split; [|reflexivity];
           rewrite !elem_of_cons; auto 12|]).
  discriminate.
Qed.

Lemma parseMCPAuditLine_id (ts line : jsstring) (e : PlatformEvent) :
  parseMCPAuditLine Number_toString ts line = Some e ->
  exists kind, kind ∈ mcp_kinds /\ id e = makeId ts (tenant e) kind.
Proof.
  unfold parseMCPAuditLine.
  destruct (search (after_prefix msg_marker) line) as [rest|]; [|discriminate].
  destruct (JSON_parse _) as [data|]; [|discriminate].
  destruct (mcp_try Number_toString ts data) as [[e'|]|] eqn:Htry; try discriminate.
  intros [= ->]. unfold mcp_try in Htry.
  destruct (get_field data (str "action")) as [actionV|]; [|discriminate].
  cbn [bindR] in Htry.
  destruct (truthy_value actionV) as [[| | |action| |]|]; try discriminate.
  destruct (bool_decide _); [|discriminate].
  destruct (get_field data (str "success")) as [successV|]; [|discriminate].
  cbn [bindR] in Htry.
  destruct (truthy_value successV); [|discriminate].
  destruct (get_field data (str "tenantId")) as [tenantId|]; [|discriminate].
  destruct (get_field data (str "resource")) as [resource|]; [|discriminate].
  destruct (get_field data (str "type")) as [typeV|]; [|discriminate].
  cbn [bindR] in Htry. exact (mcp_event_id _ _ _ _ _ _ Htry).
Qed.

End SourceIds.

Lemma plan_event_id (entry : jsstring * jsstring) :
  id_kind (id (plan_event entry)) = str "plan_change".
Proof.
  destruct entry as [ts line]. cbn [plan_event id]. apply id_kind_makeId.
  intros Hin. vm_compute in Hin.
  repeat (apply elem_of_cons in Hin as [Hin|Hin]; [discriminate Hin|]).
  apply elem_of_nil in Hin. exact Hin.
Qed.

Lemma signup_event_id (entry : jsstring * jsstring) (email : jsstring) :
  id_kind (id (signup_event entry email)) = str "signup".
Proof.
  cbn [signup_event id]. apply id_kind_makeId.
  intros Hin. vm_compute in Hin.
  repeat (apply elem_of_cons in Hin as [Hin|Hin]; [discriminate Hin|]).
  apply elem_of_nil in Hin. exact Hin.
Qed.

(** The kinds of two different sources are different. *)
Lemma source_kinds_disjoint (i j : nat) (ki kj : list jsstring) (k : jsstring) :
  source_kinds !! i = Some ki -> source_kinds !! j = Some kj ->
  k ∈ ki -> k ∈ kj -> i = j.
Proof.
  intros Hi Hj Hki Hkj.
  assert (forallb (fun p : nat * list jsstring =>
            forallb (fun q : nat * list jsstring =>
              bool_decide (fst p = fst q)
              || forallb (fun a => forallb (fun b => negb (bool_decide (a = b))) (snd q)) (snd p))
              (imap pair source_kinds)) (imap pair source_kinds) = true) as Hall
    by (vm_compute; reflexivity).
  rewrite forallb_forall in Hall.
  assert ((i, ki) ∈ imap pair source_kinds) as Hpi
    by (apply list_elem_of_lookup; exists i; rewrite list_lookup_imap, Hi; reflexivity).
  assert ((j, kj) ∈ imap pair source_kinds) as Hpj
    by (apply list_elem_of_lookup; exists j; rewrite list_lookup_imap, Hj; reflexivity).
  specialize (Hall _ (proj1 (list_elem_of_In _ _) Hpi)).
  rewrite forallb_forall in Hall.
  specialize (Hall _ (proj1 (list_elem_of_In _ _) Hpj)). cbn [fst snd] in Hall.
  apply orb_true_iff in Hall as [Heq|Hne]; [apply bool_decide_eq_true in Heq; exact Heq|].
  rewrite forallb_forall in Hne.
  specialize (Hne _ (proj1 (list_elem_of_In _ _) Hki)).
  rewrite forallb_forall in Hne.
  specialize (Hne _ (proj1 (list_elem_of_In _ _) Hkj)).
  apply negb_true_iff, bool_decide_eq_false in Hne. congruence.
Qed.

(** X7.  Ids tell the sources apart.  What follows the last hyphen of an id
    is the kind its maker put there: one of the six kinds of the audit
    table for the audit events, [signup] for the signup events,
    [plan_change] for the plan events, one of the nine [mcp_] kinds for the
    structured-action events.  The four sets of kinds are disjoint, so two
    events of different fetchers never have the same id: removing
    duplicates by id drops an event only for an event of its own source. *)
Theorem ids_tell_sources (Number_toString : JNum -> jsstring) (backend : LokiBackend)
    (since now : jsnum) (guiEvents signupEvents planEvents mcpEvents : list PlatformEvent) :
  outcome (fetchGUIEvents since now) backend = Ok guiEvents ->
  outcome (fetchSignupEvents since now) backend = Ok signupEvents ->
  outcome (fetchPlanChangeEvents since now) backend = Ok planEvents ->
  outcome (fetchMCPEvents Number_toString since now) backend = Ok mcpEvents ->
  let fetched := [guiEvents; signupEvents; planEvents; mcpEvents] in
  (forall i events kinds e,
     fetched !! i = Some events -> source_kinds !! i = Some kinds ->
     e ∈ events -> id_kind (id e) ∈ kinds)
  /\ (forall i j events1 events2 e1 e2,
        fetched !! i = Some events1 -> fetched !! j = Some events2 ->
        e1 ∈ events1 -> e2 ∈ events2 -> id e1 = id e2 -> i = j).
Proof.
  intros Hg Hs Hp Hm fetched.
  destruct (fetcher_outcomes Number_toString backend since now) as (Fg & Fs & Fp & Fm).
  assert (forall e, e ∈ guiEvents -> id_kind (id e) ∈ kind_table.*1) as Kg.
  { intros e He. rewrite Fg in Hg. destruct (read_reply _) as [streams|]; [|discriminate Hg].
    injection Hg as <-. apply list_elem_of_omap in He as ([ts line] & _ & Hparse).
    apply parseGUIAuditLine_id in Hparse as (kind & Hkind & -> & _).
    rewrite id_kind_makeId by (eapply kind_table_no_hyphen; exact Hkind).
    apply list_elem_of_fmap. exists (kind, type e). split; [reflexivity | exact Hkind]. }
  assert (forall e, e ∈ signupEvents -> id_kind (id e) ∈ [str "signup"]) as Ks.
  { intros e He. rewrite Fs in Hs. destruct (read_reply _) as [streams|]; [|discriminate Hs].
    cbn [bindR] in Hs.
    destruct (foldR signup_step (entries streams) (∅, [])) as [[seen' events']|] eqn:Hfold;
      [|discriminate Hs].
    injection Hs as <-. cbn [snd] in He.
    destruct (signup_loop_spec _ _ _ _ _ Hfold) as (new & Heq & _ & _ & Hnew & _).
    rewrite app_nil_l in Heq. subst events'.
    destruct (Hnew e He) as (_ & l1 & entry & l2 & _ & _ & Hev & _).
    rewrite Hev, signup_event_id. left. }
  assert (forall e, e ∈ planEvents -> id_kind (id e) ∈ [str "plan_change"]) as Kp.
  { intros e He. rewrite Fp in Hp. destruct (read_reply _) as [streams|]; [|discriminate Hp].
    injection Hp as <-. apply list_elem_of_fmap in He as (entry & -> & _).
    rewrite plan_event_id. left. }
  assert (forall e, e ∈ mcpEvents -> id_kind (id e) ∈ mcp_kinds) as Km.
  { intros e He. rewrite Fm in Hm. destruct (read_reply _) as [streams|]; [|discriminate Hm].
    injection Hm as <-. apply list_elem_of_omap in He as ([ts line] & _ & Hparse).
    apply parseMCPAuditLine_id in Hparse as (kind & Hkind & ->).
    rewrite id_kind_makeId by (apply mcp_kinds_no_hyphen; exact Hkind). exact Hkind. }
  clear Fg Fs Fp Fm Hg Hs Hp Hm.
  assert (forall i events kinds e,
            fetched !! i = Some events -> source_kinds !! i = Some kinds ->
            e ∈ events -> id_kind (id e) ∈ kinds) as Hkinds.
  { intros i events kinds e Hi Hk He.
    destruct i as [|[|[|[|i]]]]; cbn in Hi, Hk; try discriminate;
      injection Hi as <-; injection Hk as <-; auto. }
  split; [exact Hkinds|].
  intros i j events1 events2 e1 e2 Hi Hj He1 He2 Hid.
  assert (exists ki, source_kinds !! i = Some ki) as [ki Hki].
  { apply lookup_lt_is_Some. apply lookup_lt_Some in Hi. exact Hi. }
  assert (exists kj, source_kinds !! j = Some kj) as [kj Hkj].
  { apply lookup_lt_is_Some. apply lookup_lt_Some in Hj. exact Hj. }
  pose proof (Hkinds _ _ _ _ Hi Hki He1) as H1.
  pose proof (Hkinds _ _ _ _ Hj Hkj He2) as H2.
  rewrite Hid in H1. exact (source_kinds_disjoint _ _ _ _ _ Hki Hkj H1 H2).
Qed.

Lemma ids_tell_sources_witness :
  exists guiEvents signupEvents,
    outcome (fetchGUIEvents (Num 1699999000000) (Num 1700000010000)) sample_store = Ok guiEvents
    /\ outcome (fetchSignupEvents (Num 1699999000000) (Num 1700000010000)) sample_store
       = Ok signupEvents
    /\ guiEvents <> [] /\ signupEvents <> []
    /\ forall e1 e2, e1 ∈ guiEvents -> e2 ∈ signupEvents -> id e1 <> id e2.
Proof.
  eexists. eexists. split; [vm_compute; reflexivity|]. split; [vm_compute; reflexivity|].
  split; [discriminate|]. split; [discriminate|].
  intros e1 e2 He1 He2 Hid.
  pose proof (proj2 (ids_tell_sources no_numbers sample_store (Num 1699999000000)
                       (Num 1700000010000) _ _ _ _
                       ltac:(vm_compute; reflexivity) ltac:(vm_compute; reflexivity)
                       ltac:(vm_compute; reflexivity) ltac:(vm_compute; reflexivity))
                    0%nat 1%nat _ _ e1 e2 eq_refl eq_refl He1 He2 Hid) as H.
  discriminate H.
Defined.

(** ** The windows of the range queries *)

Lemma rangeSeconds_values (label : jsstring) :
  label ∉ Object_prototype_names ->
  exists secs : Z,
    rangeSeconds label = Seconds secs
    /\ secs ∈ [3600; 21600; 43200; 86400; 172800; 604800].
Proof.
  intros Hown. destruct (decide (label ∈ known_ranges)) as [Hin|Hout].
  - unfold known_ranges in Hin. rewrite !elem_of_cons, elem_of_nil in Hin.
    destruct Hin as [->|[->|[->|[->|[->|[->|[]]]]]]];
      eexists; (split; [vm_compute; reflexivity|]); rewrite !elem_of_cons; auto 10.
  - exists 3600. rewrite (rangeSeconds_unknown label Hout Hown). split; [reflexivity | left].
Qed.

Lemma range_window_bounded (query label : jsstring) (now : Z) :
  clock_reading now -> label ∉ Object_prototype_names ->
  bounded_window (mkPromRequest query (num_sub (Num now) (as_number (rangeSeconds label))) now
                    (stepForRange (rangeSeconds label))).
Proof.
  unfold clock_reading. intros Hnow Hown.
  destruct (rangeSeconds_values label Hown) as (secs & -> & Hsecs).
  assert (0 <= secs <= 604800) as Hrange.
  { rewrite !elem_of_cons, elem_of_nil in Hsecs.
    destruct Hsecs as [->|[->|[->|[->|[->|[->|[]]]]]]]; lia. }
  unfold bounded_window. cbn [pq_start pq_end pq_step as_number].
  exists (now - secs). split.
  - rewrite num_sub_Num. apply norm_exact.
    assert (2 ^ 53 = 9007199254740992) as -> by reflexivity. lia.
  - replace (now - (now - secs)) with secs by lia.
    rewrite !elem_of_cons, elem_of_nil in Hsecs.
    destruct Hsecs as [->|[->|[->|[->|[->|[->|[]]]]]]]; vm_compute; repeat split; discriminate.
Qed.

Lemma range_window_inherited (query label : jsstring) (now : Z) :
  label ∈ Object_prototype_names ->
  mkPromRequest query (num_sub (Num now) (as_number (rangeSeconds label))) now
    (stepForRange (rangeSeconds label))
  = mkPromRequest query NaN now 3600.
Proof. intros Hin. rewrite (rangeSeconds_inherited label Hin). reflexivity. Qed.

(** X8.  The window of every range query.  Each of the three range
    endpoints sends one query, whose window ends at the request time and
    whose step is the one the graph endpoints hand back.  Unless the range
    label names a member that every object inherits, the window is between
    one hour and seven days wide and holds a whole number of steps, between
    60 and 168: no such label makes an endpoint ask the metric store for
    more than 169 samples per series.  Under the name of an inherited
    member the query has no start, [NaN], and the largest step, 3600. *)
Theorem range_queries_bounded (backend : PromBackend) (now : Z) (rangeParam : option jsstring) :
  clock_reading now ->
  (exists rq,
     pq_query rq = graph_query /\ pq_end rq = now
     /\ (param_or rangeParam (str "1h") ∉ Object_prototype_names -> bounded_window rq)
     /\ (param_or rangeParam (str "1h") ∈ Object_prototype_names ->
         pq_start rq = NaN /\ pq_step rq = 3600)
     /\ graph_GET backend now rangeParam
        = bindR (read_reply (backend rq)) (fun results =>
            Ok (mkGraphResponse (graph_series results) (param_or rangeParam (str "1h"))
                  (pq_step rq))))
  /\ (exists rq,
        pq_query rq = pod_query /\ pq_end rq = now
        /\ (param_or rangeParam (str "1h") ∉ Object_prototype_names -> bounded_window rq)
        /\ (param_or rangeParam (str "1h") ∈ Object_prototype_names ->
            pq_start rq = NaN /\ pq_step rq = 3600)
        /\ tenant_graph_GET backend now rangeParam
           = bindR (read_reply (backend rq)) (fun results =>
               Ok (mkGraphResponse (tenant_series results) (param_or rangeParam (str "1h"))
                     (pq_step rq))))
  /\ (forall c namespace,
        exists rq,
          pq_query rq = drilldown_query (c :: namespace) /\ pq_end rq = now
          /\ (param_or rangeParam (str "6h") ∉ Object_prototype_names -> bounded_window rq)
          /\ (param_or rangeParam (str "6h") ∈ Object_prototype_names ->
              pq_start rq = NaN /\ pq_step rq = 3600)
          /\ drilldown_GET backend now (Some (c :: namespace)) rangeParam
             = bindR (read_reply (backend rq)) (fun results =>
                 Ok (Drilldown (drilldown_series results) (c :: namespace)
                       (param_or rangeParam (str "6h"))))).
Proof.
  intros Hnow.
  split; [|split; [|intros c namespace]];
    eexists (mkPromRequest _ (num_sub (Num now) (as_number (rangeSeconds _))) now
               (stepForRange (rangeSeconds _)));
    (split; [reflexivity|]); (split; [reflexivity|]);
    (split; [intros Hown; apply (range_window_bounded _ _ _ Hnow Hown)|]);
    (split; [intros Hin; rewrite (range_window_inherited _ _ _ Hin); split; reflexivity
            | reflexivity]).
Qed.

Lemma range_queries_bounded_witness :
  exists rq,
    pq_query rq = graph_query /\ pq_end rq = 1700000000
    /\ bounded_window rq
    /\ graph_GET down_store 1700000000 (Some (str "7d"))
       = bindR (read_reply (down_store rq)) (fun results =>
           Ok (mkGraphResponse (graph_series results) (str "7d") (pq_step rq))).
Proof.
  assert (clock_reading 1700000000) as Hnow by (vm_compute; discriminate).
  destruct (range_queries_bounded down_store 1700000000 (Some (str "7d")) Hnow)
    as ((rq & Hq & He & Hb & _ & Hget) & _).
  exists rq. split; [exact Hq|]. split; [exact He|]. split; [|exact Hget].
  apply Hb. apply (bool_decide_unpack _). vm_compute. exact I.
Defined.

(** ** The order of first occurrence *)

Lemma filter_fmap_commute {A B : Type} (f : A -> B) (P : B -> Prop)
    `{!forall x, Decision (P x)} (l : list A) :
  filter P (f <$> l) = f <$> filter (fun x => P (f x)) l.
Proof.
  induction l as [|x l IH]; [reflexivity|].
  rewrite fmap_cons, !filter_cons.
  destruct (decide (P (f x))); [rewrite fmap_cons|]; rewrite IH; reflexivity.
Qed.

Lemma filter_all {A : Type} (P : A -> Prop) `{!forall x, Decision (P x)} (l : list A) :
  (forall x, x ∈ l -> P x) -> filter P l = l.
Proof.
  induction l as [|x l IH]; intros Hall; [reflexivity|].
  rewrite filter_cons_True by (apply Hall; left).
  rewrite IH; [reflexivity|]. intros y Hy. apply Hall. right. exact Hy.
Qed.

Lemma first_seen_elem (names : list jsstring) (x : jsstring) :
  x ∈ first_seen names <-> x ∈ names.
Proof.
  induction names as [|y names IH]; [reflexivity|].
  cbn [first_seen]. rewrite !elem_of_cons, list_elem_of_filter, IH.
  destruct (decide (x = y)); tauto.
Qed.

Lemma first_seen_NoDup (names : list jsstring) : NoDup (first_seen names).
Proof.
  induction names as [|y names IH]; [constructor|].
  cbn [first_seen]. constructor; [|apply NoDup_filter; exact IH].
  rewrite list_elem_of_filter. intros [Hne _]. congruence.
Qed.

(** A set that is filled from an array holds the elements of the array in
    the order of their first occurrence. *)
Lemma Set_from_acc (l : list jsstring) : forall acc : list jsstring,
  fold_left (fun services x => if decide (x ∈ services) then services else services ++ [x]) l acc
  = acc ++ filter (fun y => y ∉ acc) (first_seen l).
Proof.
  induction l as [|x l IH]; intros acc; cbn [fold_left first_seen].
  - rewrite filter_nil, app_nil_r. reflexivity.
  - rewrite IH. destruct (decide (x ∈ acc)) as [Hin|Hout].
    + rewrite filter_cons_False by (intros Hx; exact (Hx Hin)). f_equal.
      rewrite list_filter_filter. apply list_filter_iff.
      intros y. split; [|intros [Hy _]; exact Hy].
      intros Hy. split; [exact Hy | congruence].
    + rewrite filter_cons_True by exact Hout. rewrite <- app_assoc. cbn [app]. do 2 f_equal.
      rewrite list_filter_filter. apply list_filter_iff.
      intros y. rewrite elem_of_app, list_elem_of_singleton.
      destruct (decide (y = x)); tauto.
Qed.

Lemma Set_from_first_seen (l : list jsstring) : Set_from l = first_seen l.
Proof.
  unfold Set_from. rewrite Set_from_acc. cbn [app].
  apply filter_all. intros x _. apply not_elem_of_nil.
Qed.

Lemma first_seen_filter (P : jsstring -> Prop) `{!forall x, Decision (P x)}
    (names : list jsstring) :
  first_seen (filter P names) = filter P (first_seen names).
Proof.
  induction names as [|x names IH]; [reflexivity|].
  cbn [first_seen]. rewrite !filter_cons. destruct (decide (P x)) as [Hx|Hx].
  - cbn [first_seen]. rewrite IH. f_equal.
    rewrite !list_filter_filter. apply list_filter_iff. tauto.
  - rewrite IH, list_filter_filter. apply list_filter_iff.
    intros y. split; [|tauto]. intros Hy. split; [exact Hy | congruence].
Qed.

Lemma StronglySorted_fmap_in {A B : Type} (R1 : A -> A -> Prop) (R2 : B -> B -> Prop)
    (f : A -> B) (l : list A) :
  (forall x y, x ∈ l -> y ∈ l -> R1 x y -> R2 (f x) (f y)) ->
  StronglySorted R1 l -> StronglySorted R2 (f <$> l).
Proof.
  induction l as [|x l IH]; intros Hall Hs; [constructor|].
  apply StronglySorted_inv in Hs as [Hs Hx]. rewrite fmap_cons. constructor.
  - apply IH; [|exact Hs]. intros a b Ha Hb. apply Hall; right; assumption.
  - rewrite Forall_fmap, Forall_forall. rewrite Forall_forall in Hx.
    intros y Hy. apply Hall; [left | right; exact Hy | apply Hx; exact Hy].
Qed.

(** ** Grouping by a name *)

Section GroupFold.
Context (name_of : PrometheusResult -> jsstring)
        (step : gmap Z jsnum -> Z * jsstring -> gmap Z jsnum).

#[local] Abbreviation turn :=
  (fun (g : Grouped) (r : PrometheusResult) =>
     update_group (name_of r) (fun m => fold_left step (values_of r) m) g).

#[local] Abbreviation named name results :=
  (filter (fun r : PrometheusResult => name_of r = name) results).

Lemma fold_turn_keys (results : list PrometheusResult) : forall g : Grouped,
  (fold_left turn results g).*1
  = fold_left (fun services x => if decide (x ∈ services) then services else services ++ [x])
      (name_of <$> results) g.*1.
Proof.
  induction results as [|r results IH]; intros g; [reflexivity|].
  cbn [fold_left fmap list_fmap]. rewrite IH, update_group_keys. reflexivity.
Qed.

Lemma fold_turn_names (results : list PrometheusResult) :
  (fold_left turn results []).*1 = first_seen (name_of <$> results).
Proof. rewrite fold_turn_keys. apply Set_from_first_seen. Qed.

Lemma fold_turn_lookup (results : list PrometheusResult) :
  forall (g : Grouped) (name : jsstring),
  (list_to_map (fold_left turn results g) : gmap jsstring (gmap Z jsnum)) !! name
  = match named name results with
    | [] => (list_to_map g : gmap jsstring (gmap Z jsnum)) !! name
    | _ => Some (fold_left step (r ← named name results; values_of r)
                   (default ∅ ((list_to_map g : gmap jsstring (gmap Z jsnum)) !! name)))
    end.
Proof.
  induction results as [|r results IH]; intros g name; simpl; [reflexivity|].
  rewrite IH. rewrite update_group_map. rewrite filter_cons.
  destruct (decide (name_of r = name)) as [<-|Hne].
  - rewrite lookup_insert_eq. simpl. rewrite fold_left_app.
    destruct (filter _ results); reflexivity.
  - rewrite lookup_insert_ne by exact Hne. reflexivity.
Qed.

Lemma fold_turn_elem (results : list PrometheusResult) (name : jsstring) (m : gmap Z jsnum) :
  (name, m) ∈ fold_left turn results [] <->
  (exists r, r ∈ results /\ name_of r = name)
  /\ m = fold_left step (r ← named name results; values_of r) ∅.
Proof.
  rewrite (elem_of_list_to_map (M := gmap jsstring))
    by (rewrite fold_turn_names; apply first_seen_NoDup).
  rewrite fold_turn_lookup. simpl. rewrite lookup_empty. simpl.
  destruct (named name results) as [|r0 rs] eqn:Hf.
  - split; [discriminate|]. intros [(r & Hr & Hname) _]. exfalso.
    assert (r ∈ named name results) as Hin by (apply list_elem_of_filter; auto).
    rewrite Hf in Hin. apply elem_of_nil in Hin. exact Hin.
  - assert (r0 ∈ named name results) as Hin by (rewrite Hf; left).
    apply list_elem_of_filter in Hin as [Hname Hr0].
    split.
    + intros [= <-]. split; [exists r0; auto | reflexivity].
    + intros [_ ->]. reflexivity.
Qed.

End GroupFold.

(** ** The order of the drill-down series *)

(** The loop makes no group under the name of an inherited member. *)
Lemma group_results_filter (results : list PrometheusResult) : forall g : Grouped,
  fold_left group_result results g
  = fold_left (fun (g : Grouped) (r : PrometheusResult) =>
                 update_group (deploy_name r)
                   (fun m => fold_left add_sample (values_of r) m) g)
      (filter (fun r => deploy_name r ∉ Object_prototype_names) results) g.
Proof.
  induction results as [|r results IH]; intros g; [reflexivity|].
  cbn [fold_left]. rewrite IH, filter_cons. unfold group_result.
  destruct (inherited (deploy_name r)) eqn:Hi.
  - apply inherited_true in Hi. rewrite decide_False by (intros H; exact (H Hi)). reflexivity.
  - apply inherited_false in Hi. rewrite decide_True by exact Hi. reflexivity.
Qed.

Lemma group_results_names (results : list PrometheusResult) :
  (group_results results).*1
  = first_seen (filter (fun n => n ∉ Object_prototype_names) (deploy_name <$> results)).
Proof.
  unfold group_results. rewrite group_results_filter.
  rewrite (fold_turn_names deploy_name add_sample), filter_fmap_commute. reflexivity.
Qed.

Lemma indexed_sorted {V : Type} (o : list (jsstring * V)) :
  StronglySorted (fun a b => index_of a <= index_of b)
    (snd <$> Array_sort (fun a b : N * (jsstring * V) => Num (Z.of_N (fst a) - Z.of_N (fst b)))
               (omap (fun kv => i ← array_index (fst kv); Some (i, kv)) o)).*1.
Proof.
  rewrite <- list_fmap_compose.
  apply (StronglySorted_fmap_in (fun a b : N * (jsstring * V) => Z.of_N (fst a) <= Z.of_N (fst b))).
  - assert (forall x : N * (jsstring * V),
              x ∈ Array_sort (fun a b : N * (jsstring * V) => Num (Z.of_N (fst a) - Z.of_N (fst b)))
                    (omap (fun kv => i ← array_index (fst kv); Some (i, kv)) o) ->
              index_of (fst (snd x)) = Z.of_N (fst x)) as Hidx.
    { intros [i kv] Hx. apply elem_of_Array_sort in Hx.
      apply list_elem_of_omap in Hx as (kv' & _ & Hkv).
      unfold index_of. destruct (array_index (fst kv')) as [j|] eqn:Hj; [|discriminate].
      cbn in Hkv. injection Hkv as <- <-. cbn [fst snd]. rewrite Hj. reflexivity. }
    intros x y Hx Hy Hle. cbn [compose]. rewrite (Hidx x Hx), (Hidx y Hy). exact Hle.
  - apply (Array_sort_sorted _ (fun a : N * (jsstring * V) => Z.of_N (fst a))).
    apply keyed_difference. intros x y _ _. reflexivity.
Qed.

(** The names of [Object.entries]: the array indices in ascending order,
    then the other names as they were inserted. *)
Lemma Object_entries_names {V : Type} (o : list (jsstring * V)) :
  exists indexed,
    (Object_entries o).*1 = indexed ++ filter (fun n => array_index n = None) o.*1
    /\ indexed ≡ₚ filter (fun n => array_index n <> None) o.*1
    /\ StronglySorted (fun a b => index_of a <= index_of b) indexed.
Proof.
  eexists. unfold Object_entries. rewrite fmap_app. split; [|split].
  - f_equal. rewrite filter_fmap_commute. reflexivity.
  - rewrite (Array_sort_perm _ _), indexed_entries, filter_fmap_commute. reflexivity.
  - apply indexed_sorted.
Qed.

Lemma drilldown_grouped_keys (results : list PrometheusResult) :
  key <$> drilldown_grouped results = (Object_entries (group_results results)).*1.
Proof. unfold drilldown_grouped. rewrite <- list_fmap_compose. reflexivity. Qed.

(** X9.  The order of the drill-down series.  The names of the series are
    the logical names of the results but for the names of the members that
    every object inherits, which get no series.  They come in the order in
    which [Object.entries] lists the names of [grouped]: first the names
    that are array indices, in ascending numeric order, then the other
    names in the order in which the results first show them.  The response
    keeps this order and leaves out the series without a positive value.
    When no logical name is an array index, the order is the one of first
    occurrence in the results.  This is for results that name no deployment
    [__proto__]. *)
Theorem drilldown_series_order (results : list PrometheusResult) :
  prototype_untouched results ->
  let names :=
    first_seen (filter (fun n => n ∉ Object_prototype_names) (deploy_name <$> results)) in
  (exists indexed,
     key <$> drilldown_grouped results
     = indexed ++ filter (fun n => array_index n = None) names
     /\ indexed ≡ₚ filter (fun n => array_index n <> None) names
     /\ StronglySorted (fun a b => index_of a <= index_of b) indexed)
  /\ drilldown_series results `sublist_of` drilldown_grouped results
  /\ ((forall r, r ∈ results -> array_index (deploy_name r) = None) ->
      key <$> drilldown_grouped results = names).
Proof.
  intros _ names.
  destruct (Object_entries_names (group_results results)) as (indexed & Heq & Hperm & Hsorted).
  rewrite group_results_names in Heq, Hperm. fold names in Heq, Hperm.
  rewrite <- drilldown_grouped_keys in Heq.
  split; [exists indexed; auto|]. split; [apply sublist_filter|].
  intros Hnone.
  assert (forall n, n ∈ names -> array_index n = None) as Hnames.
  { intros n Hn. apply first_seen_elem, list_elem_of_filter in Hn as [_ Hn].
    apply list_elem_of_fmap in Hn as (r & -> & Hr). exact (Hnone r Hr). }
  assert (indexed = []) as ->.
  { apply Permutation_nil_r. rewrite Hperm.
    rewrite filter_none; [reflexivity|].
    intros n Hn Hidx. exact (Hidx (Hnames n Hn)). }
  rewrite Heq. cbn [app]. apply filter_all. exact Hnames.
Qed.

Lemma drilldown_series_order_witness :
  key <$> drilldown_grouped [web_a; constructor_a; web_b; web_a] = [str "web"].
Proof.
  assert (prototype_untouched [web_a; constructor_a; web_b; web_a]) as Hproto
    by (apply (bool_decide_unpack _); vm_compute; exact I).
  rewrite (proj2 (proj2 (drilldown_series_order [web_a; constructor_a; web_b; web_a] Hproto))).
  - vm_compute. reflexivity.
  - intros r Hr. rewrite !elem_of_cons, elem_of_nil in Hr.
    destruct Hr as [->|[->|[->|[->|[]]]]]; vm_compute; reflexivity.
Defined.

(** ** The tenant graph *)

Lemma first_segment_no_hyphen (podName : jsstring) : 45%N ∉ first_segment podName.
Proof.
  unfold first_segment. destruct (span_spec (fun c => negb (c =? 45)%N) podName) as (_ & Hall & _).
  intros Hin. rewrite forallb_forall in Hall.
  specialize (Hall 45%N (proj1 (list_elem_of_In _ _) Hin)). discriminate Hall.
Qed.

(** The first segment is the first element of the split at hyphens. *)
Lemma first_segment_split (podName : jsstring) :
  first_segment podName = hd [] (split_on 45 podName).
Proof.
  unfold first_segment. induction podName as [|c s IH]; [reflexivity|].
  cbn [span split_on]. destruct (decide (c = 45%N)) as [->|Hne]; [reflexivity|].
  assert ((c =? 45)%N = false) as -> by (apply N.eqb_neq; exact Hne). cbn [negb].
  destruct (span (fun c0 => negb (c0 =? 45)%N) s) as [run rest]. cbn [fst] in *.
  destruct (split_on 45 s) as [|p ps]; cbn [hd] in *; subst; reflexivity.
Qed.

(** The loop skips the results without a tenant. *)
Lemma tenant_map_filter (results : list PrometheusResult) : forall g : Grouped,
  fold_left tenant_group_result results g
  = fold_left (fun (g : Grouped) (r : PrometheusResult) =>
                 update_group (pod_tenant r)
                   (fun m => fold_left add_pod_sample (values_of r) m) g)
      (filter (fun r => pod_tenant r <> []) results) g.
Proof.
  induction results as [|r results IH]; intros g; [reflexivity|].
  cbn [fold_left]. rewrite IH, filter_cons. unfold tenant_group_result.
  destruct (pod_tenant r) as [|c t] eqn:Ht.
  - rewrite decide_False by (intros H; apply H; reflexivity). reflexivity.
  - rewrite decide_True by discriminate. cbn [fold_left]. rewrite Ht. reflexivity.
Qed.

Lemma tenant_map_names (results : list PrometheusResult) :
  (tenant_map results).*1 = first_seen (filter (fun n => n <> []) (pod_tenant <$> results)).
Proof.
  unfold tenant_map. rewrite tenant_map_filter.
  rewrite (fold_turn_names pod_tenant add_pod_sample), filter_fmap_commute. reflexivity.
Qed.

Lemma tenant_map_elem (results : list PrometheusResult) (name : jsstring) (m : gmap Z jsnum) :
  (name, m) ∈ tenant_map results <->
  name <> [] /\ (exists r, r ∈ results /\ pod_tenant r = name)
  /\ m = fold_left add_pod_sample (pod_samples_of name results) ∅.
Proof.
  unfold tenant_map. rewrite tenant_map_filter.
  rewrite (fold_turn_elem pod_tenant add_pod_sample). unfold pod_samples_of.
  split.
  - intros [(r & Hr & Hname) Hm]. apply list_elem_of_filter in Hr as [Hne Hr].
    assert (name <> []) as Hn by congruence.
    split; [exact Hn|]. split; [exists r; auto|].
    rewrite Hm. do 2 f_equal. apply list_filter_filter_l. intros x Hx. congruence.
  - intros (Hn & (r & Hr & Hname) & Hm). split.
    + exists r. split; [|exact Hname]. apply list_elem_of_filter. split; [congruence | exact Hr].
    + rewrite Hm. do 2 f_equal. symmetry. apply list_filter_filter_l. intros x Hx. congruence.
Qed.

(** The inner loop is the one of the drill-down on the samples with their
    times in milliseconds. *)
Lemma fold_add_pod_sample (samples : list (Z * jsstring)) : forall m : gmap Z jsnum,
  fold_left add_pod_sample samples m
  = fold_left add_sample ((fun s => (fst s * 1000, snd s)) <$> samples) m.
Proof. induction samples as [|s samples IH]; intros m; [reflexivity|]. apply IH. Qed.

Lemma sum_at_scale (ts : Z) (samples : list (Z * jsstring)) : forall acc : jsnum,
  sum_at (ts * 1000) ((fun s => (fst s * 1000, snd s)) <$> samples) acc = sum_at ts samples acc.
Proof.
  induction samples as [|[t v] samples IH]; intros acc; [reflexivity|].
  rewrite fmap_cons. cbn [sum_at fst snd].
  destruct (decide (t = ts)) as [->|Hne].
  - rewrite decide_True by reflexivity. apply IH.
  - rewrite decide_False by lia. apply IH.
Qed.

Lemma scaled_times (k : Z) (samples : list (Z * jsstring)) :
  k ∈ ((fun s => (fst s * 1000, snd s)) <$> samples).*1 <->
  exists ts, ts ∈ samples.*1 /\ k = ts * 1000.
Proof.
  rewrite <- list_fmap_compose, list_elem_of_fmap. split.
  - intros (s & -> & Hs). exists (fst s). split; [|reflexivity].
    apply list_elem_of_fmap. exists s. auto.
  - intros (ts & Hts & ->). apply list_elem_of_fmap in Hts as (s & -> & Hs).
    exists s. auto.
Qed.

Lemma elem_of_tenant_data (m : gmap Z jsnum) (d : Point) :
  d ∈ tenant_data m <-> exists k v, m !! k = Some v /\ d = mkPoint k v.
Proof.
  unfold tenant_data. rewrite list_elem_of_fmap. split.
  - intros ([k v] & -> & Hin). apply elem_of_Array_sort, elem_of_map_to_list in Hin.
    exists k, v. auto.
  - intros (k & v & Hm & ->). exists (k, v). split; [reflexivity|].
    apply elem_of_Array_sort, elem_of_map_to_list. exact Hm.
Qed.

Lemma tenant_data_sorted (m : gmap Z jsnum) :
  StronglySorted (fun a b => time a < time b) (tenant_data m).
Proof.
  apply sorted_distinct_strict.
  - unfold tenant_data.
    apply (StronglySorted_fmap_in (fun a b : Z * jsnum => fst a <= fst b));
      [intros x y _ _ Hle; exact Hle|].
    apply (Array_sort_sorted _ (fst : Z * jsnum -> Z)).
    intros x y _ _. rewrite num_sub_gt.
    destruct (Z.ltb_spec0 (fst y) (fst x)); symmetry;
      [apply bool_decide_eq_true | apply bool_decide_eq_false]; assumption.
  - unfold tenant_data. rewrite <- list_fmap_compose.
    change (time ∘ (fun kv : Z * jsnum => mkPoint (fst kv) (snd kv)))
      with (fst : Z * jsnum -> Z).
    rewrite (Array_sort_perm _ _). apply NoDup_fst_map_to_list.
Qed.

Lemma pod_samples_parse (results : list PrometheusResult) (name : jsstring) :
  Forall (fun r => Forall parses (values_of r)) results ->
  Forall parses (pod_samples_of name results).
Proof.
  intros Hall. unfold pod_samples_of. rewrite Forall_forall. intros sample Hs.
  apply list_elem_of_bind in Hs as (r & Hs & Hr).
  apply list_elem_of_filter in Hr as [_ Hr].
  rewrite Forall_forall in Hall. specialize (Hall r Hr).
  rewrite Forall_forall in Hall. exact (Hall sample Hs).
Qed.

(** The points of a tenant when every sample value is a finite number. *)
Lemma tenant_points (samples : list (Z * jsstring)) (d : Point) :
  Forall parses samples ->
  d ∈ tenant_data (fold_left add_pod_sample samples ∅) <->
  exists ts, ts ∈ samples.*1 /\ d = mkPoint (ts * 1000) (sum_at ts samples (Num 0)).
Proof.
  intros Hall.
  assert (Forall parses ((fun s : Z * jsstring => (fst s * 1000, snd s)) <$> samples)) as Hall'.
  { rewrite Forall_fmap. eapply Forall_impl; [exact Hall|]. intros s Hs. exact Hs. }
  assert (forall k, fold_left add_pod_sample samples ∅ !! k
            = if decide (k ∈ ((fun s : Z * jsstring => (fst s * 1000, snd s)) <$> samples).*1)
              then Some (sum_at k ((fun s : Z * jsstring => (fst s * 1000, snd s)) <$> samples)
                           (Num 0))
              else None) as Hlookup.
  { intros k. rewrite fold_add_pod_sample.
    rewrite (fold_add_sample_lookup _ ∅ k (Num 0) Hall')
      by (discriminate || (rewrite lookup_empty; reflexivity)).
    rewrite lookup_empty. reflexivity. }
  rewrite elem_of_tenant_data. split.
  - intros (k & v & Hm & ->). rewrite Hlookup in Hm.
    destruct (decide _) as [Hin|Hin]; [|discriminate].
    apply scaled_times in Hin as (ts & Hts & ->). injection Hm as <-.
    exists ts. split; [exact Hts|]. rewrite sum_at_scale. reflexivity.
  - intros (ts & Hts & ->). exists (ts * 1000), (sum_at ts samples (Num 0)).
    split; [|reflexivity]. rewrite Hlookup.
    rewrite decide_True by (apply scaled_times; exists ts; auto).
    rewrite sum_at_scale. reflexivity.
Qed.

Lemma elem_of_tenant_grouped (results : list PrometheusResult) (s : Series) :
  s ∈ tenant_grouped results <->
  key s <> [] /\ (exists r, r ∈ results /\ pod_tenant r = key s)
  /\ data s = tenant_data (fold_left add_pod_sample (pod_samples_of (key s) results) ∅).
Proof.
  unfold tenant_grouped. rewrite list_elem_of_fmap. split.
  - intros ([name m] & -> & Hin). apply tenant_map_elem in Hin as (Hn & Hr & ->).
    split; [exact Hn|]. split; [exact Hr | reflexivity].
  - intros (Hn & Hr & Hdata).
    exists (key s, fold_left add_pod_sample (pod_samples_of (key s) results) ∅).
    split; [destruct s; simpl in *; congruence|].
    apply tenant_map_elem. split; [exact Hn|]. split; [exact Hr | reflexivity].
Qed.

(** X10.  The tenant graph groups the pods by the first segment of their
    names.  The tenant of a result is what precedes the first hyphen of its
    [pod] label; results without the label, with an empty one or with a
    name that starts with a hyphen are counted nowhere.  The groups come in
    the order in which the results first show their tenants, array indices
    included, and the response keeps this order, leaving out the tenants
    without a positive value.  For sample values that are finite numbers, a
    series has its points in ascending time, one per timestamp of the pods
    of its tenant, with the sum of their values there, added in the order of
    the results; and a tenant with a positive sum has its series. *)
Theorem tenant_graph_grouping (results : list PrometheusResult) :
  Forall (fun r => Forall parses (values_of r)) results ->
  let names := first_seen (filter (fun n => n <> []) (pod_tenant <$> results)) in
  key <$> tenant_grouped results = names
  /\ tenant_series results `sublist_of` tenant_grouped results
  /\ NoDup (key <$> tenant_series results)
  /\ (forall s, s ∈ tenant_series results ->
        key s <> [] /\ (45%N ∉ key s)
        /\ (exists r, r ∈ results /\ pod_tenant r = key s)
        /\ StronglySorted (fun a b => time a < time b) (data s)
        /\ forall d, d ∈ data s <->
             exists ts, ts ∈ (pod_samples_of (key s) results).*1
               /\ d = mkPoint (ts * 1000)
                        (sum_at ts (pod_samples_of (key s) results) (Num 0)))
  /\ (forall name ts,
        name <> [] ->
        ts ∈ (pod_samples_of name results).*1 ->
        positive (sum_at ts (pod_samples_of name results) (Num 0)) ->
        exists s, s ∈ tenant_series results /\ key s = name).
Proof.
  intros Hall names.
  assert (key <$> tenant_grouped results = names) as Hkeys.
  { unfold tenant_grouped. rewrite <- list_fmap_compose. apply tenant_map_names. }
  split; [exact Hkeys|]. split; [apply sublist_filter|]. split; [|split].
  - apply (sublist_NoDup _ (key <$> tenant_grouped results)).
    + rewrite Hkeys. apply first_seen_NoDup.
    + apply fmap_sublist, sublist_filter.
  - intros s Hs. apply list_elem_of_filter in Hs as [_ Hs].
    apply elem_of_tenant_grouped in Hs as (Hn & Hr & Hdata).
    split; [exact Hn|]. split.
    { destruct Hr as (r & _ & <-). apply first_segment_no_hyphen. }
    split; [exact Hr|]. rewrite Hdata. split; [apply tenant_data_sorted|].
    intros d. apply tenant_points. apply pod_samples_parse. exact Hall.
  - intros name ts Hn Hin Hpos.
    assert (exists r, r ∈ results /\ pod_tenant r = name) as Hr.
    { unfold pod_samples_of in Hin. apply list_elem_of_fmap in Hin as (sample & _ & Hs).
      apply list_elem_of_bind in Hs as (r & _ & Hr).
      apply list_elem_of_filter in Hr as [Hname Hr]. exists r. auto. }
    set (s := mkSeries name
                (tenant_data (fold_left add_pod_sample (pod_samples_of name results) ∅))).
    exists s. split; [|reflexivity].
    apply list_elem_of_filter. split.
    + apply has_positive_iff.
      exists (mkPoint (ts * 1000) (sum_at ts (pod_samples_of name results) (Num 0))).
      split; [|exact Hpos].
      apply tenant_points; [apply pod_samples_parse; exact Hall|]. exists ts. auto.
    + apply elem_of_tenant_grouped. split; [exact Hn|]. split; [exact Hr | reflexivity].
Qed.

Lemma tenant_graph_grouping_witness :
  key <$> tenant_grouped sample_pods = [str "zeta"; str "10"; str "acme"]
  /\ exists s, s ∈ tenant_series sample_pods /\ key s = str "acme".
Proof.
  assert (Forall (fun r => Forall parses (values_of r)) sample_pods) as Hall
    by (repeat constructor).
  destruct (tenant_graph_grouping sample_pods Hall) as (Hkeys & _ & _ & _ & Hpos).
  split.
  - rewrite Hkeys. vm_compute. reflexivity.
  - apply (Hpos (str "acme") 1700000000); vm_compute;
      [discriminate | repeat constructor | reflexivity].
Defined.

(** ** The current instances *)

Lemma filter_iff_in {A : Type} (P Q : A -> Prop) `{!forall x, Decision (P x)}
    `{!forall x, Decision (Q x)} (l : list A) :
  (forall x, x ∈ l -> P x <-> Q x) -> filter P l = filter Q l.
Proof.
  induction l as [|x l IH]; intros Hall; [reflexivity|].
  rewrite !filter_cons, IH by (intros y Hy; apply Hall; right; exact Hy).
  destruct (decide (P x)) as [HP|HP].
  - rewrite decide_True by (apply (Hall x ltac:(left)); exact HP). reflexivity.
  - rewrite decide_False by (intros HQ; apply HP, (Hall x ltac:(left)); exact HQ). reflexivity.
Qed.

Lemma parseInt10_bounded (s : jsstring) (z : Z) :
  parseInt10 s = Num z -> Z.abs z < overflow_threshold.
Proof.
  unfold parseInt10. destruct (span is_space s) as [sp s1].
  destruct (match s1 with
            | 45%N :: r => (true, r)
            | 43%N :: r => (false, r)
            | _ => (false, s1)
            end) as [neg s2].
  destruct (span is_digit s2) as [ds rest]. destruct ds as [|d ds]; [discriminate|].
  unfold norm. destruct (overflow_threshold <=? _) eqn:Hle; [discriminate|].
  intros [= <-]. apply Z.leb_gt in Hle. exact Hle.
Qed.

Lemma rank_of_lt (x y : jsnum) :
  ranked x -> ranked y ->
  num_gt (num_sub y x) (Num 0) = bool_decide (rank_of y < rank_of x).
Proof.
  intros [Px Bx] [Py By].
  assert (0 < overflow_threshold) as HT by reflexivity.
  destruct x as [a|[|]|], y as [b|[|]|];
    cbn [positive] in Px, Py; try contradiction; try discriminate; cbn [rank_of].
  - rewrite num_sub_gt. specialize (Bx a eq_refl). specialize (By b eq_refl).
    destruct (Z.ltb_spec0 a b); symmetry;
      [apply bool_decide_eq_true | apply bool_decide_eq_false]; lia.
  - specialize (Bx a eq_refl). cbn. symmetry. apply bool_decide_eq_true. lia.
  - specialize (By b eq_refl). cbn. symmetry. apply bool_decide_eq_false. lia.
  - cbn. symmetry. apply bool_decide_eq_false. lia.
Qed.

Lemma rank_of_le (x y : jsnum) :
  ranked x -> ranked y -> rank_of x <= rank_of y -> num_gt y x = false.
Proof.
  intros [Px Bx] [Py By] Hle.
  assert (0 < overflow_threshold) as HT by reflexivity.
  destruct x as [a|[|]|], y as [b|[|]|];
    cbn [positive] in Px, Py; try contradiction; try discriminate; cbn [rank_of] in Hle; cbn.
  - apply Z.ltb_ge. lia.
  - specialize (Bx a eq_refl). lia.
  - reflexivity.
  - reflexivity.
Qed.

Lemma rank_of_inj (x y : jsnum) : ranked x -> ranked y -> rank_of x = rank_of y -> x = y.
Proof.
  intros [Px Bx] [Py By] Heq.
  assert (0 < overflow_threshold) as HT by reflexivity.
  destruct x as [a|[|]|], y as [b|[|]|];
    cbn [positive] in Px, Py; try contradiction; try discriminate; cbn [rank_of] in Heq.
  - f_equal. lia.
  - specialize (Bx a eq_refl). lia.
  - specialize (By b eq_refl). lia.
  - reflexivity.
Qed.

Lemma elem_of_counted_tenants (results : list InstantResult) (t : TenantInfo) :
  t ∈ counted_tenants results
  <-> positive (ti_count t) /\ exists r, r ∈ results /\ tenant_of r t.
Proof.
  unfold counted_tenants.
  rewrite list_elem_of_filter, list_elem_of_fmap, num_gt_positive. unfold tenant_of. split.
  - intros [Hpos (r & -> & Hr)]. apply list_elem_of_filter in Hr as [[ns Hns] Hr].
    split; [exact Hpos|]. exists r. split; [exact Hr|]. cbn [ti_namespace ti_count ti_services].
    split; [|split; reflexivity].
    rewrite Hns. destruct (im_metric r !! str "namespace") as [[|c l]|]; try discriminate.
    injection Hns as <-. reflexivity.
  - intros [Hpos (r & Hr & Hns & Hcount & Hserv)]. split; [exact Hpos|].
    exists r. split.
    + destruct t as [ns count services]. cbn in *. subst count services. f_equal.
      destruct (im_metric r !! str "namespace") as [[|c l]|]; try discriminate.
      injection Hns as <-. reflexivity.
    + apply list_elem_of_filter. split; [rewrite Hns; eexists; reflexivity | exact Hr].
Qed.

Lemma counted_tenants_ranked (results : list InstantResult) (t : TenantInfo) :
  t ∈ counted_tenants results -> ranked (ti_count t).
Proof.
  intros Ht. apply elem_of_counted_tenants in Ht as [Hpos (r & _ & _ & Hcount & _)].
  split; [exact Hpos|]. intros z Hz. rewrite Hcount in Hz. exact (parseInt10_bounded _ _ Hz).
Qed.

Lemma counted_tenants_keyed (results : list InstantResult) :
  keyed (fun a b => num_sub (ti_count b) (ti_count a)) count_rank (counted_tenants results).
Proof.
  intros x y Hx Hy. unfold count_rank.
  apply rank_of_lt; eapply counted_tenants_ranked; eassumption.
Qed.

(** X11.  The tenants of the current-instances endpoint.  Before they are
    enriched, the tenants are those that the results with a non-empty
    [namespace] label and a count above zero make, each with no service; no
    tenant is followed by one with a greater count; and the tenants of one
    count keep the order of the results.  A result without a value counts
    as zero and is left out. *)
Theorem current_tenants_ranked (results : list InstantResult) :
  let tenants := current_tenants results in
  (forall t, t ∈ tenants <->
     positive (ti_count t) /\ exists r, r ∈ results /\ tenant_of r t)
  /\ (forall t, t ∈ tenants -> ti_namespace t <> [])
  /\ StronglySorted (fun a b => num_gt (ti_count b) (ti_count a) = false) tenants
  /\ (forall count,
        filter (fun t => ti_count t = count) tenants
        = filter (fun t => ti_count t = count) (counted_tenants results))
  /\ (forall r t, im_value r = None -> tenant_of r t -> t ∉ tenants).
Proof.
  intros tenants.
  pose proof (counted_tenants_keyed results) as Hkeyed.
  assert (forall t, t ∈ tenants <-> t ∈ counted_tenants results) as Hsame
    by (intros t; apply elem_of_Array_sort).
  assert (forall t, t ∈ tenants -> ranked (ti_count t)) as Hranked
    by (intros t Ht; apply (counted_tenants_ranked results), Hsame, Ht).
  split; [|split; [|split; [|split]]].
  - intros t. rewrite Hsame. apply elem_of_counted_tenants.
  - intros t Ht. apply Hsame, elem_of_counted_tenants in Ht as [_ (r & _ & Hns & _)].
    destruct (im_metric r !! str "namespace") as [[|c l]|]; try discriminate.
    injection Hns as <-. discriminate.
  - pose proof (Array_sort_sorted _ count_rank _ Hkeyed) as Hsorted.
    fold (current_tenants results) in Hsorted. fold tenants in Hsorted.
    clear - Hsorted Hranked. induction Hsorted as [|a l Hl IH Ha]; [constructor|].
    constructor.
    + apply IH. intros t Ht. apply Hranked. right. exact Ht.
    + rewrite Forall_forall in *. intros b Hb.
      apply rank_of_le; [apply Hranked; left | apply Hranked; right; exact Hb|].
      exact (Ha b Hb).
  - intros count.
    assert ((exists t, t ∈ counted_tenants results /\ ti_count t = count)
            \/ ~ (exists t, t ∈ counted_tenants results /\ ti_count t = count))
      as [(t0 & Ht0 & Hc0)|Hnone].
    { destruct (filter (fun t => ti_count t = count) (counted_tenants results))
        as [|t0 l0] eqn:Hf.
      - right. intros (t & Ht & Hc).
        assert (t ∈ filter (fun t => ti_count t = count) (counted_tenants results)) as Hin
          by (apply list_elem_of_filter; auto).
        rewrite Hf in Hin. apply elem_of_nil in Hin. exact Hin.
      - left. exists t0.
        assert (t0 ∈ filter (fun t => ti_count t = count) (counted_tenants results)) as Hin
          by (rewrite Hf; left).
        apply list_elem_of_filter in Hin as [Hc Hin]. auto. }
    + pose proof (counted_tenants_ranked results t0 Ht0) as Hr0. rewrite Hc0 in Hr0.
      rewrite (filter_iff_in (fun t => ti_count t = count)
                 (fun t => count_rank t = rank_of count) tenants).
      * rewrite (filter_iff_in (fun t => ti_count t = count)
                   (fun t => count_rank t = rank_of count) (counted_tenants results)).
        { apply (Array_sort_stable _ count_rank (rank_of count) _ Hkeyed). }
        intros t Ht. unfold count_rank. split; [intros ->; reflexivity|].
        apply rank_of_inj; [eapply counted_tenants_ranked; exact Ht | exact Hr0].
      * intros t Ht. unfold count_rank. split; [intros ->; reflexivity|].
        apply rank_of_inj; [apply Hranked; exact Ht | exact Hr0].
    + rewrite !filter_none; [reflexivity| |].
      * intros t Ht Hc. apply Hnone. exists t. auto.
      * intros t Ht Hc. apply Hnone. exists t. split; [apply Hsame; exact Ht | exact Hc].
  - intros r t Hv (_ & Hcount & _) Ht.
    apply Hranked in Ht as [Hpos _]. rewrite Hcount in Hpos.
    unfold count_text in Hpos. rewrite Hv in Hpos. vm_compute in Hpos. discriminate Hpos.
Qed.

Lemma current_tenants_ranked_witness :
  ti_namespace <$> current_tenants sample_counts = [str "zeta"; str "acme"]
  /\ forall t, t ∈ current_tenants sample_counts -> ti_namespace t <> [].
Proof.
  split; [vm_compute; reflexivity|].
  exact (proj1 (proj2 (current_tenants_ranked sample_counts))).
Defined.

(** *** The enrichment *)

Lemma getTenantServices_distinct (backend : SeriesBackend) (now : Z) (namespace : jsstring) :
  NoDup (fst (getTenantServices backend now namespace))
  /\ forall service, service ∈ fst (getTenantServices backend now namespace) -> service <> [].
Proof.
  unfold getTenantServices. cbn [fst].
  destruct (read_reply _) as [labelSets|]; [|split; [constructor | intros s Hs; inversion Hs]].
  rewrite Set_from_first_seen. split; [apply first_seen_NoDup|].
  intros service Hs. apply first_seen_elem, list_elem_of_omap in Hs as (labelSet & _ & Hl).
  destruct (labelSet !! str "eyevinnlabel_service") as [[|c l]|]; try discriminate.
  injection Hl as <-. discriminate.
Qed.

Lemma enrich_lookup (f : nat -> TenantInfo -> list jsstring * SeriesRequest)
    (top : list TenantInfo) (i : nat) :
  zip_with (fun t call => mkTenantInfo (ti_namespace t) (ti_count t) (fst call)) top (imap f top)
    !! i
  = (fun t => mkTenantInfo (ti_namespace t) (ti_count t) (fst (f i t))) <$> top !! i.
Proof.
  rewrite lookup_zip_with, list_lookup_imap.
  destruct (top !! i); reflexivity.
Qed.

Lemma enrich_length (f : nat -> TenantInfo -> list jsstring * SeriesRequest)
    (top : list TenantInfo) :
  length (zip_with (fun t call => mkTenantInfo (ti_namespace t) (ti_count t) (fst call))
            top (imap f top)) = length top.
Proof. rewrite length_zip_with, length_imap. lia. Qed.

(** X12.  The enrichment of the current-instances endpoint.  The endpoint
    throws only when the instant query does; an unreachable log store, an
    error status or a reply that is no JSON costs a tenant its services,
    nothing else.  When the instant query answers, the response lists the
    tenants in their order, with their counts; one series request goes out
    for each of the first thirty, in that order, for the hour that ends
    when the call starts, and none for the others, whose services stay
    empty; the services of a tenant are distinct and not empty. *)
Theorem current_enrichment (prom : InstantBackend) (loki : SeriesBackend) (clock : nat -> Z) :
  (promQuery prom graph_query = Thrown -> current_GET prom loki clock = (Thrown, []))
  /\ (forall results,
        promQuery prom graph_query = Ok results ->
        exists tenants,
          current_GET prom loki clock
          = (Ok tenants, imap (fun i t => series_request (clock i) t)
                           (take 30 (current_tenants results)))
          /\ length tenants = length (current_tenants results)
          /\ (forall i t,
                tenants !! i = Some t ->
                exists t0,
                  current_tenants results !! i = Some t0
                  /\ ti_namespace t = ti_namespace t0
                  /\ ti_count t = ti_count t0
                  /\ ti_services t
                     = (if decide (i < 30)%nat
                        then fst (getTenantServices loki (clock i) (ti_namespace t0))
                        else [])
                  /\ NoDup (ti_services t)
                  /\ forall service, service ∈ ti_services t -> service <> [])).
Proof.
  unfold current_GET. split; [intros ->; reflexivity|].
  intros results ->. unfold enrich.
  set (tenants0 := current_tenants results).
  set (f := fun (i : nat) (t : TenantInfo) =>
              getTenantServices loki (clock i) (ti_namespace t)).
  eexists. split; [|split].
  - f_equal. rewrite fmap_imap. reflexivity.
  - rewrite length_app, (enrich_length f), length_take, length_drop. lia.
  - intros i t Ht.
    assert (forall t0, t0 ∈ tenants0 -> ti_services t0 = []) as Hempty.
    { intros t0 Ht0. apply (proj1 (current_tenants_ranked results)) in Ht0
        as (_ & r & _ & _ & _ & Hs). exact Hs. }
    destruct (decide (i < 30)%nat) as [Hlt|Hge].
    + destruct (decide (i < length (take 30 tenants0))%nat) as [Hin|Hout].
      * rewrite lookup_app_l in Ht by (rewrite (enrich_length f); exact Hin).
        rewrite (enrich_lookup f) in Ht.
        destruct (take 30 tenants0 !! i) as [t0|] eqn:Ht0; [|discriminate].
        injection Ht as <-. cbn [ti_namespace ti_count ti_services].
        rewrite lookup_take_lt in Ht0 by exact Hlt.
        exists t0. split; [exact Ht0|]. split; [reflexivity|]. split; [reflexivity|].
        split; [reflexivity|]. apply getTenantServices_distinct.
      * rewrite lookup_app_r in Ht by (rewrite (enrich_length f); lia).
        rewrite (enrich_length f), lookup_drop in Ht.
        rewrite length_take in Hout.
        apply lookup_lt_Some in Ht. lia.
    + rewrite lookup_app_r in Ht by (rewrite (enrich_length f), length_take; lia).
      rewrite (enrich_length f), lookup_drop, length_take in Ht.
      assert (30 <= length tenants0)%nat as Hlen
        by (apply lookup_lt_Some in Ht; lia).
      replace (30 + (i - 30 `min` length tenants0))%nat with i in Ht by lia.
      exists t. split; [exact Ht|]. split; [reflexivity|]. split; [reflexivity|].
      assert (ti_services t = []) as ->.
      { apply Hempty. apply list_elem_of_lookup. exists i. exact Ht. }
      split; [reflexivity|]. split; [constructor|]. intros s Hs. inversion Hs.
Qed.

Lemma current_enrichment_witness :
  current_GET sample_instant sample_labels (fun i => 1700000000 + Z.of_nat i)
  = (Ok [mkTenantInfo (str "zeta") (Num 7) [str "couchdb"; str "minio"];
         mkTenantInfo (str "acme") (Num 2) []],
     [mkSeriesRequest (series_match (str "zeta")) 1699996400 1700000000;
      mkSeriesRequest (series_match (str "acme")) 1699996401 1700000001]).
Proof.
  destruct (proj2 (current_enrichment sample_instant sample_labels
                     (fun i => 1700000000 + Z.of_nat i)) sample_counts eq_refl)
    as (tenants & -> & Hlen & Hall).
  destruct tenants as [|t1 [|t2 [|t3 tenants]]]; try discriminate Hlen.
  destruct (Hall 0%nat t1 eq_refl) as (a & Ha & Hn1 & Hc1 & Hs1 & _).
  destruct (Hall 1%nat t2 eq_refl) as (b & Hb & Hn2 & Hc2 & Hs2 & _).
  vm_compute in Ha, Hb. injection Ha as <-. injection Hb as <-.
  destruct t1, t2. cbn in *. subst. vm_compute. reflexivity.
Defined.

(** * The client *)

(** ** The ids of the panel *)

Lemma filter_ids_sublist (P : PlatformEvent -> Prop) `{!forall e, Decision (P e)}
    (l : list PlatformEvent) :
  id <$> filter P l `sublist_of` id <$> l.
Proof. apply fmap_sublist, sublist_filter. Qed.

Lemma fresh_ids_NoDup (newEvents prev : list PlatformEvent) :
  NoDup (id <$> prev) -> NoDup (id <$> newEvents) ->
  NoDup (id <$> (filter (fun e => id e ∉ (list_to_set (id <$> prev) : gset jsstring)) newEvents
                 ++ prev)).
Proof.
  intros Hprev Hnew. rewrite fmap_app. apply NoDup_app. split; [|split; [|exact Hprev]].
  - exact (sublist_NoDup _ _ Hnew (filter_ids_sublist _ _)).
  - intros i Hi Hp. apply list_elem_of_fmap in Hi as (e & -> & He).
    apply list_elem_of_filter in He as [Hfresh _]. apply Hfresh.
    apply elem_of_list_to_set. exact Hp.
Qed.

Lemma pollNew_events_NoDup (newEvents prev : list PlatformEvent) :
  NoDup (id <$> prev) -> NoDup (id <$> newEvents) ->
  NoDup (id <$> pollNew_events newEvents prev).
Proof.
  intros Hprev Hnew. unfold pollNew_events.
  pose proof (fresh_ids_NoDup newEvents prev Hprev Hnew) as H.
  destruct (filter _ newEvents); [exact Hprev | exact H].
Qed.

Lemma fetchOlder_events_NoDup (olderEvents prev : list PlatformEvent) :
  NoDup (id <$> prev) -> NoDup (id <$> olderEvents) ->
  NoDup (id <$> fetchOlder_events olderEvents prev).
Proof.
  intros Hprev Hnew. unfold fetchOlder_events.
  pose proof (fresh_ids_NoDup olderEvents prev Hprev Hnew) as H.
  rewrite fmap_app in *. apply NoDup_app in H as (H1 & H2 & H3).
  apply NoDup_app. split; [exact H3|]. split; [|exact H1].
  intros i Hi Ho. exact (H2 i Ho Hi).
Qed.

Lemma pollNew_events_sublist (newEvents prev : list PlatformEvent) :
  prev `sublist_of` pollNew_events newEvents prev.
Proof.
  unfold pollNew_events. destruct (filter _ newEvents) as [|e l]; [reflexivity|].
  apply sublist_inserts_l. reflexivity.
Qed.

Lemma fetchOlder_events_sublist (olderEvents prev : list PlatformEvent) :
  prev `sublist_of` fetchOlder_events olderEvents prev.
Proof. unfold fetchOlder_events. apply sublist_inserts_r. reflexivity. Qed.

Section PanelLemmas.
Variable Number_toString : JNum -> jsstring.
Variable Date_parse : jsstring -> jsnum.
Variable iso_text : Z -> jsstring.

(** The handler answers every request, and the events of its response have
    distinct ids. *)
Lemma GET_events_NoDup (backend : LokiBackend) (now : Z)
    (sinceParam beforeParam : option DateParam) (sent : list LokiRequest) :
  exists data,
    fst (GET Number_toString now sinceParam beforeParam backend sent) = Ok data
    /\ NoDup (id <$> response_events data).
Proof.
  rewrite GET_run. cbn [fst]. eexists. split; [reflexivity|].
  set (fetched := merged_outcome _ _ _ _).
  assert (forall events, fetched = Ok events -> NoDup (id <$> events)) as Hfetched.
  { intros events. unfold fetched, merged_outcome.
    destruct (outcome (fetchGUIEvents _ _) backend); [|discriminate].
    destruct (outcome (fetchSignupEvents _ _) backend); [|discriminate].
    destruct (outcome (fetchPlanChangeEvents _ _) backend); [|discriminate].
    destruct (outcome (fetchMCPEvents _ _ _) backend); [|discriminate].
    intros [= <-]. apply keep_unseen_NoDup. }
  destruct (given sinceParam) as [sinceP|].
  - unfold live_response. destruct fetched as [events|]; [|constructor].
    specialize (Hfetched events eq_refl).
    destruct (match events with
              | e :: _ => toISOString (timestamp e)
              | [] => Ok (Echo (dp_text sinceP))
              end); [exact Hfetched | constructor].
  - unfold page_response. destruct fetched as [events|]; [|constructor].
    specialize (Hfetched events eq_refl).
    destruct (match events with
              | e :: _ => toISOString (timestamp e)
              | [] => toISOString (cursor now beforeParam)
              end); [|constructor].
    destruct (match last events with
              | Some e => toISOString (timestamp e)
              | None => toISOString (num_sub (cursor now beforeParam) (Num CHUNK_MS))
              end); [exact Hfetched | constructor].
Qed.

(** One call of the panel. *)
Lemma call_step (c : Call) (now : Z) (backend : LokiBackend) (st : Panel) :
  NoDup (id <$> p_events st) ->
  exists st',
    fst (call Number_toString Date_parse iso_text c now st backend []) = Ok st'
    /\ NoDup (id <$> p_events st')
    /\ (c <> CallInitial -> p_events st `sublist_of` p_events st').
Proof.
  intros Hst. destruct c; cbn [call].
  - unfold fetchInitial, bindA, retA.
    destruct (GET_events_NoDup backend now None None []) as (data & Hdata & Hnd).
    destruct (GET Number_toString now None None backend []) as [r sent'].
    cbn [fst] in Hdata. subst r.
    eexists. split; [reflexivity|]. split; [|congruence].
    destruct data; cbn [p_events response_events] in *; assumption.
  - unfold pollNew. destruct (p_lastEventTime st) as [[|c since]|].
    + exists st. split; [reflexivity|]. split; [exact Hst | reflexivity].
    + unfold bindA, retA.
      destruct (GET_events_NoDup backend now (Some (date_param Date_parse (c :: since))) None [])
        as (data & Hdata & Hnd).
      destruct (GET Number_toString now _ None backend []) as [r sent'].
      cbn [fst] in Hdata. subst r.
      eexists. split; [reflexivity|].
      destruct data as [events n latest more|events n latest oldest more|];
        cbn [response_events] in Hnd; [| |split; [exact Hst | reflexivity]];
        unfold pollNew_response; (destruct events as [|e events];
          [split; [exact Hst | reflexivity]|]); cbn [p_events];
        (split; [apply pollNew_events_NoDup; assumption
                | intros _; apply pollNew_events_sublist]).
    + exists st. split; [reflexivity|]. split; [exact Hst | reflexivity].
  - unfold fetchOlder. destruct (p_loadingOlder st || negb (p_hasMore st)).
    { exists st. split; [reflexivity|]. split; [exact Hst | reflexivity]. }
    destruct (p_oldestEventTime st) as [[|c before]|].
    + exists st. split; [reflexivity|]. split; [exact Hst | reflexivity].
    + unfold bindA, retA.
      destruct (GET_events_NoDup backend now None (Some (date_param Date_parse (c :: before))) [])
        as (data & Hdata & Hnd).
      destruct (GET Number_toString now None _ backend []) as [r sent'].
      cbn [fst] in Hdata. subst r.
      eexists. split; [reflexivity|].
      destruct data as [events n latest more|events n latest oldest more|];
        cbn [response_events] in Hnd; [| |split; [exact Hst | reflexivity]];
        unfold fetchOlder_response; (destruct events as [|e events];
          [split; [exact Hst | reflexivity]|]); cbn [p_events];
        (split; [apply fetchOlder_events_NoDup; assumption
                | intros _; apply fetchOlder_events_sublist]).
    + exists st. split; [reflexivity|]. split; [exact Hst | reflexivity].
Qed.

End PanelLemmas.

(** X13.  The list of the panel never holds an id twice.  The events of
    every response of the handler have distinct ids, and the updaters of
    [pollNew] and [fetchOlder] add to a list with distinct ids only events
    whose ids it does not hold: whatever request a response answers and
    whenever it is applied, the list keeps distinct ids.  So, whatever
    calls the panel makes ([fetchInitial], [pollNew], [fetchOlder]), at
    whatever times and whatever the log store replies to each, no call
    throws and the list never holds an id twice.  Polls and loads of older
    pages only add events: the events shown before stay, in their order. *)
Theorem panel_ids_unique (Number_toString : JNum -> jsstring) (Date_parse : jsstring -> jsnum)
    (iso_text : Z -> jsstring) :
  (forall (backend : LokiBackend) (now : Z) (sinceParam beforeParam : option DateParam)
          (prev : list PlatformEvent),
     NoDup (id <$> prev) ->
     exists data,
       fst (GET Number_toString now sinceParam beforeParam backend []) = Ok data
       /\ NoDup (id <$> response_events data)
       /\ NoDup (id <$> pollNew_events (response_events data) prev)
       /\ NoDup (id <$> fetchOlder_events (response_events data) prev)
       /\ prev `sublist_of` pollNew_events (response_events data) prev
       /\ prev `sublist_of` fetchOlder_events (response_events data) prev)
  /\ (forall (calls : list (Call * Z * LokiBackend)) (st : Panel),
        NoDup (id <$> p_events st) ->
        exists st',
          session Number_toString Date_parse iso_text calls st = Ok st'
          /\ NoDup (id <$> p_events st')
          /\ (Forall keeps_list calls -> p_events st `sublist_of` p_events st')).
Proof.
  split.
  - intros backend now sinceParam beforeParam prev Hprev.
    destruct (GET_events_NoDup Number_toString backend now sinceParam beforeParam [])
      as (data & Hdata & Hnd).
    exists data. split; [exact Hdata|]. split; [exact Hnd|].
    split; [apply pollNew_events_NoDup; assumption|].
    split; [apply fetchOlder_events_NoDup; assumption|].
    split; [apply pollNew_events_sublist | apply fetchOlder_events_sublist].
  - intros calls. induction calls as [|[[c now] backend] calls IH]; intros st Hst.
    + exists st. split; [reflexivity|]. split; [exact Hst | reflexivity].
    + cbn [session].
      destruct (call_step Number_toString Date_parse iso_text c now backend st Hst)
        as (st1 & -> & Hnd1 & Hsub1).
      cbn [bindR]. destruct (IH st1 Hnd1) as (st' & Hrun & Hnd & Hsub).
      exists st'. split; [exact Hrun|]. split; [exact Hnd|].
      intros Hall. apply Forall_cons in Hall as [Hc Hall].
      transitivity (p_events st1); [apply Hsub1; exact Hc | apply Hsub; exact Hall].
Qed.

Lemma panel_ids_unique_witness :
  exists st',
    session no_numbers (fun _ => Num 1700000000000) some_text
      [(CallInitial, 1700000010000, sample_store); (CallPoll, 1700000020000, sample_store);
       (CallOlder, 1700000030000, sample_store)] initial_panel = Ok st'
    /\ NoDup (id <$> p_events st').
Proof.
  destruct (proj2 (panel_ids_unique no_numbers (fun _ => Num 1700000000000) some_text)
              [(CallInitial, 1700000010000, sample_store);
               (CallPoll, 1700000020000, sample_store);
               (CallOlder, 1700000030000, sample_store)] initial_panel)
    as (st' & Hrun & Hnd & _); [constructor|].
  exists st'. split; [exact Hrun | exact Hnd].
Defined.

(** ** The cursor of the older pages *)

Section OlderPages.
Variable Number_toString : JNum -> jsstring.
Variable Date_parse : jsstring -> jsnum.
Variable iso_text : Z -> jsstring.

(** A load that is sent, for a window without events. *)
Lemma fetchOlder_empty_page (backend : LokiBackend) (now : Z) (st : Panel)
    (c : N) (text : jsstring) :
  p_loadingOlder st = false -> p_hasMore st = true ->
  p_oldestEventTime st = Some (c :: text) ->
  let before := Date_parse (c :: text) in
  let since := num_sub before (Num CHUNK_MS) in
  merged_outcome Number_toString backend since before = Ok [] ->
  exists st',
    fetchOlder Number_toString Date_parse iso_text now st backend []
    = (Ok st', window_requests since before)
    /\ p_events st' = p_events st
    /\ p_oldestEventTime st' = p_oldestEventTime st
    /\ p_lastEventTime st' = p_lastEventTime st
    /\ p_loadingOlder st' = false
    /\ p_hasMore st'
       = match toISOString before, toISOString since with
         | Ok _, Ok _ => num_gt since (Num (now - MAX_HISTORY_MS))
         | _, _ => true
         end.
Proof.
  intros Hload Hmore Hcursor before since Hempty.
  unfold fetchOlder. rewrite Hload, Hmore, Hcursor. cbn [orb negb].
  unfold bindA, retA.
  rewrite (GET_page_run Number_toString backend now None
             (Some (date_param Date_parse (c :: text))) [] eq_refl).
  assert (cursor now (Some (date_param Date_parse (c :: text))) = before) as -> by reflexivity.
  fold since. rewrite Hempty. unfold page_response. fold since. cbn [last app].
  destruct (toISOString before) as [latest|], (toISOString since) as [oldest|];
    eexists; (split; [reflexivity|]); cbn [fetchOlder_response p_events p_oldestEventTime
      p_lastEventTime p_loadingOlder p_hasMore]; auto.
Qed.

Lemma fetchOlder_keeps (backend : LokiBackend) (now : Z) (st : Panel) (text : jsstring) :
  p_oldestEventTime st = Some text ->
  merged_outcome Number_toString backend (num_sub (Date_parse text) (Num CHUNK_MS))
    (Date_parse text) = Ok [] ->
  exists st',
    fst (fetchOlder Number_toString Date_parse iso_text now st backend []) = Ok st'
    /\ p_events st' = p_events st
    /\ p_oldestEventTime st' = p_oldestEventTime st.
Proof.
  intros Hcursor Hempty.
  destruct (p_loadingOlder st) eqn:Hload.
  { exists st. unfold fetchOlder. rewrite Hload. auto. }
  destruct (p_hasMore st) eqn:Hmore.
  2: { exists st. unfold fetchOlder. rewrite Hload, Hmore. auto. }
  destruct text as [|c text].
  { exists st. unfold fetchOlder. rewrite Hload, Hmore, Hcursor. auto. }
  destruct (fetchOlder_empty_page backend now st c text Hload Hmore Hcursor Hempty)
    as (st' & Hrun & Hev & Hcur & _).
  exists st'. rewrite Hrun. auto.
Qed.

End OlderPages.

(** X14.  An empty page keeps the cursor.  [fetchOlder] moves its cursor
    only when the page holds events.  When the four queries bring no event
    for the three days before the cursor, a load that is sent asks for
    exactly that window, leaves the list and the cursor as they are, and
    sets [hasMore] as the handler computed it: true while the start of the
    window is less than thirty days back.  So, as long as that window
    stays without events, no number of further loads moves the cursor or
    adds an event: every one of them asks for the same window again. *)
Theorem empty_page_keeps_cursor (Number_toString : JNum -> jsstring)
    (Date_parse : jsstring -> jsnum) (iso_text : Z -> jsstring)
    (st : Panel) (c : N) (text : jsstring) :
  p_oldestEventTime st = Some (c :: text) ->
  let before := Date_parse (c :: text) in
  let since := num_sub before (Num CHUNK_MS) in
  (forall backend now,
     p_loadingOlder st = false -> p_hasMore st = true ->
     merged_outcome Number_toString backend since before = Ok [] ->
     exists st',
       fetchOlder Number_toString Date_parse iso_text now st backend []
       = (Ok st', window_requests since before)
       /\ p_events st' = p_events st
       /\ p_oldestEventTime st' = p_oldestEventTime st
       /\ p_hasMore st'
          = match toISOString before, toISOString since with
            | Ok _, Ok _ => num_gt since (Num (now - MAX_HISTORY_MS))
            | _, _ => true
            end)
  /\ (forall rounds : list (Z * LokiBackend),
        Forall (fun r => merged_outcome Number_toString (snd r) since before = Ok []) rounds ->
        exists st',
          session Number_toString Date_parse iso_text (older_loads rounds) st = Ok st'
          /\ p_events st' = p_events st
          /\ p_oldestEventTime st' = p_oldestEventTime st).
Proof.
  intros Hcursor before since. split.
  - intros backend now Hload Hmore Hempty.
    destruct (fetchOlder_empty_page Number_toString Date_parse iso_text backend now st c text
                Hload Hmore Hcursor Hempty) as (st' & Hrun & Hev & Hcur & _ & _ & Hhas).
    exists st'. auto.
  - intros rounds. revert st Hcursor.
    induction rounds as [|[now backend] rounds IH]; intros st Hcursor Hall.
    + exists st. auto.
    + apply Forall_cons in Hall as [Hempty Hall]. cbn [snd] in Hempty.
      cbn [older_loads fmap list_fmap session call fst snd].
      destruct (fetchOlder_keeps Number_toString Date_parse iso_text backend now st
                  (c :: text) Hcursor Hempty) as (st1 & -> & Hev1 & Hcur1).
      cbn [bindR].
      destruct (IH st1 ltac:(congruence) Hall) as (st' & Hrun & Hev & Hcur).
      exists st'. split; [exact Hrun|]. split; congruence.
Qed.

Lemma empty_page_keeps_cursor_witness :
  exists st',
    session no_numbers (fun _ => Num 1700000000000) some_text
      (older_loads [(1700000010000, silent_store); (1700000020000, silent_store);
                    (1700000030000, silent_store)]) idle_panel = Ok st'
    /\ p_events st' = []
    /\ p_oldestEventTime st' = Some (str "T")
    /\ p_hasMore st' = true.
Proof.
  destruct (proj2 (empty_page_keeps_cursor no_numbers (fun _ => Num 1700000000000) some_text
                     idle_panel 84%N [] eq_refl)
              [(1700000010000, silent_store); (1700000020000, silent_store);
               (1700000030000, silent_store)])
    as (st' & Hrun & Hev & Hcur).
  { repeat constructor. }
  exists st'. split; [exact Hrun|]. split; [exact Hev|]. split; [exact Hcur|].
  vm_compute in Hrun. injection Hrun as <-. reflexivity.
Defined.

(** ** Muting *)

Lemma elem_of_handleMute (t tenant0 : jsstring) (prev : list jsstring) :
  t ∈ handleMute tenant0 prev <-> t = tenant0 \/ t ∈ prev.
Proof.
  unfold handleMute. destruct (decide (tenant0 ∈ prev)) as [Hin|Hout].
  - split; [auto|]. intros [->|H]; assumption.
  - rewrite elem_of_app, list_elem_of_singleton. tauto.
Qed.

Lemma elem_of_handleUnmute (t tenant0 : jsstring) (prev : list jsstring) :
  t ∈ handleUnmute tenant0 prev <-> t <> tenant0 /\ t ∈ prev.
Proof. unfold handleUnmute. rewrite list_elem_of_filter. reflexivity. Qed.

Lemma apply_click_NoDup (muted : list jsstring) (click : bool * jsstring) :
  NoDup muted -> NoDup (apply_click muted click).
Proof.
  intros Hnd. destruct click as [[|] t]; cbn [apply_click fst snd].
  - unfold handleMute. destruct (decide (t ∈ muted)) as [Hin|Hout]; [exact Hnd|].
    apply NoDup_app. split; [exact Hnd|]. split; [|apply NoDup_singleton].
    intros x Hx Hx'. apply list_elem_of_singleton in Hx'. congruence.
  - apply NoDup_filter. exact Hnd.
Qed.

(** A tenant is muted exactly when the last click on it was a mute. *)
Lemma muted_last_click (clicks : list (bool * jsstring)) (t : jsstring) :
  t ∈ fold_left apply_click clicks []
  <-> exists l1 l2, clicks = l1 ++ (true, t) :: l2 /\ (false, t) ∉ l2.
Proof.
  induction clicks as [|[b t0] clicks IH] using rev_ind.
  - cbn. split; [intros H; inversion H|]. intros (l1 & l2 & Heq & _).
    destruct l1; discriminate.
  - rewrite fold_left_app. cbn [fold_left].
    assert (forall l1 l2 : list (bool * jsstring),
              clicks ++ [(b, t0)] = l1 ++ (true, t) :: l2 ->
              (l2 = [] /\ l1 = clicks /\ b = true /\ t0 = t)
              \/ exists l2', l2 = l2' ++ [(b, t0)] /\ clicks = l1 ++ (true, t) :: l2') as Hsplit.
    { intros l1 l2 Heq. destruct l2 as [|x l2 _] using rev_ind.
      - left. apply app_inj_tail in Heq as [-> [= -> ->]]. auto.
      - right. exists l2.
        replace (l1 ++ (true, t) :: l2 ++ [x]) with ((l1 ++ (true, t) :: l2) ++ [x]) in Heq
          by (rewrite <- app_assoc; reflexivity).
        apply app_inj_tail in Heq as [-> <-]. auto. }
    destruct b; cbn [apply_click fst snd].
    + rewrite elem_of_handleMute, IH. split.
      * intros [->|(l1 & l2 & -> & Hl2)].
        -- exists clicks, []. split; [reflexivity | apply not_elem_of_nil].
        -- exists l1, (l2 ++ [(true, t0)]). split; [rewrite <- app_assoc; reflexivity|].
           rewrite elem_of_app, list_elem_of_singleton. intros [H|H]; [auto | discriminate].
      * intros (l1 & l2 & Heq & Hl2).
        destruct (Hsplit l1 l2 Heq) as [(_ & _ & _ & ->)|(l2' & -> & ->)]; [left; reflexivity|].
        right. exists l1, l2'. split; [reflexivity|].
        intros H. apply Hl2. apply elem_of_app. left. exact H.
    + rewrite elem_of_handleUnmute, IH. split.
      * intros [Hne (l1 & l2 & -> & Hl2)].
        exists l1, (l2 ++ [(false, t0)]). split; [rewrite <- app_assoc; reflexivity|].
        rewrite elem_of_app, list_elem_of_singleton. intros [H|[= H]]; [auto | congruence].
      * intros (l1 & l2 & Heq & Hl2).
        destruct (Hsplit l1 l2 Heq) as [(_ & _ & Hb & _)|(l2' & -> & ->)]; [discriminate|].
        split.
        -- intros ->. apply Hl2. apply elem_of_app. right. left.
        -- exists l1, l2'. split; [reflexivity|].
           intros H. apply Hl2. apply elem_of_app. left. exact H.
Qed.

(** X15.  The muted tenants.  After any sequence of clicks on mute and
    unmute buttons, starting with no tenant muted, the list of muted
    tenants holds no tenant twice, and a tenant is in it exactly when the
    last click on it was a mute.  Muting a tenant hides exactly its events
    from the filtered list, which keeps the order of the events; unmuting a
    tenant that was just muted gives back the list of muted tenants as it
    was. *)
Theorem muted_tenants (clicks : list (bool * jsstring)) :
  let muted := fold_left apply_click clicks [] in
  NoDup muted
  /\ (forall t, t ∈ muted <->
        exists l1 l2, clicks = l1 ++ (true, t) :: l2 /\ (false, t) ∉ l2)
  /\ (forall events hideInternal t,
        filteredEvents events (handleMute t muted) hideInternal
        = filter (fun e => tenant e <> t) (filteredEvents events muted hideInternal))
  /\ (forall events hideInternal,
        filteredEvents events muted hideInternal `sublist_of` events)
  /\ (forall t, t ∉ muted -> handleUnmute t (handleMute t muted) = muted).
Proof.
  intros muted. split; [|split; [|split; [|split]]].
  - subst muted. induction clicks as [|c clicks IH] using rev_ind; [constructor|].
    rewrite fold_left_app. apply apply_click_NoDup. exact IH.
  - intros t. apply muted_last_click.
  - intros events hideInternal t. unfold filteredEvents.
    rewrite list_filter_filter. apply list_filter_iff. intros e.
    rewrite elem_of_handleMute. tauto.
  - intros events hideInternal. apply sublist_filter.
  - intros t Ht. unfold handleMute, handleUnmute. rewrite decide_False by exact Ht.
    rewrite filter_app, filter_cons_False, filter_nil, app_nil_r by (intros H; apply H; reflexivity).
    apply filter_all. intros x Hx ->. exact (Ht Hx).
Qed.

Lemma muted_tenants_witness :
  fold_left apply_click
    [(true, str "acme"); (true, str "zeta"); (true, str "acme"); (false, str "acme")] []
  = [str "zeta"]
  /\ handleUnmute (str "acme") (handleMute (str "acme") [str "zeta"]) = [str "zeta"].
Proof.
  split; [vm_compute; reflexivity|].
  apply (proj2 (proj2 (proj2 (proj2
           (muted_tenants [(true, str "acme"); (true, str "zeta"); (true, str "acme");
                           (false, str "acme")])))) (str "acme")).
  vm_compute. intros H. apply list_elem_of_singleton in H. discriminate H.
Defined.

(** ** The time of an event item *)

Lemma floor_div_exact (x d : Z) :
  Z.abs x < 2 ^ 53 -> 0 < d -> floor_div (Num x) d = Num (x / d).
Proof. intros Hx Hd. cbn [floor_div]. rewrite floor_quotient_exact by assumption. reflexivity. Qed.

Lemma div_abs_le (x d : Z) : 0 < d -> Z.abs (x / d) <= Z.abs x.
Proof.
  intros Hd. destruct (Z.le_gt_cases 0 x) as [Hx|Hx].
  - assert (0 <= x / d) by (apply Z.div_pos; lia).
    assert (x / d <= x) by (apply Z.div_le_upper_bound; nia). lia.
  - assert (x / d < 0) by (apply Z.div_lt_upper_bound; lia).
    assert (x <= x / d) by (apply Z.div_le_lower_bound; nia). lia.
Qed.

(** X16.  The age that an event item shows.  For an event whose age in
    milliseconds is below 2^53 in magnitude, [timeAgo] shows whole seconds
    below one minute, whole minutes below one hour, whole hours below one
    day and whole days from there on, each rounded down: the number [n] it
    shows with a unit of [u] milliseconds satisfies [n * u <= age < (n + 1) * u].
    An event of the future shows a negative number of seconds. *)
Theorem timeAgo_bands (now t : Z) :
  Z.abs (now - t) < 2 ^ 53 ->
  let age := now - t in
  (age < 60000 -> timeAgo now (Num t) = (Num (age / 1000), str "s ago"))
  /\ (60000 <= age < 3600000 -> timeAgo now (Num t) = (Num (age / 60000), str "m ago"))
  /\ (3600000 <= age < 86400000 -> timeAgo now (Num t) = (Num (age / 3600000), str "h ago"))
  /\ (86400000 <= age -> timeAgo now (Num t) = (Num (age / 86400000), str "d ago"))
  /\ (exists n label,
        timeAgo now (Num t) = (Num n, label)
        /\ n * unit_ms label <= age < (n + 1) * unit_ms label
        /\ (age < 0 -> n < 0 /\ label = str "s ago")).
Proof.
  intros Hage age.
  assert (timeAgo now (Num t)
          = if age / 1000 <? 60 then (Num (age / 1000), str "s ago")
            else if age / 60000 <? 60 then (Num (age / 60000), str "m ago")
            else if age / 3600000 <? 24 then (Num (age / 3600000), str "h ago")
            else (Num (age / 86400000), str "d ago")) as Hrun.
  { unfold timeAgo. rewrite num_sub_Num, norm_exact by (fold age; lia). fold age.
    pose proof (div_abs_le age 1000 ltac:(lia)) as H1.
    pose proof (div_abs_le (age / 1000) 60 ltac:(lia)) as H2.
    pose proof (div_abs_le (age / 1000 / 60) 60 ltac:(lia)) as H3.
    rewrite (floor_div_exact age 1000) by (fold age in Hage; lia). cbn [num_gt].
    rewrite (floor_div_exact (age / 1000) 60) by lia. cbn [num_gt].
    rewrite (floor_div_exact (age / 1000 / 60) 60) by lia. cbn [num_gt].
    rewrite (floor_div_exact (age / 1000 / 60 / 60) 24)
      by (pose proof (div_abs_le (age / 1000 / 60 / 60) 24 ltac:(lia)); lia).
    rewrite !Z.div_div by lia.
    change (1000 * 60) with 60000. change (60000 * 60) with 3600000.
    change (3600000 * 24) with 86400000. reflexivity. }
  assert (forall d k, 0 < d -> (age / d <? k) = (age <? k * d)) as Hlt.
  { intros d k Hd. destruct (Z.ltb_spec (age / d) k), (Z.ltb_spec age (k * d));
      try reflexivity; exfalso.
    - assert (age / d >= k) by (apply Z.le_ge, Z.div_le_lower_bound; lia). lia.
    - assert (age / d < k) by (apply Z.div_lt_upper_bound; lia). lia. }
  rewrite (Hlt 1000 60), (Hlt 60000 60), (Hlt 3600000 24) in Hrun by lia.
  change (60 * 1000) with 60000 in Hrun. change (60 * 60000) with 3600000 in Hrun.
  change (24 * 3600000) with 86400000 in Hrun.
  assert (forall d, 0 < d -> age / d * d <= age < (age / d + 1) * d) as Hdiv.
  { intros d Hd. pose proof (Z.div_mod age d ltac:(lia)).
    pose proof (Z.mod_pos_bound age d Hd). nia. }
  split; [|split; [|split; [|split]]].
  - intros H. rewrite Hrun. destruct (Z.ltb_spec age 60000); [reflexivity | lia].
  - intros H. rewrite Hrun. destruct (Z.ltb_spec age 60000); [lia|].
    destruct (Z.ltb_spec age 3600000); [reflexivity | lia].
  - intros H. rewrite Hrun. destruct (Z.ltb_spec age 60000); [lia|].
    destruct (Z.ltb_spec age 3600000); [lia|].
    destruct (Z.ltb_spec age 86400000); [reflexivity | lia].
  - intros H. rewrite Hrun. destruct (Z.ltb_spec age 60000); [lia|].
    destruct (Z.ltb_spec age 3600000); [lia|].
    destruct (Z.ltb_spec age 86400000); [lia | reflexivity].
  - rewrite Hrun.
    destruct (Z.ltb_spec age 60000);
      [|destruct (Z.ltb_spec age 3600000); [|destruct (Z.ltb_spec age 86400000)]];
      eexists; eexists; (split; [reflexivity|]);
      (split; [apply Hdiv; reflexivity|]); intros Hneg; try lia.
    split; [|reflexivity]. apply Z.div_lt_upper_bound; lia.
Qed.

Lemma timeAgo_bands_witness :
  timeAgo 1700000600000 (Num 1700000000000) = (Num 10, str "m ago")
  /\ timeAgo 1700000000000 (Num 1700000000500) = (Num (-1), str "s ago").
Proof.
  split.
  - apply (proj1 (proj2 (timeAgo_bands 1700000600000 1700000000000 ltac:(vm_compute; reflexivity)))).
    lia.
  - apply (proj1 (timeAgo_bands 1700000000000 1700000000500 ltac:(vm_compute; reflexivity))).
    lia.
Defined.

(** ** The description of an event item *)

Lemma split_from_nonempty (n : nat) (sep : jsstring) : forall piece s : jsstring,
  split_from n sep piece s <> [].
Proof.
  induction n as [|n IH]; intros piece [|c s]; cbn [split_from]; try discriminate.
  destruct (after_prefix sep (c :: s)); [discriminate | apply IH].
Qed.

Lemma join_with_cons (sep p : jsstring) (rest : list jsstring) :
  rest <> [] -> join_with sep (p :: rest) = p ++ sep ++ join_with sep rest.
Proof. destruct rest; [congruence | reflexivity]. Qed.

(** Joining what [split] gives with the separator gives the text back. *)
Lemma split_from_join (n : nat) (sep : jsstring) : forall piece s : jsstring,
  join_with sep (split_from n sep piece s) = piece ++ s.
Proof.
  induction n as [|n IH]; intros piece [|c s]; cbn [split_from join_with];
    rewrite ?app_nil_r; try reflexivity.
  destruct (after_prefix sep (c :: s)) as [rest|] eqn:Hp.
  - apply after_prefix_Some in Hp. rewrite Hp.
    rewrite join_with_cons by apply split_from_nonempty. rewrite IH. reflexivity.
  - rewrite IH, <- app_assoc. reflexivity.
Qed.

Lemma split_from_first (n : nat) (sep : jsstring) : forall piece s : jsstring,
  sep <> [] -> (length s <= n)%nat ->
  match find_first sep s with
  | None => split_from n sep piece s = [piece ++ s]
  | Some (pre, rest) =>
      exists tail, split_from n sep piece s = (piece ++ pre) :: tail
                   /\ tail <> [] /\ join_with sep tail = rest
  end.
Proof.
  induction n as [|n IH]; intros piece [|c s] Hsep Hlen; cbn [length] in Hlen; try lia.
  - destruct sep; [congruence|]. cbn. rewrite app_nil_r. reflexivity.
  - destruct sep; [congruence|]. cbn. rewrite app_nil_r. reflexivity.
  - cbn [split_from find_first].
    destruct (after_prefix sep (c :: s)) as [rest|] eqn:Hp.
    + exists (split_from n sep [] rest). rewrite app_nil_r.
      split; [reflexivity|]. split; [apply split_from_nonempty|]. apply split_from_join.
    + specialize (IH (piece ++ [c]) s Hsep ltac:(lia)).
      destruct (find_first sep s) as [[pre rest]|].
      * destruct IH as (tail & Heq & Hne & Hjoin). exists tail.
        rewrite Heq, <- app_assoc. auto.
      * rewrite IH, <- app_assoc. reflexivity.
Qed.

Lemma find_first_spec (sep s pre rest : jsstring) :
  find_first sep s = Some (pre, rest) ->
  s = pre ++ sep ++ rest
  /\ forall pre' suf', pre = pre' ++ suf' -> suf' <> [] ->
       after_prefix sep (suf' ++ sep ++ rest) = None.
Proof.
  revert pre. induction s as [|c s IH]; intros pre; cbn [find_first].
  - destruct (after_prefix sep []) as [r|] eqn:Hp; [|discriminate].
    intros [= <- <-]. apply after_prefix_Some in Hp. split; [exact Hp|].
    intros pre' suf' Heq Hne. symmetry in Heq. apply app_eq_nil in Heq as [_ ->]. congruence.
  - destruct (after_prefix sep (c :: s)) as [r|] eqn:Hp.
    + intros [= <- <-]. apply after_prefix_Some in Hp. split; [exact Hp|].
      intros pre' suf' Heq Hne. symmetry in Heq. apply app_eq_nil in Heq as [_ ->]. congruence.
    + destruct (find_first sep s) as [[pre0 rest0]|]; [|discriminate].
      intros [= <- <-]. destruct (IH pre0 eq_refl) as [Hs Hmin]. split.
      * rewrite Hs. reflexivity.
      * intros pre' suf' Heq Hne. destruct pre' as [|d pre'].
        -- cbn in Heq. subst suf'. cbn [app]. rewrite <- Hs. exact Hp.
        -- injection Heq as <- Heq. exact (Hmin pre' suf' Heq Hne).
Qed.

Lemma singletons_join (s : jsstring) : join_with [] ((fun c => [c]) <$> s) = s.
Proof.
  induction s as [|c s IH]; [reflexivity|].
  rewrite fmap_cons. destruct s as [|d s]; [reflexivity|].
  rewrite join_with_cons by discriminate. rewrite IH. reflexivity.
Qed.

Lemma String_split_join (sep s : jsstring) : join_with sep (String_split sep s) = s.
Proof.
  unfold String_split. destruct sep as [|a sep]; [apply singletons_join|].
  apply split_from_join.
Qed.

(** X17.  The description of an event item.  The fragments that an event
    item shows for its description spell the description, whatever the
    tenant: marking the tenant never changes the text.  When the tenant is
    not empty, the item marks the first occurrence of the tenant in the
    description, and only that one; a description without the tenant is
    shown as it is. *)
Theorem description_fragments (event : PlatformEvent) :
  shown_text (EventItem_description event) = description event
  /\ (tenant event <> [] ->
      EventItem_description event
      = match find_first (tenant event) (description event) with
        | Some (pre, rest) => [Plain pre; TenantEl (tenant event); Plain rest]
        | None => [Plain (description event)]
        end)
  /\ (forall pre rest,
        find_first (tenant event) (description event) = Some (pre, rest) ->
        description event = pre ++ tenant event ++ rest
        /\ forall pre' suf', pre = pre' ++ suf' -> suf' <> [] ->
             after_prefix (tenant event) (suf' ++ tenant event ++ rest) = None).
Proof.
  split; [|split].
  - unfold EventItem_description.
    pose proof (String_split_join (tenant event) (description event)) as Hjoin.
    destruct (String_split (tenant event) (description event)) as [|p0 [|p1 rest]];
      [cbn; rewrite app_nil_r; reflexivity..|].
    rewrite join_with_cons in Hjoin by discriminate.
    unfold shown_text. cbn [fmap list_fmap fragment_text concat]. rewrite app_nil_r.
    exact Hjoin.
  - intros Htenant. unfold EventItem_description, String_split.
    destruct (tenant event) as [|a sep] eqn:Ht; [congruence|].
    pose proof (split_from_first (length (description event)) (a :: sep) []
                  (description event) ltac:(discriminate) ltac:(lia)) as Hfirst.
    destruct (find_first (a :: sep) (description event)) as [[pre rest]|].
    + destruct Hfirst as (tail & -> & Hne & Hjoin). cbn [app].
      destruct tail as [|p1 tail]; [congruence|]. rewrite Hjoin. reflexivity.
    + rewrite Hfirst. reflexivity.
  - intros pre rest. apply find_first_spec.
Qed.

Lemma description_fragments_witness :
  EventItem_description
    (mkEvent (str "1-acme-create_instance") instance_created glyph_created (str "acme")
       (str "acme created instance acme-db (couchdb)") (Num 1))
  = [Plain []; TenantEl (str "acme"); Plain (str " created instance acme-db (couchdb)")].
Proof.
  rewrite (proj1 (proj2 (description_fragments _))) by discriminate.
  vm_compute. reflexivity.
Defined.

(** ** The instance graph *)

Lemma StronglySorted_app_inv {A : Type} (R : A -> A -> Prop) (l1 l2 : list A) :
  StronglySorted R (l1 ++ l2) -> forall x y, x ∈ l1 -> y ∈ l2 -> R x y.
Proof.
  induction l1 as [|a l1 IH]; intros Hs x y Hx Hy; [inversion Hx|].
  cbn [app] in Hs. apply StronglySorted_inv in Hs as [Hs Ha].
  apply elem_of_cons in Hx as [->|Hx].
  - rewrite Forall_forall in Ha. apply Ha. apply elem_of_app. right. exact Hy.
  - exact (IH Hs x y Hx Hy).
Qed.

Lemma NoDup_fst_unique {A B : Type} (l : list (A * B)) (a : A) (b1 b2 : B) :
  NoDup l.*1 -> (a, b1) ∈ l -> (a, b2) ∈ l -> b1 = b2.
Proof.
  induction l as [|[a0 b0] l IH]; intros Hnd H1 H2; [inversion H1|].
  rewrite fmap_cons in Hnd. apply NoDup_cons in Hnd as [Hnotin Hnd]. cbn [fst] in Hnotin.
  apply elem_of_cons in H1 as [H1|H1]; apply elem_of_cons in H2 as [H2|H2].
  - congruence.
  - injection H1 as -> ->. exfalso. apply Hnotin. apply list_elem_of_fmap.
    exists (a0, b2). auto.
  - injection H2 as -> ->. exfalso. apply Hnotin. apply list_elem_of_fmap.
    exists (a0, b1). auto.
  - exact (IH Hnd H1 H2).
Qed.

Section TopSeries.
Variable activeSeries : list ActiveSeries.
Hypothesis distinct_keys : NoDup (as_key <$> activeSeries).

#[local] Abbreviation entries_of :=
  ((fun s => (as_key s, peak s)) <$> activeSeries).
#[local] Abbreviation by_peak :=
  (Array_sort (fun a b : jsstring * Z => num_sub (Num (snd b)) (Num (snd a))) entries_of).

Lemma by_peak_keys : by_peak.*1 ≡ₚ as_key <$> activeSeries.
Proof.
  rewrite (Array_sort_perm _ _), <- list_fmap_compose. reflexivity.
Qed.

Lemma by_peak_NoDup : NoDup by_peak.*1.
Proof. rewrite by_peak_keys. exact distinct_keys. Qed.

Lemma by_peak_sorted : StronglySorted (fun a b : jsstring * Z => snd b <= snd a) by_peak.
Proof.
  pose proof (Array_sort_sorted (fun a b : jsstring * Z => num_sub (Num (snd b)) (Num (snd a)))
                (fun e : jsstring * Z => - snd e) entries_of) as Hsorted.
  eapply StronglySorted_mono; [|apply Hsorted].
  - intros a b Hab. cbv beta in Hab. lia.
  - intros x y _ _. cbv beta. rewrite num_sub_gt.
    destruct (Z.ltb_spec0 (snd x) (snd y)); symmetry;
      [apply bool_decide_eq_true | apply bool_decide_eq_false]; lia.
Qed.

Lemma elem_of_by_peak (s : ActiveSeries) : s ∈ activeSeries -> (as_key s, peak s) ∈ by_peak.
Proof.
  intros Hs. apply elem_of_Array_sort, list_elem_of_fmap. exists s. auto.
Qed.

Lemma elem_of_renderSeries (s : ActiveSeries) :
  s ∈ renderSeries activeSeries <->
  s ∈ activeSeries /\ (as_key s, peak s) ∈ take TOP_N by_peak.
Proof.
  unfold renderSeries, topKeys. rewrite list_elem_of_filter. split.
  - intros [Hkey Hs]. split; [exact Hs|].
    apply list_elem_of_fmap in Hkey as ([k p] & Hk & Hin). cbn [fst] in Hk. subst k.
    assert ((as_key s, p) ∈ by_peak) as Hin'
      by (exact (elem_of_sublist _ _ _ Hin (sublist_take _ _))).
    rewrite (NoDup_fst_unique _ _ _ _ by_peak_NoDup (elem_of_by_peak s Hs) Hin'). exact Hin.
  - intros [Hs Hin]. split; [|exact Hs].
    apply list_elem_of_fmap. exists (as_key s, peak s). auto.
Qed.

End TopSeries.

(** X18.  The series that the chart draws.  When the series of a response
    have distinct keys, the chart draws at most [TOP_N] = 20 of them:
    exactly the twenty first of the stable sort by peak, or all of them
    when there are no more than twenty.  Every series it draws has a peak
    at least as high as every series it leaves out, and the series are
    drawn in the order of the response, not in the order of their peaks.
    The series of the drill-down and of the tenant graph have distinct
    keys. *)
Theorem chart_top_series (activeSeries : list ActiveSeries) :
  NoDup (as_key <$> activeSeries) ->
  renderSeries activeSeries `sublist_of` activeSeries
  /\ length (renderSeries activeSeries) = (TOP_N `min` length activeSeries)%nat
  /\ (forall s s',
        s ∈ renderSeries activeSeries -> s' ∈ activeSeries ->
        s' ∉ renderSeries activeSeries -> peak s' <= peak s)
  /\ ((length activeSeries <= TOP_N)%nat -> renderSeries activeSeries = activeSeries)
  /\ (forall results,
        NoDup (as_key <$> (to_chart <$> drilldown_series results))
        /\ NoDup (as_key <$> (to_chart <$> tenant_series results))).
Proof.
  intros Hnd.
  set (sorted := Array_sort (fun a b : jsstring * Z => num_sub (Num (snd b)) (Num (snd a)))
                   ((fun s => (as_key s, peak s)) <$> activeSeries)).
  assert (length sorted = length activeSeries) as Hlen
    by (unfold sorted; rewrite (Array_sort_perm _ _), length_fmap; reflexivity).
  assert (forall k, k ∈ topKeys activeSeries -> k ∈ as_key <$> activeSeries) as Htop.
  { intros k Hk. unfold topKeys in Hk. fold sorted in Hk.
    rewrite <- (by_peak_keys activeSeries). fold sorted.
    exact (elem_of_sublist _ _ _ Hk (fmap_sublist _ _ _ (sublist_take _ _))). }
  assert (NoDup (topKeys activeSeries)) as Htopnd.
  { unfold topKeys. fold sorted.
    apply (sublist_NoDup _ _ (by_peak_NoDup activeSeries Hnd)).
    fold sorted. apply fmap_sublist, sublist_take. }
  split; [apply sublist_filter|]. split; [|split; [|split]].
  - assert (as_key <$> renderSeries activeSeries ≡ₚ topKeys activeSeries) as Hperm.
    { apply NoDup_Permutation; [|exact Htopnd|].
      - apply (sublist_NoDup _ _ Hnd). apply fmap_sublist, sublist_filter.
      - intros k. unfold renderSeries. rewrite list_elem_of_fmap. split.
        + intros (s & -> & Hs). apply list_elem_of_filter in Hs as [Hk _]. exact Hk.
        + intros Hk. pose proof (Htop k Hk) as Hin.
          apply list_elem_of_fmap in Hin as (s & -> & Hs).
          exists s. split; [reflexivity|]. apply list_elem_of_filter. auto. }
    apply Permutation_length in Hperm. rewrite length_fmap in Hperm. rewrite Hperm.
    unfold topKeys. fold sorted. rewrite length_fmap, length_take, Hlen. reflexivity.
  - intros s s' Hs Hs' Hout.
    apply (elem_of_renderSeries activeSeries Hnd) in Hs as [Hs Hin]. fold sorted in Hin.
    assert ((as_key s', peak s') ∈ drop TOP_N sorted) as Hrest.
    { pose proof (elem_of_by_peak activeSeries s' Hs') as Hin'. fold sorted in Hin'.
      rewrite <- (take_drop TOP_N sorted) in Hin'.
      apply elem_of_app in Hin' as [Hin'|Hin']; [|exact Hin'].
      exfalso. apply Hout. apply (elem_of_renderSeries activeSeries Hnd). fold sorted. auto. }
    pose proof (by_peak_sorted activeSeries) as Hsorted. fold sorted in Hsorted.
    rewrite <- (take_drop TOP_N sorted) in Hsorted.
    exact (StronglySorted_app_inv _ _ _ Hsorted _ _ Hin Hrest).
  - intros Hsmall. unfold renderSeries. apply filter_all. intros s Hs.
    unfold topKeys. fold sorted. rewrite take_ge by lia.
    apply list_elem_of_fmap. exists (as_key s, peak s). split; [reflexivity|].
    apply (elem_of_by_peak activeSeries s Hs).
  - intros results. rewrite <- !list_fmap_compose.
    change (as_key ∘ to_chart) with key. split.
    + apply (sublist_NoDup _ _ (drilldown_grouped_NoDup results)).
      apply fmap_sublist, sublist_filter.
    + apply (sublist_NoDup (key <$> tenant_series results) (key <$> tenant_grouped results)).
      * unfold tenant_grouped. rewrite <- list_fmap_compose.
        change (key ∘ (fun kv : jsstring * gmap Z jsnum => mkSeries (fst kv) (tenant_data (snd kv))))
          with (fst : jsstring * gmap Z jsnum -> jsstring).
        rewrite tenant_map_names. apply first_seen_NoDup.
      * apply fmap_sublist, sublist_filter.
Qed.

Lemma chart_top_series_witness :
  renderSeries sample_chart = sample_chart
  /\ length (renderSeries sample_chart) = 3%nat.
Proof.
  assert (NoDup (as_key <$> sample_chart)) as Hnd
    by (apply (bool_decide_unpack _); vm_compute; exact I).
  destruct (chart_top_series sample_chart Hnd) as (_ & Hlen & _ & Hall & _).
  split; [apply Hall; vm_compute; lia | rewrite Hlen; reflexivity].
Defined.

(** *** The rows of the chart *)

Lemma sorted_NoDup_strict (l : list Z) :
  StronglySorted Z.le l -> NoDup l -> StronglySorted Z.lt l.
Proof.
  induction l as [|x l IH]; intros Hs Hn; [constructor|].
  apply StronglySorted_inv in Hs as [Hs Hx]. apply NoDup_cons in Hn as [Hnx Hn].
  constructor; [apply IH; assumption|].
  rewrite Forall_forall in *. intros y Hy. specialize (Hx y Hy).
  assert (x <> y) by (intros ->; exact (Hnx Hy)). lia.
Qed.

Lemma sortedTimes_sorted (activeSeries : list ActiveSeries) :
  StronglySorted Z.lt (sortedTimes activeSeries).
Proof.
  apply sorted_NoDup_strict.
  - apply (Array_sort_sorted _ (fun t : Z => t)).
    intros x y _ _. rewrite num_sub_gt.
    destruct (Z.ltb_spec0 y x); symmetry;
      [apply bool_decide_eq_true | apply bool_decide_eq_false]; assumption.
  - unfold sortedTimes. rewrite (Array_sort_perm _ _). apply NoDup_elements.
Qed.

Lemma elem_of_sortedTimes (activeSeries : list ActiveSeries) (t : Z) :
  t ∈ sortedTimes activeSeries <->
  exists s d, s ∈ activeSeries /\ d ∈ as_data s /\ cp_time d = t.
Proof.
  unfold sortedTimes, allTimes.
  rewrite elem_of_Array_sort, elem_of_elements, elem_of_list_to_set, list_elem_of_bind.
  split.
  - intros (s & Ht & Hs). apply list_elem_of_fmap in Ht as (d & -> & Hd). eauto.
  - intros (s & d & Hs & Hd & <-). exists s. split; [|exact Hs].
    apply list_elem_of_fmap. eauto.
Qed.

(** The members of an object that is written key by key, for distinct
    keys. *)
Lemma fold_insert_lookup {A V : Type} (k : A -> jsstring) (v : A -> V) (l : list A) :
  forall m0 : gmap jsstring V,
  NoDup (k <$> l) ->
  (forall x, x ∈ l -> fold_left (fun m x => <[k x := v x]> m) l m0 !! k x = Some (v x))
  /\ (forall key0, key0 ∉ k <$> l ->
        fold_left (fun m x => <[k x := v x]> m) l m0 !! key0 = m0 !! key0).
Proof.
  induction l as [|a l IH] using rev_ind; intros m0 Hnd.
  - split; [intros x Hx; inversion Hx | reflexivity].
  - rewrite fmap_app in Hnd. apply NoDup_app in Hnd as (Hnd & Hdisj & _).
    destruct (IH m0 Hnd) as [Hin Hout]. rewrite fold_left_app. cbn [fold_left]. split.
    + intros x Hx. apply elem_of_app in Hx as [Hx|Hx].
      * rewrite lookup_insert_ne; [exact (Hin x Hx)|].
        intros Heq. apply (Hdisj (k x)); [apply list_elem_of_fmap; eauto|].
        rewrite <- Heq. left.
      * apply list_elem_of_singleton in Hx as ->. apply lookup_insert_eq.
    + intros key0 Hk. rewrite fmap_app, elem_of_app in Hk.
      rewrite lookup_insert_ne; [apply Hout; tauto|].
      intros Heq. apply Hk. right. rewrite <- Heq. left.
Qed.

Lemma value_at_absent (t : Z) (s : ActiveSeries) :
  t ∉ cp_time <$> as_data s -> value_at t s = 0.
Proof.
  unfold value_at. intros Hout.
  destruct (List.find _ (as_data s)) as [d|] eqn:Hfind; [|reflexivity].
  apply find_some in Hfind as [Hd Ht]. apply bool_decide_eq_true in Ht.
  exfalso. apply Hout. apply list_elem_of_fmap. exists d.
  split; [congruence | apply list_elem_of_In; exact Hd].
Qed.

Lemma value_at_point (s : ActiveSeries) (d : ChartPoint) :
  NoDup (cp_time <$> as_data s) -> d ∈ as_data s ->
  value_at (cp_time d) s = default 0 (cp_value d).
Proof.
  unfold value_at. generalize (as_data s). intros l.
  induction l as [|a l IH]; intros Hnd Hd; [inversion Hd|].
  rewrite fmap_cons in Hnd. apply NoDup_cons in Hnd as [Ha Hnd]. cbn [List.find].
  apply elem_of_cons in Hd as [->|Hd].
  - rewrite bool_decide_eq_true_2 by reflexivity. reflexivity.
  - rewrite bool_decide_eq_false_2; [exact (IH Hnd Hd)|].
    intros Heq. apply Ha. rewrite Heq. apply list_elem_of_fmap. eauto.
Qed.

(** X19.  The rows of the chart.  The chart has one row per time at which
    some series has a point, in strictly ascending order of time.  When the
    keys of the series are distinct and none is [time], the row of a time
    holds that time and, for every series, the value of the series at that
    time: the value of its point there, and zero when it has no point
    there or a value that is no number; it holds nothing else. *)
Theorem chart_rows (activeSeries : list ActiveSeries) :
  let times := sortedTimes activeSeries in
  StronglySorted Z.lt times
  /\ (forall t, t ∈ times <->
        exists s d, s ∈ activeSeries /\ d ∈ as_data s /\ cp_time d = t)
  /\ (forall i, chartData activeSeries !! i = chart_point activeSeries <$> times !! i)
  /\ (NoDup (as_key <$> activeSeries) -> (str "time" ∉ as_key <$> activeSeries) ->
      forall t,
        chart_point activeSeries t !! str "time" = Some t
        /\ (forall s, s ∈ activeSeries ->
              chart_point activeSeries t !! as_key s = Some (value_at t s))
        /\ (forall key0, key0 <> str "time" -> key0 ∉ as_key <$> activeSeries ->
              chart_point activeSeries t !! key0 = None))
  /\ (forall t s, t ∉ cp_time <$> as_data s -> value_at t s = 0)
  /\ (forall s d, NoDup (cp_time <$> as_data s) -> d ∈ as_data s ->
        value_at (cp_time d) s = default 0 (cp_value d)).
Proof.
  intros times. split; [apply sortedTimes_sorted|]. split; [apply elem_of_sortedTimes|].
  split; [intros i; apply list_lookup_fmap|]. split; [|split].
  - intros Hnd Htime t. unfold chart_point.
    destruct (fold_insert_lookup as_key (value_at t) activeSeries {[ str "time" := t ]} Hnd)
      as [Hin Hout].
    split; [|split].
    + rewrite (Hout _ Htime). apply lookup_singleton_eq.
    + exact Hin.
    + intros key0 Hne Hk. rewrite (Hout _ Hk). apply lookup_singleton_ne. congruence.
  - apply value_at_absent.
  - apply value_at_point.
Qed.

Lemma chart_rows_witness :
  sortedTimes sample_chart = [1000; 2000; 3000]
  /\ chart_point sample_chart 3000 !! str "acme" = Some 0
  /\ chart_point sample_chart 3000 !! str "zeta" = Some 4.
Proof.
  split; [vm_compute; reflexivity|].
  assert (NoDup (as_key <$> sample_chart)) as Hnd
    by (apply (bool_decide_unpack _); vm_compute; exact I).
  assert (str "time" ∉ as_key <$> sample_chart) as Htime
    by (apply (bool_decide_unpack _); vm_compute; exact I).
  destruct (proj1 (proj2 (proj2 (proj2 (chart_rows sample_chart)))) Hnd Htime 3000)
    as (_ & Hval & _).
  split.
  - change (chart_point sample_chart 3000 !! as_key (chart_of "acme" [(1000, 2); (2000, 5)])
            = Some (value_at 3000 (chart_of "acme" [(1000, 2); (2000, 5)]))).
    apply Hval. left.
  - change (chart_point sample_chart 3000 !! as_key (chart_of "zeta" [(2000, 1); (3000, 4)])
            = Some (value_at 3000 (chart_of "zeta" [(2000, 1); (3000, 4)]))).
    apply Hval. right. left.
Defined.

(** *** The colours of the series *)









(** ** The metric endpoints and a failing store *)

Lemma read_reply_Thrown {R : Type} (o : FetchOutcome (list R)) :
  read_reply o = Thrown <-> unreadable o.
Proof.
  unfold unreadable, read_reply. split.
  - destruct o as [ | [ | ] [ | status [r | ] ] ]; try discriminate; auto.
    + destruct (decide (status = str "success")); discriminate.
    + destruct (decide (status = str "success")) as [->|]; [auto | discriminate].
  - intros [-> | [-> | ->]]; reflexivity.
Qed.

Lemma read_reply_refused {R : Type} (o : FetchOutcome (list R)) :
  refused o -> read_reply o = Ok [].
Proof.
  unfold refused, read_reply. intros [(body & ->) | (status & result & -> & Hne)]; [reflexivity|].
  rewrite decide_False by exact Hne. reflexivity.
Qed.

Lemma bindR_Thrown {A B : Type} (r : Result A) (k : A -> Result B) :
  (forall a, k a <> Thrown) -> (bindR r k = Thrown <-> r = Thrown).
Proof.
  intros Hk. destruct r as [a|]; cbn [bindR]; [|tauto].
  split; [intros H; exfalso; exact (Hk a H) | discriminate].
Qed.

(** X21.  The metric endpoints and a failing store.  None of the metric
    endpoints catches what its query throws: each throws exactly when the
    reply to its one query cannot be read, that is when the transport
    fails, when the body of a 2xx reply is no JSON, or when a [success]
    body has no result.  A store that refuses, with a status outside 2xx or
    a body status other than [success], gives an empty chart, or an empty
    list of tenants without any series request, and no error.  The
    drill-down without a namespace answers 400 whatever the store does. *)
Theorem metric_endpoints_failures (backend : PromBackend) (now : Z)
    (rangeParam : option jsstring) :
  (let rq := range_request graph_query now rangeParam (str "1h") in
   (graph_GET backend now rangeParam = Thrown <-> unreadable (backend rq))
   /\ (refused (backend rq) ->
       graph_GET backend now rangeParam
       = Ok (mkGraphResponse [] (param_or rangeParam (str "1h")) (pq_step rq))))
  /\ (let rq := range_request pod_query now rangeParam (str "1h") in
      (tenant_graph_GET backend now rangeParam = Thrown <-> unreadable (backend rq))
      /\ (refused (backend rq) ->
          tenant_graph_GET backend now rangeParam
          = Ok (mkGraphResponse [] (param_or rangeParam (str "1h")) (pq_step rq))))
  /\ (forall c namespace,
        let rq := range_request (drilldown_query (c :: namespace)) now rangeParam (str "6h") in
        (drilldown_GET backend now (Some (c :: namespace)) rangeParam = Thrown
         <-> unreadable (backend rq))
        /\ (refused (backend rq) ->
            drilldown_GET backend now (Some (c :: namespace)) rangeParam
            = Ok (Drilldown [] (c :: namespace) (param_or rangeParam (str "6h")))))
  /\ drilldown_GET backend now None rangeParam = Ok BadRequest
  /\ drilldown_GET backend now (Some []) rangeParam = Ok BadRequest
  /\ (forall (prom : InstantBackend) (loki : SeriesBackend) (clock : nat -> Z),
        (fst (current_GET prom loki clock) = Thrown <-> unreadable (prom graph_query))
        /\ (refused (prom graph_query) -> current_GET prom loki clock = (Ok [], []))).
Proof.
  split; [|split; [|split; [|split; [|split]]]].
  - cbv zeta. unfold graph_GET, promQueryRange, range_request. split.
    + rewrite bindR_Thrown by discriminate. apply read_reply_Thrown.
    + intros Href. rewrite (read_reply_refused _ Href). reflexivity.
  - cbv zeta. unfold tenant_graph_GET, promQueryRange, range_request. split.
    + rewrite bindR_Thrown by discriminate. apply read_reply_Thrown.
    + intros Href. rewrite (read_reply_refused _ Href). reflexivity.
  - intros c namespace. cbv zeta. unfold drilldown_GET, promQueryRange, range_request. split.
    + rewrite bindR_Thrown by discriminate. apply read_reply_Thrown.
    + intros Href. rewrite (read_reply_refused _ Href). reflexivity.
  - reflexivity.
  - reflexivity.
  - intros prom loki clock. unfold current_GET, promQuery. split.
    + rewrite <- read_reply_Thrown.
      destruct (read_reply (prom graph_query)) as [results|]; [|tauto].
      destruct (enrich loki clock (current_tenants results)). cbn [fst].
      split; discriminate.
    + intros Href. rewrite (read_reply_refused _ Href). reflexivity.
Qed.

Lemma metric_endpoints_failures_witness :
  graph_GET down_store 1700000000 (Some (str "24h"))
  = Ok (mkGraphResponse [] (str "24h") 600)
  /\ drilldown_GET down_store 1700000000 (Some (str "acme")) None
     = Ok (Drilldown [] (str "acme") (str "6h")).
Proof.
  destruct (metric_endpoints_failures down_store 1700000000 (Some (str "24h")))
    as ((_ & Hgraph) & _).
  destruct (metric_endpoints_failures down_store 1700000000 None)
    as (_ & _ & Hdrill & _).
  split.
  - apply Hgraph. left. eexists. reflexivity.
  - destruct (Hdrill 97%N (str "cme")) as [_ H]. apply H. left. eexists. reflexivity.
Defined.

(** ** Descriptions and their marks *)

Lemma customer_at_nonempty (s g : jsstring) : customer_at s = Some g -> g <> [].
Proof.
  unfold customer_at. destruct (after_prefix (str "customer=") s) as [r|]; [|discriminate].
  destruct (fst (span non_space r)); [discriminate|]. intros [= <-]. discriminate.
Qed.

Lemma find_first_prefix (sep rest : jsstring) : find_first sep (sep ++ rest) = Some ([], rest).
Proof.
  destruct (sep ++ rest) as [|c s] eqn:Heq; cbn [find_first];
    rewrite <- Heq, after_prefix_app; reflexivity.
Qed.

(** A description that starts with the tenant is marked at its start. *)
Lemma tenant_first_intro (event : PlatformEvent) (rest : jsstring) :
  tenant event <> [] -> description event = tenant event ++ rest -> tenant_first event.
Proof.
  intros Hne Hdesc. exists rest. split; [exact Hdesc|].
  assert (forall e, tenant e <> [] ->
            EventItem_description e
            = match find_first (tenant e) (description e) with
              | Some (pre, rest0) => [Plain pre; TenantEl (tenant e); Plain rest0]
              | None => [Plain (description e)]
              end) as Hmark.
  { intros e He. unfold EventItem_description, String_split.
    destruct (tenant e) as [|a sep] eqn:Ht; [congruence|].
    pose proof (split_from_first (length (description e)) (a :: sep) []
                  (description e) ltac:(discriminate) ltac:(lia)) as Hfirst.
    destruct (find_first (a :: sep) (description e)) as [[pre rest0]|].
    - destruct Hfirst as (tail & -> & Hne' & Hjoin). cbn [app].
      destruct tail as [|p1 tail]; [congruence|]. rewrite Hjoin. reflexivity.
    - rewrite Hfirst. reflexivity. }
  rewrite (Hmark event Hne), Hdesc, find_first_prefix. reflexivity.
Qed.

(** X22.  The tenant of an event is marked where the description names it.
    The description of every audit event that is no signup, and of every
    structured-action event, starts with the tenant of the event; when the
    tenant is not empty, as it is for every audit event, the event item
    shows the tenant first, marked, and then the rest of the description
    unchanged. *)
Theorem tenant_marked_first (Number_toString : JNum -> jsstring) (ts line : jsstring)
    (event : PlatformEvent) :
  (parseGUIAuditLine ts line = Some event ->
   tenant event <> []
   /\ (type event <> tenant_signup -> tenant_first event))
  /\ (parseMCPAuditLine Number_toString ts line = Some event ->
      (exists rest, description event = tenant event ++ rest)
      /\ (tenant event <> [] -> tenant_first event)).
Proof.
  split.
  - unfold parseGUIAuditLine.
    destruct (search customer_at line) as [tenant0|] eqn:Hc; [|discriminate].
    assert (tenant0 <> []) as Hne.
    { apply search_Some_exists in Hc as [suf Hsuf]. exact (customer_at_nonempty _ _ Hsuf). }
    destruct (search action_at line) as [[action resource]|]; [|discriminate].
    repeat (destruct (decide _) as [_|_];
            [intros [= <-]; cbn [tenant type description]; split; [exact Hne|];
             intros Hty; first [congruence | eapply tenant_first_intro; [exact Hne | reflexivity]]
            |]).
    discriminate.
  - intros Hparse.
    assert (exists rest, description event = tenant event ++ rest) as [rest Hrest].
    { unfold parseMCPAuditLine in Hparse.
      destruct (search (after_prefix msg_marker) line) as [rest0|]; [|discriminate].
      destruct (JSON_parse _) as [data|]; [|discriminate].
      destruct (mcp_try Number_toString ts data) as [[e'|]|] eqn:Htry; try discriminate.
      injection Hparse as ->. unfold mcp_try in Htry.
      destruct (get_field data (str "action")) as [actionV|]; [|discriminate].
      cbn [bindR] in Htry.
      destruct (truthy_value actionV) as [[| | |action| |]|]; try discriminate.
      destruct (bool_decide _); [|discriminate].
      destruct (get_field data (str "success")) as [successV|]; [|discriminate].
      cbn [bindR] in Htry.
      destruct (truthy_value successV); [|discriminate].
      destruct (get_field data (str "tenantId")) as [tenantId|]; [|discriminate].
      destruct (get_field data (str "resource")) as [resource|]; [|discriminate].
      destruct (get_field data (str "type")) as [typeV|]; [|discriminate].
      cbn [bindR] in Htry. unfold mcp_event in Htry.
      repeat (destruct (decide _) as [_|_];
              [destruct (ToString Number_toString _) as [tenant0|]; [|discriminate];
               destruct (ToString Number_toString _) as [resource0|]; [|discriminate];
               cbn [bindR] in Htry;
               try (destruct (match truthy_value typeV with
                              | Some t => _
                              | None => _
                              end) as [kind0|]; [|discriminate]; cbn [bindR] in Htry);
               injection Htry as <-; cbn [tenant description]; eexists; reflexivity|]).
      discriminate. }
    split; [exists rest; exact Hrest|].
    intros Hne. exact (tenant_first_intro event rest Hne Hrest).
Qed.

Lemma tenant_marked_first_witness :
  exists event,
    parseGUIAuditLine (str "1700000000000000000")
      (str "customer=acme action create:instance on resource couchdb/acme-db") = Some event
    /\ tenant_first event.
Proof.
  eexists. split; [vm_compute; reflexivity|].
  apply (proj1 (tenant_marked_first no_numbers (str "1700000000000000000")
                  (str "customer=acme action create:instance on resource couchdb/acme-db") _));
    [vm_compute; reflexivity | discriminate].
Defined.
